(** * Site mirroring pipeline: crawl, manifest, rewrite

    A shallow embedding of the three JavaScript programs of the repository

    - [crawler.js]          the link-following crawler (module [Crawler]),
    - [webflow-crawler.js]  the fixed-list crawler that emits a manifest
                            (module [Webflow]),
    - [build-site.js]       the site builder that consumes the manifest
                            (module [Builder] for the rewriting of a page,
                            module [Site] for [buildSite]),

    together with the parts of the JavaScript and Node platform they call
    (module [Js] for string methods, [Path] for [node:path], [Url] for
    [new URL], [Md5] for [createHash('md5')], [Regex] for the regular
    expressions of the builder, [Double] for the rounding of a product of
    numbers).  The callbacks the crawlers run in the
    page are modules [Extract] (the string work) and [Dom] (the asset list
    of a page).

    Strings are sequences of characters ([string]); JavaScript objects used as
    maps and [Map]/[Set] values are [gmap]/[gset] keyed by strings.  The
    browser, the network, the file system and the random number generator are
    capabilities of an environment record: every call that can reject in the
    source returns a [result] here, and the state the source keeps in module
    level variables is threaded explicitly. *)

From Stdlib Require Import ZArith NArith Lia Ascii String List.
From Stdlib Require Import Floats.SpecFloat.
From stdpp Require Import base option list gmap strings pretty.

#[local] Set Warnings "-clear-no-such-hyp".

(** ** Results of calls that may throw *)

Inductive result (A : Type) : Type :=
| Ok (a : A)
| Err (msg : string).
Arguments Ok {A} a.
Arguments Err {A} msg.

(** ** JavaScript string methods *)

Module Js.

(** [s.startsWith(p)] *)
Fixpoint startsWith (s p : string) {struct p} : bool :=
  match p with
  | "" => true
  | String a p' =>
      match s with
      | "" => false
      | String b s' => Ascii.eqb a b && startsWith s' p'
      end
  end.

(** [s.includes(d)] *)
Fixpoint includes (s d : string) : bool :=
  startsWith s d ||
  match s with
  | "" => false
  | String _ s' => includes s' d
  end.

(** [s.endsWith(p)] *)
Fixpoint endsWith (s p : string) : bool :=
  String.eqb s p ||
  match s with
  | "" => false
  | String _ s' => endsWith s' p
  end.

(** [s.slice(n)] for [n >= 0] *)
Fixpoint slice (n : nat) (s : string) : string :=
  match n, s with
  | O, _ => s
  | S n', String _ s' => slice n' s'
  | S _, "" => ""
  end.

(** [s.split(sep)] for a one-character separator *)
Fixpoint split (sep : ascii) (s : string) : list string :=
  match s with
  | "" => [""]
  | String c s' =>
      if Ascii.eqb c sep then "" :: split sep s'
      else match split sep s' with
           | h :: t => String c h :: t
           | [] => [String c ""]
           end
  end.

(** [xs.join(sep)] *)
Fixpoint join (sep : string) (xs : list string) : string :=
  match xs with
  | [] => ""
  | [x] => x
  | x :: rest => x +:+ sep +:+ join sep rest
  end.

(** [xs.filter(Boolean)] on an array of strings: the empty string is the
    only falsy string. *)
Definition filter_Boolean (xs : list string) : list string :=
  filter (λ x, x ≠ "") xs.

(** [s.repeat(n)] *)
Fixpoint repeat (s : string) (n : nat) : string :=
  match n with
  | O => ""
  | S n' => s +:+ repeat s n'
  end.

End Js.

(** ** MD5 ([createHash('md5').update(s).digest('hex')], RFC 1321)

    Words are 32-bit integers held in [Z]; every addition is reduced modulo
    [2^32]. *)

Module Md5.

Definition w32 (x : Z) : Z := Z.land x 4294967295.

Definition rotl (x : Z) (c : Z) : Z :=
  w32 (Z.lor (Z.shiftl x c) (Z.shiftr x (32 - c))).

Definition lnot32 (x : Z) : Z := Z.lxor x 4294967295.

(** [K[i] = floor(2^32 * |sin(i + 1)|)] *)
Definition K : list Z :=
  [ 3614090360; 3905402710; 606105819; 3250441966; 4118548399; 1200080426;
    2821735955; 4249261313; 1770035416; 2336552879; 4294925233; 2304563134;
    1804603682; 4254626195; 2792965006; 1236535329; 4129170786; 3225465664;
    643717713; 3921069994; 3593408605; 38016083; 3634488961; 3889429448;
    568446438; 3275163606; 4107603335; 1163531501; 2850285829; 4243563512;
    1735328473; 2368359562; 4294588738; 2272392833; 1839030562; 4259657740;
    2763975236; 1272893353; 4139469664; 3200236656; 681279174; 3936430074;
    3572445317; 76029189; 3654602809; 3873151461; 530742520; 3299628645;
    4096336452; 1126891415; 2878612391; 4237533241; 1700485571; 2399980690;
    4293915773; 2240044497; 1873313359; 4264355552; 2734768916; 1309151649;
    4149444226; 3174756917; 718787259; 3951481745 ]%Z.

(** per-round left-rotation amounts *)
Definition R : list Z :=
  [ 7; 12; 17; 22; 7; 12; 17; 22; 7; 12; 17; 22; 7; 12; 17; 22;
    5; 9; 14; 20; 5; 9; 14; 20; 5; 9; 14; 20; 5; 9; 14; 20;
    4; 11; 16; 23; 4; 11; 16; 23; 4; 11; 16; 23; 4; 11; 16; 23;
    6; 10; 15; 21; 6; 10; 15; 21; 6; 10; 15; 21; 6; 10; 15; 21 ]%Z.

Definition byte_of (c : ascii) : Z := Z.of_N (N_of_ascii c).

Fixpoint bytes_of (s : string) : list Z :=
  match s with
  | "" => []
  | String c s' => byte_of c :: bytes_of s'
  end.

(** little-endian bytes of the low [n] bytes of [x] *)
Fixpoint le_bytes (n : nat) (x : Z) : list Z :=
  match n with
  | O => []
  | S n' => Z.land x 255 :: le_bytes n' (Z.shiftr x 8)
  end.

(** message, then 0x80, then zeros up to 56 modulo 64, then the bit length
    on 8 bytes *)
Definition pad (msg : list Z) : list Z :=
  let len := List.length msg in
  let zeros := (64 + 55 - len mod 64) mod 64 in
  msg ++ [128%Z] ++ List.repeat 0%Z zeros ++ le_bytes 8 (Z.of_nat len * 8).

Fixpoint le_words (n : nat) (bs : list Z) : list Z :=
  match n with
  | O => []
  | S n' =>
      match bs with
      | b0 :: b1 :: b2 :: b3 :: rest =>
          (b0 + Z.shiftl b1 8 + Z.shiftl b2 16 + Z.shiftl b3 24)%Z
            :: le_words n' rest
      | _ => []
      end
  end.

Definition round_fn (i : nat) (b c d : Z) : Z * nat :=
  if (i <? 16)%nat then (Z.lor (Z.land b c) (Z.land (lnot32 b) d), i)
  else if (i <? 32)%nat then
    (Z.lor (Z.land d b) (Z.land (lnot32 d) c), (5 * i + 1) mod 16)
  else if (i <? 48)%nat then (Z.lxor (Z.lxor b c) d, (3 * i + 5) mod 16)
  else (Z.lxor c (Z.lor b (lnot32 d)), (7 * i) mod 16).

Definition step (M : list Z) (st : Z * Z * Z * Z) (i : nat) : Z * Z * Z * Z :=
  let '(a, b, c, d) := st in
  let '(f, g) := round_fn i b c d in
  let x := w32 (a + f + nth i K 0 + nth g M 0)%Z in
  (d, w32 (b + rotl x (nth i R 0)), b, c)%Z.

Definition block (st : Z * Z * Z * Z) (M : list Z) : Z * Z * Z * Z :=
  let '(a0, b0, c0, d0) := st in
  let '(a, b, c, d) := fold_left (step M) (seq 0 64) st in
  (w32 (a0 + a), w32 (b0 + b), w32 (c0 + c), w32 (d0 + d))%Z.

Fixpoint blocks (n : nat) (bs : list Z) (st : Z * Z * Z * Z) : Z * Z * Z * Z :=
  match n with
  | O => st
  | S n' => blocks n' (skipn 64 bs) (block st (le_words 16 (firstn 64 bs)))
  end.

Definition digest (s : string) : list Z :=
  let bs := pad (bytes_of s) in
  let '(a, b, c, d) :=
    blocks (List.length bs / 64) bs
      (1732584193, 4023233417, 2562383102, 271733878)%Z in
  le_bytes 4 a ++ le_bytes 4 b ++ le_bytes 4 c ++ le_bytes 4 d.

Definition hex_digit (x : Z) : ascii :=
  nth (Z.to_nat x)
    [ "0"; "1"; "2"; "3"; "4"; "5"; "6"; "7"; "8"; "9";
      "a"; "b"; "c"; "d"; "e"; "f" ]%char "0"%char.

Fixpoint hex_of (bs : list Z) : string :=
  match bs with
  | [] => ""
  | b :: rest =>
      String (hex_digit (Z.shiftr b 4))
        (String (hex_digit (Z.land b 15)) (hex_of rest))
  end.

(** the hexadecimal digest, 32 characters *)
Definition hex (s : string) : string := hex_of (digest s).
Global Arguments hex : simpl never.

End Md5.

(** ** [node:path] (POSIX flavour) *)

Module Path.

(** The segment stack of [normalizeString]: empty segments and [.] are
    dropped, [..] removes the segment before it, or is kept when there is
    none to remove and the path is relative.  The stack is kept reversed. *)
Fixpoint normalizeSegments (allowAboveRoot : bool) (segs acc : list string)
  : list string :=
  match segs with
  | [] => rev acc
  | seg :: rest =>
      if decide (seg = "" ∨ seg = ".") then
        normalizeSegments allowAboveRoot rest acc
      else if decide (seg = "..") then
        match acc with
        | top :: below =>
            if decide (top = "..") then
              normalizeSegments allowAboveRoot rest
                (if allowAboveRoot then ".." :: acc else acc)
            else normalizeSegments allowAboveRoot rest below
        | [] =>
            normalizeSegments allowAboveRoot rest
              (if allowAboveRoot then [".."] else [])
        end
      else normalizeSegments allowAboveRoot rest (seg :: acc)
  end.

(** [path.normalize(p)] *)
Definition normalize (p : string) : string :=
  if decide (p = "") then "."
  else
    let isAbsolute := Js.startsWith p "/" in
    let trailingSeparator := Js.endsWith p "/" in
    let body :=
      Js.join "/" (normalizeSegments (negb isAbsolute) (Js.split "/" p) []) in
    if decide (body = "") then
      if isAbsolute then "/" else if trailingSeparator then "./" else "."
    else
      (if isAbsolute then "/" else "") +:+ body
        +:+ (if trailingSeparator then "/" else "").

(** [path.join(...parts)] *)
Definition join (parts : list string) : string :=
  match Js.filter_Boolean parts with
  | [] => "."
  | ps => normalize (Js.join "/" ps)
  end.

(** the last non-empty segment: what [extname] scans *)
Definition basename (p : string) : string :=
  List.last (Js.filter_Boolean (Js.split "/" p)) "".

(** [path.extname(p)]: from the last dot of the last segment to its end;
    empty when there is no dot, when the only dot leads the segment, and
    for the segment [..]. *)
Definition extname (p : string) : string :=
  match Js.split "." (basename p) with
  | [] | [_] => ""
  | [""; _] => ""
  | parts =>
      if decide (parts = [""; ""; ""]) then ""
      else "." +:+ List.last parts ""
  end.

(** [path.relative(from, to)] for two relative paths that stay below the
    working directory: the common leading segments are dropped, and each
    remaining segment of [from] becomes a [..]. *)
Fixpoint relativeSegments (from to : list string) : list string :=
  match from, to with
  | f :: from', t :: to' =>
      if decide (f = t) then relativeSegments from' to'
      else List.repeat ".." (length from) ++ to
  | _, _ => List.repeat ".." (length from) ++ to
  end.

Definition relative (from to : string) : string :=
  Js.join "/"
    (relativeSegments
       (normalizeSegments true (Js.split "/" from) [])
       (normalizeSegments true (Js.split "/" to) [])).

End Path.

(** ** URLs

    [new URL(s)] is the WHATWG parser of the platform.  The programs read two
    components of the record it returns, and catch the exception it throws on
    a string that is no URL; the parser itself is taken as an interface. *)

Record URL := { hostname : string; pathname : string }.

Class UrlParser := { parseURL : string → option URL }.

Module Url.

Definition sub_delim (c : ascii) : bool :=
  bool_decide (c = "/" ∨ c = "?" ∨ c = "#")%char.

(** the characters of [s] before the first one that satisfies [stop], and
    the rest *)
Fixpoint span_until (stop : ascii → bool) (s : string) : string * string :=
  match s with
  | "" => ("", "")
  | String c s' =>
      if stop c then ("", s)
      else let '(a, b) := span_until stop s' in (String c a, b)
  end.

Definition host_char (c : ascii) : bool :=
  let n := N_of_ascii c in
  ((97 <=? n) && (n <=? 122) || (48 <=? n) && (n <=? 57)
   || (n =? 45) || (n =? 46))%N.

Fixpoint forallb_string (f : ascii → bool) (s : string) : bool :=
  match s with
  | "" => true
  | String c s' => f c && forallb_string f s'
  end.

Definition after_scheme (s : string) : option string :=
  if Js.startsWith s "https://" then Some (Js.slice 8 s)
  else if Js.startsWith s "http://" then Some (Js.slice 7 s)
  else None.

(** The parser on plain [http(s)://host/path?query#fragment] strings: a
    lower-case host of letters, digits, dots and hyphens, no user info and
    no port, a path with no dot segments and no character that the
    platform would percent-encode.  On these it returns the host and the
    path as they are written (the path [/] when there is none); a string
    with no scheme is rejected, as [new URL] rejects it. *)
Definition parse (s : string) : option URL :=
  match after_scheme s with
  | None => None
  | Some rest =>
      let '(host, tail) := span_until sub_delim rest in
      if decide (host = "") then None
      else if negb (forallb_string host_char host) then None
      else
        let '(path, _) :=
          span_until (λ c, bool_decide (c = "?" ∨ c = "#")%char) tail in
        Some {| hostname := host;
                pathname := if decide (path = "") then "/" else path |}
  end.

Definition plain : UrlParser := {| parseURL := parse |}.

End Url.

(** ** Regular expressions of the builder

    [build-site.js] builds its patterns from literal text, the two quote
    classes, one negated class and the postfix operators [?] and [*]; an
    asset URL is spliced into the pattern source as it is, so each of its
    characters is read as pattern syntax: a dot is the wildcard, and a [?],
    [*] or [+] applies to the character before it. *)

Module Regex.

Inductive atom : Type :=
| Lit (c : ascii)
| Dot
| OneOf (cs : list ascii)
| NoneOf (cs : list ascii).

Inductive item : Type :=
| One (a : atom)
| Opt (a : atom)
| Star (a : atom).

Definition pattern := list item.

Definition line_terminator (c : ascii) : bool :=
  bool_decide (c = "010" ∨ c = "013")%char.

Definition accepts (a : atom) (c : ascii) : bool :=
  match a with
  | Lit d => Ascii.eqb d c
  | Dot => negb (line_terminator c)
  | OneOf cs => bool_decide (c ∈ cs)
  | NoneOf cs => bool_decide (c ∉ cs)
  end.

(** The backtracking matcher anchored at the head of [s]: the length of
    the match the engine finds first (greedy operators try the longer
    alternative first), or [None]. *)
Fixpoint match_at (p : pattern) (s : string) : option nat :=
  match p with
  | [] => Some O
  | One a :: p' =>
      match s with
      | String c s' => if accepts a c then S <$> match_at p' s' else None
      | "" => None
      end
  | Opt a :: p' =>
      match s with
      | String c s' =>
          if accepts a c then
            match match_at p' s' with
            | Some n => Some (S n)
            | None => match_at p' s
            end
          else match_at p' s
      | "" => match_at p' s
      end
  | Star a :: p' =>
      (fix star (s : string) : option nat :=
         match s with
         | String c s' =>
             if accepts a c then
               match star s' with
               | Some n => Some (S n)
               | None => match_at p' s
               end
             else match_at p' s
         | "" => match_at p' s
         end) s
  end.

Fixpoint take (n : nat) (s : string) : string :=
  match n, s with
  | S n', String c s' => String c (take n' s')
  | _, _ => ""
  end.

(** [GetSubstitution] for a pattern with no capture group: [$$] is a
    dollar, [$&] the matched text, [$`] the text before the match and
    [$'] the text after it; every other character stands for itself. *)
Fixpoint expand (r matched before after : string) : string :=
  match r with
  | "" => ""
  | String "$" (String "$" r') => String "$" (expand r' matched before after)
  | String "$" (String "&" r') => matched +:+ expand r' matched before after
  | String "$" (String "`" r') => before +:+ expand r' matched before after
  | String "$" (String "'" r') => after +:+ expand r' matched before after
  | String c r' => String c (expand r' matched before after)
  end.

(** [s.replace(/p/, r)]: the leftmost match only.  [before] is the text
    already passed, reversed. *)
Fixpoint replace_first_from (p : pattern) (r : string) (before : string)
    (s : string) : string :=
  match match_at p s with
  | Some n =>
      expand r (take n s) (String.rev before) (Js.slice n s)
        +:+ Js.slice n s
  | None =>
      match s with
      | "" => ""
      | String c s' => String c (replace_first_from p r (String c before) s')
      end
  end.

Definition replace_first (p : pattern) (r s : string) : string :=
  replace_first_from p r "" s.

(** [s.replace(/p/g, r)]: every match, left to right, the scan resuming
    where the previous match ended ([skip] characters of a match are still
    to be passed); after an empty match the scan moves one character on. *)
Fixpoint replace_all_from (p : pattern) (r : string) (before : string)
    (skip : nat) (s : string) : string :=
  match s with
  | "" =>
      match skip, match_at p "" with
      | O, Some _ => expand r "" (String.rev before) ""
      | _, _ => ""
      end
  | String c s' =>
      match skip with
      | S k => replace_all_from p r (String c before) k s'
      | O =>
          match match_at p s with
          | Some O =>
              expand r "" (String.rev before) s
                +:+ String c (replace_all_from p r (String c before) O s')
          | Some (S n) =>
              expand r (take (S n) s) (String.rev before) (Js.slice (S n) s)
                +:+ replace_all_from p r (String c before) n s'
          | None => String c (replace_all_from p r (String c before) O s')
          end
      end
  end.

Definition replace_all (p : pattern) (r s : string) : string :=
  replace_all_from p r "" O s.

Fixpoint lits (s : string) : pattern :=
  match s with
  | "" => []
  | String c s' => One (Lit c) :: lits s'
  end.

(** the characters with a meaning of their own in a pattern source *)
Definition syntax_char (c : ascii) : bool :=
  bool_decide (c ∈ ["^"; "$"; "\"; "."; "*"; "+"; "?"; "("; ")"; "[";
                    "]"; "{"; "}"; "|"]%char).

(** the postfix operators of one character *)
Definition quantifier (c : ascii) : bool :=
  bool_decide (c ∈ ["?"; "*"; "+"]%char).

(** a character of a pattern source that stands for one character of the
    text: a dot is the wildcard, a character with no meaning of its own is
    itself *)
Definition atom_of (c : ascii) : option atom :=
  if Ascii.eqb c "." then Some Dot
  else if syntax_char c then None
  else Some (Lit c).

(** [a?], [a*] and [a+], all greedy; [a+] is [a] followed by [a*] *)
Definition quantified (q : ascii) (a : atom) : pattern :=
  if Ascii.eqb q "?" then [Opt a]
  else if Ascii.eqb q "*" then [Star a]
  else [One a; Star a].

(** The pattern a text denotes when it is spliced into a pattern source
    behind a complete term: a run of characters, each with at most one
    postfix operator.  Everything else is outside the fragment modelled
    here ([None]): a text that begins with an operator (it would apply to
    what stands before the text), an operator behind an operator (the lazy
    forms, and the syntax errors), and every other syntax character. *)
Fixpoint of_source (s : string) : option pattern :=
  match s with
  | "" => Some []
  | String c s' =>
      a ← atom_of c;
      match s' with
      | String q s'' =>
          if quantifier q then
            rest ← of_source s''; Some (quantified q a ++ rest)
          else
            rest ← of_source s'; Some (One a :: rest)
      | "" => Some [One a]
      end
  end.

End Regex.

(** ** The domain filter

    [isAllowedDomain] of [crawler.js] and [isWebflowAsset] of
    [webflow-crawler.js] are one function body over two constant lists: a
    [try] around the parse, and [some(domain => hostname.includes(domain))]. *)

Definition isAllowed `{UrlParser} (allowList : list string) (url : string) : bool :=
  match parseURL url with
  | Some u => existsb (λ domain, Js.includes (hostname u) domain) allowList
  | None => false
  end.

(** ** The manifest

    The document [webflow-crawler.js] writes and [build-site.js] reads. *)

Record AssetRef := {
  originalUrl : string;
  localPath : string;
  hash : string;
  extension : string
}.

Global Instance AssetRef_eq_dec : EqDecision AssetRef.
Proof. solve_decision. Defined.

Module Page.
(** [manifest.pages[url]]: created as [{ assets: [] }]; [rawHtml] and
    [error] are set later, or never. *)
Record t := mk {
  assets : list AssetRef;
  rawHtml : option string;
  error : option string
}.
Definition fresh : t := {| assets := []; rawHtml := None; error := None |}.
End Page.

Record Manifest := {
  startTime : string;
  endTime : option string;
  pages : gmap string Page.t;
  assets : gmap string AssetRef
}.

(** ** [build-site.js] *)

Module Builder.

Definition quote : list ascii := ["034"; "'"]%char.
Definition dquote : string := String "034" "".

(** [getRelativePath(from, to)]: [depth] is a JavaScript number, one less
    than the count of the non-empty segments of [from]. *)
Definition getRelativePath (from to : string) : string :=
  let fromParts := Js.filter_Boolean (Js.split "/" from) in
  let depth := (Z.of_nat (length fromParts) - 1)%Z in
  if (0 <? depth)%Z then Js.repeat "../" (Z.to_nat depth) +:+ to else to.

(** the expression both [processHtml] (as [fileName]) and [buildSite] (as
    the path below the output directory) compute from the URL path *)
Definition fileName (urlPath : string) : string :=
  if decide (urlPath = "/") then "index.html"
  else Js.slice 1 urlPath
         +:+ (if Js.endsWith urlPath "/" then "index.html" else "").

(** [/<base[^>]*>/] *)
Definition base_tag : Regex.pattern :=
  Regex.lits "<base"
    ++ [Regex.Star (Regex.NoneOf [">"%char]); Regex.One (Regex.Lit ">")].

(** [new RegExp(`src=["']${url}["']`, 'g')] and its two siblings, for the
    pattern [u] that the URL text denotes *)
Definition src_pattern (u : Regex.pattern) : Regex.pattern :=
  Regex.lits "src=" ++ [Regex.One (Regex.OneOf quote)] ++ u
    ++ [Regex.One (Regex.OneOf quote)].

Definition href_pattern (u : Regex.pattern) : Regex.pattern :=
  Regex.lits "href=" ++ [Regex.One (Regex.OneOf quote)] ++ u
    ++ [Regex.One (Regex.OneOf quote)].

Definition url_pattern (u : Regex.pattern) : Regex.pattern :=
  Regex.lits "url(" ++ [Regex.Opt (Regex.OneOf quote)] ++ u
    ++ [Regex.Opt (Regex.OneOf quote); Regex.One (Regex.Lit ")")].

(** the three replacements of the loop body, for one asset *)
Definition rewrite_asset (u : Regex.pattern) (relativePath content : string)
  : string :=
  let content :=
    Regex.replace_all (src_pattern u)
      ("src=" +:+ dquote +:+ relativePath +:+ dquote) content in
  let content :=
    Regex.replace_all (href_pattern u)
      ("href=" +:+ dquote +:+ relativePath +:+ dquote) content in
  Regex.replace_all (url_pattern u) ("url('" +:+ relativePath +:+ "')") content.

(** What one run of [processHtml] comes to: a value, an exception, or a
    pattern that lies outside the modelled fragment of the pattern
    language. *)
Inductive outcome : Type :=
| Returns (content : string)
| Throws (msg : string)
| Unmodelled (url : string).

Section Platform.
Context `{UrlParser}.

(** the body of [for (const asset of pageInfo.assets)] *)
Fixpoint rewrite_assets (pageUrl : string) (refs : list AssetRef)
    (content : string) : outcome :=
  match refs with
  | [] => Returns content
  | asset :: rest =>
      match parseURL pageUrl with
      | None => Throws "Invalid URL"
      | Some url =>
          let relativePath :=
            getRelativePath (fileName (pathname url)) (localPath asset) in
          match Regex.of_source (originalUrl asset) with
          | None => Unmodelled (originalUrl asset)
          | Some u =>
              rewrite_assets pageUrl rest
                (rewrite_asset u relativePath content)
          end
      end
  end.

(** [processHtml(rawContent, pageUrl, manifest)] *)
Definition processHtml (rawContent pageUrl : string) (manifest : Manifest)
  : outcome :=
  let content := Regex.replace_first base_tag "" rawContent in
  match pages manifest !! pageUrl with
  | None => Returns content
  | Some pageInfo => rewrite_assets pageUrl (Page.assets pageInfo) content
  end.

(** the output path of a page in [buildSite], below [OUTPUT_DIR] *)
Definition OUTPUT_DIR : string := "./built_site".

Definition outputPath (url : string) : option string :=
  u ← parseURL url;
  Some (Path.join [OUTPUT_DIR; fileName (pathname u)]).

End Platform.

End Builder.

(** ** Numbers

    A JavaScript number is an IEEE 754 double.  The delays of
    [webflow-crawler.js] are whole numbers of milliseconds; a double holds
    every whole number below [2^53] in magnitude, and sums and differences
    that stay there are exact.  The product with [Math.random()] is not
    exact: it is the nearest double, which has 53 significant bits, the
    even one of two that are equally near. *)

Module Double.

(** [Number.isSafeInteger] *)
Definition safe (x : Z) : Prop := (- 2 ^ 53 < x < 2 ^ 53)%Z.

(** the gap between the doubles next to the whole number [x], in units of
    the last of its 53 bits *)
Definition ulp (x : Z) : Z := (2 ^ Z.max 0 (Z.log2 (Z.abs x) - 52))%Z.

(** the whole number [x] rounded to 53 significant bits: to the nearest
    multiple of the gap, and from half-way to the even one *)
Definition round (x : Z) : Z :=
  let u := ulp x in
  let q := (Z.abs x / u)%Z in
  let r := (Z.abs x mod u)%Z in
  let up := (u <? 2 * r)%Z || ((u =? 2 * r)%Z && Z.odd q) in
  (Z.sgn x * ((if up then q + 1 else q) * u))%Z.

(** [Math.floor(random * n)] for the number [random = draw / 2^53] and the
    whole number [n]: the exact product is [draw * n] in units of [2^-53],
    and rounding to 53 bits does not depend on the unit *)
Definition floor_mul (draw n : Z) : Z := (round (draw * n) / 2 ^ 53)%Z.

End Double.

(** ** [webflow-crawler.js] *)

Module Webflow.

Definition OUTPUT_DIR : string := "./raw_download".
Definition ASSETS_DIR : string := Path.join [OUTPUT_DIR; "assets"].
Definition PAGES_DIR : string := Path.join [OUTPUT_DIR; "pages"].

Definition TARGET_PAGES : list string :=
  [ "https://apply.agency/"; "https://apply.agency/cases" ].

Definition WEBFLOW_DOMAINS : list string :=
  [ "webflow.com"; "cdn.prod.website-files.com"; "assets.website-files.com";
    "uploads-ssl.webflow.com"; "assets-global.website-files.com" ].

(** what [fetch] resolves to *)
Record Response := {
  ok : bool;
  status : Z;
  arrayBuffer : result string
}.

(** what the browser yields for a page once [goto], the waits and the
    first [evaluate] are through: the extracted asset URLs, and the
    results of the two later calls on the page *)
Record Rendering := {
  dom_assets : list string;
  content : result string;
  close : result unit
}.

(** The capabilities the program consumes.  A call whose answer may change
    during the run is indexed by how many calls of its kind came before. *)
Record Env := {
  fetch : nat → string → result Response;
  writeFile : nat → string → result unit;
  Math_random : nat → N;
  render : string → result Rendering;
  now : nat → string
}.

(** What the run has done to the outside so far, newest first. *)
Record World := {
  requests : list string;
  timeouts : list Z;
  writes : list string;
  files : gmap string string
}.

Definition nowhere : World :=
  {| requests := []; timeouts := []; writes := []; files := ∅ |}.

Section Run.
Context `{UrlParser} (env : Env).

(** [randomDelay(min, max)] for whole numbers [min] and [max] that a
    double holds, with their difference: [Math.random()] is the draw over
    [2^53]; the delay is [Math.floor(random * (max - min + 1)) + min], the
    product being a double. *)
Definition randomDelay (min max : Z) (w : World) : World :=
  let draw := (Z.of_N (Math_random env (length (timeouts w))) mod 2 ^ 53)%Z in
  let delay := (Double.floor_mul draw (max - min + 1) + min)%Z in
  {| requests := requests w; timeouts := delay :: timeouts w;
     writes := writes w; files := files w |}.

Definition isWebflowAsset (url : string) : bool :=
  isAllowed WEBFLOW_DOMAINS url.

Definition fs_writeFile (path data : string) (w : World) : result unit * World :=
  match writeFile env (length (writes w)) path with
  | Ok _ =>
      (Ok (),
       {| requests := requests w; timeouts := timeouts w;
          writes := path :: writes w; files := <[path := data]> (files w) |})
  | Err msg =>
      (Err msg,
       {| requests := requests w; timeouts := timeouts w;
          writes := path :: writes w; files := files w |})
  end.

(** the record a download returns: every field is computed from the URL *)
Definition asset_ref (url : string) : AssetRef :=
  let hash := Md5.hex url in
  let ext := if decide (Path.extname url = "") then ".bin" else Path.extname url in
  {| originalUrl := url;
     localPath := Path.join ["assets"; hash +:+ ext];
     hash := hash;
     extension := ext |}.

Definition asset_file (url : string) : string :=
  Path.join [ASSETS_DIR; hash (asset_ref url) +:+ extension (asset_ref url)].

(** the [try] block of [downloadAsset]: one attempt *)
Definition attempt_download (url : string) (w : World) : result AssetRef * World :=
  let w1 := {| requests := url :: requests w; timeouts := timeouts w;
               writes := writes w; files := files w |} in
  match fetch env (length (requests w)) url with
  | Err msg => (Err msg, w1)
  | Ok response =>
      if negb (ok response) then (Err ("HTTP " +:+ pretty (status response)), w1)
      else
        match arrayBuffer response with
        | Err msg => (Err msg, w1)
        | Ok buffer =>
            match fs_writeFile (asset_file url) buffer w1 with
            | (Err msg, w2) => (Err msg, w2)
            | (Ok _, w2) => (Ok (asset_ref url), randomDelay 500 1500 w2)
            end
        end
  end.

(** the [for] loop of [downloadAsset], with [remaining] iterations to go:
    the attempt number is [retries - remaining + 1].  [None] is the
    [null] of the last [catch] (and the [undefined] of a loop that never
    runs). *)
Fixpoint downloadAsset_loop (url : string) (retries remaining : nat) (w : World)
  : option AssetRef * World :=
  match remaining with
  | O => (None, w)
  | S k =>
      let attempt := Z.of_nat (retries - k) in
      match attempt_download url w with
      | (Ok ref, w') => (Some ref, w')
      | (Err _, w') =>
          match k with
          | O => (None, w')
          | S _ =>
              downloadAsset_loop url retries k
                (randomDelay (2000 * attempt) (5000 * attempt) w')
          end
      end
  end.

(** [downloadAsset(url, retries = 3)] *)
Definition downloadAsset (url : string) (retries : nat) (w : World)
  : option AssetRef * World :=
  downloadAsset_loop url retries retries w.

Definition push_asset (url : string) (ref : AssetRef) (m : Manifest) : Manifest :=
  {| startTime := startTime m; endTime := endTime m;
     pages := alter (λ p, {| Page.assets := Page.assets p ++ [ref];
                              Page.rawHtml := Page.rawHtml p;
                              Page.error := Page.error p |}) url (pages m);
     assets := <[originalUrl ref := ref]> (assets m) |}.

Definition set_rawHtml (url path : string) (m : Manifest) : Manifest :=
  {| startTime := startTime m; endTime := endTime m;
     pages := alter (λ p, {| Page.assets := Page.assets p;
                              Page.rawHtml := Some path;
                              Page.error := Page.error p |}) url (pages m);
     assets := assets m |}.

Definition set_error (url msg : string) (m : Manifest) : Manifest :=
  {| startTime := startTime m; endTime := endTime m;
     pages := alter (λ p, {| Page.assets := Page.assets p;
                              Page.rawHtml := Page.rawHtml p;
                              Page.error := Some msg |}) url (pages m);
     assets := assets m |}.

(** [for (const asset of assets)] in [processPage] *)
Fixpoint download_assets (url : string) (found : list string)
    (st : Manifest * World) : Manifest * World :=
  match found with
  | [] => st
  | asset :: rest =>
      if isWebflowAsset asset then
        match downloadAsset asset 3 (snd st) with
        | (Some ref, w) => download_assets url rest (push_asset url ref (fst st), w)
        | (None, w) => download_assets url rest (fst st, w)
        end
      else download_assets url rest st
  end.

Definition page_file (url : string) : string :=
  Path.join [PAGES_DIR; Md5.hex url +:+ ".html"].

(** [processPage(browser, url, manifest)] *)
Definition processPage (url : string) (st : Manifest * World) : Manifest * World :=
  let '(m, w) := st in
  match pages m !! url with
  | Some _ => st
  | None =>
      let m := {| startTime := startTime m; endTime := endTime m;
                  pages := <[url := Page.fresh]> (pages m);
                  assets := assets m |} in
      match render env url with
      | Err msg => (set_error url msg m, w)
      | Ok page =>
          let '(m, w) := download_assets url (dom_assets page) (m, w) in
          match content page with
          | Err msg => (set_error url msg m, w)
          | Ok html =>
              match fs_writeFile (page_file url) html w with
              | (Err msg, w) => (set_error url msg m, w)
              | (Ok _, w) =>
                  let m := set_rawHtml url (Path.relative OUTPUT_DIR (page_file url)) m in
                  match close page with
                  | Err msg => (set_error url msg m, w)
                  | Ok _ => (m, w)
                  end
              end
          end
      end
  end.

(** the loop of [main] over the target pages *)
Fixpoint crawl (targets : list string) (st : Manifest * World) : Manifest * World :=
  match targets with
  | [] => st
  | url :: rest => crawl rest (let '(m, w) := processPage url st in (m, randomDelay 3000 7000 w))
  end.

Definition initial_manifest : Manifest :=
  {| startTime := now env 0; endTime := None; pages := ∅; assets := ∅ |}.

(** [main], from the manifest literal to [JSON.stringify]: the manifest
    that is written, and the world it leaves *)
Definition main (w : World) : Manifest * World :=
  let '(m, w) := crawl TARGET_PAGES (initial_manifest, w) in
  ({| startTime := startTime m; endTime := Some (now env 1);
      pages := pages m; assets := assets m |}, w).

End Run.

End Webflow.

(** ** [crawler.js] *)

Module Crawler.

Record Config := {
  startUrl : string;
  allowedDomains : list string;
  outputDir : string
}.

Definition config : Config :=
  {| startUrl := "https://apply.agency";
     allowedDomains :=
       [ "apply.agency"; "www.apply.agency"; "webflow.com"; "webflow.io";
         "d3e54v103j8qbb.cloudfront.net"; "uploads-ssl.webflow.com";
         "assets.website-files.com" ];
     outputDir := "./downloaded_site" |}.

(** The capabilities the program consumes.  A page is opened at most once
    in a run, so what the browser and the disk answer for a page is indexed
    by its URL; an asset may be requested again, so those answers are
    indexed by the number of requests before. *)
Record Env := {
  newPage : string → result unit;
  (** [goto], [waitForLoadState] and the first [evaluate]: the asset URLs *)
  load : string → result (list string);
  (** [context.request.get(url)] and [response.body()] *)
  request_get : nat → string → result string;
  (** [ensureDir] and [writeFile] of an asset *)
  store : nat → string → result unit;
  content : string → result string;
  (** [new RegExp(source, 'g')], as the function [html.replace] applies
      with it to a replacement and a text; [None] is a syntax error *)
  RegExp_g : string → option (string → string → string);
  (** [ensureDir] and [writeFile] of the page at a path *)
  save : string → string → result unit;
  (** the second [evaluate]: the [href] of every anchor *)
  links : string → result (list string);
  close : string → result unit
}.

(** The module-level [visited], [downloadedAssets] and [failedUrls], and
    what the run has done to the outside: the requests issued, the files
    written and the [Processing:] lines printed (newest first). *)
Record State := {
  visited : gset string;
  downloadedAssets : gmap string string;
  failedUrls : gset string;
  requests : list string;
  files : gmap string string;
  processing : list string
}.

Definition initial : State :=
  {| visited := ∅; downloadedAssets := ∅; failedUrls := ∅;
     requests := []; files := ∅; processing := [] |}.

Definition fail (url : string) (st : State) : State :=
  {| visited := visited st; downloadedAssets := downloadedAssets st;
     failedUrls := {[url]} ∪ failedUrls st;
     requests := requests st; files := files st; processing := processing st |}.

Definition write (path data : string) (st : State) : State :=
  {| visited := visited st; downloadedAssets := downloadedAssets st;
     failedUrls := failedUrls st;
     requests := requests st; files := <[path := data]> (files st);
     processing := processing st |}.

(** [assetMap.set(key, value)] on a [Map] kept in insertion order *)
Fixpoint map_set (key value : string) (m : list (string * string))
  : list (string * string) :=
  match m with
  | [] => [(key, value)]
  | (k, v) :: rest =>
      if decide (k = key) then (k, value) :: rest
      else (k, v) :: map_set key value rest
  end.

Section Run.
Context `{UrlParser} (cfg : Config) (env : Env).

Definition isAllowedDomain (url : string) : bool :=
  isAllowed (allowedDomains cfg) url.

(** the local path of an asset: [`assets${urlObj.pathname}`] *)
Definition relativePath (urlObj : URL) : string := "assets" +:+ pathname urlObj.

(** [downloadAsset(url, context)]: the local path, or the URL itself when
    the download failed *)
Definition downloadAsset (url : string) (st : State) : string * State :=
  match downloadedAssets st !! url with
  | Some cached => (cached, st)
  | None =>
      let n := length (requests st) in
      let st :=
        {| visited := visited st; downloadedAssets := downloadedAssets st;
           failedUrls := failedUrls st; requests := url :: requests st;
           files := files st; processing := processing st |} in
      match request_get env n url with
      | Err _ => (url, fail url st)
      | Ok buffer =>
          match parseURL url with
          | None => (url, fail url st)
          | Some urlObj =>
              let fullPath := Path.join [outputDir cfg; relativePath urlObj] in
              match store env n fullPath with
              | Err _ => (url, fail url st)
              | Ok _ =>
                  let st := write fullPath buffer st in
                  (relativePath urlObj,
                   {| visited := visited st;
                      downloadedAssets :=
                        <[url := relativePath urlObj]> (downloadedAssets st);
                      failedUrls := failedUrls st; requests := requests st;
                      files := files st; processing := processing st |})
              end
          end
      end
  end.

(** [for (const asset of assets)]: the page's [assetMap] *)
Fixpoint download_allowed (found : list string)
    (assetMap : list (string * string)) (st : State)
  : list (string * string) * State :=
  match found with
  | [] => (assetMap, st)
  | asset :: rest =>
      if isAllowedDomain asset then
        let '(local, st) := downloadAsset asset st in
        download_allowed rest (map_set asset local assetMap) st
      else download_allowed rest assetMap st
  end.

(** [assetMap.forEach(...)]: one global replacement per entry *)
Fixpoint rewrite (assetMap : list (string * string)) (html : string)
  : result string :=
  match assetMap with
  | [] => Ok html
  | (original, local) :: rest =>
      match RegExp_g env original with
      | None => Err "Invalid regular expression"
      | Some replace => rewrite rest (replace local html)
      end
  end.

(** where the page of a URL path is written *)
Definition filePath (urlPath : string) : string :=
  let filePath := Path.join [outputDir cfg; urlPath] in
  if Js.endsWith filePath "/" then Path.join [filePath; "index.html"]
  else if decide (Path.extname filePath = "") then filePath +:+ ".html"
  else filePath.

(** [for (const link of links)], over a function for the recursive call:
    a rejected call ends the loop *)
Fixpoint follow (visit : string → State → option (result unit * State))
    (ls : list string) (st : State) : option (result unit * State) :=
  match ls with
  | [] => Some (Ok (), st)
  | link :: rest =>
      if isAllowedDomain link && bool_decide (link ∉ visited st) then
        match visit link st with
        | None => None
        | Some (Err msg, st') => Some (Err msg, st')
        | Some (Ok _, st') => follow visit rest st'
        end
      else follow visit rest st
  end.

(** the [try] block of [processPage], up to the loop over the links *)
Definition render_page (url : string) (st : State)
  : result (list string) * State :=
  match load env url with
  | Err msg => (Err msg, st)
  | Ok found =>
      let '(assetMap, st) := download_allowed found [] st in
      match content env url with
      | Err msg => (Err msg, st)
      | Ok html =>
          match rewrite assetMap html with
          | Err msg => (Err msg, st)
          | Ok html =>
              match parseURL url with
              | None => (Err "Invalid URL", st)
              | Some urlObj =>
                  let path := filePath (pathname urlObj) in
                  match save env url path with
                  | Err msg => (Err msg, st)
                  | Ok _ =>
                      match links env url with
                      | Err msg => (Err msg, write path html st)
                      | Ok ls => (Ok ls, write path html st)
                      end
                  end
              end
          end
      end
  end.

(** [catch] (the page joins [failedUrls]) and [finally] ([page.close()],
    whose rejection leaves the function) *)
Definition settle (url : string) (r : result unit) (st : State)
  : result unit * State :=
  let st := match r with Err _ => fail url st | Ok _ => st end in
  match close env url with
  | Err msg => (Err msg, st)
  | Ok _ => (Ok (), st)
  end.

(** [processPage(url, context)].  The recursion of the source is bounded
    here by [fuel]; [None] is a run that needs more. *)
Fixpoint processPage (fuel : nat) (url : string) (st : State)
  : option (result unit * State) :=
  match fuel with
  | O => None
  | S fuel' =>
      if decide (url ∈ visited st) then Some (Ok (), st)
      else
        let st :=
          {| visited := {[url]} ∪ visited st;
             downloadedAssets := downloadedAssets st;
             failedUrls := failedUrls st; requests := requests st;
             files := files st; processing := url :: processing st |} in
        match newPage env url with
        | Err msg => Some (Err msg, st)
        | Ok _ =>
            match render_page url st with
            | (Err msg, st) => Some (settle url (Err msg) st)
            | (Ok ls, st) =>
                match follow (processPage fuel') ls st with
                | None => None
                | Some (r, st) => Some (settle url r st)
                end
            end
        end
  end.

(** [main]: the crawl from the start URL *)
Definition main (fuel : nat) : option (result unit * State) :=
  processPage fuel (startUrl cfg) initial.

End Run.

End Crawler.

(** ** Asset URLs in attribute values and style text

    The callbacks both crawlers hand to [page.evaluate] read [srcset]
    attributes, [style] attributes, style sheets and computed background
    images as strings, and cut the asset URLs out of them. *)

Module Extract.

(** the white space of [trim] and of the class [\s], among the characters
    of one byte *)
Definition white_space : list ascii :=
  ["009"; "010"; "011"; "012"; "013"; " "; "160"]%char.

(** [s.trimStart()], [s.trimEnd()] and [s.trim()] *)
Fixpoint trimStart (s : string) : string :=
  match s with
  | "" => ""
  | String c s' => if bool_decide (c ∈ white_space) then trimStart s' else s
  end.

Fixpoint trimEnd (s : string) : string :=
  match s with
  | "" => ""
  | String c s' =>
      match trimEnd s' with
      | "" => if bool_decide (c ∈ white_space) then "" else String c ""
      | t => String c t
      end
  end.

Definition trim (s : string) : string := trimEnd (trimStart s).

(** [srcset.split(',')], each part through [s.trim().split(' ')[0]] *)
Definition srcset_urls (srcset : string) : list string :=
  (λ s, hd "" (Js.split " " (trim s))) <$> Js.split "," srcset.

(** [s.match(/p/g)]: the matched texts, left to right, found as
    [Regex.replace_all_from] finds them; the empty list stands for
    [null] *)
Fixpoint match_all_from (p : Regex.pattern) (skip : nat) (s : string)
  : list string :=
  match s with
  | "" =>
      match skip, Regex.match_at p "" with
      | O, Some _ => [""]
      | _, _ => []
      end
  | String c s' =>
      match skip with
      | S k => match_all_from p k s'
      | O =>
          match Regex.match_at p s with
          | Some O => "" :: match_all_from p O s'
          | Some (S n) => Regex.take (S n) s :: match_all_from p n s'
          | None => match_all_from p O s'
          end
      end
  end.

Definition match_all (p : Regex.pattern) (s : string) : list string :=
  match_all_from p O s.

(** the class of the pattern below: any character but the two quotes, the
    closing parenthesis and white space *)
Definition url_char : Regex.atom :=
  Regex.NoneOf (["'"; "034"; ")"]%char ++ white_space).

(** the pattern of [style.match]: the text [url(], an optional quote, one
    or more characters of the class (written as one, then any number), an
    optional quote and the closing parenthesis; the group of the source
    captures nothing that [match] returns under the flag [g] *)
Definition css_url : Regex.pattern :=
  Regex.lits "url("
    ++ [Regex.Opt (Regex.OneOf Builder.quote);
        Regex.One url_char; Regex.Star url_char;
        Regex.Opt (Regex.OneOf Builder.quote); Regex.One (Regex.Lit ")")].

(** [s.slice(4, -1)] *)
Definition slice_4_to_last (s : string) : string :=
  Regex.take (String.length s - 1 - 4) (Js.slice 4 s).

(** [s.replace(q, '')] for the pattern [q] of one quote character, with
    the flag [g] *)
Definition strip_quotes (s : string) : string :=
  Regex.replace_all [Regex.One (Regex.OneOf Builder.quote)] "" s.

(** the URLs [webflow-crawler.js] reads off a [style] attribute or a style
    sheet *)
Definition style_urls (style : string) : list string :=
  (λ m, strip_quotes (slice_4_to_last m)) <$> match_all css_url style.

(** the URL [crawler.js] reads off the computed [backgroundImage] of an
    element, when it adds one *)
Definition background_url (bgImage : string) : option string :=
  if decide (bgImage = "" ∨ bgImage = "none") then None
  else
    let url := strip_quotes (slice_4_to_last bgImage) in
    if decide (url = "") then None else Some url.

End Extract.

(** ** The asset list of a page

    The first [evaluate] callback of each crawler, over what its selectors
    find in the document.  An attribute the element does not have reads as
    the empty string; [results] is the [Set] of the callback, kept in the
    order of insertion, and the callback returns [Array.from(results)]. *)

Module Dom.

(** [img.src] and [img.srcset] *)
Record Image := { src : string; srcset : string }.

(** what [webflow-crawler.js] queries: the [img[src]] elements, the [href]
    of the style sheet links, the [src] of the scripts, the [style]
    attribute of the elements whose style mentions [background], the text
    of the [style] elements, the [href] of the font preloads *)
Record WebflowQueries := {
  images : list Image;
  stylesheets : list string;
  scripts : list string;
  inline_styles : list string;
  style_texts : list string;
  font_preloads : list string
}.

(** what [crawler.js] queries: the [img] elements, the style sheet links,
    the scripts, and the computed [backgroundImage] of every element *)
Record CrawlerQueries := {
  all_images : list Image;
  stylesheet_links : list string;
  script_sources : list string;
  background_images : list string
}.

(** [results.add(url)] *)
Definition add (url : string) (results : list string) : list string :=
  if decide (url ∈ results) then results else results ++ [url].

(** [if (url) results.add(url)] *)
Definition add_if (url : string) (results : list string) : list string :=
  if decide (url = "") then results else add url results.

(** [for (const url of urls) results.add(url)] *)
Definition add_all (urls : list string) (results : list string) : list string :=
  foldl (λ results url, add url results) results urls.

(** the callback of [webflow-crawler.js] *)
Definition webflow_assets (doc : WebflowQueries) : list string :=
  let results := [] in
  let results :=
    foldl (λ results img,
             let results := add_if (src img) results in
             if decide (srcset img = "") then results
             else add_all (Extract.srcset_urls (srcset img)) results)
      results (images doc) in
  let results := foldl (λ results href, add_if href results) results (stylesheets doc) in
  let results := foldl (λ results src, add_if src results) results (scripts doc) in
  let results :=
    foldl (λ results style,
             if decide (style = "") then results
             else add_all (Extract.style_urls style) results)
      results (inline_styles doc) in
  let results :=
    foldl (λ results text, add_all (Extract.style_urls text) results)
      results (style_texts doc) in
  foldl (λ results href, add_if href results) results (font_preloads doc).

(** the callback of [crawler.js] *)
Definition crawler_assets (doc : CrawlerQueries) : list string :=
  let results := [] in
  let results :=
    foldl (λ results img,
             let results := add_if (src img) results in
             if decide (srcset img = "") then results
             else add_all (Extract.srcset_urls (srcset img)) results)
      results (all_images doc) in
  let results :=
    foldl (λ results href, add_if href results) results (stylesheet_links doc) in
  let results :=
    foldl (λ results src, add_if src results) results (script_sources doc) in
  foldl (λ results bgImage,
           match Extract.background_url bgImage with
           | Some url => add url results
           | None => results
           end)
    results (background_images doc).

End Dom.

(** ** The analytics filter of [webflow-crawler.js] *)

(** the test of the route handler: the request is aborted when it holds *)
Definition blocked (url : string) : bool :=
  Js.includes url "google-analytics" || Js.includes url "analytics"
  || Js.includes url "tracking" || Js.includes url "matomo"
  || Js.includes url "piwik".

(** ** [buildSite] of [build-site.js] *)

Module Site.

Definition INPUT_DIR : string := "./raw_download".

(** The loop of [path.dirname]: [cs] holds the characters at the indices
    [i], [i - 1], ..., 1 of the path; the result is the index of the slash
    that ends the directory part. *)
Fixpoint dirname_end (cs : list ascii) (i : nat) (matchedSlash : bool) : option nat :=
  match cs with
  | [] => None
  | c :: cs' =>
      if Ascii.eqb c "/" then
        if matchedSlash then dirname_end cs' (i - 1) true else Some i
      else dirname_end cs' (i - 1) false
  end.

(** [path.dirname(p)] *)
Definition dirname (path : string) : string :=
  match path with
  | "" => "."
  | String c rest =>
      let hasRoot := Ascii.eqb c "/" in
      match dirname_end (rev (list_ascii_of_string rest)) (String.length rest) true with
      | None => if hasRoot then "/" else "."
      | Some e => if hasRoot && (e =? 1) then "//" else Regex.take e path
      end
  end.

(** The manifest as [JSON.parse] returns it.  [Object.entries] lists the
    keys of an object in the order of the document (no key of the manifest
    is an array index), so the two objects are held as their entries; the
    keys of an object are distinct. *)
Record Document := {
  start_time : string;
  end_time : option string;
  page_entries : list (string * Page.t);
  asset_entries : list (string * AssetRef)
}.

(** the manifest [processHtml] looks pages up in *)
Definition manifest_of (doc : Document) : Manifest :=
  {| startTime := start_time doc; endTime := end_time doc;
     pages := list_to_map (page_entries doc);
     assets := list_to_map (asset_entries doc) |}.

(** The capabilities [buildSite] consumes: the parser of the manifest, and
    the file system's answer to a call that changes the disk ([rm], [mkdir],
    [copyFile], [writeFile]) on a path, indexed by the number of such calls
    before. *)
Record Env := {
  JSON_parse : string → result Document;
  fs : nat → string → result unit
}.

(** The files, keyed by their normalised path below the working directory,
    and the paths of the calls made so far, newest first.  A file can be
    read when it is there. *)
Record Disk := {
  files : gmap string string;
  calls : list string
}.

(** [path] is [dir] or lies below it *)
Definition below (dir path : string) : bool :=
  String.eqb path dir || Js.startsWith path (dir +:+ "/").

(** [fs.rm(dir, { recursive: true, force: true })], carried out *)
Definition rm (dir : string) (d : Disk) : Disk :=
  {| files := filter (λ entry, below (Path.normalize dir) entry.1 = false) (files d);
     calls := calls d |}.

Definition store (path data : string) (d : Disk) : Disk :=
  {| files := <[path := data]> (files d); calls := calls d |}.

Section Run.
Context `{UrlParser} (env : Env).

(** a call that changes the disk: is it carried out? *)
Definition call (path : string) (d : Disk) : result unit * Disk :=
  (fs env (length (calls d)) path, {| files := files d; calls := path :: calls d |}).

(** the body of the loop over the assets: a missing source, a rejected
    [mkdir] and a rejected [copyFile] are caught *)
Definition copy_asset (asset : AssetRef) (d : Disk) : Disk :=
  let sourcePath := Path.join [INPUT_DIR; localPath asset] in
  let targetPath := Path.join [Builder.OUTPUT_DIR; localPath asset] in
  match files d !! sourcePath with
  | None => d
  | Some data =>
      match call (dirname targetPath) d with
      | (Err _, d) => d
      | (Ok _, d) =>
          match call targetPath d with
          | (Err _, d) => d
          | (Ok _, d) => store targetPath data d
          end
      end
  end.

Fixpoint copy_assets (entries : list (string * AssetRef)) (d : Disk) : Disk :=
  match entries with
  | [] => d
  | (_, asset) :: rest => copy_assets rest (copy_asset asset d)
  end.

(** the body of the loop over the pages: a record with no [rawHtml], a
    missing raw file, an exception of [processHtml] or of [new URL] and a
    rejected [mkdir] or [writeFile] are caught.  [None]: a pattern of
    [processHtml] lies outside the modelled fragment. *)
Definition build_page (manifest : Manifest) (url : string) (pageInfo : Page.t)
    (d : Disk) : option Disk :=
  match Page.rawHtml pageInfo with
  | None => Some d
  | Some rawPath =>
      match files d !! Path.join [INPUT_DIR; rawPath] with
      | None => Some d
      | Some rawHtml =>
          match Builder.processHtml rawHtml url manifest with
          | Builder.Unmodelled _ => None
          | Builder.Throws _ => Some d
          | Builder.Returns processedHtml =>
              match Builder.outputPath url with
              | None => Some d
              | Some outputPath =>
                  match call (dirname outputPath) d with
                  | (Err _, d) => Some d
                  | (Ok _, d) =>
                      match call outputPath d with
                      | (Err _, d) => Some d
                      | (Ok _, d) => Some (store outputPath processedHtml d)
                      end
                  end
              end
          end
      end
  end.

Fixpoint build_pages (manifest : Manifest) (entries : list (string * Page.t))
    (d : Disk) : option Disk :=
  match entries with
  | [] => Some d
  | (url, pageInfo) :: rest =>
      d' ← build_page manifest url pageInfo d;
      build_pages manifest rest d'
  end.

(** [buildSite()]: the disk it leaves.  A manifest that cannot be read or
    parsed, and a rejected [rm] or [mkdir] of the output directory, end the
    build ([Build failed]). *)
Definition buildSite (d : Disk) : option Disk :=
  match files d !! Path.join [INPUT_DIR; "manifest.json"] with
  | None => Some d
  | Some text =>
      match JSON_parse env text with
      | Err _ => Some d
      | Ok doc =>
          match call Builder.OUTPUT_DIR d with
          | (Err _, d) => Some d
          | (Ok _, d) =>
              let d := rm Builder.OUTPUT_DIR d in
              match call Builder.OUTPUT_DIR d with
              | (Err _, d) => Some d
              | (Ok _, d) =>
                  match call (Path.join [Builder.OUTPUT_DIR; "assets"]) d with
                  | (Err _, d) => Some d
                  | (Ok _, d) =>
                      build_pages (manifest_of doc) (page_entries doc)
                        (copy_assets (asset_entries doc) d)
                  end
              end
          end
      end
  end.

End Run.

End Site.

(** * Specification vocabulary *)

(** ** Matching, declaratively *)

(** [Matches p m]: the text [m] is in the language of [p]. *)
Inductive Matches : Regex.pattern → string → Prop :=
| matches_nil : Matches [] ""
| matches_one a c p m :
    Regex.accepts a c = true → Matches p m → Matches (Regex.One a :: p) (String c m)
| matches_opt_skip a p m : Matches p m → Matches (Regex.Opt a :: p) m
| matches_opt_take a c p m :
    Regex.accepts a c = true → Matches p m → Matches (Regex.Opt a :: p) (String c m)
| matches_star_skip a p m : Matches p m → Matches (Regex.Star a :: p) m
| matches_star_take a c p m :
    Regex.accepts a c = true → Matches (Regex.Star a :: p) m →
    Matches (Regex.Star a :: p) (String c m).

(** [Patched M s t]: [t] is [s] with some disjoint segments that satisfy [M]
    replaced, and every other character kept in place. *)
Inductive Patched (M : string → Prop) : string → string → Prop :=
| patched_nil : Patched M "" ""
| patched_keep c s t : Patched M s t → Patched M (String c s) (String c t)
| patched_swap m r s t : M m → Patched M s t → Patched M (m +:+ s) (r +:+ t).

(** a segment the builder may replace for one of the assets [refs]: a match
    of one of the three patterns built from the asset's URL *)
Definition reference (refs : list AssetRef) (m : string) : Prop :=
  ∃ asset u,
    asset ∈ refs ∧ Regex.of_source (originalUrl asset) = Some u ∧
    (Matches (Builder.src_pattern u) m ∨ Matches (Builder.href_pattern u) m
     ∨ Matches (Builder.url_pattern u) m).

(** ** References to an asset in a page *)

(** the three places where the builder looks for the URL of an asset *)
Inductive place : Type := InSrc | InHref | InUrl.

Definition keyword (pl : place) : string :=
  match pl with InSrc => "src=" | InHref => "href=" | InUrl => "url(" end.

(** the keyword without its last character *)
Definition keyword_stem (pl : place) : string :=
  match pl with InSrc => "src" | InHref => "href" | InUrl => "url" end.

(** a quote character, as a text of length one *)
Definition is_quote (q : string) : Prop :=
  ∃ c, c ∈ Builder.quote ∧ q = String c "".

(** an attribute value is quoted; inside [url(...)] each quote is optional *)
Definition quotes_ok (pl : place) (q q' : string) : Prop :=
  match pl with
  | InUrl => (q = "" ∨ is_quote q) ∧ (q' = "" ∨ is_quote q')
  | _ => is_quote q ∧ is_quote q'
  end.

(** a reference as it stands in the page, and as the builder writes it *)
Definition reference_text (pl : place) (q q' url : string) : string :=
  match pl with
  | InUrl => "url(" +:+ q +:+ url +:+ q' +:+ ")"
  | _ => keyword pl +:+ q +:+ url +:+ q'
  end.

Definition replacement_text (pl : place) (rel : string) : string :=
  match pl with
  | InSrc => "src=" +:+ Builder.dquote +:+ rel +:+ Builder.dquote
  | InHref => "href=" +:+ Builder.dquote +:+ rel +:+ Builder.dquote
  | InUrl => "url('" +:+ rel +:+ "')"
  end.

(** a text that is not empty and has no quote character *)
Definition unquoted (url : string) : Prop :=
  url ≠ "" ∧ ∀ c, c ∈ Builder.quote → Js.includes url (String c "") = false.

(** ** The page of the rewrite example

    A manifest with one page, whose one asset [https://cdn/x.png] is stored
    at [assets/x.png], and the image tag that refers to it. *)

Definition x_png : AssetRef :=
  {| originalUrl := "https://cdn/x.png"; localPath := "assets/x.png";
     hash := "x"; extension := ".png" |}.

Definition one_page (pageUrl : string) (refs : list AssetRef) : Manifest :=
  {| startTime := ""; endTime := None;
     pages := {[ pageUrl := {| Page.assets := refs;
                               Page.rawHtml := Some "pages/p.html";
                               Page.error := None |} ]};
     assets := ∅ |}.

(** the image tag as the builder writes it *)
Definition img (src : string) : string :=
  "<img " +:+ replacement_text InSrc src +:+ ">".

(** the image tag as the crawler stored it *)
Definition img_x_png : string :=
  "<img " +:+ reference_text InSrc "'" "'" "https://cdn/x.png" +:+ ">".

(** ** Pages cut at their references *)

Global Instance place_eq_dec : EqDecision place.
Proof. solve_decision. Defined.

(** the characters that close a reference: no keyword has one of them *)
Definition closer : list ascii := ")"%char :: Builder.quote.

Definition closers (s : string) : bool :=
  Url.forallb_string (λ c, bool_decide (c ∈ closer)) s.

(** the pattern the builder compiles for a place, around the pattern [u]
    that the URL denotes *)
Definition place_pattern (pl : place) (u : Regex.pattern) : Regex.pattern :=
  match pl with
  | InSrc => Builder.src_pattern u
  | InHref => Builder.href_pattern u
  | InUrl => Builder.url_pattern u
  end.

(** a URL that, read as a pattern, is one term for each of its characters:
    none of them is pattern syntax, but for dots *)
Definition literal_url (url : string) : Prop :=
  Url.forallb_string (λ c, Ascii.eqb c "." || negb (Regex.syntax_char c)) url = true.

(** the pattern of such a URL: the wildcard for a dot, the character
    itself otherwise *)
Fixpoint spelled (url : string) : Regex.pattern :=
  match url with
  | "" => []
  | String c url' =>
      Regex.One (if Ascii.eqb c "." then Regex.Dot else Regex.Lit c) :: spelled url'
  end.

(** the pattern of [url] fails along [text], before either ends: at some
    place the URL has a character other than a dot where the text has
    another, or a dot where the text has a line break *)
Fixpoint misses (url text : string) : bool :=
  match url, text with
  | String c url', String d text' =>
      (if Ascii.eqb c "." then Regex.line_terminator d else negb (Ascii.eqb c d))
      || misses url' text'
  | _, _ => false
  end.

(** no match of [p] begins inside [t] when [rest] follows *)
Fixpoint skipped (p : Regex.pattern) (t rest : string) : Prop :=
  match t with
  | "" => True
  | String c t' =>
      Regex.match_at p (String c t' +:+ rest) = None ∧ skipped p t' rest
  end.

(** a reference to an asset as it stands in a stored page: the place, the
    quotes around the URL, the asset *)
Record Reference := {
  place_of : place;
  opening : string;
  closing : string;
  target : AssetRef
}.

Definition stored (r : Reference) : string :=
  reference_text (place_of r) (opening r) (closing r) (originalUrl (target r)).

(** the reference as the builder writes it into the page at the file
    [name] *)
Definition built (name : string) (r : Reference) : string :=
  replacement_text (place_of r) (Builder.getRelativePath name (localPath (target r))).

(** A page cut at its references: each reference with the text before it,
    and the text behind the last one. *)
Fixpoint stored_page (cut : list (string * Reference)) (tail : string) : string :=
  match cut with
  | [] => tail
  | (t, r) :: rest => t +:+ stored r +:+ stored_page rest tail
  end.

Fixpoint built_page (name : string) (cut : list (string * Reference))
    (tail : string) : string :=
  match cut with
  | [] => tail
  | (t, r) :: rest => t +:+ built name r +:+ built_page name rest tail
  end.

(** the page while the builder is at work: the references of [done] are
    rewritten, the others are as the crawler stored them *)
Definition piece (name : string) (done : place → AssetRef → bool)
    (r : Reference) : string :=
  if done (place_of r) (target r) then built name r else stored r.

Fixpoint mixed_page (name : string) (done : place → AssetRef → bool)
    (cut : list (string * Reference)) (tail : string) : string :=
  match cut with
  | [] => tail
  | (t, r) :: rest => t +:+ piece name done r +:+ mixed_page name done rest tail
  end.

Definition mark (pl : place) (b : AssetRef) (done : place → AssetRef → bool)
  : place → AssetRef → bool :=
  λ pl' a, done pl' a || (bool_decide (pl' = pl) && bool_decide (a = b)).

(** The assets of a record the builder can tell apart, for a page at the
    file [name].  The URL of [a] is literal, not empty, without a quote, a
    leading dot or one of the three keywords; the path written for [a] has
    no dollar sign and none of the keywords; and the pattern of no asset of
    the record runs along that path, or along the URL of another asset. *)
Definition rewritable (name : string) (refs : list AssetRef) (a : AssetRef) : Prop :=
  let url := originalUrl a in
  let rel := Builder.getRelativePath name (localPath a) in
  literal_url url ∧ unquoted url ∧ Js.startsWith url "." = false ∧
  (∀ pl, Js.includes url (keyword pl) = false) ∧
  Js.includes rel "$" = false ∧
  (∀ pl, Js.includes rel (keyword pl) = false) ∧
  (∀ b, b ∈ refs → misses (originalUrl b) rel = true) ∧
  (∀ b, b ∈ refs → b ≠ a → misses (originalUrl b) url = true).

(** text that the builder passes over: no pattern of an asset of the
    record matches from inside it, whether the page ends behind it or goes
    on with a reference at the place [next] *)
Definition passed_over (refs : list AssetRef) (t : string) (next : option place)
  : Prop :=
  ∀ a u pl rest,
    a ∈ refs → Regex.of_source (originalUrl a) = Some u →
    skipped (place_pattern pl u) t
      (match next with Some pl' => keyword pl' +:+ rest | None => "" end).

(** a cut of a page for a record: the references are to assets of the
    record, quoted as their places ask, and the text between them is
    passed over *)
Fixpoint cut_for (refs : list AssetRef) (cut : list (string * Reference))
    (tail : string) : Prop :=
  match cut with
  | [] => passed_over refs tail None
  | (t, r) :: rest =>
      passed_over refs t (Some (place_of r)) ∧
      target r ∈ refs ∧ quotes_ok (place_of r) (opening r) (closing r) ∧
      cut_for refs rest tail
  end.

(** a second asset, and one whose URL has a query string *)
Definition site_css : AssetRef :=
  {| originalUrl := "https://cdn/site.css"; localPath := "assets/site.css";
     hash := "site"; extension := ".css" |}.

Definition a_js : AssetRef :=
  {| originalUrl := "https://cdn/a.js?v=1"; localPath := "assets/a.js";
     hash := "a"; extension := ".js" |}.

(** a page with a base tag, a link to the home page and three references
    to two assets, cut at the references *)
Definition two_assets_page : string :=
  "<base href='/'><link rel='stylesheet' href='https://cdn/site.css'>"
  +:+ "<a href='/'>Home</a><img src='https://cdn/x.png'>"
  +:+ "<p style='background:url(https://cdn/x.png)'></p>".

Definition two_assets_cut : list (string * Reference) :=
  [ ("<link rel='stylesheet' ",
     {| place_of := InHref; opening := "'"; closing := "'"; target := site_css |});
    ("><a href='/'>Home</a><img ",
     {| place_of := InSrc; opening := "'"; closing := "'"; target := x_png |});
    ("><p style='background:",
     {| place_of := InUrl; opening := ""; closing := ""; target := x_png |}) ].

(** ** Path segments *)

(** a segment that normalisation keeps as it is *)
Definition plain_segment (seg : string) : Prop :=
  seg ≠ "" ∧ seg ≠ "." ∧ seg ≠ ".." ∧ Js.includes seg "/" = false.

(** the segments normalisation keeps when none is [..] *)
Definition kept (L : list string) : list string :=
  filter (λ seg, ¬ (seg = "" ∨ seg = ".")) L.

(** ** The download cache of [crawler.js] *)

(** every cached local path is the one derived from its URL *)
Definition cache_sound `{UrlParser} (st : Crawler.State) : Prop :=
  ∀ url p, Crawler.downloadedAssets st !! url = Some p →
    ∃ U, parseURL url = Some U ∧ p = Crawler.relativePath U.

(** ** Environments of the examples *)

(** a browser, a network and a disk where every call succeeds, for a site
    with no asset and no link *)
Definition calm : Crawler.Env :=
  {| Crawler.newPage := λ _, Ok ();
     Crawler.load := λ _, Ok [];
     Crawler.request_get := λ _ _, Ok "bytes";
     Crawler.store := λ _ _, Ok ();
     Crawler.content := λ _, Ok "";
     Crawler.RegExp_g := λ _, Some (λ _ html, html);
     Crawler.save := λ _ _, Ok ();
     Crawler.links := λ _, Ok [];
     Crawler.close := λ _, Ok () |}.

Definition logo : string := "https://assets.website-files.com/logo.png".

Definition fine : Webflow.Response :=
  {| Webflow.ok := true; Webflow.status := 200; Webflow.arrayBuffer := Ok "bytes" |}.

Definition logo_page : Webflow.Rendering :=
  {| Webflow.dom_assets := [logo]; Webflow.content := Ok "<html></html>";
     Webflow.close := Ok () |}.

(** every page shows the one image [logo]; the network answers every
    request *)
Definition steady : Webflow.Env :=
  {| Webflow.fetch := λ _ _, Ok fine;
     Webflow.writeFile := λ _ _, Ok ();
     Webflow.Math_random := λ n, N.of_nat n;
     Webflow.render := λ _, Ok logo_page;
     Webflow.now := λ _, "2025-01-01T00:00:00.000Z" |}.

(** the first two requests of the run fail, the later ones are answered *)
Definition flaky : Webflow.Env :=
  {| Webflow.fetch := λ n _, if (n <? 2)%nat then Err "ECONNRESET" else Ok fine;
     Webflow.writeFile := λ _ _, Ok ();
     Webflow.Math_random := λ n, N.of_nat n;
     Webflow.render := λ _, Ok logo_page;
     Webflow.now := λ _, "2025-01-01T00:00:00.000Z" |}.

(** every request fails *)
Definition down : Webflow.Env :=
  {| Webflow.fetch := λ _ _, Err "ECONNREFUSED";
     Webflow.writeFile := λ _ _, Ok ();
     Webflow.Math_random := λ n, N.of_nat n;
     Webflow.render := λ _, Ok logo_page;
     Webflow.now := λ _, "2025-01-01T00:00:00.000Z" |}.

(** the same three networks for [crawler.js] *)
Definition flaky_net : Crawler.Env :=
  {| Crawler.newPage := λ _, Ok ();
     Crawler.load := λ _, Ok [];
     Crawler.request_get := λ n _, if (n <? 2)%nat then Err "ECONNRESET" else Ok "bytes";
     Crawler.store := λ _ _, Ok ();
     Crawler.content := λ _, Ok "";
     Crawler.RegExp_g := λ _, Some (λ _ html, html);
     Crawler.save := λ _ _, Ok ();
     Crawler.links := λ _, Ok [];
     Crawler.close := λ _, Ok () |}.

(** the network of [steady], with one fixed draw of [Math.random()] *)
Definition late_draw : Webflow.Env :=
  {| Webflow.fetch := λ _ _, Ok fine;
     Webflow.writeFile := λ _ _, Ok ();
     Webflow.Math_random := λ _, 9004197855455840%N;
     Webflow.render := λ _, Ok logo_page;
     Webflow.now := λ _, "2025-01-01T00:00:00.000Z" |}.

(** ** The manifest invariant *)

(** Every asset record of a page is the entry of the asset table under its
    URL; every entry of the table is the record computed from its key, for
    a URL that was requested and whose file is on disk. *)
Definition manifest_consistent (m : Manifest) (w : Webflow.World) : Prop :=
  (∀ url page ref,
     pages m !! url = Some page → ref ∈ Page.assets page →
     assets m !! originalUrl ref = Some ref) ∧
  (∀ key ref,
     assets m !! key = Some ref →
     ref = Webflow.asset_ref key ∧ key ∈ Webflow.requests w ∧
     is_Some (Webflow.files w !! Webflow.asset_file key)).

(** the run only adds to the world *)
Definition world_le (w w' : Webflow.World) : Prop :=
  (∀ path, is_Some (Webflow.files w !! path) → is_Some (Webflow.files w' !! path)) ∧
  (∀ url, url ∈ Webflow.requests w → url ∈ Webflow.requests w').

(** the first target page times out; the network is down as well *)
Definition timeout_first : Webflow.Env :=
  {| Webflow.fetch := λ _ _, Err "ECONNREFUSED";
     Webflow.writeFile := λ _ _, Ok ();
     Webflow.Math_random := λ n, N.of_nat n;
     Webflow.render := λ url,
       if decide (url = "https://apply.agency/") then Err "Timeout 30000ms exceeded"
       else Ok logo_page;
     Webflow.now := λ _, "2025-01-01T00:00:00.000Z" |}.

(** ** The link graph of a site *)

Section Graph.
Context `{UrlParser} (cfg : Crawler.Config) (env : Crawler.Env).

(** what the [try] block of [processPage] comes to for a page in the state
    a run starts from: the links it read, or the message of what failed *)
Definition outlinks (url : string) : result (list string) :=
  fst (Crawler.render_page cfg env url Crawler.initial).

(** The link graph of the site, as the browser reports it: [v] is the
    [href] of an anchor of the page [u], on a domain of the allow-list. *)
Definition edge (u v : string) : Prop :=
  ∃ ls, Crawler.links env u = Ok ls ∧ v ∈ ls ∧
        isAllowed (Crawler.allowedDomains cfg) v = true.

(** the browser opens and closes every page *)
Definition browser_ok : Prop :=
  ∀ url, Crawler.newPage env url = Ok () ∧ Crawler.close env url = Ok ().

(** a finite site: a finite set of URLs that no link of the graph leaves *)
Definition closed_site (U : gset string) : Prop :=
  ∀ u v, u ∈ U → edge u v → v ∈ U.

(** every page printed as processed is in [visited], once *)
Definition log_ok (st : Crawler.State) : Prop :=
  NoDup (Crawler.processing st) ∧
  ∀ url, url ∈ Crawler.processing st ↔ url ∈ Crawler.visited st.

(** every link of the graph out of a visited page is visited, but for the
    pages of [S] and the pages reported in [failedUrls] *)
Definition expanded (S : gset string) (st : Crawler.State) : Prop :=
  ∀ p v, p ∈ Crawler.visited st → p ∉ S → p ∉ Crawler.failedUrls st →
         edge p v → v ∈ Crawler.visited st.

(** what a call of [processPage] on [url] establishes, in a site [U] *)
Definition call_post (U : gset string) (url : string) (st : Crawler.State)
    (r : result unit) (st' : Crawler.State) : Prop :=
  Crawler.visited st ⊆ Crawler.visited st' ∧ Crawler.visited st' ⊆ U ∧
  url ∈ Crawler.visited st' ∧ log_ok st' ∧
  Crawler.failedUrls st ⊆ Crawler.failedUrls st' ∧
  (∀ v, v ∈ Crawler.visited st' → v ∈ Crawler.visited st ∨ rtc edge url v) ∧
  (browser_ok → r = Ok () ∧ ∀ S, expanded S st → expanded S st').

(** what the loop over the links [ls] establishes *)
Definition loop_post (U : gset string) (ls : list string) (st : Crawler.State)
    (r : result unit) (st' : Crawler.State) : Prop :=
  Crawler.visited st ⊆ Crawler.visited st' ∧ Crawler.visited st' ⊆ U ∧
  log_ok st' ∧
  Crawler.failedUrls st ⊆ Crawler.failedUrls st' ∧
  (∀ v, v ∈ Crawler.visited st' →
     v ∈ Crawler.visited st ∨
     ∃ l, l ∈ ls ∧ Crawler.isAllowedDomain cfg l = true ∧ rtc edge l v) ∧
  (browser_ok →
     r = Ok () ∧
     (∀ S, expanded S st → expanded S st') ∧
     ∀ l, l ∈ ls → Crawler.isAllowedDomain cfg l = true → l ∈ Crawler.visited st').

End Graph.

(** the two pages of the cycle: each links to the other *)
Definition page_a : string := "https://apply.agency".
Definition page_b : string := "https://apply.agency/cases".

Definition two_pages : Crawler.Env :=
  {| Crawler.newPage := λ _, Ok ();
     Crawler.load := λ _, Ok [];
     Crawler.request_get := λ _ _, Ok "bytes";
     Crawler.store := λ _ _, Ok ();
     Crawler.content := λ _, Ok "<a href>";
     Crawler.RegExp_g := λ _, Some (λ _ html, html);
     Crawler.save := λ _ _, Ok ();
     Crawler.links := λ url, if decide (url = page_a) then Ok [page_b] else Ok [page_a];
     Crawler.close := λ _, Ok () |}.

(** the two pages again, on a disk that refuses the file of the first *)
Definition unsaved_home : Crawler.Env :=
  {| Crawler.newPage := λ _, Ok ();
     Crawler.load := λ _, Ok [];
     Crawler.request_get := λ _ _, Ok "bytes";
     Crawler.store := λ _ _, Ok ();
     Crawler.content := λ _, Ok "<a href>";
     Crawler.RegExp_g := λ _, Some (λ _ html, html);
     Crawler.save := λ url _, if decide (url = page_a) then Err "EACCES" else Ok ();
     Crawler.links := λ url, if decide (url = page_a) then Ok [page_b] else Ok [page_a];
     Crawler.close := λ _, Ok () |}.

(** a site whose pages all link to the home page, the way an anchor's
    [href] property spells it: with the path [/] *)
Definition links_home : Crawler.Env :=
  {| Crawler.newPage := λ _, Ok ();
     Crawler.load := λ _, Ok [];
     Crawler.request_get := λ _ _, Ok "bytes";
     Crawler.store := λ _ _, Ok ();
     Crawler.content := λ _, Ok "<a href>";
     Crawler.RegExp_g := λ _, Some (λ _ html, html);
     Crawler.save := λ _ _, Ok ();
     Crawler.links := λ _, Ok ["https://apply.agency/"];
     Crawler.close := λ _, Ok () |}.

(** ** Back-off delays *)

(** the delays of a run of failed attempts, oldest first: the one after
    attempt [first + i] lies between 2000 and 5000 times the attempt
    number *)
Definition backoff_from (first : Z) (delays : list Z) : Prop :=
  ∀ (i : nat) d, delays !! i = Some d →
    (2000 * (first + Z.of_nat i) ≤ d ≤ 5000 * (first + Z.of_nat i))%Z.

(** ** Page records of a finished crawl *)

(** a record that [processPage] is done with: it carries an error or the
    place of its raw HTML, and the raw HTML it names is on disk *)
Definition page_settled (w : Webflow.World) (url : string) (page : Page.t) : Prop :=
  (is_Some (Page.error page) ∨ is_Some (Page.rawHtml page)) ∧
  (∀ p, Page.rawHtml page = Some p →
     p = "pages/" +:+ Md5.hex url +:+ ".html" ∧
     is_Some (Webflow.files w !! Webflow.page_file url)).

(** every entry of the asset table is listed by some page *)
Definition table_covered (m : Manifest) : Prop :=
  ∀ key ref, assets m !! key = Some ref →
    ∃ url page, pages m !! url = Some page ∧ ref ∈ Page.assets page.

(** the asset URLs of a page that the crawler may download *)
Definition allowed_assets `{UrlParser} (found : list string) : list string :=
  filter (λ asset, Webflow.isWebflowAsset asset = true) found.

(** ** The state of [crawler.js] over a run *)

(** the run only adds to the state: nothing leaves [visited], [failedUrls],
    the cache or the disk, a cached path never changes, and the two logs
    only grow at their head *)
Definition state_le (st st' : Crawler.State) : Prop :=
  Crawler.visited st ⊆ Crawler.visited st' ∧
  Crawler.failedUrls st ⊆ Crawler.failedUrls st' ∧
  Crawler.downloadedAssets st ⊆ Crawler.downloadedAssets st' ∧
  (∀ path, is_Some (Crawler.files st !! path) → is_Some (Crawler.files st' !! path)) ∧
  Crawler.requests st `suffix_of` Crawler.requests st' ∧
  Crawler.processing st `suffix_of` Crawler.processing st'.

(** every cached asset was requested, and its file is on disk *)
Definition assets_stored (cfg : Crawler.Config) (st : Crawler.State) : Prop :=
  ∀ url p, Crawler.downloadedAssets st !! url = Some p →
    url ∈ Crawler.requests st ∧
    is_Some (Crawler.files st !! Path.join [Crawler.outputDir cfg; p]).

(** the page of a URL is on disk *)
Definition page_saved `{UrlParser} (cfg : Crawler.Config) (st : Crawler.State)
    (url : string) : Prop :=
  ∃ U, parseURL url = Some U ∧
       is_Some (Crawler.files st !! Crawler.filePath cfg (pathname U)).

(** every visited page outside [S] is saved or reported as failed *)
Definition pages_accounted `{UrlParser} (cfg : Crawler.Config) (S : gset string)
    (st : Crawler.State) : Prop :=
  ∀ url, url ∈ Crawler.visited st → url ∉ S →
    url ∈ Crawler.failedUrls st ∨ page_saved cfg st url.

(** what the page's [assetMap] holds for an asset: its cached local path,
    or the URL itself when the download failed *)
Definition replacement_ok `{UrlParser} (st : Crawler.State) (asset local : string) : Prop :=
  (local = asset ∧ asset ∈ Crawler.failedUrls st) ∨
  (∃ U, parseURL asset = Some U ∧ local = "assets" +:+ pathname U ∧
        Crawler.downloadedAssets st !! asset = Some local).

(** a site of one page that shows one image *)
Definition one_image : Crawler.Env :=
  {| Crawler.newPage := λ _, Ok ();
     Crawler.load := λ _, Ok ["https://apply.agency/logo.png"];
     Crawler.request_get := λ _ _, Ok "bytes";
     Crawler.store := λ _ _, Ok ();
     Crawler.content := λ _, Ok "<img>";
     Crawler.RegExp_g := λ _, Some (λ _ html, html);
     Crawler.save := λ _ _, Ok ();
     Crawler.links := λ _, Ok [];
     Crawler.close := λ _, Ok () |}.

(** ** Texts of an image candidate list and of a style *)

(** no character of [s] is one of [cs] *)
Definition no_char_of (cs : list ascii) (s : string) : bool :=
  Url.forallb_string (λ c, bool_decide (c ∉ cs)) s.

(** a URL as it can stand in a [srcset]: not empty, with no comma and no
    white space *)
Definition srcset_url (u : string) : Prop :=
  u ≠ "" ∧ no_char_of (","%char :: Extract.white_space) u = true.

(** an image candidate: the URL, then one space and the descriptor when
    there is a descriptor *)
Definition candidate (c : string * string) : string :=
  if decide (c.2 = "") then c.1 else c.1 +:+ " " +:+ c.2.

(** a URL as it can stand in [url(...)]: not empty, made of characters of
    the class of the pattern *)
Definition css_url_text (u : string) : Prop :=
  u ≠ "" ∧ Url.forallb_string (Regex.accepts Extract.url_char) u = true.

(** ** The paths [buildSite] reads and writes *)

(** where [buildSite] looks for an asset, and where it puts the copy *)
Definition asset_source (asset : AssetRef) : string :=
  Path.join [Site.INPUT_DIR; localPath asset].

Definition asset_target (asset : AssetRef) : string :=
  Path.join [Builder.OUTPUT_DIR; localPath asset].

(** the disk carries out every call *)
Definition disk_accepts (env : Site.Env) : Prop :=
  ∀ n path, Site.fs env n path = Ok ().

(** a path [buildSite] may write: the target of an asset of the manifest,
    or the output file of one of its pages *)
Definition written_by `{UrlParser} (doc : Site.Document) (path : string) : Prop :=
  (∃ url asset, (url, asset) ∈ Site.asset_entries doc ∧ asset_target asset = path) ∨
  (∃ url pageInfo, (url, pageInfo) ∈ Site.page_entries doc ∧
                   Builder.outputPath url = Some path).

(** ** A small site, crawled *)

(** the manifest of one page with one asset, and the raw download it
    describes *)
Definition small_site : Site.Document :=
  {| Site.start_time := "2025-01-01T00:00:00.000Z";
     Site.end_time := Some "2025-01-01T00:01:00.000Z";
     Site.page_entries :=
       [("https://apply.agency/cases/",
         {| Page.assets := [x_png]; Page.rawHtml := Some "pages/p.html";
            Page.error := None |})];
     Site.asset_entries := [("https://cdn/x.png", x_png)] |}.

Definition raw_download : Site.Disk :=
  {| Site.files :=
       {[ "raw_download/manifest.json" := "{}";
          "raw_download/assets/x.png" := "bytes";
          "raw_download/pages/p.html" := img_x_png;
          "built_site/old.html" := "stale" ]};
     Site.calls := [] |}.

(** a parser that reads the manifest of the small site, and a disk that
    carries out every call *)
Definition obliging : Site.Env :=
  {| Site.JSON_parse := λ _, Ok small_site;
     Site.fs := λ _ _, Ok () |}.

(** the crawl of the two target pages on a network that answers *)
Definition steady_crawl : Manifest * Webflow.World :=
  Webflow.crawl (H := Url.plain) steady Webflow.TARGET_PAGES
    (Webflow.initial_manifest steady, Webflow.nowhere).

(** its manifest as the builder reads it back: the pages in the order of
    the target list *)
Definition crawled_site : Site.Document :=
  {| Site.start_time := startTime (fst steady_crawl);
     Site.end_time := Some "2025-01-01T00:00:00.000Z";
     Site.page_entries :=
       omap (λ url, pair url <$> pages (fst steady_crawl) !! url) Webflow.TARGET_PAGES;
     Site.asset_entries := [(logo, Webflow.asset_ref logo)] |}.

(** the disk the crawl leaves, with the manifest file *)
Definition crawled_disk : Site.Disk :=
  {| Site.files :=
       <["raw_download/manifest.json" := "{}"]> (Webflow.files (snd steady_crawl));
     Site.calls := [] |}.

Definition reads_crawled_site : Site.Env :=
  {| Site.JSON_parse := λ _, Ok crawled_site;
     Site.fs := λ _ _, Ok () |}.

(** ** The sources of an asset list *)

(** the URLs an image contributes *)
Definition image_urls (img : Dom.Image) : list string :=
  (if decide (Dom.src img = "") then [] else [Dom.src img])
    ++ (if decide (Dom.srcset img = "") then []
        else Extract.srcset_urls (Dom.srcset img)).

Definition nonempty (urls : list string) : list string :=
  filter (λ url, url ≠ "") urls.

(** every URL the callback of [webflow-crawler.js] comes across, in the
    order it does *)
Definition webflow_sources (doc : Dom.WebflowQueries) : list string :=
  (Dom.images doc ≫= image_urls)
    ++ nonempty (Dom.stylesheets doc)
    ++ nonempty (Dom.scripts doc)
    ++ (Dom.inline_styles doc ≫= Extract.style_urls)
    ++ (Dom.style_texts doc ≫= Extract.style_urls)
    ++ nonempty (Dom.font_preloads doc).

(** the same for [crawler.js] *)
Definition crawler_sources (doc : Dom.CrawlerQueries) : list string :=
  (Dom.all_images doc ≫= image_urls)
    ++ nonempty (Dom.stylesheet_links doc)
    ++ nonempty (Dom.script_sources doc)
    ++ (Dom.background_images doc ≫= λ bgImage,
          option_list (Extract.background_url bgImage)).

(** [results] holds the URLs of [sources], each once *)
Definition gathered (results sources : list string) : Prop :=
  NoDup results ∧ ∀ url, url ∈ results ↔ url ∈ sources.

(** a page with one image, given at two resolutions, and a style sheet
    that shows the same image *)
Definition two_resolutions : Dom.WebflowQueries :=
  {| Dom.images :=
       [{| Dom.src := "https://cdn/a.png";
           Dom.srcset := "https://cdn/a.png 1x, https://cdn/a@2x.png 2x" |}];
     Dom.stylesheets := ["https://cdn/site.css"];
     Dom.scripts := [];
     Dom.inline_styles := [];
     Dom.style_texts := ["body{background:url(https://cdn/a.png)}"];
     Dom.font_preloads := [""] |}.

(** * Properties *)

(** ** Strings *)

Section Strings.

Lemma sapp_cons (c : ascii) (s t : string) : String c s +:+ t = String c (s +:+ t).
Proof. reflexivity. Qed.

Lemma sapp_nil_l (s : string) : "" +:+ s = s.
Proof. reflexivity. Qed.

Lemma sapp_nil_r (s : string) : s +:+ "" = s.
Proof. induction s as [|c s IH]; [done|]. by rewrite sapp_cons, IH. Qed.

Lemma sapp_assoc (s t u : string) : (s +:+ t) +:+ u = s +:+ t +:+ u.
Proof. induction s as [|c s IH]; [done|]. by rewrite !sapp_cons, IH. Qed.

Lemma slength_app (s t : string) :
  String.length (s +:+ t) = String.length s + String.length t.
Proof. induction s as [|c s IH]; [done|]. rewrite sapp_cons. simpl. by rewrite IH. Qed.

Lemma sapp_inv_length (a b c d : string) :
  String.length a = String.length c → a +:+ b = c +:+ d → a = c ∧ b = d.
Proof.
  revert c. induction a as [|x a IH]; intros [|y c] Hlen Heq;
    try discriminate Hlen.
  - done.
  - rewrite !sapp_cons in Heq. injection Hlen as Hlen. injection Heq as -> Heq.
    by destruct (IH c Hlen Heq) as [-> ->].
Qed.

Lemma startsWith_spec (s p : string) :
  Js.startsWith s p = true ↔ ∃ rest, s = p +:+ rest.
Proof.
  revert s. induction p as [|a p IH]; intros s; simpl.
  - split; [intros _; by exists s | done].
  - destruct s as [|b s].
    + split; [done | intros [rest Hr]; by rewrite sapp_cons in Hr].
    + rewrite andb_true_iff, Ascii.eqb_eq, IH. split.
      * intros [-> [rest ->]]. by exists rest.
      * intros [rest Hr]. rewrite sapp_cons in Hr. simplify_eq. eauto.
Qed.

Lemma includes_spec (s d : string) :
  Js.includes s d = true ↔ ∃ before after, s = before +:+ d +:+ after.
Proof.
  induction s as [|c s IH].
  - simpl. rewrite orb_false_r, startsWith_spec. split.
    + intros [rest ->]. by exists "", rest.
    + intros [[|x before] [after Hs]]; [by exists after|].
      by rewrite sapp_cons in Hs.
  - cbn [Js.includes]. rewrite orb_true_iff, startsWith_spec, IH. split.
    + intros [[rest ->] | (before & after & ->)].
      * by exists "", rest.
      * by exists (String c before), after.
    + intros [[|x before] [after Hs]].
      * left. by exists after.
      * right. rewrite sapp_cons in Hs. simplify_eq. by exists before, after.
Qed.

End Strings.

(** ** The domain filter *)

(** C5. The domain filter is a total function into the booleans (the [try]
    turns the parser's exception into [false]): on a string that does not
    parse it answers [false]; on a string that parses it answers [true]
    exactly when some entry of the allow-list occurs inside the host name.
    Both filters of the sources are this function at their constant lists.
    With the allow-list [a.com], and a parser that reads the hosts [a.com]
    and [evil.com] off the two URLs and rejects the third string, the
    answers are [true], [false] and [false]. *)
Theorem isAllowed_total_and_exact `{UrlParser} :
  hostname <$> parseURL "https://a.com/x" = Some "a.com" →
  hostname <$> parseURL "https://evil.com" = Some "evil.com" →
  parseURL "not a url" = None →
  (∀ allowList url,
      (parseURL url = None → isAllowed allowList url = false) ∧
      (∀ u, parseURL url = Some u →
         (isAllowed allowList url = true ↔
          ∃ domain before after,
            domain ∈ allowList ∧ hostname u = before +:+ domain +:+ after))) ∧
  (∀ cfg url,
      Crawler.isAllowedDomain cfg url = isAllowed (Crawler.allowedDomains cfg) url) ∧
  (∀ url, Webflow.isWebflowAsset url = isAllowed Webflow.WEBFLOW_DOMAINS url) ∧
  isAllowed ["a.com"] "https://a.com/x" = true ∧
  isAllowed ["a.com"] "https://evil.com" = false ∧
  isAllowed ["a.com"] "not a url" = false.
Proof.
  intros Ha Hevil Hnot. split_and!; try done.
  - intros allowList url. unfold isAllowed. split.
    + by intros ->.
    + intros u ->. rewrite existsb_exists. split.
      * intros (domain & Hin & Hinc). apply includes_spec in Hinc as (b & a & Hh).
        exists domain, b, a. split; [by apply list_elem_of_In | done].
      * intros (domain & b & a & Hin & Hh). exists domain.
        split; [by apply list_elem_of_In|]. apply includes_spec. eauto.
  - unfold isAllowed. destruct (parseURL "https://a.com/x") as [u|]; simplify_eq/=.
    by rewrite Ha.
  - unfold isAllowed. destruct (parseURL "https://evil.com") as [u|]; simplify_eq/=.
    by rewrite Hevil.
  - unfold isAllowed. by rewrite Hnot.
Qed.

Lemma isAllowed_total_and_exact_witness :
  isAllowed (H := Url.plain) ["a.com"] "https://a.com/x" = true ∧
  isAllowed (H := Url.plain) ["a.com"] "https://evil.com" = false ∧
  isAllowed (H := Url.plain) ["a.com"] "not a url" = false.
Proof.
  pose proof (isAllowed_total_and_exact (H := Url.plain)
                ltac:(reflexivity) ltac:(reflexivity) ltac:(reflexivity))
    as (_ & _ & _ & H1 & H2 & H3).
  exact (conj H1 (conj H2 H3)).
Defined.

(** ** The matcher *)

Section Matcher.

Lemma match_at_star a p s :
  Regex.match_at (Regex.Star a :: p) s =
  match s with
  | String c s' =>
      if Regex.accepts a c then
        match Regex.match_at (Regex.Star a :: p) s' with
        | Some n => Some (S n)
        | None => Regex.match_at p s
        end
      else Regex.match_at p s
  | "" => Regex.match_at p s
  end.
Proof. by destruct s. Qed.

Lemma take_slice n s : Regex.take n s +:+ Js.slice n s = s.
Proof.
  revert s. induction n as [|n IH]; intros [|c s]; try done.
  simpl. by rewrite sapp_cons, IH.
Qed.

Lemma length_take n s : n ≤ String.length s → String.length (Regex.take n s) = n.
Proof.
  revert s. induction n as [|n IH]; intros [|c s] Hn; simpl in *; try done; try lia.
  rewrite IH; lia.
Qed.

Lemma take_app_length m s : Regex.take (String.length m) (m +:+ s) = m.
Proof.
  induction m as [|c m IH]; [by destruct s|]. rewrite sapp_cons. simpl. by rewrite IH.
Qed.

Lemma slice_app_length m s : Js.slice (String.length m) (m +:+ s) = s.
Proof. induction m as [|c m IH]; [by destruct s|]. by rewrite sapp_cons. Qed.

(** What the matcher returns is the length of a prefix in the language. *)
Lemma match_at_sound p s n :
  Regex.match_at p s = Some n →
  Matches p (Regex.take n s) ∧ n ≤ String.length s.
Proof.
  revert s n. induction p as [|[a|a|a] p IH]; intros s n Hm.
  - simpl in Hm. simplify_eq. split; [destruct s; constructor | lia].
  - destruct s as [|c s]; simpl in Hm; [done|].
    destruct (Regex.accepts a c) eqn:Ha; [|done].
    destruct (Regex.match_at p s) as [k|] eqn:Hk; simplify_eq/=.
    destruct (IH _ _ Hk). split; [by constructor | lia].
  - destruct s as [|c s]; simpl in Hm.
    { destruct (IH _ _ Hm). split; [by constructor | done]. }
    destruct (Regex.accepts a c) eqn:Ha.
    + destruct (Regex.match_at p s) as [k|] eqn:Hk; simplify_eq/=.
      * destruct (IH _ _ Hk). split; [by apply matches_opt_take | lia].
      * destruct (IH _ _ Hm). split; [by constructor | done].
    + destruct (IH _ _ Hm). split; [by constructor | done].
  - revert n Hm. induction s as [|c s IHs]; intros n Hm; rewrite match_at_star in Hm.
    { destruct (IH _ _ Hm). split; [by constructor | done]. }
    destruct (Regex.accepts a c) eqn:Ha.
    + destruct (Regex.match_at (Regex.Star a :: p) s) as [k|] eqn:Hk; simplify_eq/=.
      * destruct (IHs _ eq_refl). split; [by apply matches_star_take | lia].
      * destruct (IH _ _ Hm). split; [by constructor | done].
    + destruct (IH _ _ Hm). split; [by constructor | done].
Qed.

(** Whenever some prefix is in the language, the matcher finds a match. *)
Lemma match_at_complete p m rest :
  Matches p m → is_Some (Regex.match_at p (m +:+ rest)).
Proof.
  induction 1 as [|a c p m Ha _ IH|a p m _ IH|a c p m Ha _ IH|a p m _ IH
                  |a c p m Ha _ IH].
  - by eexists.
  - rewrite sapp_cons. simpl. rewrite Ha. destruct IH as [n ->]. by eexists.
  - destruct (m +:+ rest) as [|c s] eqn:Hs; simpl; [done|].
    destruct (Regex.accepts a c); [|done]. by destruct (Regex.match_at p s).
  - rewrite sapp_cons. simpl. rewrite Ha. destruct IH as [n ->]. by eexists.
  - rewrite match_at_star. destruct (m +:+ rest) as [|c s] eqn:Hs; [done|].
    destruct (Regex.accepts a c); [|done].
    by destruct (Regex.match_at (Regex.Star a :: p) s).
  - rewrite sapp_cons, match_at_star. rewrite Ha. destruct IH as [n ->]. by eexists.
Qed.

Lemma Patched_mono (M N : string → Prop) s t :
  (∀ m, M m → N m) → Patched M s t → Patched N s t.
Proof. intros HMN. induction 1; constructor; auto. Qed.

(** A global replacement keeps every character outside the matches. *)
Lemma replace_all_from_patched p r before skip s :
  skip ≤ String.length s →
  Patched (Matches p) (Js.slice skip s) (Regex.replace_all_from p r before skip s).
Proof.
  revert before skip. induction s as [|c s IH]; intros before skip Hskip.
  - simpl in Hskip. assert (skip = 0) as -> by lia. simpl.
    destruct (Regex.match_at p "") as [n|] eqn:Hm; [|constructor].
    apply match_at_sound in Hm as [Hm Hn]. simpl in Hn.
    assert (n = 0) as -> by lia.
    rewrite <-(sapp_nil_r (Regex.expand _ _ _ _)).
    by apply (patched_swap _ "" _ "" ""); [|constructor].
  - destruct skip as [|k]; simpl.
    2:{ apply IH. simpl in Hskip. lia. }
    destruct (Regex.match_at p (String c s)) as [[|n]|] eqn:Hm.
    + apply match_at_sound in Hm as [Hm _].
      apply (patched_swap _ "" _ (String c s)); [done|].
      constructor. apply (IH _ 0). lia.
    + apply match_at_sound in Hm as [Hm Hn]. simpl in Hn.
      rewrite <-(take_slice (S n) (String c s)) at 1.
      apply patched_swap; [done|]. apply IH. lia.
    + constructor. apply (IH _ 0). lia.
Qed.

Lemma replace_all_patched p r s :
  Patched (Matches p) s (Regex.replace_all p r s).
Proof. apply (replace_all_from_patched p r "" 0 s). lia. Qed.

End Matcher.

(** ** Scanning for a pattern that begins with literal text *)

Section Scan.

Lemma match_lits w p s :
  Regex.match_at (Regex.lits w ++ p) s =
  if Js.startsWith s w
  then (λ n, String.length w + n) <$> Regex.match_at p (Js.slice (String.length w) s)
  else None.
Proof.
  revert s. induction w as [|a w IH]; intros s.
  - simpl. by destruct (Regex.match_at p s).
  - destruct s as [|b s]; [done|]. simpl.
    destruct (Ascii.eqb a b) eqn:Hab; [|done]. simpl.
    rewrite IH. destruct (Js.startsWith s w); [|done].
    by destruct (Regex.match_at p (Js.slice (String.length w) s)).
Qed.

Lemma startsWith_app_l w rest : Js.startsWith (w +:+ rest) w = true.
Proof. apply startsWith_spec. eauto. Qed.

Lemma startsWith_take s w :
  Js.startsWith s w = Js.startsWith (Regex.take (String.length w) s) w.
Proof.
  revert s. induction w as [|a w IH]; intros [|b s]; simpl; try done.
  by rewrite IH.
Qed.

Lemma take_app_take n k x s :
  n ≤ String.length x + k → Regex.take n (x +:+ s) = Regex.take n (x +:+ Regex.take k s).
Proof.
  revert n. induction x as [|c x IH]; intros n Hn; simpl in Hn.
  - rewrite !sapp_nil_l. revert n k Hn.
    induction s as [|c s IHs]; intros [|n] [|k] Hn; simpl; try done; try lia.
    f_equal. apply IHs. lia.
  - destruct n as [|n]; [done|]. rewrite !sapp_cons. simpl. f_equal. apply IH. lia.
Qed.

(** no occurrence of [w] begins at the head of [x ++ s] when none begins
    there in [x] followed by the first [|w| - 1] characters of [s] *)
Lemma startsWith_window x s w :
  x ≠ "" →
  Js.startsWith (x +:+ Regex.take (String.length w - 1) s) w = false →
  Js.startsWith (x +:+ s) w = false.
Proof.
  intros Hx Hw. rewrite startsWith_take.
  rewrite (take_app_take _ (String.length w - 1)).
  - by rewrite <-startsWith_take.
  - destruct x; [done|]. simpl. lia.
Qed.

Lemma includes_cons_false c s w :
  Js.includes (String c s) w = false →
  Js.startsWith (String c s) w = false ∧ Js.includes s w = false.
Proof. cbn [Js.includes]. by intros ?%orb_false_elim. Qed.

Lemma includes_char_false c s d :
  Js.includes (String c s) (String d "") = false →
  d ≠ c ∧ Js.includes s (String d "") = false.
Proof.
  intros [Hhead Hno]%includes_cons_false. split; [|done].
  cbn [Js.startsWith] in Hhead. rewrite andb_true_r in Hhead.
  by apply Ascii.eqb_neq.
Qed.

Lemma lits_no_empty_match w p : w ≠ "" → Regex.match_at (Regex.lits w ++ p) "" = None.
Proof. by destruct w. Qed.

(** the leftmost-match scan passes over a prefix where [w] begins nowhere *)
Lemma replace_first_from_app w p r before pre s :
  Js.includes (pre +:+ Regex.take (String.length w - 1) s) w = false →
  Regex.replace_first_from (Regex.lits w ++ p) r before (pre +:+ s) =
  pre +:+ Regex.replace_first_from (Regex.lits w ++ p) r (String.rev_app pre before) s.
Proof.
  revert before. induction pre as [|c pre IH]; intros before Hno; [done|].
  rewrite sapp_cons in Hno. apply includes_cons_false in Hno as [Hhead Hno].
  rewrite sapp_cons. cbn [Regex.replace_first_from].
  rewrite match_lits. rewrite <-sapp_cons, startsWith_window; [|done|done].
  rewrite sapp_cons. by rewrite IH.
Qed.

Lemma replace_all_from_app w p r before pre s :
  Js.includes (pre +:+ Regex.take (String.length w - 1) s) w = false →
  Regex.replace_all_from (Regex.lits w ++ p) r before 0 (pre +:+ s) =
  pre +:+ Regex.replace_all_from (Regex.lits w ++ p) r (String.rev_app pre before) 0 s.
Proof.
  revert before. induction pre as [|c pre IH]; intros before Hno; [done|].
  rewrite sapp_cons in Hno. apply includes_cons_false in Hno as [Hhead Hno].
  rewrite sapp_cons. cbn [Regex.replace_all_from].
  rewrite match_lits. rewrite <-sapp_cons, startsWith_window; [|done|done].
  rewrite sapp_cons. by rewrite IH.
Qed.

Lemma replace_all_from_none w p r before s :
  w ≠ "" → Js.includes s w = false →
  Regex.replace_all_from (Regex.lits w ++ p) r before 0 s = s.
Proof.
  intros Hw Hno. rewrite <-(sapp_nil_r s) at 1.
  rewrite replace_all_from_app.
  - simpl. rewrite lits_no_empty_match; [|done]. apply sapp_nil_r.
  - destruct (String.length w - 1); simpl; by rewrite sapp_nil_r.
Qed.

Lemma replace_all_from_skip p r before m s :
  Regex.replace_all_from p r before (String.length m) (m +:+ s) =
  Regex.replace_all_from p r (String.rev_app m before) 0 s.
Proof.
  revert before. induction m as [|c m IH]; intros before.
  - rewrite sapp_nil_l. simpl. by destruct s.
  - rewrite sapp_cons. simpl. apply IH.
Qed.

(** at a match, the replacement is emitted and the scan resumes behind it *)
Lemma replace_all_from_hit p r before m s :
  m ≠ "" → Regex.match_at p (m +:+ s) = Some (String.length m) →
  Regex.replace_all_from p r before 0 (m +:+ s) =
  Regex.expand r m (String.rev before) s
    +:+ Regex.replace_all_from p r (String.rev_app m before) 0 s.
Proof.
  intros Hm Hat. destruct m as [|c m]; [done|].
  rewrite sapp_cons in *. cbn [Regex.replace_all_from]. rewrite Hat.
  cbn [String.length].
  change (Regex.take (S (String.length m)) (String c (m +:+ s)))
    with (String c (Regex.take (String.length m) (m +:+ s))).
  change (Js.slice (S (String.length m)) (String c (m +:+ s)))
    with (Js.slice (String.length m) (m +:+ s)).
  rewrite take_app_length, slice_app_length.
  f_equal. apply (replace_all_from_skip p r (String c before) m s).
Qed.

Lemma expand_plain r matched before after :
  Js.includes r "$" = false → Regex.expand r matched before after = r.
Proof.
  induction r as [|c r IH]; [done|]. intros Hno.
  apply includes_char_false in Hno as [Hhead Hno].
  specialize (IH Hno). simpl.
  destruct c as [[] [] [] [] [] [] [] []]; try done;
    destruct r as [|d r]; rewrite ?IH; try done.
Qed.

End Scan.

(** ** The base tag *)

Section BaseTag.

Lemma base_tail mid rest :
  Js.includes mid ">" = false →
  Regex.match_at [Regex.Star (Regex.NoneOf [">"%char]); Regex.One (Regex.Lit ">")]
    (mid +:+ ">" +:+ rest) = Some (String.length mid + 1).
Proof.
  induction mid as [|c mid IH]; intros Hno.
  - by destruct rest.
  - apply includes_char_false in Hno as [Hhead Hno].
    rewrite sapp_cons, match_at_star.
    replace (Regex.accepts (Regex.NoneOf [">"%char]) c) with true.
    + by rewrite IH.
    + symmetry. apply bool_decide_eq_true. by intros ->%list_elem_of_singleton.
Qed.

Lemma base_tag_match mid rest :
  Js.includes mid ">" = false →
  Regex.match_at Builder.base_tag ("<base" +:+ mid +:+ ">" +:+ rest)
  = Some (String.length ("<base" +:+ mid +:+ ">")).
Proof.
  intros Hno. unfold Builder.base_tag. rewrite match_lits, startsWith_app_l.
  rewrite slice_app_length, base_tail by done.
  simpl. by rewrite !slength_app.
Qed.

Lemma remove_base_none raw :
  Js.includes raw "<base" = false →
  Regex.replace_first Builder.base_tag "" raw = raw.
Proof.
  intros Hno. unfold Regex.replace_first, Builder.base_tag.
  rewrite <-(sapp_nil_r raw) at 1. rewrite replace_first_from_app.
  - by rewrite sapp_nil_r.
  - simpl. by rewrite sapp_nil_r.
Qed.

Lemma remove_base_first pre mid post :
  Js.includes (pre +:+ "<bas") "<base" = false →
  Js.includes mid ">" = false →
  Regex.replace_first Builder.base_tag ""
    (pre +:+ "<base" +:+ mid +:+ ">" +:+ post) = pre +:+ post.
Proof.
  intros Hpre Hmid. unfold Regex.replace_first.
  unfold Builder.base_tag at 1. rewrite replace_first_from_app.
  - f_equal. fold Builder.base_tag.
    assert (Regex.match_at Builder.base_tag ("<base" +:+ mid +:+ ">" +:+ post)
            = Some (String.length ("<base" +:+ mid +:+ ">"))) as Hat
      by by apply base_tag_match.
    destruct ("<base" +:+ mid +:+ ">" +:+ post) as [|c s] eqn:Hs; [done|].
    cbn [Regex.replace_first_from]. rewrite Hat. rewrite <-Hs.
    replace ("<base" +:+ mid +:+ ">" +:+ post)
      with (("<base" +:+ mid +:+ ">") +:+ post) by by rewrite !sapp_assoc.
    by rewrite slice_app_length.
  - done.
Qed.

End BaseTag.

(** ** The builder leaves the rest of the page alone *)

Section Frame.
Context `{UrlParser}.

Lemma rewrite_asset_passes u rel content refs asset :
  asset ∈ refs → Regex.of_source (originalUrl asset) = Some u →
  rtc (Patched (reference refs)) content (Builder.rewrite_asset u rel content).
Proof.
  intros Hin Hu. unfold Builder.rewrite_asset.
  eapply rtc_l; [|eapply rtc_l; [|eapply rtc_once]];
    (eapply Patched_mono; [|apply replace_all_patched]);
    intros m Hm; exists asset, u; auto.
Qed.

Lemma rewrite_assets_passes pageUrl refs all content out :
  (∀ a, a ∈ refs → a ∈ all) →
  Builder.rewrite_assets pageUrl refs content = Builder.Returns out →
  rtc (Patched (reference all)) content out.
Proof.
  revert content. induction refs as [|asset refs IH]; intros content Hall Hrun.
  - simpl in Hrun. by simplify_eq.
  - simpl in Hrun. destruct (parseURL pageUrl) as [url|]; [|done].
    destruct (Regex.of_source (originalUrl asset)) as [u|] eqn:Hu; [|done].
    etrans.
    + eapply rewrite_asset_passes; [|done]. apply Hall. left.
    + apply IH; [|done]. intros a Ha. apply Hall. by right.
Qed.

Lemma processHtml_passes raw pageUrl manifest out :
  Builder.processHtml raw pageUrl manifest = Builder.Returns out →
  rtc (Patched (reference
                  (from_option Page.assets [] (pages manifest !! pageUrl))))
    (Regex.replace_first Builder.base_tag "" raw) out.
Proof.
  unfold Builder.processHtml.
  destruct (pages manifest !! pageUrl) as [pageInfo|]; simpl.
  - by apply rewrite_assets_passes.
  - intros. by simplify_eq.
Qed.

Lemma processHtml_no_assets raw pageUrl manifest :
  from_option Page.assets [] (pages manifest !! pageUrl) = [] →
  Builder.processHtml raw pageUrl manifest
  = Builder.Returns (Regex.replace_first Builder.base_tag "" raw).
Proof.
  unfold Builder.processHtml.
  destruct (pages manifest !! pageUrl) as [pageInfo|]; simpl; [|done].
  by intros ->.
Qed.

End Frame.

(** C10. [processHtml] first removes the leftmost text of the shape
    [<base ... >] (the letters [<base], then everything up to the next [>])
    and nothing else: a page with no [<base] is returned as it is by this
    step, and in a page that has one, the text before it and all the text
    after its closing [>] (later base tags included) is kept as it is.  The
    rewriting that follows changes only segments that match one of the
    three patterns of an asset of the page; every other character stays in
    place, and a page that is not in the manifest, or has no asset, is
    returned as the first step left it. *)
Theorem processHtml_base_tag_frame `{UrlParser} :
  (∀ raw, Js.includes raw "<base" = false →
     Regex.replace_first Builder.base_tag "" raw = raw) ∧
  (∀ pre mid post,
     Js.includes (pre +:+ "<bas") "<base" = false →
     Js.includes mid ">" = false →
     Regex.replace_first Builder.base_tag ""
       (pre +:+ "<base" +:+ mid +:+ ">" +:+ post) = pre +:+ post) ∧
  (∀ raw pageUrl manifest out,
     Builder.processHtml raw pageUrl manifest = Builder.Returns out →
     rtc (Patched (reference
                     (from_option Page.assets [] (pages manifest !! pageUrl))))
       (Regex.replace_first Builder.base_tag "" raw) out) ∧
  (∀ raw pageUrl manifest,
     from_option Page.assets [] (pages manifest !! pageUrl) = [] →
     Builder.processHtml raw pageUrl manifest
     = Builder.Returns (Regex.replace_first Builder.base_tag "" raw)).
Proof.
  split_and!.
  - apply remove_base_none.
  - apply remove_base_first.
  - apply processHtml_passes.
  - apply processHtml_no_assets.
Qed.

Lemma processHtml_base_tag_frame_witness :
  Regex.replace_first Builder.base_tag ""
    ("<head>" +:+ "<base" +:+ " href='/'" +:+ ">" +:+ "<base target='_blank'><p>")
  = "<head>" +:+ "<base target='_blank'><p>".
Proof.
  destruct (processHtml_base_tag_frame (H := Url.plain)) as (_ & Hfirst & _).
  apply Hfirst; reflexivity.
Defined.

(** ** Rewriting a reference *)

Section Skipping.

Lemma startsWith_sep s e y k :
  Js.includes k (String e "") = false →
  Js.startsWith (s +:+ String e y) k = Js.startsWith s k.
Proof.
  revert s. induction k as [|a k IH]; intros s Hk; [done|].
  apply includes_char_false in Hk as [Hae Hk].
  destruct s as [|c s].
  - rewrite sapp_nil_l. simpl. by rewrite (proj2 (Ascii.eqb_neq a e)) by done.
  - rewrite sapp_cons. simpl. by rewrite IH.
Qed.

(** an occurrence of [k] does not run over a character that [k] has not *)
Lemma includes_sep s e y k :
  k ≠ "" → Js.includes k (String e "") = false →
  Js.includes (s +:+ String e y) k = Js.includes s k || Js.includes y k.
Proof.
  intros Hne Hk. induction s as [|c s IH].
  - rewrite sapp_nil_l. cbn [Js.includes].
    pose proof (startsWith_sep "" e y k Hk) as Hs. rewrite sapp_nil_l in Hs.
    rewrite Hs. by destruct k.
  - rewrite sapp_cons. cbn [Js.includes]. rewrite IH.
    pose proof (startsWith_sep (String c s) e y k Hk) as Hs. rewrite sapp_cons in Hs.
    rewrite Hs. by rewrite orb_assoc.
Qed.

Lemma startsWith_short s k :
  String.length s < String.length k → Js.startsWith s k = false.
Proof.
  revert s. induction k as [|a k IH]; intros s Hlen; simpl in Hlen; [lia|].
  destruct s as [|c s]; [done|]. simpl in *. rewrite IH by lia. apply andb_false_r.
Qed.

Lemma includes_short s k :
  String.length s < String.length k → Js.includes s k = false.
Proof.
  induction s as [|c s IH]; intros Hlen.
  - simpl. by rewrite startsWith_short.
  - cbn [Js.includes]. rewrite startsWith_short by done. simpl in Hlen.
    rewrite IH; [done|lia].
Qed.

Lemma length_take_le n s : String.length (Regex.take n s) ≤ n.
Proof.
  revert s. induction n as [|n IH]; intros [|c s]; simpl; try lia.
  specialize (IH s). lia.
Qed.

(** text in which the literal head of a pattern begins nowhere *)
Lemma skipped_no_keyword w p x rest :
  Js.includes (x +:+ Regex.take (String.length w - 1) rest) w = false →
  skipped (Regex.lits w ++ p) x rest.
Proof.
  induction x as [|c x IH]; intros Hno; [done|].
  rewrite sapp_cons in Hno. apply includes_cons_false in Hno as [Hhead Hno].
  split; [|by apply IH].
  rewrite match_lits, startsWith_window; [done|done|].
  by rewrite sapp_cons.
Qed.

Lemma replace_all_from_skipped p r before t rest :
  skipped p t rest →
  Regex.replace_all_from p r before 0 (t +:+ rest)
  = t +:+ Regex.replace_all_from p r (String.rev_app t before) 0 rest.
Proof.
  revert before. induction t as [|c t IH]; intros before Hs; [done|].
  destruct Hs as [Hhead Hs]. rewrite sapp_cons in *.
  cbn [Regex.replace_all_from]. rewrite Hhead. f_equal. by rewrite IH.
Qed.

End Skipping.

Section Spelling.

Lemma literal_url_cons c url :
  literal_url (String c url) →
  (Ascii.eqb c "." || negb (Regex.syntax_char c) = true) ∧ literal_url url.
Proof. unfold literal_url. cbn [Url.forallb_string]. by intros ?%andb_true_iff. Qed.

Lemma atom_of_literal c :
  Ascii.eqb c "." || negb (Regex.syntax_char c) = true →
  Regex.atom_of c = Some (if Ascii.eqb c "." then Regex.Dot else Regex.Lit c) ∧
  Regex.quantifier c = false.
Proof.
  intros Hc. unfold Regex.atom_of. destruct (Ascii.eqb c ".") eqn:Hdot.
  - apply Ascii.eqb_eq in Hdot as ->. done.
  - simpl in Hc. apply negb_true_iff in Hc. rewrite Hc. split; [done|].
    apply bool_decide_eq_false. intros Hq. apply bool_decide_eq_false in Hc.
    apply Hc. set_solver.
Qed.

(** a literal URL is read as one term for each character *)
Lemma of_source_literal url :
  literal_url url → Regex.of_source url = Some (spelled url).
Proof.
  induction url as [|c url IH]; [done|].
  intros [Hc Hurl]%literal_url_cons. specialize (IH Hurl).
  destruct (atom_of_literal c Hc) as [Ha _].
  cbn [Regex.of_source spelled]. rewrite Ha. simpl.
  destruct url as [|q url']; [done|].
  apply literal_url_cons in Hurl as [Hq _].
  destruct (atom_of_literal q Hq) as [_ ->]. by rewrite IH.
Qed.

(** such a pattern matches its own text *)
Lemma spelled_match url p s :
  Regex.match_at (spelled url ++ p) (url +:+ s)
  = (λ n, String.length url + n) <$> Regex.match_at p s.
Proof.
  induction url as [|c url IH].
  - rewrite sapp_nil_l. simpl. by destruct (Regex.match_at p s).
  - rewrite sapp_cons. cbn [spelled app Regex.match_at].
    replace (Regex.accepts (if Ascii.eqb c "." then Regex.Dot else Regex.Lit c) c)
      with true.
    + rewrite IH. by destruct (Regex.match_at p s).
    + destruct (Ascii.eqb c ".") eqn:Hdot; simpl.
      * apply Ascii.eqb_eq in Hdot as ->. done.
      * by rewrite Ascii.eqb_refl.
Qed.

(** and fails where the text parts from it *)
Lemma spelled_miss url x p rest :
  misses url x = true → Regex.match_at (spelled url ++ p) (x +:+ rest) = None.
Proof.
  revert x. induction url as [|c url IH]; intros [|d x] Hm; try done.
  rewrite sapp_cons. cbn [spelled app Regex.match_at]. cbn [misses] in Hm.
  destruct (Ascii.eqb c ".") eqn:Hdot; simpl in *.
  - destruct (Regex.line_terminator d); simpl in *; [done|]. by rewrite IH.
  - destruct (Ascii.eqb c d); simpl in *; [|done]. by rewrite IH.
Qed.

Lemma unquoted_head url c :
  unquoted url → c ∈ Builder.quote →
  ∃ h url', url = String h url' ∧ h ≠ c.
Proof.
  intros [Hne Hq] Hc. destruct url as [|h url']; [done|].
  exists h, url'. split; [done|].
  specialize (Hq c Hc). apply includes_char_false in Hq as [Hhc _]. congruence.
Qed.

(** the pattern of a URL that begins with neither a dot nor a quote fails
    on a quote *)
Lemma misses_quote url c x :
  unquoted url → Js.startsWith url "." = false → c ∈ Builder.quote →
  misses url (String c x) = true.
Proof.
  intros Hu Hdot Hc. destruct (unquoted_head url c Hu Hc) as (h & url' & -> & Hh).
  cbn [Js.startsWith] in Hdot. rewrite andb_true_r, Ascii.eqb_sym in Hdot.
  cbn [misses]. rewrite Hdot. by rewrite (proj2 (Ascii.eqb_neq h c)).
Qed.

End Spelling.

Section Rewrite.
Context `{UrlParser}.

Lemma quote_accepted c : c ∈ Builder.quote → Regex.accepts (Regex.OneOf Builder.quote) c = true.
Proof. intros Hc. by apply bool_decide_eq_true. Qed.

Lemma attr_match w url q q' post :
  is_quote q → is_quote q' →
  Regex.match_at
    (Regex.lits w ++ [Regex.One (Regex.OneOf Builder.quote)] ++ spelled url
       ++ [Regex.One (Regex.OneOf Builder.quote)])
    ((w +:+ q +:+ url +:+ q') +:+ post)
  = Some (String.length (w +:+ q +:+ url +:+ q')).
Proof.
  intros (c & Hc & ->) (c' & Hc' & ->).
  replace (String.length (w +:+ String c "" +:+ url +:+ String c' ""))
    with (String.length w + S (String.length url + 1))
    by (rewrite !slength_app; simpl; lia).
  rewrite !sapp_assoc, match_lits, startsWith_app_l, slice_app_length.
  rewrite sapp_cons, sapp_nil_l. cbn [app Regex.match_at].
  rewrite quote_accepted by done.
  rewrite spelled_match.
  rewrite sapp_cons, sapp_nil_l. cbn [Regex.match_at].
  by rewrite quote_accepted.
Qed.

Lemma opt_quote_tail q' post :
  q' = "" ∨ is_quote q' →
  Regex.match_at [Regex.Opt (Regex.OneOf Builder.quote); Regex.One (Regex.Lit ")")]
    (q' +:+ ")" +:+ post)
  = Some (String.length q' + 1).
Proof.
  intros [->|(c & Hc & ->)].
  - rewrite sapp_nil_l. by destruct post.
  - rewrite sapp_cons, sapp_nil_l. cbn [Regex.match_at].
    rewrite quote_accepted by done. by destruct post.
Qed.

Lemma url_match url q q' post :
  unquoted url →
  q = "" ∨ is_quote q → q' = "" ∨ is_quote q' →
  Regex.match_at (Builder.url_pattern (spelled url))
    (("url(" +:+ q +:+ url +:+ q' +:+ ")") +:+ post)
  = Some (String.length ("url(" +:+ q +:+ url +:+ q' +:+ ")")).
Proof.
  intros [Hne Hnq] Hq Hq'. unfold Builder.url_pattern.
  rewrite sapp_assoc, match_lits, startsWith_app_l, slice_app_length.
  assert (Regex.match_at
            (spelled url
               ++ [Regex.Opt (Regex.OneOf Builder.quote); Regex.One (Regex.Lit ")")])
            ((url +:+ q' +:+ ")") +:+ post)
          = Some (String.length url + (String.length q' + 1))) as Hrest.
  { rewrite !sapp_assoc, spelled_match. by rewrite opt_quote_tail. }
  replace (String.length ("url(" +:+ q +:+ url +:+ q' +:+ ")"))
    with (4 + (String.length q + (String.length url + (String.length q' + 1))))
    by (rewrite !slength_app; simpl; lia).
  destruct Hq as [->|(c & Hc & ->)].
  - rewrite sapp_nil_l. cbn [app]. cbn [String.length Nat.add].
    destruct url as [|c0 url]; [done|]. rewrite !sapp_cons in *.
    cbn [Regex.match_at].
    replace (Regex.accepts (Regex.OneOf Builder.quote) c0) with false.
    + rewrite Hrest. done.
    + symmetry. apply bool_decide_eq_false. intros Hc0.
      specialize (Hnq c0 Hc0). by apply includes_char_false in Hnq as [? _].
  - rewrite !sapp_assoc, sapp_cons, sapp_nil_l. cbn [app Regex.match_at].
    rewrite quote_accepted by done. rewrite !sapp_assoc in Hrest. rewrite Hrest.
    done.
Qed.

Lemma includes_char_app a b d :
  Js.includes (a +:+ b) (String d "") =
  Js.includes a (String d "") || Js.includes b (String d "").
Proof.
  induction a as [|c a IH].
  - rewrite sapp_nil_l. simpl. by destruct b.
  - rewrite sapp_cons. cbn [Js.includes Js.startsWith]. rewrite IH.
    by rewrite orb_assoc.
Qed.

(** the path the builder writes for an asset: the local path behind one
    [../] for each directory of the page's file name *)
Lemma getRelativePath_depth from to :
  Builder.getRelativePath from to =
  Js.repeat "../" (length (Js.filter_Boolean (Js.split "/" from)) - 1) +:+ to.
Proof.
  unfold Builder.getRelativePath.
  destruct (Z.ltb_spec 0 (Z.of_nat (length (Js.filter_Boolean (Js.split "/" from))) - 1)).
  - do 2 f_equal. lia.
  - replace (length (Js.filter_Boolean (Js.split "/" from)) - 1) with 0 by lia.
    done.
Qed.

Lemma replacement_text_plain pl rel :
  Js.includes rel "$" = false → Js.includes (replacement_text pl rel) "$" = false.
Proof.
  intros Hrel. destruct pl; unfold replacement_text, Builder.dquote;
    by rewrite !includes_char_app, Hrel.
Qed.

(** *** The references of a page, one pattern at a time *)

Lemma place_pattern_lits pl u :
  ∃ p, place_pattern pl u = Regex.lits (keyword pl) ++ p.
Proof. destruct pl; by eexists. Qed.

Lemma keyword_nonempty pl : keyword pl ≠ "".
Proof. by destruct pl. Qed.

(** no keyword has a quote or a closing parenthesis *)
Lemma keyword_sep pl e :
  e ∈ closer → Js.includes (keyword pl) (String e "") = false.
Proof.
  intros He. repeat (apply elem_of_cons in He as [->|He]); [..|by apply elem_of_nil in He];
    by destruct pl.
Qed.

(** and none begins inside the rest of another *)
Lemma keyword_rest pl pl' x :
  Js.includes (Js.slice 1 (keyword pl') +:+ x) (keyword pl) = Js.includes x (keyword pl).
Proof.
  destruct pl, pl'; cbn [keyword Js.slice]; rewrite !sapp_cons, sapp_nil_l;
    cbn [Js.includes Js.startsWith]; by destruct x.
Qed.

Lemma includes_sep_head e y k :
  k ≠ "" → Js.includes k (String e "") = false →
  Js.includes (String e y) k = Js.includes y k.
Proof.
  intros Hne Hk. pose proof (includes_sep "" e y k Hne Hk) as Hs.
  rewrite sapp_nil_l in Hs. rewrite Hs. by destruct k.
Qed.

Lemma keyword_head pl pl' x :
  pl ≠ pl' → Js.startsWith (keyword pl' +:+ x) (keyword pl) = false.
Proof. by destruct pl, pl'. Qed.

Lemma closers_free s y pl :
  closers s = true → Js.includes (s +:+ y) (keyword pl) = Js.includes y (keyword pl).
Proof.
  induction s as [|e s IH]; [done|]. unfold closers. cbn [Url.forallb_string].
  intros [He Hs]%andb_true_iff. apply bool_decide_eq_true in He.
  rewrite sapp_cons, includes_sep_head; [by apply IH|apply keyword_nonempty|].
  by apply keyword_sep.
Qed.

(** inside a reference, stored or built, no keyword begins: it is the rest
    of a keyword, then quotes and parentheses around a text that has no
    keyword *)
Lemma reference_free pl pl' l mid e rt y :
  closers l = true → closers (String e rt) = true →
  Js.includes mid (keyword pl) = false →
  String.length y < String.length (keyword pl) →
  Js.includes
    (Js.slice 1 (keyword pl') +:+ (l +:+ mid +:+ String e rt) +:+ y) (keyword pl)
  = false.
Proof.
  intros Hl Hrt Hmid Hy. rewrite keyword_rest, !sapp_assoc, closers_free by done.
  unfold closers in Hrt. cbn [Url.forallb_string] in Hrt.
  apply andb_true_iff in Hrt as [He Hrt]. apply bool_decide_eq_true in He.
  rewrite sapp_cons, includes_sep, Hmid, closers_free by
    (done || apply keyword_nonempty || by apply keyword_sep).
  by apply includes_short.
Qed.

(** the shape of a reference in the page at work *)
Lemma piece_shape name done r :
  quotes_ok (place_of r) (opening r) (closing r) →
  ∃ l mid e rt,
    piece name done r = keyword (place_of r) +:+ l +:+ mid +:+ String e rt ∧
    closers l = true ∧ closers (String e rt) = true ∧
    ((∃ c, c ∈ Builder.quote ∧ l = String c "") ∨
     (l = "" ∧ place_of r = InUrl ∧ done (place_of r) (target r) = false)) ∧
    mid = (if done (place_of r) (target r)
           then Builder.getRelativePath name (localPath (target r))
           else originalUrl (target r)).
Proof.
  assert (∀ c, c ∈ Builder.quote → closers (String c "") = true) as Hone.
  { intros c Hc. unfold closers. cbn [Url.forallb_string]. rewrite andb_true_r.
    apply bool_decide_eq_true. by right. }
  assert (∀ c, c ∈ Builder.quote → closers (String c ")") = true) as Htwo.
  { intros c Hc. unfold closers. cbn [Url.forallb_string].
    rewrite (bool_decide_eq_true_2 (c ∈ closer)) by by right. done. }
  assert ("034"%char ∈ Builder.quote) as Hdq by by left.
  assert ("'"%char ∈ Builder.quote) as Hsq by (right; by left).
  intros Hq. unfold piece, built, stored.
  destruct (done (place_of r) (target r)) eqn:Hdone.
  - destruct (place_of r); unfold replacement_text, Builder.dquote.
    + exists (String "034" ""), (Builder.getRelativePath name (localPath (target r))),
        "034"%char, "". split_and!; eauto.
    + exists (String "034" ""), (Builder.getRelativePath name (localPath (target r))),
        "034"%char, "". split_and!; eauto.
    + exists "'", (Builder.getRelativePath name (localPath (target r))),
        "'"%char, ")". split_and!; eauto.
  - destruct (place_of r) eqn:Hpl; unfold reference_text, keyword; simpl in Hq.
    + destruct Hq as [(c & Hc & ->) (c' & Hc' & ->)].
      exists (String c ""), (originalUrl (target r)), c', "". split_and!; eauto.
    + destruct Hq as [(c & Hc & ->) (c' & Hc' & ->)].
      exists (String c ""), (originalUrl (target r)), c', "". split_and!; eauto.
    + destruct Hq as [Hq Hq'].
      assert (∃ e rt, closing r +:+ ")" = String e rt ∧ closers (String e rt) = true)
        as (e & rt & Heq & Hcl).
      { destruct Hq' as [->|(c' & Hc' & ->)]; [by exists ")"%char, ""|].
        exists c', ")". split; [done|by apply Htwo]. }
      exists (opening r), (originalUrl (target r)), e, rt. rewrite <-Heq.
      split_and!; try done.
      * destruct Hq as [->|(c & Hc & ->)]; [done|by apply Hone].
      * by rewrite Heq.
      * destruct Hq as [->|(c & Hc & ->)]; [by right|left; eauto].
Qed.

(** at a reference to another asset, or at a built one, the pattern
    fails behind the keyword *)
Lemma head_fail pl url l mid e rt rest :
  (∃ c, c ∈ Builder.quote ∧ l = String c "") ∨
  (l = "" ∧ pl = InUrl ∧ ∃ h mid', mid = String h mid' ∧ h ∉ Builder.quote) →
  misses url mid = true →
  (∀ c x, c ∈ Builder.quote → misses url (String c x) = true) →
  Regex.match_at (place_pattern pl (spelled url))
    ((keyword pl +:+ l +:+ mid +:+ String e rt) +:+ rest) = None.
Proof.
  intros Hl Hmid Hquote.
  assert (∀ p, Regex.match_at (spelled url ++ p) ((mid +:+ String e rt) +:+ rest) = None)
    as Hmiss by (intros p; rewrite sapp_assoc; by apply spelled_miss).
  assert (∀ p c x, c ∈ Builder.quote →
            Regex.match_at (spelled url ++ p) (String c x) = None) as Hq.
  { intros p c x Hc. rewrite <-(sapp_nil_r (String c x)). apply spelled_miss.
    by apply Hquote. }
  destruct pl; cbn [place_pattern keyword].
  - destruct Hl as [(c & Hc & ->)|(_ & ? & _)]; [|done].
    unfold Builder.src_pattern.
    rewrite sapp_assoc, match_lits, startsWith_app_l, slice_app_length.
    rewrite sapp_assoc, sapp_cons, sapp_nil_l. cbn [app Regex.match_at].
    rewrite quote_accepted by done. by rewrite Hmiss.
  - destruct Hl as [(c & Hc & ->)|(_ & ? & _)]; [|done].
    unfold Builder.href_pattern.
    rewrite sapp_assoc, match_lits, startsWith_app_l, slice_app_length.
    rewrite sapp_assoc, sapp_cons, sapp_nil_l. cbn [app Regex.match_at].
    rewrite quote_accepted by done. by rewrite Hmiss.
  - unfold Builder.url_pattern.
    rewrite sapp_assoc, match_lits, startsWith_app_l, slice_app_length.
    destruct Hl as [(c & Hc & ->)|(-> & _ & h & mid' & -> & Hh)].
    + rewrite sapp_assoc, sapp_cons, sapp_nil_l. cbn [app Regex.match_at].
      rewrite quote_accepted by done. rewrite Hmiss. by rewrite Hq.
    + rewrite sapp_nil_l. specialize (Hmiss
        [Regex.Opt (Regex.OneOf Builder.quote); Regex.One (Regex.Lit ")")]).
      rewrite !sapp_cons in *. cbn [app Regex.match_at].
      replace (Regex.accepts (Regex.OneOf Builder.quote) h) with false;
        [by rewrite Hmiss|].
      symmetry. by apply bool_decide_eq_false.
Qed.

(** a reference that is not for the pattern at hand is passed over: one to
    another asset, one at another place, one that is built already *)
Lemma piece_skipped name refs done pl b r rest :
  (∀ a, a ∈ refs → rewritable name refs a) →
  b ∈ refs → target r ∈ refs →
  quotes_ok (place_of r) (opening r) (closing r) →
  ¬ (done (place_of r) (target r) = false ∧ place_of r = pl ∧ target r = b) →
  skipped (place_pattern pl (spelled (originalUrl b))) (piece name done r) rest.
Proof.
  intros Hrefs Hb Ha Hq Hother.
  destruct (Hrefs _ Ha) as (_ & Hunq & _ & Hkw & _ & Hrelkw & Hrel & Hurl).
  destruct (Hrefs _ Hb) as (_ & Hunqb & Hdotb & _).
  destruct (piece_shape name done r Hq) as (l & mid & e & rt & -> & Hl & Hrt & Hlq & Hmid).
  assert (Js.includes mid (keyword pl) = false) as Hfree.
  { rewrite Hmid. by destruct (done (place_of r) (target r)). }
  destruct (place_pattern_lits pl (spelled (originalUrl b))) as [p Hp].
  assert (keyword (place_of r) +:+ l +:+ mid +:+ String e rt
          = String (match place_of r with InSrc => "s" | InHref => "h" | InUrl => "u" end)
              (Js.slice 1 (keyword (place_of r)) +:+ l +:+ mid +:+ String e rt))%char
    as Hcons by by destruct (place_of r).
  rewrite Hcons. split.
  - rewrite <-Hcons. clear Hcons.
    destruct (decide (pl = place_of r)) as [->|Hpl].
    + apply head_fail.
      * destruct Hlq as [?|(-> & Hin & Hd)]; [by left|right]. split_and!; try done.
        rewrite Hd in Hmid. subst mid.
        destruct (originalUrl (target r)) as [|h mid'] eqn:Hu; [by destruct Hunq|].
        exists h, mid'. split; [done|]. intros Hh. destruct Hunq as [_ Hunq].
        specialize (Hunq h Hh). by apply includes_char_false in Hunq as [? _].
      * rewrite Hmid. destruct (done (place_of r) (target r)) eqn:Hd; [by apply Hrel|].
        apply Hurl; [done|]. intros ->. by apply Hother.
      * intros c x Hc. by apply misses_quote.
    + rewrite Hp, match_lits, sapp_assoc, keyword_head; done.
  - rewrite Hp. apply skipped_no_keyword.
    rewrite (sapp_assoc (Js.slice 1 _)). apply reference_free; try done.
    pose proof (length_take_le (String.length (keyword pl) - 1) rest).
    pose proof (keyword_nonempty pl). destruct (keyword pl); [done|]. simpl in *. lia.
Qed.

(** a reference for the pattern at hand is matched whole *)
Lemma piece_hit name refs done r rest :
  rewritable name refs (target r) →
  quotes_ok (place_of r) (opening r) (closing r) →
  done (place_of r) (target r) = false →
  piece name done r ≠ "" ∧
  Regex.match_at (place_pattern (place_of r) (spelled (originalUrl (target r))))
    (piece name done r +:+ rest)
  = Some (String.length (piece name done r)).
Proof.
  intros (_ & Hunq & _) Hq Hd. unfold piece, stored. rewrite Hd.
  destruct (place_of r); simpl in Hq; destruct Hq as [Hq Hq'];
    cbn [place_pattern reference_text keyword]; (split; [done|]).
  - by apply attr_match.
  - by apply attr_match.
  - by apply url_match.
Qed.

Lemma piece_head name done r :
  ∃ x, piece name done r = keyword (place_of r) +:+ x.
Proof.
  unfold piece, built, stored.
  destruct (done (place_of r) (target r)), (place_of r); by eexists.
Qed.

(** one global replacement rewrites the references it is for, and nothing
    else *)
Lemma pass name refs pl b done cut tail before :
  (∀ a, a ∈ refs → rewritable name refs a) → b ∈ refs →
  cut_for refs cut tail →
  Regex.replace_all_from (place_pattern pl (spelled (originalUrl b)))
    (replacement_text pl (Builder.getRelativePath name (localPath b)))
    before 0 (mixed_page name done cut tail)
  = mixed_page name (mark pl b done) cut tail.
Proof.
  intros Hrefs Hb. destruct (Hrefs _ Hb) as (Hlit & _ & _ & _ & Hdollar & _).
  pose proof (of_source_literal _ Hlit) as Hu.
  revert before. induction cut as [|[t r] cut IH]; intros before Hcut.
  - cbn [mixed_page cut_for] in *. specialize (Hcut b _ pl "" Hb Hu).
    rewrite <-(sapp_nil_r tail) at 1. rewrite replace_all_from_skipped by done.
    destruct (place_pattern_lits pl (spelled (originalUrl b))) as [p ->].
    cbn [Regex.replace_all_from]. rewrite lits_no_empty_match by apply keyword_nonempty.
    apply sapp_nil_r.
  - destruct Hcut as (Ht & Hr & Hq & Hcut). cbn [mixed_page].
    destruct (piece_head name done r) as [x Hx].
    rewrite replace_all_from_skipped.
    2:{ rewrite Hx, sapp_assoc. by apply (Ht b _ pl). }
    f_equal.
    destruct (decide (done (place_of r) (target r) = false
                      ∧ place_of r = pl ∧ target r = b)) as [(Hd & Hpl & Hab)|Hother].
    + destruct (piece_hit name refs done r (mixed_page name done cut tail))
        as [Hne Hat]; [by apply Hrefs|done..|].
      rewrite Hpl, Hab in Hat. rewrite replace_all_from_hit by done.
      rewrite expand_plain by by apply replacement_text_plain.
      rewrite IH by done. f_equal.
      unfold piece, mark, built. rewrite Hd, Hpl, Hab.
      by rewrite !bool_decide_eq_true_2.
    + rewrite replace_all_from_skipped by by eapply piece_skipped.
      rewrite IH by done. f_equal.
      unfold piece, mark. destruct (done (place_of r) (target r)) eqn:Hd; [done|].
      simpl. destruct (decide (place_of r = pl)) as [Hpl|Hpl].
      * rewrite (bool_decide_eq_false_2 (target r = b)); [by rewrite andb_false_r|].
        intros Hab. by apply Hother.
      * by rewrite (bool_decide_eq_false_2 (place_of r = pl)).
Qed.

Lemma mixed_page_ext name done done' cut tail :
  (∀ pl a, done pl a = done' pl a) →
  mixed_page name done cut tail = mixed_page name done' cut tail.
Proof.
  intros Hext. induction cut as [|[t r] cut IH]; [done|].
  cbn [mixed_page]. unfold piece. by rewrite Hext, IH.
Qed.

(** the three replacements for one asset *)
Lemma rewrite_asset_mixed name refs b done cut tail :
  (∀ a, a ∈ refs → rewritable name refs a) → b ∈ refs →
  cut_for refs cut tail →
  Builder.rewrite_asset (spelled (originalUrl b))
    (Builder.getRelativePath name (localPath b)) (mixed_page name done cut tail)
  = mixed_page name (λ pl a, done pl a || bool_decide (a = b)) cut tail.
Proof.
  intros Hrefs Hb Hcut. unfold Builder.rewrite_asset, Regex.replace_all.
  change (Builder.src_pattern ?u) with (place_pattern InSrc u).
  change (Builder.href_pattern ?u) with (place_pattern InHref u).
  change (Builder.url_pattern ?u) with (place_pattern InUrl u).
  change ("src=" +:+ Builder.dquote +:+ ?x +:+ Builder.dquote)
    with (replacement_text InSrc x).
  change ("href=" +:+ Builder.dquote +:+ ?x +:+ Builder.dquote)
    with (replacement_text InHref x).
  change ("url('" +:+ ?x +:+ "')") with (replacement_text InUrl x).
  rewrite (pass name refs InSrc b done cut tail "" Hrefs Hb Hcut).
  rewrite (pass name refs InHref b _ cut tail "" Hrefs Hb Hcut).
  rewrite (pass name refs InUrl b _ cut tail "" Hrefs Hb Hcut).
  apply mixed_page_ext. intros pl a. unfold mark.
  destruct (done pl a); [done|]. simpl.
  destruct (bool_decide (a = b)); [|by rewrite !andb_false_r].
  rewrite !andb_true_r. by destruct pl.
Qed.

(** the loop over the assets of the record *)
Lemma rewrite_assets_mixed pageUrl U refs todo done cut tail :
  let name := Builder.fileName (pathname U) in
  parseURL pageUrl = Some U →
  (∀ a, a ∈ refs → rewritable name refs a) →
  (∀ a, a ∈ todo → a ∈ refs) →
  cut_for refs cut tail →
  Builder.rewrite_assets pageUrl todo (mixed_page name done cut tail)
  = Builder.Returns
      (mixed_page name (λ pl a, done pl a || bool_decide (a ∈ todo)) cut tail).
Proof.
  intros name HU Hrefs Htodo Hcut. revert done.
  induction todo as [|b todo IH]; intros done.
  - cbn [Builder.rewrite_assets]. f_equal. apply mixed_page_ext. intros pl a.
    cbv beta. rewrite bool_decide_eq_false_2; [by rewrite orb_false_r|].
    apply not_elem_of_nil.
  - assert (b ∈ refs) as Hb by (apply Htodo; by left).
    destruct (Hrefs _ Hb) as (Hlit & _).
    cbn [Builder.rewrite_assets]. rewrite HU, (of_source_literal _ Hlit).
    fold name. rewrite (rewrite_asset_mixed name refs) by done.
    rewrite IH by (intros a Ha; apply Htodo; by right).
    f_equal. apply mixed_page_ext. intros pl a. cbv beta.
    rewrite <-orb_assoc. f_equal.
    destruct (decide (a = b)) as [->|Hab].
    + rewrite (bool_decide_eq_true_2 (b = b)) by done.
      by rewrite (bool_decide_eq_true_2 (b ∈ b :: todo)) by by left.
    + rewrite (bool_decide_eq_false_2 (a = b)) by done. simpl.
      apply bool_decide_ext. rewrite elem_of_cons. naive_solver.
Qed.

Lemma mixed_page_none name cut tail :
  mixed_page name (λ _ _, false) cut tail = stored_page cut tail.
Proof. induction cut as [|[t r] cut IH]; [done|]. cbn. by rewrite IH. Qed.

Lemma mixed_page_all name refs done cut tail :
  cut_for refs cut tail → (∀ pl a, a ∈ refs → done pl a = true) →
  mixed_page name done cut tail = built_page name cut tail.
Proof.
  intros Hcut Hdone. induction cut as [|[t r] cut IH]; [done|].
  destruct Hcut as (_ & Hr & _ & Hcut).
  cbn [mixed_page built_page]. unfold piece. by rewrite Hdone, IH.
Qed.

(** A page that is, once its base tag is removed, a run of references to
    assets of its record between stretches of text that are passed over:
    every reference is rewritten. *)
Lemma processHtml_rewrites_every_reference manifest pageUrl pageInfo U raw cut tail :
  let name := Builder.fileName (pathname U) in
  pages manifest !! pageUrl = Some pageInfo →
  parseURL pageUrl = Some U →
  (∀ a, a ∈ Page.assets pageInfo → rewritable name (Page.assets pageInfo) a) →
  cut_for (Page.assets pageInfo) cut tail →
  Regex.replace_first Builder.base_tag "" raw = stored_page cut tail →
  Builder.processHtml raw pageUrl manifest
  = Builder.Returns (built_page name cut tail).
Proof.
  intros name Hpage HU Hrefs Hcut Hraw. unfold Builder.processHtml.
  rewrite Hpage, Hraw, <-(mixed_page_none name).
  rewrite (rewrite_assets_mixed pageUrl U (Page.assets pageInfo)) by done.
  fold name. f_equal. apply (mixed_page_all name (Page.assets pageInfo)); [done|].
  intros pl a Ha. by apply bool_decide_eq_true.
Qed.

End Rewrite.

Section Passing.

Lemma take_keyword pl pl' rest :
  Regex.take (String.length (keyword pl) - 1) (keyword pl' +:+ rest)
  = Regex.take (String.length (keyword pl) - 1) (keyword pl').
Proof. by destruct pl, pl'. Qed.

(** a keyword does not begin in the text before a reference and end in
    the keyword of the reference *)
Lemma keyword_straddle pl pl' t :
  Js.includes t (keyword pl) = false →
  Js.includes (t +:+ Regex.take (String.length (keyword pl) - 1) (keyword pl'))
    (keyword pl) = false.
Proof.
  induction t as [|c t IH]; intros Hno.
  - by destruct pl, pl'.
  - apply includes_cons_false in Hno as [Hhead Hno]. specialize (IH Hno).
    rewrite sapp_cons. cbn [Js.includes]. rewrite IH, orb_false_r. clear IH Hno.
    destruct pl, pl'; cbn [keyword String.length Nat.sub Regex.take] in *;
      destruct t as [|c1 [|c2 [|c3 [|c4 t]]]];
      rewrite ?sapp_cons, ?sapp_nil_l; cbn [Js.startsWith] in *;
      rewrite ?andb_true_r, ?andb_false_r in *; try done;
      repeat match goal with
             | |- context [Ascii.eqb ?a ?b] =>
                 lazymatch b with
                 | Ascii _ _ _ _ _ _ _ _ => change (Ascii.eqb a b) with false
                 end
             end;
      rewrite ?andb_false_r; try done.
Qed.

(** text in which no keyword stands is passed over *)
Lemma keyword_free_passed_over refs t next :
  (∀ pl, Js.includes t (keyword pl) = false) → passed_over refs t next.
Proof.
  intros Hfree a u pl rest _ _.
  destruct (place_pattern_lits pl u) as [p ->]. apply skipped_no_keyword.
  specialize (Hfree pl). destruct next as [pl'|].
  - rewrite take_keyword. by apply keyword_straddle.
  - destruct (String.length (keyword pl) - 1); simpl; by rewrite sapp_nil_r.
Qed.

End Passing.

Lemma quoted_example : quotes_ok InSrc "'" "'".
Proof. split; exists "'"%char; split; try done; set_solver. Qed.

Lemma x_png_rewritable name :
  Js.includes (Builder.getRelativePath name "assets/x.png") "$" = false →
  (∀ pl, Js.includes (Builder.getRelativePath name "assets/x.png") (keyword pl) = false) →
  misses "https://cdn/x.png" (Builder.getRelativePath name "assets/x.png") = true →
  ∀ a, a ∈ [x_png] → rewritable name [x_png] a.
Proof.
  intros Hdollar Hkw Hmiss a ->%list_elem_of_singleton. unfold rewritable.
  split_and!; try done.
  - split; [done|]. intros c Hc.
    repeat (apply elem_of_cons in Hc as [->|Hc]); [done..|by apply elem_of_nil in Hc].
  - by intros [].
  - by intros b ->%list_elem_of_singleton.
  - by intros b ->%list_elem_of_singleton.
Qed.

Lemma img_cut :
  cut_for [x_png]
    [("<img ", {| place_of := InSrc; opening := "'"; closing := "'"; target := x_png |})]
    ">".
Proof.
  split_and!.
  - apply keyword_free_passed_over. by intros [].
  - by left.
  - apply quoted_example.
  - apply keyword_free_passed_over. by intros [].
Qed.

(** the two pages of the example, through the general lemma *)
Lemma processHtml_img `{UrlParser} pageUrl path :
  pathname <$> parseURL pageUrl = Some path →
  let rel := Builder.getRelativePath (Builder.fileName path) "assets/x.png" in
  Js.includes rel "$" = false →
  (∀ pl, Js.includes rel (keyword pl) = false) →
  misses "https://cdn/x.png" rel = true →
  Builder.processHtml img_x_png pageUrl (one_page pageUrl [x_png])
  = Builder.Returns (img rel).
Proof.
  intros Hp rel Hdollar Hkw Hmiss.
  destruct (parseURL pageUrl) as [U|] eqn:HU; [|done]. simpl in Hp. simplify_eq.
  change (img rel)
    with (built_page (Builder.fileName (pathname U))
            [("<img ", {| place_of := InSrc; opening := "'"; closing := "'";
                          target := x_png |})] ">").
  apply (processHtml_rewrites_every_reference (one_page pageUrl [x_png]) pageUrl _ U
           img_x_png _ ">" (lookup_singleton_eq _ _) HU).
  - by apply x_png_rewritable.
  - apply img_cut.
  - done.
Qed.

(** C2 (as amended).  For each asset in the page's record the builder
    replaces the asset's URL where it stands as a quoted [src] or [href]
    value or inside [url(...)], the URL being read as a pattern; the
    replacement is the asset's local path behind one [../] for each
    directory of the page's output file name (one less than the number of
    its segments).  Take a page that, once its base tag is removed, is a
    run of such references to assets of its record, between stretches of
    text that no pattern of the record matches from inside (text without
    [src=], [href=] and [url(] is such text), and a record whose assets
    have literal URLs that the patterns tell apart: the page comes out
    with every reference on the relative path of its asset and every other
    character as it was.  The page [/cases] is written to the file [cases],
    which lies in no directory: its reference to [assets/x.png] becomes
    [assets/x.png], and no occurrence of the URL remains; the page [/cases/]
    is written to [cases/index.html] and gets [../assets/x.png].  A URL
    with a query string is a pattern that does not match its own text (the
    question mark makes the character before it optional): the reference
    stays as it was.  An asset that is not in the page's record is not
    looked for: a page with an empty record keeps every URL. *)
Theorem processHtml_rewrites_by_directory_depth `{UrlParser} :
  (∀ from to,
     Builder.getRelativePath from to =
     Js.repeat "../" (length (Js.filter_Boolean (Js.split "/" from)) - 1) +:+ to) ∧
  (∀ manifest pageUrl pageInfo U raw cut tail,
     let name := Builder.fileName (pathname U) in
     pages manifest !! pageUrl = Some pageInfo →
     parseURL pageUrl = Some U →
     (∀ a, a ∈ Page.assets pageInfo → rewritable name (Page.assets pageInfo) a) →
     cut_for (Page.assets pageInfo) cut tail →
     Regex.replace_first Builder.base_tag "" raw = stored_page cut tail →
     Builder.processHtml raw pageUrl manifest
     = Builder.Returns (built_page name cut tail)) ∧
  (∀ refs t next,
     (∀ pl, Js.includes t (keyword pl) = false) → passed_over refs t next) ∧
  (pathname <$> parseURL "https://apply.agency/cases" = Some "/cases" →
   Builder.processHtml img_x_png "https://apply.agency/cases"
     (one_page "https://apply.agency/cases" [x_png])
   = Builder.Returns (img "assets/x.png") ∧
   Js.includes (img "assets/x.png") "https://cdn/x.png" = false) ∧
  (pathname <$> parseURL "https://apply.agency/cases/" = Some "/cases/" →
   Builder.processHtml img_x_png "https://apply.agency/cases/"
     (one_page "https://apply.agency/cases/" [x_png])
   = Builder.Returns (img "../assets/x.png")) ∧
  (pathname <$> parseURL "https://apply.agency/cases/" = Some "/cases/" →
   Builder.processHtml "<script src='https://cdn/a.js?v=1'></script>"
     "https://apply.agency/cases/" (one_page "https://apply.agency/cases/" [a_js])
   = Builder.Returns "<script src='https://cdn/a.js?v=1'></script>") ∧
  (∀ raw pageUrl manifest,
     from_option Page.assets [] (pages manifest !! pageUrl) = [] →
     Builder.processHtml raw pageUrl manifest
     = Builder.Returns (Regex.replace_first Builder.base_tag "" raw)).
Proof.
  split_and!.
  - apply getRelativePath_depth.
  - intros. by eapply processHtml_rewrites_every_reference.
  - apply keyword_free_passed_over.
  - intros Hp. split; [|done].
    apply (processHtml_img "https://apply.agency/cases" "/cases" Hp); try done.
    by intros [].
  - intros Hp.
    apply (processHtml_img "https://apply.agency/cases/" "/cases/" Hp); try done.
    by intros [].
  - intros Hp.
    destruct (parseURL "https://apply.agency/cases/") as [[host path]|] eqn:HU; [|done].
    simpl in Hp. simplify_eq. unfold Builder.processHtml, one_page.
    cbn [pages]. rewrite lookup_singleton_eq. cbn [Page.assets Builder.rewrite_assets].
    rewrite HU. vm_compute. reflexivity.
  - apply processHtml_no_assets.
Qed.

Lemma processHtml_rewrites_by_directory_depth_witness :
  Builder.processHtml (H := Url.plain) two_assets_page "https://apply.agency/work/cases"
    (one_page "https://apply.agency/work/cases" [x_png; site_css])
  = Builder.Returns
      ("<link rel='stylesheet' " +:+ replacement_text InHref "../assets/site.css"
       +:+ "><a href='/'>Home</a><img " +:+ replacement_text InSrc "../assets/x.png"
       +:+ "><p style='background:" +:+ replacement_text InUrl "../assets/x.png"
       +:+ "'></p>").
Proof.
  destruct (processHtml_rewrites_by_directory_depth (H := Url.plain))
    as (_ & Hall & _).
  refine (Hall (one_page "https://apply.agency/work/cases" [x_png; site_css])
            "https://apply.agency/work/cases" _
            {| hostname := "apply.agency"; pathname := "/work/cases" |}
            two_assets_page two_assets_cut "'></p>" _ _ _ _ _).
  - reflexivity.
  - reflexivity.
  - intros a Ha.
    assert (a = x_png ∨ a = site_css) as [-> | ->].
    { apply elem_of_cons in Ha as [->|Ha]; [by left|].
      apply list_elem_of_singleton in Ha as ->. by right. }
    + unfold rewritable. split_and!; try reflexivity.
      * split; [discriminate|]. intros c Hc.
        apply elem_of_cons in Hc as [->|Hc]; [reflexivity|].
        apply list_elem_of_singleton in Hc as ->. reflexivity.
      * intros []; reflexivity.
      * intros []; reflexivity.
      * intros b Hb. apply elem_of_cons in Hb as [->|Hb]; [reflexivity|].
        apply list_elem_of_singleton in Hb as ->. reflexivity.
      * intros b Hb Hne. apply elem_of_cons in Hb as [->|Hb]; [by destruct Hne|].
        apply list_elem_of_singleton in Hb as ->. reflexivity.
    + unfold rewritable. split_and!; try reflexivity.
      * split; [discriminate|]. intros c Hc.
        apply elem_of_cons in Hc as [->|Hc]; [reflexivity|].
        apply list_elem_of_singleton in Hc as ->. reflexivity.
      * intros []; reflexivity.
      * intros []; reflexivity.
      * intros b Hb. apply elem_of_cons in Hb as [->|Hb]; [reflexivity|].
        apply list_elem_of_singleton in Hb as ->. reflexivity.
      * intros b Hb Hne. apply elem_of_cons in Hb as [->|Hb]; [reflexivity|].
        apply list_elem_of_singleton in Hb as ->. by destruct Hne.
  - assert (∀ t next,
              (∀ u pl rest, u = spelled "https://cdn/x.png" ∨ u = spelled "https://cdn/site.css" →
                 skipped (place_pattern pl u) t
                   (match next with Some pl' => keyword pl' +:+ rest | None => "" end)) →
              passed_over [x_png; site_css] t next) as Hpass.
    { intros t next Hskip a u pl rest Ha Hu. apply Hskip.
      apply elem_of_cons in Ha as [->|Ha].
      - left. vm_compute in Hu. by injection Hu as <-.
      - apply list_elem_of_singleton in Ha as ->. right. vm_compute in Hu.
        by injection Hu as <-. }
    assert (is_quote "'") as Hsq by (exists "'"%char; split; [right; by left|reflexivity]).
    unfold two_assets_cut. cbn [cut_for place_of opening closing target quotes_ok].
    split_and!;
      try (apply Hpass; intros u [] rest [-> | ->]; vm_compute; repeat split);
      try exact Hsq; try (by left); try (right; by left).
  - vm_compute. reflexivity.
Defined.

(** C2 (as stated) fails on its own example.  The page [/cases], whose asset
    [https://cdn/x.png] is stored at [assets/x.png], comes out with
    [assets/x.png] and without [../assets/x.png]; and an occurrence of the
    URL outside an attribute or [url(...)] is still there afterwards. *)
Lemma cases_page_gets_no_parent_prefix :
  (∃ out,
     Builder.processHtml (H := Url.plain) img_x_png "https://apply.agency/cases"
       (one_page "https://apply.agency/cases" [x_png]) = Builder.Returns out ∧
     Js.includes out "../assets/x.png" = false) ∧
  (∃ out,
     Builder.processHtml (H := Url.plain) "<p>https://cdn/x.png</p>"
       "https://apply.agency/cases"
       (one_page "https://apply.agency/cases" [x_png]) = Builder.Returns out ∧
     Js.includes out "https://cdn/x.png" = true).
Proof.
  split.
  - exists (img "assets/x.png"). split; vm_compute; reflexivity.
  - exists "<p>https://cdn/x.png</p>". split; vm_compute; reflexivity.
Qed.

(** ** Paths *)

Section Paths.

Lemma endsWith_spec s p : Js.endsWith s p = true ↔ ∃ pre, s = pre +:+ p.
Proof.
  induction s as [|c s IH]; cbn [Js.endsWith].
  - rewrite orb_false_r, String.eqb_eq. split.
    + intros <-. by exists "".
    + intros [[|x pre] Hp]; [done|by rewrite sapp_cons in Hp].
  - rewrite orb_true_iff, String.eqb_eq, IH. split.
    + intros [<-|[pre ->]]; [by exists ""|by exists (String c pre)].
    + intros [[|x pre] Hp]; [by left|]. rewrite sapp_cons in Hp. simplify_eq. eauto.
Qed.

Lemma split_nonempty sep s : Js.split sep s ≠ [].
Proof.
  destruct s as [|c s]; [done|]. simpl.
  destruct (Ascii.eqb c sep); [done|]. by destruct (Js.split sep s).
Qed.

Lemma split_no_sep seg : Js.includes seg "/" = false → Js.split "/" seg = [seg].
Proof.
  induction seg as [|c seg IH]; [done|]. intros [Hc Hno]%includes_char_false.
  simpl. rewrite IH by done.
  destruct (Ascii.eqb_spec c "/") as [->|_]; done.
Qed.

Lemma split_app seg rest :
  Js.includes seg "/" = false →
  Js.split "/" (seg +:+ "/" +:+ rest) = seg :: Js.split "/" rest.
Proof.
  induction seg as [|c seg IH]; [done|]. intros [Hc Hno]%includes_char_false.
  rewrite sapp_cons. simpl. rewrite IH by done.
  destruct (Ascii.eqb_spec c "/") as [->|_]; done.
Qed.

Lemma split_join (L : list string) :
  L ≠ [] → Forall (λ seg, Js.includes seg "/" = false) L →
  Js.split "/" (Js.join "/" L) = L.
Proof.
  induction L as [|x [|y L] IH]; intros Hne HL; [done|..].
  - apply split_no_sep. by inversion HL.
  - inversion HL; subst. cbn [Js.join]. rewrite split_app by done.
    f_equal. by apply IH.
Qed.

Lemma join_snoc (L : list string) x :
  L ≠ [] → Js.join "/" (L ++ [x]) = Js.join "/" L +:+ "/" +:+ x.
Proof.
  induction L as [|a [|b L] IH]; intros Hne; [done|done|].
  change (Js.join "/" ((a :: b :: L) ++ [x]))
    with (a +:+ "/" +:+ Js.join "/" ((b :: L) ++ [x])).
  rewrite IH by done.
  change (Js.join "/" (a :: b :: L)) with (a +:+ "/" +:+ Js.join "/" (b :: L)).
  by rewrite !sapp_assoc.
Qed.

Lemma split_trailing_slash pre :
  ∃ X, X ≠ [] ∧ Js.split "/" (pre +:+ "/") = X ++ [""].
Proof.
  induction pre as [|c pre (X & HX & IH)].
  - by exists [""].
  - rewrite sapp_cons. simpl. rewrite IH. destruct (Ascii.eqb c "/").
    + by exists ("" :: X).
    + destruct X as [|h X]; [done|]. by exists (String c h :: X).
Qed.

Lemma join_no_trailing_slash (L : list string) :
  L ≠ [] → Forall (λ seg, Js.includes seg "/" = false) L → List.last L "" ≠ "" →
  Js.endsWith (Js.join "/" L) "/" = false.
Proof.
  intros Hne HL Hlast. apply not_true_is_false. intros [pre Hp]%endsWith_spec.
  destruct (split_trailing_slash pre) as (X & HX & Hs).
  rewrite <-Hp, split_join in Hs by done. subst L.
  by rewrite last_last in Hlast.
Qed.

Lemma normalizeSegments_plain b (segs tail acc : list string) :
  Forall plain_segment segs →
  Path.normalizeSegments b (segs ++ tail) acc
  = Path.normalizeSegments b tail (rev segs ++ acc).
Proof.
  revert acc. induction segs as [|seg segs IH]; intros acc Hsegs; [done|].
  inversion Hsegs as [|?? (H1 & H2 & H3 & H4) Hrest]; subst.
  cbn [app Path.normalizeSegments].
  rewrite decide_False by (intros [|]; done).
  rewrite decide_False by done.
  rewrite IH by done. cbn [rev]. by rewrite <-app_assoc.
Qed.

Lemma plain_no_slash (segs : list string) :
  Forall plain_segment segs → Forall (λ seg, Js.includes seg "/" = false) segs.
Proof. intros Hs. eapply Forall_impl; [done|]. by intros seg (_ & _ & _ & ?). Qed.

Lemma filter_Boolean_plain (segs : list string) :
  Forall plain_segment segs → Js.filter_Boolean segs = segs.
Proof.
  induction 1 as [|seg segs (H1 & _) _ IH]; [done|].
  unfold Js.filter_Boolean in *. rewrite filter_cons_True by done. by rewrite IH.
Qed.

Lemma plain_downloaded_site : plain_segment "downloaded_site".
Proof. by repeat split. Qed.

Lemma plain_index_html : plain_segment "index.html".
Proof. by repeat split. Qed.

Lemma join_nonempty (segs : list string) x :
  plain_segment x → Js.join "/" (x :: segs) ≠ "".
Proof. intros (Hx & _). destruct x; [done|]. by destruct segs. Qed.

Lemma normalizeSegments_kept b (L acc : list string) :
  Forall (λ seg, seg ≠ "..") L →
  Path.normalizeSegments b L acc = rev acc ++ kept L.
Proof.
  revert acc. induction L as [|seg L IH]; intros acc HL.
  - simpl. by rewrite app_nil_r.
  - inversion HL; subst. cbn [Path.normalizeSegments]. unfold kept.
    destruct (decide (seg = "" ∨ seg = ".")) as [Hskip|Hkeep].
    + rewrite filter_cons_False by tauto. by apply IH.
    + rewrite filter_cons_True by done. rewrite decide_False by done.
      rewrite IH by done. cbn [rev]. by rewrite <-app_assoc.
Qed.

Lemma kept_app (A B : list string) : kept (A ++ B) = kept A ++ kept B.
Proof. apply filter_app. Qed.

Lemma kept_plain (segs : list string) : Forall plain_segment segs → kept segs = segs.
Proof.
  induction 1 as [|seg segs (H1 & H2 & _) _ IH]; [done|]. unfold kept in *.
  rewrite filter_cons_True by (intros [|]; done). by rewrite IH.
Qed.

Lemma join_eq_empty (L : list string) :
  Forall (λ seg, Js.includes seg "/" = false) L → Js.join "/" L = "" →
  L = [] ∨ L = [""].
Proof.
  intros HL Hj. destruct L as [|x L]; [by left|]. right.
  pose proof (split_join (x :: L) ltac:(done) HL) as Hs. by rewrite Hj in Hs.
Qed.

(** [path.normalize] of a relative path given by its segments, none of them
    [..], with or without a trailing separator: the segments other than the
    empty one and [.] remain *)
Lemma normalize_segments (body : list string) (trailing : bool) :
  let L := body ++ (if trailing then [""] else []) in
  Forall (λ seg, seg ≠ ".." ∧ Js.includes seg "/" = false) body →
  List.last body "" ≠ "" →
  kept body ≠ [] →
  Js.join "/" (kept body) ≠ "" →
  Js.startsWith (Js.join "/" L) "/" = false →
  Path.normalize (Js.join "/" L)
  = Js.join "/" (kept body) +:+ (if trailing then "/" else "").
Proof.
  intros L Hbody Hlast Hkept Hjoin Habs.
  assert (body ≠ []) as Hne by (intros ->; done).
  assert (Forall (λ seg, Js.includes seg "/" = false) L) as HL.
  { unfold L. rewrite Forall_app. split.
    - eapply Forall_impl; [done|]. by intros seg [_ ?].
    - destruct trailing; by repeat constructor. }
  assert (Forall (λ seg, seg ≠ "..") L) as HL'.
  { unfold L. rewrite Forall_app. split.
    - eapply Forall_impl; [done|]. by intros seg [? _].
    - destruct trailing; by repeat constructor. }
  assert (L ≠ []) as HLne by (unfold L; by destruct body).
  assert (kept L = kept body) as HkL.
  { unfold L. rewrite kept_app. destruct trailing; simpl; by rewrite app_nil_r. }
  unfold Path.normalize.
  rewrite decide_False; last first.
  { intros [->| HE]%join_eq_empty; [done| |done].
    rewrite HE in HkL. by rewrite <-HkL in Hkept. }
  rewrite Habs. simpl negb. rewrite split_join, normalizeSegments_kept by done.
  simpl rev. rewrite app_nil_l, HkL, decide_False by done.
  rewrite sapp_nil_l. f_equal. unfold L. destruct trailing.
  - replace (Js.endsWith _ _) with true; [done|]. symmetry.
    apply endsWith_spec. exists (Js.join "/" body). by rewrite join_snoc.
  - rewrite app_nil_r, join_no_trailing_slash; [done|done| |done].
    eapply Forall_impl; [done|]. by intros seg [_ ?].
Qed.

Lemma last_skip_prefix (A B : list string) d :
  B ≠ [] → List.last (A ++ B) d = List.last B d.
Proof.
  intros HB. induction A as [|a A IH]; [done|]. simpl.
  destruct (A ++ B) eqn:HAB; [by destruct A, B|done].
Qed.

Lemma last_plain (segs : list string) x :
  Forall plain_segment (x :: segs) → plain_segment (List.last (x :: segs) "").
Proof.
  intros Hs. destruct (exists_last (l := x :: segs)) as (init & y & Heq); [done|].
  rewrite Heq, last_last. rewrite Heq in Hs. apply Forall_app in Hs as [_ Hy].
  by inversion Hy.
Qed.

Lemma basename_join x (segs : list string) :
  Forall plain_segment (x :: segs) →
  Path.basename (Js.join "/" (x :: segs)) = List.last (x :: segs) "".
Proof.
  intros Hs. unfold Path.basename.
  rewrite split_join; [|done|by apply plain_no_slash].
  by rewrite filter_Boolean_plain.
Qed.

Lemma basename_plain seg : plain_segment seg → Path.basename seg = seg.
Proof. intros Hs. apply (basename_join seg []). by constructor. Qed.

Lemma extname_join x (segs : list string) :
  Forall plain_segment (x :: segs) →
  Path.extname (Js.join "/" (x :: segs)) = Path.extname (List.last (x :: segs) "").
Proof.
  intros Hs. unfold Path.extname.
  rewrite basename_join by done.
  by rewrite (basename_plain (List.last _ _)) by by apply last_plain.
Qed.

(** [path.join(outputDir, urlPath)] in [crawler.js], for the path of
    segments [segs], with or without a trailing separator *)
Lemma join_outputDir x (segs : list string) (trailing : bool) :
  Forall plain_segment (x :: segs) →
  Path.join [Crawler.outputDir Crawler.config;
             "/" +:+ Js.join "/" (x :: segs) +:+ (if trailing then "/" else "")]
  = Js.join "/" ("downloaded_site" :: x :: segs) +:+ (if trailing then "/" else "").
Proof.
  intros Hs. unfold Path.join, Js.filter_Boolean.
  rewrite filter_cons_True, filter_cons_True by done. rewrite filter_nil.
  pose proof (normalize_segments (["."; "downloaded_site"; ""] ++ x :: segs) trailing)
    as Hn. cbn zeta in Hn.
  replace (Js.join "/" _) with
    (Js.join "/" ((["."; "downloaded_site"; ""] ++ x :: segs)
                    ++ (if trailing then [""] else []))).
  - rewrite Hn.
    + rewrite kept_app, (kept_plain (x :: segs)) by done. done.
    + rewrite Forall_app. split; [by repeat constructor|].
      eapply Forall_impl; [done|]. by intros seg (_ & _ & ? & ?).
    + rewrite last_skip_prefix by done. by apply (last_plain segs x).
    + by rewrite kept_app, (kept_plain (x :: segs)).
    + rewrite kept_app, (kept_plain (x :: segs)) by done.
      by apply (join_nonempty _ "downloaded_site"), plain_downloaded_site.
    + by destruct trailing.
  - destruct trailing.
    + rewrite join_snoc by done. cbn [app].
      change (Js.join "/" ("." :: "downloaded_site" :: "" :: x :: segs))
        with ("./downloaded_site//" +:+ Js.join "/" (x :: segs)).
      by rewrite !sapp_assoc.
    + by rewrite app_nil_r, sapp_nil_r.
Qed.

Lemma join_index_html x (segs : list string) :
  Forall plain_segment (x :: segs) →
  Path.join [Js.join "/" (x :: segs) +:+ "/"; "index.html"]
  = Js.join "/" (x :: segs) +:+ "/index.html".
Proof.
  intros Hs. unfold Path.join, Js.filter_Boolean.
  rewrite filter_cons_True; last first.
  { by destruct (Js.join "/" (x :: segs)). }
  rewrite filter_cons_True by done. rewrite filter_nil.
  replace (Js.join "/" _) with
    (Js.join "/" (((x :: segs) ++ [""; "index.html"]) ++ [])).
  - rewrite (normalize_segments _ false).
    + rewrite kept_app, kept_plain by done.
      change (kept [""; "index.html"]) with ["index.html"].
      by rewrite join_snoc, sapp_nil_r.
    + rewrite Forall_app. split; [|by repeat constructor].
      eapply Forall_impl; [done|]. by intros seg (_ & _ & ? & ?).
    + change [""; "index.html"] with ([""] ++ ["index.html"]).
      by rewrite app_assoc, last_last.
    + rewrite kept_app, kept_plain by done. done.
    + rewrite kept_app, kept_plain by done.
      inversion Hs; subst. by apply join_nonempty.
    + rewrite app_nil_r.
      inversion Hs as [|?? (Hx & _ & _ & Hno) _]; subst.
      destruct x as [|c x]; [done|].
      apply includes_char_false in Hno as [Hc _].
      assert (∀ rest, Js.startsWith (String c rest) "/" = false) as Hhead.
      { intros rest. cbn [Js.startsWith]. by rewrite (proj2 (Ascii.eqb_neq _ _)). }
      destruct segs; cbn [app Js.join]; rewrite ?sapp_cons; apply Hhead.
  - rewrite app_nil_r.
    change [""; "index.html"] with ([""] ++ ["index.html"]).
    rewrite app_assoc, !join_snoc by (by destruct segs).
    cbn [Js.join]. by rewrite sapp_nil_r, !sapp_assoc.
Qed.

End Paths.

Section OutputPaths.

Lemma fileName_directory p :
  p ≠ "/" → Js.endsWith p "/" = true →
  Builder.fileName p = Js.slice 1 p +:+ "index.html".
Proof. intros Hp He. unfold Builder.fileName. by rewrite decide_False, He. Qed.

Lemma fileName_verbatim p :
  Js.endsWith p "/" = false → Builder.fileName p = Js.slice 1 p.
Proof.
  intros He. unfold Builder.fileName.
  rewrite decide_False by (by intros ->). by rewrite He, sapp_nil_r.
Qed.

Lemma filePath_directory x (segs : list string) :
  Forall plain_segment (x :: segs) →
  Crawler.filePath Crawler.config ("/" +:+ Js.join "/" (x :: segs) +:+ "/")
  = "downloaded_site/" +:+ Js.join "/" (x :: segs) +:+ "/index.html".
Proof.
  intros Hs. unfold Crawler.filePath.
  rewrite (join_outputDir x segs true) by done.
  replace (Js.endsWith _ "/") with true
    by (symmetry; apply endsWith_spec; eauto).
  rewrite (join_index_html "downloaded_site" (x :: segs))
    by (constructor; [apply plain_downloaded_site|done]).
  change (Js.join "/" ("downloaded_site" :: x :: segs))
    with ("downloaded_site/" +:+ Js.join "/" (x :: segs)).
  by rewrite sapp_assoc.
Qed.

Lemma filePath_file x (segs : list string) :
  Forall plain_segment (x :: segs) →
  Crawler.filePath Crawler.config ("/" +:+ Js.join "/" (x :: segs))
  = "downloaded_site/" +:+ Js.join "/" (x :: segs)
      +:+ (if decide (Path.extname (List.last (x :: segs) "") = "") then ".html" else "").
Proof.
  intros Hs. unfold Crawler.filePath.
  pose proof (join_outputDir x segs false Hs) as Hj. rewrite !sapp_nil_r in Hj.
  rewrite Hj.
  assert (Forall plain_segment ("downloaded_site" :: x :: segs)) as Hall
    by (constructor; [apply plain_downloaded_site|done]).
  rewrite join_no_trailing_slash; [|done|by apply plain_no_slash|].
  2:{ by apply (last_plain (x :: segs) "downloaded_site"). }
  rewrite (extname_join "downloaded_site" (x :: segs)) by done.
  change (List.last ("downloaded_site" :: x :: segs) "") with (List.last (x :: segs) "").
  change (Js.join "/" ("downloaded_site" :: x :: segs))
    with ("downloaded_site/" +:+ Js.join "/" (x :: segs)).
  destruct (decide _); [by rewrite sapp_assoc|by rewrite sapp_nil_r].
Qed.

End OutputPaths.

(** C7 (as amended).  The two programs name the output file of a page
    differently.  [crawler.js] writes a page whose path is the root or ends
    in [/] to [index.html] in the directory of that path, and any other page
    to its path, with [.html] appended when the last segment has no
    extension.  [build-site.js] writes the root to [index.html] and a path
    that ends in [/] to [index.html] below it, and uses every other path as
    it is, without its leading [/]: it never appends [.html]. *)
Theorem output_file_of_a_page :
  Crawler.filePath Crawler.config "/" = "downloaded_site/index.html" ∧
  (∀ x (segs : list string),
     Forall plain_segment (x :: segs) →
     Crawler.filePath Crawler.config ("/" +:+ Js.join "/" (x :: segs) +:+ "/")
     = "downloaded_site/" +:+ Js.join "/" (x :: segs) +:+ "/index.html" ∧
     (Path.extname (List.last (x :: segs) "") = "" →
      Crawler.filePath Crawler.config ("/" +:+ Js.join "/" (x :: segs))
      = "downloaded_site/" +:+ Js.join "/" (x :: segs) +:+ ".html") ∧
     (Path.extname (List.last (x :: segs) "") ≠ "" →
      Crawler.filePath Crawler.config ("/" +:+ Js.join "/" (x :: segs))
      = "downloaded_site/" +:+ Js.join "/" (x :: segs))) ∧
  Builder.fileName "/" = "index.html" ∧
  (∀ p, p ≠ "/" → Js.endsWith p "/" = true →
     Builder.fileName p = Js.slice 1 p +:+ "index.html") ∧
  (∀ p, Js.endsWith p "/" = false → Builder.fileName p = Js.slice 1 p).
Proof.
  split_and!.
  - reflexivity.
  - intros x segs Hs. split_and!.
    + by apply filePath_directory.
    + intros Hext. rewrite filePath_file by done. by rewrite decide_True.
    + intros Hext. rewrite filePath_file by done.
      by rewrite decide_False, sapp_nil_r.
  - reflexivity.
  - apply fileName_directory.
  - apply fileName_verbatim.
Qed.

Lemma output_file_of_a_page_witness :
  Crawler.filePath Crawler.config ("/" +:+ Js.join "/" ["work"; "cases"])
  = "downloaded_site/" +:+ Js.join "/" ["work"; "cases"] +:+ ".html".
Proof.
  destruct output_file_of_a_page as (_ & Hc & _).
  apply (Hc "work" ["cases"]).
  - repeat constructor; done.
  - reflexivity.
Defined.

(** C7 (as stated) fails in the builder: the page [/cases] has no extension
    and does not end in [/], and is written to [cases], not [cases.html]. *)
Lemma builder_writes_cases_without_html :
  Path.extname "/cases" = "" ∧ Js.endsWith "/cases" "/" = false ∧
  Builder.fileName "/cases" = "cases" ∧
  Builder.outputPath (H := Url.plain) "https://apply.agency/cases"
  = Some "built_site/cases" ∧
  Js.endsWith "built_site/cases" ".html" = false.
Proof. repeat split; vm_compute; reflexivity. Qed.

(** ** Local paths *)

Section LocalPaths.

Lemma split_parts d sep s :
  d = sep ∨ Js.includes s (String d "") = false →
  Forall (λ part, Js.includes part (String d "") = false) (Js.split sep s).
Proof.
  induction s as [|c s IH]; intros Hd; [by repeat constructor|].
  assert (d = sep ∨ Js.includes s (String d "") = false) as Hd'.
  { destruct Hd as [|[_ ?]%includes_char_false]; auto. }
  specialize (IH Hd'). simpl. destruct (Ascii.eqb_spec c sep) as [->|Hc].
  - by constructor.
  - destruct (Js.split sep s) as [|h t] eqn:Hsp; [by apply split_nonempty in Hsp|].
    inversion IH; subst. constructor; [|done].
    cbn [Js.includes Js.startsWith]. rewrite andb_true_r.
    apply orb_false_intro; [|done]. apply Ascii.eqb_neq.
    destruct Hd as [->|[? _]%includes_char_false]; done.
Qed.

Lemma last_Forall (P : string → Prop) (L : list string) d :
  Forall P L → P d → P (List.last L d).
Proof. induction 1 as [|x [|y L] Hx _ IH]; simpl; auto. Qed.

Lemma basename_no_slash p : Js.includes (Path.basename p) "/" = false.
Proof.
  unfold Path.basename. apply last_Forall; [|done].
  unfold Js.filter_Boolean. apply Forall_forall.
  intros part [_ Hpart]%list_elem_of_filter. revert part Hpart.
  apply Forall_forall, (split_parts "/" "/"). by left.
Qed.

Lemma extname_no_slash p : Js.includes (Path.extname p) "/" = false.
Proof.
  unfold Path.extname.
  pose proof (split_parts "/" "." (Path.basename p) (or_intror (basename_no_slash p)))
    as Hparts.
  assert (Js.includes ("." +:+ List.last (Js.split "." (Path.basename p)) "") "/" = false)
    as Hlast.
  { rewrite (includes_char_app "." _ "/"). by apply last_Forall. }
  destruct (Js.split "." (Path.basename p)) as [|a [|b [|c L]]]; try done;
    destruct a; try done; by destruct (decide _).
Qed.

Lemma hex_digit_no_slash x : Md5.hex_digit x ≠ "/"%char.
Proof.
  unfold Md5.hex_digit.
  match goal with |- nth ?n ?l ?d ≠ _ => destruct (nth_in_or_default n l d) as [Hin| ->] end;
    [|done].
  intros Heq. rewrite Heq in Hin. simpl in Hin.
  repeat (destruct Hin as [Hin|Hin]; [discriminate Hin|]). done.
Qed.

Lemma hex_of_no_slash bs : Js.includes (Md5.hex_of bs) "/" = false.
Proof.
  induction bs as [|b bs IH]; [done|]. cbn [Md5.hex_of].
  cbn [Js.includes Js.startsWith]. rewrite IH, !andb_true_r.
  rewrite !(proj2 (Ascii.eqb_neq _ _)); [done|..];
    intros Heq; by apply (hex_digit_no_slash _ (eq_sym Heq)).
Qed.

Lemma length_hex_of bs : String.length (Md5.hex_of bs) = 2 * length bs.
Proof. induction bs as [|b bs IH]; simpl; [done|]. rewrite IH. lia. Qed.

Lemma length_hex s : String.length (Md5.hex s) = 32.
Proof.
  unfold Md5.hex, Md5.digest. destruct (Md5.blocks _ _ _) as [[[a b] c] d].
  by rewrite length_hex_of.
Qed.

Lemma join_assets x : plain_segment x → Path.join ["assets"; x] = "assets/" +:+ x.
Proof.
  intros (H1 & H2 & H3 & H4). unfold Path.join, Js.filter_Boolean.
  rewrite filter_cons_True, filter_cons_True by done. rewrite filter_nil.
  pose proof (normalize_segments ["assets"; x] false) as Hn. cbn zeta in Hn.
  rewrite app_nil_r, sapp_nil_r in Hn.
  assert (kept ["assets"; x] = ["assets"; x]) as Hk.
  { apply kept_plain. repeat constructor; done. }
  rewrite Hn; rewrite ?Hk; try done.
  repeat constructor; done.
Qed.

Lemma asset_name_plain url :
  plain_segment (hash (Webflow.asset_ref url) +:+ extension (Webflow.asset_ref url)).
Proof.
  simpl.
  set (ext := if decide (Path.extname url = "") then ".bin" else Path.extname url).
  assert (32 ≤ String.length (Md5.hex url +:+ ext)) as Hlen
    by (rewrite slength_app, length_hex; lia).
  split_and!; try (intros Heq; rewrite Heq in Hlen; simpl in Hlen; lia).
  rewrite (includes_char_app _ _ "/"). unfold Md5.hex. rewrite hex_of_no_slash.
  unfold ext. destruct (decide _); [done|]. apply extname_no_slash.
Qed.

Lemma localPath_asset_ref url :
  localPath (Webflow.asset_ref url)
  = "assets/" +:+ Md5.hex url +:+ extension (Webflow.asset_ref url).
Proof. apply (join_assets _ (asset_name_plain url)). Qed.

(** two assets get one local path exactly when their digests and their
    extensions coincide *)
Lemma localPath_collision u1 u2 :
  localPath (Webflow.asset_ref u1) = localPath (Webflow.asset_ref u2) ↔
  Md5.hex u1 = Md5.hex u2 ∧
  extension (Webflow.asset_ref u1) = extension (Webflow.asset_ref u2).
Proof.
  rewrite !localPath_asset_ref. split.
  - intros Heq%(inj (String.app "assets/")).
    apply sapp_inv_length in Heq; [done|]. by rewrite !length_hex.
  - by intros [-> ->].
Qed.

End LocalPaths.

(** ** Rounding to a double *)

Section Rounding.
Local Open Scope Z_scope.

Lemma ulp_pos x : 0 < Double.ulp x.
Proof. unfold Double.ulp. apply Z.pow_pos_nonneg; lia. Qed.

(** below [2^53] the gap is one *)
Lemma ulp_small x : 0 ≤ x < 2 ^ 53 → Double.ulp x = 1.
Proof.
  intros Hx. unfold Double.ulp. rewrite Z.abs_eq by lia.
  destruct (decide (x = 0)) as [->|Hne]; [done|].
  assert (Z.log2 x < 53) by (apply Z.log2_lt_pow2; lia).
  by replace (Z.max 0 (Z.log2 x - 52)) with 0 by lia.
Qed.

(** the gap takes the last of 53 bits: [2^52] gaps fit below [x] *)
Lemma ulp_le x : 0 < x → Double.ulp x * 2 ^ 52 ≤ Z.max x (2 ^ 52).
Proof.
  intros Hx. unfold Double.ulp. rewrite Z.abs_eq by lia.
  destruct (Z.max_spec 0 (Z.log2 x - 52)) as [[Hlt ->]|[Hle ->]].
  - rewrite <-Z.pow_add_r by lia.
    replace (Z.log2 x - 52 + 52) with (Z.log2 x) by lia.
    pose proof (Z.log2_spec x Hx). lia.
  - simpl. lia.
Qed.

(** the gap divides [2^53] for a number below [2^106] *)
Lemma ulp_divide x : 0 ≤ x < 2 ^ 106 → ∃ k, 2 ^ 53 = k * Double.ulp x ∧ 0 < k.
Proof.
  intros Hx. unfold Double.ulp. rewrite Z.abs_eq by lia.
  assert (Z.log2 x < 106) as Hlog.
  { destruct (decide (x = 0)) as [->|]; [done|]. apply Z.log2_lt_pow2; lia. }
  set (e := Z.max 0 (Z.log2 x - 52)). assert (0 ≤ e ≤ 53) by lia.
  exists (2 ^ (53 - e)). split; [|apply Z.pow_pos_nonneg; lia].
  rewrite <-Z.pow_add_r by lia. f_equal. lia.
Qed.

(** rounding moves a number by half a gap at most, and not below the
    multiple of the gap under it *)
Lemma round_near x :
  0 ≤ x →
  x / Double.ulp x * Double.ulp x ≤ Double.round x ∧
  2 * Double.round x ≤ 2 * x + Double.ulp x.
Proof.
  intros Hx. unfold Double.round. pose proof (ulp_pos x) as Hu.
  set (u := Double.ulp x) in *. rewrite Z.abs_eq by lia.
  destruct (decide (x = 0)) as [->|Hne].
  { change (Z.sgn 0) with 0. rewrite Z.div_0_l by lia. lia. }
  rewrite Z.sgn_pos by lia.
  pose proof (Z.div_mod x u ltac:(lia)) as Hdm.
  pose proof (Z.mod_pos_bound x u Hu) as Hr.
  destruct ((u <? 2 * (x mod u)) || ((u =? 2 * (x mod u)) && Z.odd (x / u))) eqn:Hup.
  - assert (u ≤ 2 * (x mod u)) as Hhalf.
    { apply orb_true_iff in Hup as [?%Z.ltb_lt|[?%Z.eqb_eq _]%andb_true_iff]; lia. }
    nia.
  - nia.
Qed.

Lemma round_small x : 0 ≤ x < 2 ^ 53 → Double.round x = x.
Proof.
  intros Hx. unfold Double.round. rewrite ulp_small by done.
  rewrite Z.abs_eq, Z.mod_1_r, Z.div_1_r by lia. simpl.
  destruct (decide (x = 0)) as [->|]; [done|]. rewrite Z.sgn_pos by lia. lia.
Qed.

(** the whole part of the product of a number below one and [n] is below
    [n], whatever the rounding *)
Lemma floor_mul_range draw n :
  0 ≤ draw < 2 ^ 53 → 0 < n → 0 ≤ Double.floor_mul draw n < n.
Proof.
  intros Hd Hn. unfold Double.floor_mul.
  set (x := draw * n). assert (0 ≤ x ≤ n * 2 ^ 53 - n) as Hx by (subst x; nia).
  destruct (round_near x ltac:(lia)) as [Hlo Hhi].
  pose proof (ulp_pos x) as Hu.
  assert (0 ≤ x / Double.ulp x) by (apply Z.div_pos; lia).
  split.
  - apply Z.div_pos; [nia|lia].
  - apply Z.div_lt_upper_bound; [lia|].
    destruct (decide (x = 0)) as [Hz|Hz].
    { rewrite Hz in *. rewrite round_small by lia. lia. }
    pose proof (ulp_le x ltac:(lia)) as Hule. lia.
Qed.

(** a draw for each whole part: the smallest one whose product reaches it *)
Lemma draw_for (n j : Z) :
  0 < n ≤ 2 ^ 52 → 0 ≤ j < n →
  let r := (j * 2 ^ 53 + n - 1) / n in
  0 ≤ r < 2 ^ 53 ∧ Double.floor_mul r n = j.
Proof.
  intros Hn Hj r.
  assert (j * 2 ^ 53 ≤ r * n < j * 2 ^ 53 + n) as Hr.
  { subst r. pose proof (Z.mul_div_le (j * 2 ^ 53 + n - 1) n ltac:(lia)).
    pose proof (Z.mul_succ_div_gt (j * 2 ^ 53 + n - 1) n ltac:(lia)). lia. }
  split.
  { split; [apply Z.div_pos; nia|].
    apply Z.div_lt_upper_bound; [lia|]. nia. }
  unfold Double.floor_mul. set (x := r * n) in *.
  assert (0 ≤ x < 2 ^ 106) as Hx by nia.
  destruct (round_near x ltac:(lia)) as [Hlo Hhi].
  destruct (ulp_divide x Hx) as (k & Hk & Hkpos).
  pose proof (ulp_pos x) as Hu. set (u := Double.ulp x) in *.
  assert (j * k ≤ x / u) as Hq by (apply Z.div_le_lower_bound; nia).
  symmetry. apply Z.div_unique with (Double.round x - j * 2 ^ 53); nia.
Qed.

End Rounding.

(** ** The downloader of [webflow-crawler.js] *)

Section WebflowDownloads.
Context (env : Webflow.Env).

Lemma randomDelay_spec min max w :
  (min ≤ max)%Z →
  ∃ delay, (min ≤ delay ≤ max)%Z ∧
    Webflow.randomDelay env min max w =
    {| Webflow.requests := Webflow.requests w;
       Webflow.timeouts := delay :: Webflow.timeouts w;
       Webflow.writes := Webflow.writes w; Webflow.files := Webflow.files w |}.
Proof.
  intros Hle. eexists. split; [|reflexivity].
  set (draw := (Z.of_N _ mod 2 ^ 53)%Z).
  assert (0 ≤ draw < 2 ^ 53)%Z as Hdraw by (apply Z.mod_pos_bound; lia).
  pose proof (floor_mul_range draw (max - min + 1) Hdraw ltac:(lia)). lia.
Qed.

Lemma randomDelay_requests min max w :
  Webflow.requests (Webflow.randomDelay env min max w) = Webflow.requests w.
Proof. done. Qed.

Lemma randomDelay_files min max w :
  Webflow.files (Webflow.randomDelay env min max w) = Webflow.files w.
Proof. done. Qed.

(** one attempt is one request; a failed one draws no delay, a successful
    one has written the asset's file and returns the record of the URL *)
Lemma attempt_download_spec url w r w' :
  Webflow.attempt_download env url w = (r, w') →
  Webflow.requests w' = url :: Webflow.requests w ∧
  (∀ path, is_Some (Webflow.files w !! path) → is_Some (Webflow.files w' !! path)) ∧
  match r with
  | Ok ref =>
      ref = Webflow.asset_ref url ∧
      is_Some (Webflow.files w' !! Webflow.asset_file url) ∧
      ∃ delay, (500 ≤ delay ≤ 1500)%Z ∧
               Webflow.timeouts w' = delay :: Webflow.timeouts w
  | Err _ => Webflow.timeouts w' = Webflow.timeouts w
  end.
Proof.
  unfold Webflow.attempt_download, Webflow.fs_writeFile. intros Hrun.
  destruct (Webflow.fetch env _ url) as [response|]; [|by simplify_eq].
  destruct (Webflow.ok response); simpl in Hrun; [|by simplify_eq].
  destruct (Webflow.arrayBuffer response) as [buffer|]; [|by simplify_eq].
  destruct (Webflow.writeFile env _ _); simpl in Hrun; [|by simplify_eq].
  destruct (randomDelay_spec 500 1500
              {| Webflow.requests := url :: Webflow.requests w;
                 Webflow.timeouts := Webflow.timeouts w;
                 Webflow.writes := Webflow.asset_file url :: Webflow.writes w;
                 Webflow.files := <[Webflow.asset_file url := buffer]> (Webflow.files w) |})
    as (delay & Hdelay & Heq); [lia|].
  rewrite Heq in Hrun. simplify_eq. simpl. split_and!; try done.
  - intros path Hp. destruct (decide (Webflow.asset_file url = path)) as [->|Hne].
    + rewrite lookup_insert_eq. by eexists.
    + by rewrite lookup_insert_ne.
  - rewrite lookup_insert_eq. by eexists.
  - by exists delay.
Qed.

(** whatever [downloadAsset] returns is the record computed from the URL,
    its file is on disk, and between one and [remaining] requests were made *)
Lemma downloadAsset_loop_spec url retries remaining w r w' :
  Webflow.downloadAsset_loop env url retries remaining w = (r, w') →
  (length (Webflow.requests w') ≤ length (Webflow.requests w) + remaining) ∧
  (0 < remaining → length (Webflow.requests w) < length (Webflow.requests w')) ∧
  (∀ path, is_Some (Webflow.files w !! path) → is_Some (Webflow.files w' !! path)) ∧
  (∀ ref, r = Some ref →
     ref = Webflow.asset_ref url ∧
     is_Some (Webflow.files w' !! Webflow.asset_file url)).
Proof.
  revert w. induction remaining as [|k IH]; intros w Hrun; simpl in Hrun.
  - simplify_eq. split_and!; try done; lia.
  - destruct (Webflow.attempt_download env url w) as [[ref|msg] w1] eqn:Hat;
      apply attempt_download_spec in Hat as (Hreq & Hfiles & Hres).
    + simplify_eq. rewrite Hreq. simpl. destruct Hres as (-> & Hfile & _).
      split_and!; try done; try lia. by intros ? [= <-].
    + destruct k as [|k].
      * simplify_eq. rewrite Hreq. simpl. split_and!; try done; lia.
      * apply IH in Hrun as (Hle & Hlt & Hfiles' & Hsome).
        rewrite randomDelay_requests, Hreq in Hle, Hlt. simpl in Hle, Hlt.
        split_and!; try done; try lia.
        intros path Hp. apply Hfiles'. rewrite randomDelay_files. by apply Hfiles.
Qed.

End WebflowDownloads.

Section Retry.
Context `{UrlParser} (env : Webflow.Env).

Lemma downloadAsset_3_unfold url w :
  Webflow.downloadAsset env url 3 w =
  match Webflow.attempt_download env url w with
  | (Ok ref, w1) => (Some ref, w1)
  | (Err _, w1) =>
      match Webflow.attempt_download env url (Webflow.randomDelay env 2000 5000 w1) with
      | (Ok ref, w2) => (Some ref, w2)
      | (Err _, w2) =>
          match Webflow.attempt_download env url
                  (Webflow.randomDelay env 4000 10000 w2) with
          | (Ok ref, w3) => (Some ref, w3)
          | (Err _, w3) => (None, w3)
          end
      end
  end.
Proof.
  unfold Webflow.downloadAsset. cbn [Webflow.downloadAsset_loop].
  destruct (Webflow.attempt_download env url w) as [[ref|msg] w1]; [done|].
  change (2000 * Z.of_nat (3 - 2))%Z with 2000%Z.
  change (5000 * Z.of_nat (3 - 2))%Z with 5000%Z.
  destruct (Webflow.attempt_download env url _) as [[ref|msg2] w2]; [done|].
  change (2000 * Z.of_nat (3 - 1))%Z with 4000%Z.
  change (5000 * Z.of_nat (3 - 1))%Z with 10000%Z.
  by destruct (Webflow.attempt_download env url _) as [[ref|msg3] w3].
Qed.

Lemma backoff_then_attempt url min max w1 r w2 :
  (min ≤ max)%Z →
  Webflow.attempt_download env url (Webflow.randomDelay env min max w1) = (r, w2) →
  Webflow.requests w2 = url :: Webflow.requests w1 ∧
  ∃ delay, (min ≤ delay ≤ max)%Z ∧
    match r with
    | Ok _ => ∃ d, (500 ≤ d ≤ 1500)%Z ∧
                   Webflow.timeouts w2 = d :: delay :: Webflow.timeouts w1
    | Err _ => Webflow.timeouts w2 = delay :: Webflow.timeouts w1
    end.
Proof.
  intros Hle Hat. apply attempt_download_spec in Hat as (Hreq & _ & Hres).
  destruct (randomDelay_spec env min max w1 Hle) as (delay & Hdelay & Heq).
  rewrite Heq in Hreq, Hres. simpl in Hreq, Hres. split; [done|].
  exists delay. split; [done|]. destruct r as [ref|msg]; [|done].
  destruct Hres as (_ & _ & d & Hd & Ht). by exists d.
Qed.

Lemma three_attempts_succeed url w e1 w1 e2 w2 ref w3 :
  Webflow.attempt_download env url w = (Err e1, w1) →
  Webflow.attempt_download env url (Webflow.randomDelay env 2000 5000 w1) = (Err e2, w2) →
  Webflow.attempt_download env url (Webflow.randomDelay env 4000 10000 w2) = (Ok ref, w3) →
  Webflow.downloadAsset env url 3 w = (Some ref, w3) ∧
  ref = Webflow.asset_ref url ∧
  Webflow.requests w3 = [url; url; url] ++ Webflow.requests w ∧
  ∃ d1 d2 d3,
    Webflow.timeouts w3 = d3 :: d2 :: d1 :: Webflow.timeouts w ∧
    (2000 ≤ d1 ≤ 5000)%Z ∧ (4000 ≤ d2 ≤ 10000)%Z ∧ (500 ≤ d3 ≤ 1500)%Z.
Proof.
  intros H1 H2 H3. rewrite downloadAsset_3_unfold, H1, H2, H3. split; [done|].
  pose proof (attempt_download_spec env _ _ _ _ H3) as (_ & _ & -> & _).
  apply attempt_download_spec in H1 as (Hr1 & _ & Ht1).
  apply backoff_then_attempt in H2 as (Hr2 & d1 & Hd1 & Ht2); [|lia].
  apply backoff_then_attempt in H3 as (Hr3 & d2 & Hd2 & d3 & Hd3 & Ht3); [|lia].
  split; [done|]. split; [by rewrite Hr3, Hr2, Hr1|].
  exists d1, d2, d3. by rewrite Ht3, Ht2, Ht1.
Qed.

Lemma three_attempts_fail url w e1 w1 e2 w2 e3 w3 :
  Webflow.attempt_download env url w = (Err e1, w1) →
  Webflow.attempt_download env url (Webflow.randomDelay env 2000 5000 w1) = (Err e2, w2) →
  Webflow.attempt_download env url (Webflow.randomDelay env 4000 10000 w2) = (Err e3, w3) →
  Webflow.downloadAsset env url 3 w = (None, w3) ∧
  Webflow.requests w3 = [url; url; url] ++ Webflow.requests w ∧
  (∃ d1 d2,
    Webflow.timeouts w3 = d2 :: d1 :: Webflow.timeouts w ∧
    (2000 ≤ d1 ≤ 5000)%Z ∧ (4000 ≤ d2 ≤ 10000)%Z) ∧
  (∀ page m, Webflow.isWebflowAsset url = true →
     Webflow.download_assets env page [url] (m, w) = (m, w3)).
Proof.
  intros H1 H2 H3.
  assert (Webflow.downloadAsset env url 3 w = (None, w3)) as Hnone
    by by rewrite downloadAsset_3_unfold, H1, H2, H3.
  split; [done|].
  apply attempt_download_spec in H1 as (Hr1 & _ & Ht1).
  apply backoff_then_attempt in H2 as (Hr2 & d1 & Hd1 & Ht2); [|lia].
  apply backoff_then_attempt in H3 as (Hr3 & d2 & Hd2 & Ht3); [|lia].
  split; [by rewrite Hr3, Hr2, Hr1|]. split.
  - exists d1, d2. by rewrite Ht3, Ht2, Ht1.
  - intros page m Hweb. cbn [Webflow.download_assets]. rewrite Hweb.
    cbn [snd fst]. by rewrite Hnone.
Qed.

End Retry.

(** ** The downloader of [crawler.js] *)

Section CrawlerDownloads.
Context `{UrlParser} (cfg : Crawler.Config) (env : Crawler.Env).

(** a URL in the cache is answered from the cache: the state is untouched *)
Lemma downloadAsset_cached url st p :
  Crawler.downloadedAssets st !! url = Some p →
  Crawler.downloadAsset cfg env url st = (p, st).
Proof. intros Hc. unfold Crawler.downloadAsset. by rewrite Hc. Qed.

(** a URL that is not in the cache costs one request, and either fails (the
    URL comes back and joins [failedUrls]; the cache is as before) or is
    cached under the path derived from it *)
Lemma downloadAsset_fresh url st p st' :
  Crawler.downloadedAssets st !! url = None →
  Crawler.downloadAsset cfg env url st = (p, st') →
  Crawler.requests st' = url :: Crawler.requests st ∧
  Crawler.visited st' = Crawler.visited st ∧
  Crawler.processing st' = Crawler.processing st ∧
  ((p = url ∧ url ∈ Crawler.failedUrls st' ∧
    Crawler.downloadedAssets st' = Crawler.downloadedAssets st) ∨
   (∃ U, parseURL url = Some U ∧ p = Crawler.relativePath U ∧
         Crawler.failedUrls st' = Crawler.failedUrls st ∧
         Crawler.downloadedAssets st' = <[url := p]> (Crawler.downloadedAssets st))).
Proof.
  intros Hc. unfold Crawler.downloadAsset. rewrite Hc. intros Hrun.
  destruct (Crawler.request_get env _ url) as [buffer|].
  2:{ simplify_eq. simpl. split_and!; try done. left. split_and!; try done. set_solver. }
  destruct (parseURL url) as [U|] eqn:HU.
  2:{ simplify_eq. simpl. split_and!; try done. left. split_and!; try done. set_solver. }
  destruct (Crawler.store env _ _).
  2:{ simplify_eq. simpl. split_and!; try done. left. split_and!; try done. set_solver. }
  simplify_eq. simpl. split_and!; try done. right. by exists U.
Qed.

Lemma downloadAsset_frame url st p st' :
  Crawler.downloadAsset cfg env url st = (p, st') →
  Crawler.visited st' = Crawler.visited st ∧
  Crawler.processing st' = Crawler.processing st ∧
  length (Crawler.requests st') ≤ S (length (Crawler.requests st)).
Proof.
  destruct (Crawler.downloadedAssets st !! url) as [q|] eqn:Hc; intros Hrun.
  - rewrite (downloadAsset_cached _ _ _ Hc) in Hrun. simplify_eq. split_and!; try done. lia.
  - apply downloadAsset_fresh in Hrun as (Hr & Hv & Hp & _); [|done].
    rewrite Hr. simpl. split_and!; try done.
Qed.

Lemma downloadAsset_cache_sound url st p st' :
  cache_sound st →
  Crawler.downloadAsset cfg env url st = (p, st') →
  cache_sound st' ∧
  ((p = url ∧ url ∈ Crawler.failedUrls st') ∨
   (∃ U, parseURL url = Some U ∧ p = "assets" +:+ pathname U)).
Proof.
  intros Hsound Hrun.
  destruct (Crawler.downloadedAssets st !! url) as [q|] eqn:Hc.
  - rewrite (downloadAsset_cached _ _ _ Hc) in Hrun. simplify_eq. split; [done|].
    right. destruct (Hsound _ _ Hc) as (U & HU & ->). by exists U.
  - apply downloadAsset_fresh in Hrun as (_ & _ & _ & Hcases); [|done].
    destruct Hcases as [(-> & Hf & Hd)|(U & HU & -> & Hf & Hd)].
    + split; [|by left]. intros u q. rewrite Hd. apply Hsound.
    + split; [|right; by exists U]. intros u q. rewrite Hd.
      destruct (decide (url = u)) as [->|Hne].
      * rewrite lookup_insert_eq. intros [= <-]. by exists U.
      * rewrite lookup_insert_ne by done. apply Hsound.
Qed.

End CrawlerDownloads.

Lemma cache_sound_initial `{UrlParser} : cache_sound Crawler.initial.
Proof. intros url p Hp. simpl in Hp. by rewrite lookup_empty in Hp. Qed.

(** C1 (as amended).  In [crawler.js] a URL that already has a local path in
    [downloadedAssets] is answered from there, with no request and no other
    change of state; so when a first call on a URL has succeeded, a second
    call returns the same path and the two calls together made exactly one
    request.  No call makes more than one request.  The downloader of
    [webflow-crawler.js] keeps no such table: every call with at least one
    attempt issues at least one request. *)
Theorem downloadAsset_fetches_once_when_cached `{UrlParser} :
  (∀ cfg env url st p,
     Crawler.downloadedAssets st !! url = Some p →
     Crawler.downloadAsset cfg env url st = (p, st)) ∧
  (∀ cfg env url st p st1,
     Crawler.downloadedAssets st !! url = None →
     Crawler.downloadAsset cfg env url st = (p, st1) →
     is_Some (Crawler.downloadedAssets st1 !! url) →
     Crawler.downloadAsset cfg env url st1 = (p, st1) ∧
     Crawler.requests st1 = url :: Crawler.requests st) ∧
  (∀ cfg env url st p st1,
     Crawler.downloadAsset cfg env url st = (p, st1) →
     length (Crawler.requests st1) ≤ S (length (Crawler.requests st))) ∧
  (∀ env url retries w r w',
     0 < retries →
     Webflow.downloadAsset env url retries w = (r, w') →
     length (Webflow.requests w) < length (Webflow.requests w')).
Proof.
  split_and!.
  - intros. by apply downloadAsset_cached.
  - intros cfg env url st p st1 Hnone Hrun [q Hq].
    apply downloadAsset_fresh in Hrun as (Hreq & _ & _ & Hcases); [|done].
    split; [|done]. apply downloadAsset_cached.
    destruct Hcases as [(_ & _ & Hd)|(U & _ & -> & _ & Hd)].
    + rewrite Hd, Hnone in Hq. done.
    + rewrite Hd. apply lookup_insert_eq.
  - intros cfg env url st p st1 Hrun. by apply downloadAsset_frame in Hrun as (_ & _ & ?).
  - intros env url retries w r w' Hpos Hrun.
    apply downloadAsset_loop_spec in Hrun as (_ & Hlt & _). by apply Hlt.
Qed.

Lemma downloadAsset_fetches_once_when_cached_witness :
  let first :=
    Crawler.downloadAsset (H := Url.plain) Crawler.config calm
      "https://apply.agency/logo.png" Crawler.initial in
  Crawler.downloadAsset (H := Url.plain) Crawler.config calm
    "https://apply.agency/logo.png" (snd first) = ("assets/logo.png", snd first) ∧
  Crawler.requests (snd first) = ["https://apply.agency/logo.png"].
Proof.
  destruct (downloadAsset_fetches_once_when_cached (H := Url.plain)) as (_ & Htwice & _).
  apply (Htwice Crawler.config calm "https://apply.agency/logo.png" Crawler.initial
           "assets/logo.png").
  - reflexivity.
  - reflexivity.
  - vm_compute. by eexists.
Defined.

(** C1 (as stated) fails in [webflow-crawler.js]: when its two target pages
    show the same image and the network answers every request, the run
    requests the image twice, the second time with the image already in the
    manifest's asset table. *)
Lemma webflow_requests_shared_asset_twice :
  let '(manifest, world) :=
    Webflow.crawl (H := Url.plain) steady Webflow.TARGET_PAGES
      (Webflow.initial_manifest steady, Webflow.nowhere) in
  Webflow.requests world = [logo; logo] ∧
  is_Some (assets (fst (Webflow.processPage (H := Url.plain) steady "https://apply.agency/"
                          (Webflow.initial_manifest steady, Webflow.nowhere))) !! logo).
Proof. vm_compute. split; [reflexivity|by eexists]. Qed.

(** C3 (as amended).  The downloader of [webflow-crawler.js] makes between
    one and three requests for a URL.  After a failed first attempt it waits
    a random delay between 2000 and 5000 ms, after a failed second attempt
    one between 4000 and 10000 ms.  A download that fails twice and then
    succeeds returns the record of the URL after exactly three requests
    (and the delay of 500 to 1500 ms that follows every success); a
    download that fails three times returns [null] after exactly three
    requests and two delays, and the page's loop then leaves the manifest
    as it was: this program keeps no set of failed URLs.  The downloader of
    [crawler.js] does keep one, and does not retry: a failed request puts
    the URL into [failedUrls] after that one request, and the URL itself is
    returned in place of a local path. *)
Theorem downloadAsset_retries_with_backoff `{UrlParser} :
  (∀ env url w r w',
     Webflow.downloadAsset env url 3 w = (r, w') →
     length (Webflow.requests w) < length (Webflow.requests w')
       ≤ length (Webflow.requests w) + 3) ∧
  (∀ env url w e1 w1 e2 w2 ref w3,
     Webflow.attempt_download env url w = (Err e1, w1) →
     Webflow.attempt_download env url (Webflow.randomDelay env 2000 5000 w1) = (Err e2, w2) →
     Webflow.attempt_download env url (Webflow.randomDelay env 4000 10000 w2) = (Ok ref, w3) →
     Webflow.downloadAsset env url 3 w = (Some ref, w3) ∧
     ref = Webflow.asset_ref url ∧
     Webflow.requests w3 = [url; url; url] ++ Webflow.requests w ∧
     ∃ d1 d2 d3,
       Webflow.timeouts w3 = d3 :: d2 :: d1 :: Webflow.timeouts w ∧
       (2000 ≤ d1 ≤ 5000)%Z ∧ (4000 ≤ d2 ≤ 10000)%Z ∧ (500 ≤ d3 ≤ 1500)%Z) ∧
  (∀ env url w e1 w1 e2 w2 e3 w3,
     Webflow.attempt_download env url w = (Err e1, w1) →
     Webflow.attempt_download env url (Webflow.randomDelay env 2000 5000 w1) = (Err e2, w2) →
     Webflow.attempt_download env url (Webflow.randomDelay env 4000 10000 w2) = (Err e3, w3) →
     Webflow.downloadAsset env url 3 w = (None, w3) ∧
     Webflow.requests w3 = [url; url; url] ++ Webflow.requests w ∧
     (∃ d1 d2,
       Webflow.timeouts w3 = d2 :: d1 :: Webflow.timeouts w ∧
       (2000 ≤ d1 ≤ 5000)%Z ∧ (4000 ≤ d2 ≤ 10000)%Z) ∧
     (∀ page m, Webflow.isWebflowAsset url = true →
        Webflow.download_assets env page [url] (m, w) = (m, w3))) ∧
  (∀ cfg env url st msg,
     Crawler.downloadedAssets st !! url = None →
     Crawler.request_get env (length (Crawler.requests st)) url = Err msg →
     ∃ st', Crawler.downloadAsset cfg env url st = (url, st') ∧
            Crawler.requests st' = url :: Crawler.requests st ∧
            url ∈ Crawler.failedUrls st').
Proof.
  split_and!.
  - intros env url w r w' Hrun.
    apply downloadAsset_loop_spec in Hrun as (Hle & Hlt & _). split; [apply Hlt; lia|done].
  - intros. by eapply three_attempts_succeed.
  - intros. by eapply three_attempts_fail.
  - intros cfg env url st msg Hnone Hget. unfold Crawler.downloadAsset.
    rewrite Hnone, Hget. eexists. split; [done|]. simpl. split; [done|]. set_solver.
Qed.

Lemma downloadAsset_retries_with_backoff_witness :
  let w1 := snd (Webflow.attempt_download flaky logo Webflow.nowhere) in
  let w2 :=
    snd (Webflow.attempt_download flaky logo (Webflow.randomDelay flaky 2000 5000 w1)) in
  let w3 :=
    snd (Webflow.attempt_download flaky logo (Webflow.randomDelay flaky 4000 10000 w2)) in
  Webflow.downloadAsset flaky logo 3 Webflow.nowhere
  = (Some (Webflow.asset_ref logo), w3) ∧
  Webflow.requests w3 = [logo; logo; logo].
Proof.
  intros w1 w2 w3.
  destruct (downloadAsset_retries_with_backoff (H := Url.plain)) as (_ & Hthird & _).
  destruct (Hthird flaky logo Webflow.nowhere "ECONNRESET" w1 "ECONNRESET" w2
              (Webflow.asset_ref logo) w3) as (Hrun & _ & Hreq & _);
    [vm_compute; reflexivity..|].
  split; [exact Hrun|exact Hreq].
Defined.

(** C3 (as stated) fails in both programs.  In [crawler.js], with a network
    that fails twice and would answer the third request, the download is
    given up after one request.  In [webflow-crawler.js], with a network
    that is down, the three attempts end in [null] and the manifest after
    the page is the manifest of a page with no asset: the URL is recorded
    nowhere. *)
Lemma no_retry_in_crawler_no_failed_set_in_webflow :
  (let '(result, st) :=
     Crawler.downloadAsset (H := Url.plain) Crawler.config flaky_net
       "https://apply.agency/logo.png" Crawler.initial in
   result = "https://apply.agency/logo.png" ∧
   Crawler.requests st = ["https://apply.agency/logo.png"] ∧
   Crawler.downloadedAssets st = ∅) ∧
  (let '(manifest, world) :=
     Webflow.download_assets (H := Url.plain) down "https://apply.agency/" [logo]
       (Webflow.initial_manifest down, Webflow.nowhere) in
   manifest = Webflow.initial_manifest down ∧
   Webflow.requests world = [logo; logo; logo]).
Proof. split; vm_compute; repeat split; reflexivity. Qed.

(** C4 (as amended).  The local path of a downloaded asset is computed from
    the URL alone.  In [webflow-crawler.js] every successful download of a
    URL, in any environment and from any state, returns the same record,
    whose path is [assets/] followed by the MD5 digest of the URL and its
    extension; two URLs share a path exactly when their digests and their
    extensions coincide.  In [crawler.js] a successful download returns
    [assets] followed by the path component of the URL, from the network or
    from the cache; two URLs share a local path exactly when their path
    components coincide, whatever their hosts and queries. *)
Theorem local_path_is_a_function_of_the_url `{UrlParser} :
  (∀ env url retries w ref w',
     Webflow.downloadAsset env url retries w = (Some ref, w') →
     ref = Webflow.asset_ref url ∧
     localPath ref = "assets/" +:+ Md5.hex url +:+ extension ref) ∧
  (∀ u1 u2,
     localPath (Webflow.asset_ref u1) = localPath (Webflow.asset_ref u2) ↔
     Md5.hex u1 = Md5.hex u2 ∧
     extension (Webflow.asset_ref u1) = extension (Webflow.asset_ref u2)) ∧
  (∀ cfg env url st p st',
     cache_sound st →
     Crawler.downloadAsset cfg env url st = (p, st') →
     cache_sound st' ∧
     ((p = url ∧ url ∈ Crawler.failedUrls st') ∨
      (∃ U, parseURL url = Some U ∧ p = "assets" +:+ pathname U))) ∧
  (∀ U1 U2,
     Crawler.relativePath U1 = Crawler.relativePath U2 ↔ pathname U1 = pathname U2).
Proof.
  split_and!.
  - intros env url retries w ref w' Hrun.
    apply downloadAsset_loop_spec in Hrun as (_ & _ & _ & Hsome).
    destruct (Hsome ref eq_refl) as [-> _]. split; [done|]. apply localPath_asset_ref.
  - apply localPath_collision.
  - intros. by eapply downloadAsset_cache_sound.
  - intros U1 U2. unfold Crawler.relativePath. split; [|by intros ->].
    by intros ?%(inj (String.app "assets")).
Qed.

Lemma local_path_is_a_function_of_the_url_witness :
  cache_sound (H := Url.plain)
    (snd (Crawler.downloadAsset (H := Url.plain) Crawler.config calm
            "https://apply.agency/logo.png" Crawler.initial)).
Proof.
  destruct (local_path_is_a_function_of_the_url (H := Url.plain)) as (_ & _ & Hcache & _).
  destruct (Crawler.downloadAsset (H := Url.plain) Crawler.config calm
              "https://apply.agency/logo.png" Crawler.initial) as [p st'] eqn:Hrun.
  destruct (Hcache _ _ _ _ _ _ (cache_sound_initial (H := Url.plain)) Hrun) as [Hsound _].
  exact Hsound.
Defined.

(** C4 (as stated) fails in [crawler.js]: two different URLs with the same
    path component are given the same local path, and the second download
    overwrites the file of the first. *)
Lemma two_urls_one_local_path :
  let url1 := "https://apply.agency/logo.png" in
  let url2 := "https://webflow.com/logo.png" in
  let '(path1, st1) :=
    Crawler.downloadAsset (H := Url.plain) Crawler.config calm url1 Crawler.initial in
  let '(path2, st2) :=
    Crawler.downloadAsset (H := Url.plain) Crawler.config calm url2 st1 in
  url1 ≠ url2 ∧ path1 = "assets/logo.png" ∧ path2 = "assets/logo.png" ∧
  Crawler.requests st2 = [url2; url1].
Proof. vm_compute. repeat split; done. Qed.

(** Nor is the digest of [webflow-crawler.js] free of collisions on
    strings: two texts that differ in one letter have the same MD5 digest,
    and so the same file name. *)
Lemma md5_collision :
  let a := "TEXTCOLLBYfGiJUETHQ4hAcKSMd5zYpgqf1YRDhkmxHkhPWptrkoyz28wnI9V0aHeAuaKnak" in
  let b := "TEXTCOLLBYfGiJUETHQ4hEcKSMd5zYpgqf1YRDhkmxHkhPWptrkoyz28wnI9V0aHeAuaKnak" in
  a ≠ b ∧ localPath (Webflow.asset_ref a) = localPath (Webflow.asset_ref b).
Proof. split; [done|]. vm_compute. reflexivity. Qed.

(** ** Pages and the manifest in [webflow-crawler.js] *)

Section WebflowPages.
Context `{UrlParser} (env : Webflow.Env).

Lemma world_le_refl w : world_le w w.
Proof. by split. Qed.

Lemma world_le_trans w1 w2 w3 : world_le w1 w2 → world_le w2 w3 → world_le w1 w3.
Proof. intros [H1 H2] [H3 H4]. split; auto. Qed.

Lemma randomDelay_le min max w : world_le w (Webflow.randomDelay env min max w).
Proof. by split. Qed.

Lemma fs_writeFile_le path data w r w' :
  Webflow.fs_writeFile env path data w = (r, w') → world_le w w'.
Proof.
  unfold Webflow.fs_writeFile. destruct (Webflow.writeFile env _ path);
    intros ?; simplify_eq; split; simpl; try done.
  intros p Hp. destruct (decide (path = p)) as [->|Hne].
  - rewrite lookup_insert_eq. by eexists.
  - by rewrite lookup_insert_ne.
Qed.

Lemma downloadAsset_loop_requests url retries remaining w r w' :
  Webflow.downloadAsset_loop env url retries remaining w = (r, w') →
  (∀ u, u ∈ Webflow.requests w → u ∈ Webflow.requests w') ∧
  (0 < remaining → url ∈ Webflow.requests w').
Proof.
  revert w. induction remaining as [|k IH]; intros w Hrun; simpl in Hrun.
  - simplify_eq. split; [done|lia].
  - destruct (Webflow.attempt_download env url w) as [[ref|msg] w1] eqn:Hat;
      apply attempt_download_spec in Hat as (Hreq & _).
    + simplify_eq. rewrite Hreq. split; intros; set_solver.
    + destruct k as [|k].
      * simplify_eq. rewrite Hreq. split; intros; set_solver.
      * apply IH in Hrun as [Hin Hurl]. rewrite randomDelay_requests, Hreq in Hin.
        split; [|intros _; apply Hurl; lia]. intros u Hu. apply Hin. set_solver.
Qed.

Lemma downloadAsset_le url retries w r w' :
  Webflow.downloadAsset env url retries w = (r, w') →
  world_le w w' ∧
  (0 < retries → url ∈ Webflow.requests w') ∧
  (∀ ref, r = Some ref →
     ref = Webflow.asset_ref url ∧ url ∈ Webflow.requests w' ∧
     is_Some (Webflow.files w' !! Webflow.asset_file url)).
Proof.
  intros Hrun. unfold Webflow.downloadAsset in Hrun.
  pose proof (downloadAsset_loop_spec env _ _ _ _ _ _ Hrun) as (_ & _ & Hfiles & Hsome).
  pose proof (downloadAsset_loop_requests _ _ _ _ _ _ Hrun) as (Hreqs & Hurl).
  split_and!; [by split|done|]. intros ref ->. destruct (Hsome ref eq_refl) as [-> Hfile].
  split_and!; [done| |done]. apply Hurl.
  destruct retries; [by simpl in Hrun|lia].
Qed.

Lemma consistent_mono m w w' :
  manifest_consistent m w → world_le w w' → manifest_consistent m w'.
Proof.
  intros [Hpages Htable] [Hfiles Hreqs]. split; [done|].
  intros key ref Hk. destruct (Htable key ref Hk) as (-> & Hreq & Hfile). auto.
Qed.

Lemma push_asset_consistent url asset m w :
  manifest_consistent m w →
  asset ∈ Webflow.requests w →
  is_Some (Webflow.files w !! Webflow.asset_file asset) →
  manifest_consistent (Webflow.push_asset url (Webflow.asset_ref asset) m) w.
Proof.
  intros [Hpages Htable] Hreq Hfile. split; simpl.
  - intros u page ref Hu Hin.
    assert (∃ page0, pages m !! u = Some page0 ∧
              (ref ∈ Page.assets page0 ∨ ref = Webflow.asset_ref asset))
      as (page0 & Hu0 & Href).
    { rewrite lookup_alter in Hu. case_decide as Heq.
      - subst u. destruct (pages m !! url) as [page0|]; simplify_eq/=.
        exists page0. split; [done|]. set_solver.
      - exists page. eauto. }
    destruct Href as [Hin0| ->]; [|apply lookup_insert_eq].
    specialize (Hpages _ _ _ Hu0 Hin0).
    destruct (decide (asset = originalUrl ref)) as [Heq|Hne].
    + rewrite <-Heq in *. destruct (Htable _ _ Hpages) as (-> & _).
      apply lookup_insert_eq.
    + by rewrite lookup_insert_ne.
  - intros key ref. destruct (decide (asset = key)) as [->|Hne].
    + rewrite lookup_insert_eq. by intros [= <-].
    + rewrite lookup_insert_ne by done. apply Htable.
Qed.

Lemma download_assets_spec url found m w m' w' :
  Webflow.download_assets env url found (m, w) = (m', w') →
  (manifest_consistent m w → manifest_consistent m' w') ∧ world_le w w' ∧
  (∀ asset, asset ∈ found → Webflow.isWebflowAsset asset = true →
     asset ∈ Webflow.requests w') ∧
  (∀ u, u ≠ url → pages m' !! u = pages m !! u) ∧
  (∀ page, pages m !! url = Some page →
     ∃ refs, pages m' !! url =
       Some {| Page.assets := Page.assets page ++ refs;
               Page.rawHtml := Page.rawHtml page; Page.error := Page.error page |}).
Proof.
  revert m w. induction found as [|asset rest IH]; intros m w Hrun.
  - simpl in Hrun. simplify_eq. split_and!; try done.
    + intros asset Hin. by apply elem_of_nil in Hin.
    + intros page Hp. exists []. rewrite app_nil_r. by destruct page.
  - cbn [Webflow.download_assets] in Hrun.
    destruct (Webflow.isWebflowAsset asset) eqn:Hweb.
    + cbn [snd fst] in Hrun.
      destruct (Webflow.downloadAsset env asset 3 w) as [[ref|] w1] eqn:Hdl;
        apply downloadAsset_le in Hdl as (Hle & Hreq & Hsome).
      * destruct (Hsome ref eq_refl) as (-> & Hin & Hfile).
        apply IH in Hrun as (Hc & Hle' & Hreqs & Hother & Hpage).
        split_and!; try done.
        -- intros Hcons. apply Hc, push_asset_consistent; [|done..].
           by eapply consistent_mono.
        -- by eapply world_le_trans.
        -- intros a [->|Ha]%elem_of_cons Hwa; [by apply Hle'|by apply Hreqs].
        -- intros u Hu. rewrite Hother by done. simpl. by rewrite lookup_alter_ne.
        -- intros page Hp.
           destruct (Hpage {| Page.assets := Page.assets page ++ [Webflow.asset_ref asset];
                              Page.rawHtml := Page.rawHtml page;
                              Page.error := Page.error page |}) as [refs Hrefs].
           { simpl. by rewrite lookup_alter_eq, Hp. }
           exists (Webflow.asset_ref asset :: refs). rewrite Hrefs. simpl.
           by rewrite <-app_assoc.
      * apply IH in Hrun as (Hc & Hle' & Hreqs & Hother & Hpage).
        split_and!; try done.
        -- intros Hcons. by eapply Hc, consistent_mono.
        -- by eapply world_le_trans.
        -- intros a [->|Ha]%elem_of_cons Hwa; [|by apply Hreqs].
           apply Hle', Hreq. lia.
    + apply IH in Hrun as (Hc & Hle' & Hreqs & Hother & Hpage).
      split_and!; try done.
      intros a [->|Ha]%elem_of_cons Hwa; [congruence|by apply Hreqs].
Qed.

(** an update of one page's record that leaves its asset list alone *)
Lemma alter_page_consistent (f : Page.t → Page.t) url m w :
  (∀ page, Page.assets (f page) = Page.assets page) →
  manifest_consistent m w →
  manifest_consistent
    {| startTime := startTime m; endTime := endTime m;
       pages := alter f url (pages m); assets := assets m |} w.
Proof.
  intros Hf [Hpages Htable]. split; [|done]. simpl. intros u page ref Hu Hin.
  rewrite lookup_alter in Hu. case_decide as Heq; [|by eapply Hpages].
  subst u. destruct (pages m !! url) as [page0|] eqn:Hp0; simplify_eq/=.
  rewrite Hf in Hin. by eapply Hpages.
Qed.

Lemma set_error_consistent url msg m w :
  manifest_consistent m w → manifest_consistent (Webflow.set_error url msg m) w.
Proof. by apply alter_page_consistent. Qed.

Lemma set_rawHtml_consistent url path m w :
  manifest_consistent m w → manifest_consistent (Webflow.set_rawHtml url path m) w.
Proof. by apply alter_page_consistent. Qed.

Lemma fresh_page_consistent url m w :
  manifest_consistent m w →
  manifest_consistent
    {| startTime := startTime m; endTime := endTime m;
       pages := <[url := Page.fresh]> (pages m); assets := assets m |} w.
Proof.
  intros [Hpages Htable]. split; [|done]. simpl. intros u page ref Hu Hin.
  destruct (decide (url = u)) as [->|Hne].
  - rewrite lookup_insert_eq in Hu. simplify_eq. by apply elem_of_nil in Hin.
  - rewrite lookup_insert_ne in Hu by done. by eapply Hpages.
Qed.

(** a page that is in the manifest is not processed again *)
Lemma processPage_present url m w page :
  pages m !! url = Some page → Webflow.processPage env url (m, w) = (m, w).
Proof. intros Hp. unfold Webflow.processPage. by rewrite Hp. Qed.

(** What processing a page does to the manifest and the world, whatever the
    browser, the network and the disk answer. *)
Lemma processPage_spec url m w m' w' :
  Webflow.processPage env url (m, w) = (m', w') →
  (manifest_consistent m w → manifest_consistent m' w') ∧ world_le w w' ∧
  (∀ u, u ≠ url → pages m' !! u = pages m !! u) ∧
  is_Some (pages m' !! url).
Proof.
  unfold Webflow.processPage.
  destruct (pages m !! url) as [page0|] eqn:Hp0.
  { intros ?. simplify_eq. by split_and!. }
  set (m0 := {| startTime := startTime m; endTime := endTime m;
                pages := <[url := Page.fresh]> (pages m); assets := assets m |}).
  assert (∀ u, u ≠ url → pages m0 !! u = pages m !! u) as Hm0
    by (intros u Hu; simpl; by rewrite lookup_insert_ne).
  assert (pages m0 !! url = Some Page.fresh) as Hfresh by apply lookup_insert_eq.
  assert (∀ msg m1, (∀ u, u ≠ url → pages m1 !! u = pages m !! u) →
            ∀ u, u ≠ url → pages (Webflow.set_error url msg m1) !! u = pages m !! u)
    as Herr_other.
  { intros msg m1 Hm1 u Hu. simpl. rewrite lookup_alter_ne by done. by apply Hm1. }
  assert (∀ msg m1, is_Some (pages m1 !! url) →
            is_Some (pages (Webflow.set_error url msg m1) !! url)) as Herr_some.
  { intros msg m1 [page Hp]. simpl. rewrite lookup_alter_eq, Hp. by eexists. }
  destruct (Webflow.render env url) as [page|msg].
  2:{ intros ?. simplify_eq. split_and!.
      - intros Hc. by apply set_error_consistent, fresh_page_consistent.
      - apply world_le_refl.
      - by apply Herr_other.
      - apply Herr_some. by eexists. }
  destruct (Webflow.download_assets env url (Webflow.dom_assets page) (m0, w))
    as [m1 w1] eqn:Hdl.
  apply download_assets_spec in Hdl as (Hc1 & Hle1 & _ & Hother1 & Hpage1).
  destruct (Hpage1 _ Hfresh) as [refs Hrefs].
  assert (∀ u, u ≠ url → pages m1 !! u = pages m !! u) as Hm1
    by (intros u Hu; rewrite Hother1 by done; by apply Hm0).
  assert (manifest_consistent m w → manifest_consistent m1 w1) as Hcons1
    by (intros Hc; by apply Hc1, fresh_page_consistent).
  destruct (Webflow.content page) as [html|msg].
  2:{ intros ?. simplify_eq. split_and!; try done.
      - intros Hc. by apply set_error_consistent, Hcons1.
      - by apply Herr_other.
      - apply Herr_some. by eexists. }
  destruct (Webflow.fs_writeFile env (Webflow.page_file url) html w1)
    as [[[]|msg] w2] eqn:Hwr; apply fs_writeFile_le in Hwr.
  2:{ intros ?. simplify_eq. split_and!.
      - intros Hc. eapply set_error_consistent, consistent_mono; [by apply Hcons1|done].
      - by eapply world_le_trans.
      - by apply Herr_other.
      - apply Herr_some. by eexists. }
  set (m2 := Webflow.set_rawHtml url _ m1).
  assert (∀ u, u ≠ url → pages m2 !! u = pages m !! u) as Hm2.
  { intros u Hu. simpl. rewrite lookup_alter_ne by done. by apply Hm1. }
  assert (is_Some (pages m2 !! url)) as Hsome2.
  { simpl. rewrite lookup_alter_eq, Hrefs. by eexists. }
  assert (manifest_consistent m w → manifest_consistent m2 w2) as Hcons2.
  { intros Hc. eapply set_rawHtml_consistent, consistent_mono; [by apply Hcons1|done]. }
  destruct (Webflow.close page) as [[]|msg]; intros ?; simplify_eq.
  - split_and!; try done. by eapply world_le_trans.
  - split_and!.
    + intros Hc. by apply set_error_consistent, Hcons2.
    + by eapply world_le_trans.
    + by apply Herr_other.
    + by apply Herr_some.
Qed.

(** a page whose rendering fails is recorded with the error *)
Lemma processPage_render_fails url m w msg :
  pages m !! url = None → Webflow.render env url = Err msg →
  pages (fst (Webflow.processPage env url (m, w))) !! url
  = Some {| Page.assets := []; Page.rawHtml := None; Page.error := Some msg |}.
Proof.
  intros Hp Hr. unfold Webflow.processPage. rewrite Hp, Hr. simpl.
  by rewrite lookup_alter_eq, lookup_insert_eq.
Qed.

(** a page that renders, with a disk that takes every file: every asset of
    the allow-list is requested and the page is stored, whatever becomes of
    the downloads *)
Lemma processPage_completes url m w page html :
  pages m !! url = None →
  Webflow.render env url = Ok page →
  Webflow.content page = Ok html →
  Webflow.close page = Ok () →
  (∀ n path, Webflow.writeFile env n path = Ok ()) →
  ∃ refs,
    pages (fst (Webflow.processPage env url (m, w))) !! url
    = Some {| Page.assets := refs;
              Page.rawHtml := Some (Path.relative Webflow.OUTPUT_DIR (Webflow.page_file url));
              Page.error := None |} ∧
    (∀ asset, asset ∈ Webflow.dom_assets page → Webflow.isWebflowAsset asset = true →
       asset ∈ Webflow.requests (snd (Webflow.processPage env url (m, w)))).
Proof.
  intros Hp Hr Hc Hcl Hdisk. unfold Webflow.processPage. rewrite Hp, Hr.
  set (m0 := {| startTime := startTime m; endTime := endTime m;
                pages := <[url := Page.fresh]> (pages m); assets := assets m |}).
  destruct (Webflow.download_assets env url (Webflow.dom_assets page) (m0, w))
    as [m1 w1] eqn:Hdl.
  apply download_assets_spec in Hdl as (_ & _ & Hreqs & _ & Hpage1).
  destruct (Hpage1 Page.fresh) as [refs Hrefs]; [apply lookup_insert_eq|].
  rewrite Hc. unfold Webflow.fs_writeFile. rewrite Hdisk, Hcl. simpl.
  exists refs. split; [|done]. by rewrite lookup_alter_eq, Hrefs.
Qed.

Lemma crawl_spec targets m w m' w' :
  Webflow.crawl env targets (m, w) = (m', w') →
  (manifest_consistent m w → manifest_consistent m' w') ∧
  (∀ u, u ∈ targets → is_Some (pages m' !! u)) ∧
  (∀ u page, pages m !! u = Some page → pages m' !! u = Some page) ∧
  (∀ u, u ∉ targets → pages m' !! u = pages m !! u).
Proof.
  revert m w. induction targets as [|url rest IH]; intros m w Hrun.
  - simpl in Hrun. simplify_eq. split_and!; try done.
    intros u Hu. by apply elem_of_nil in Hu.
  - cbn [Webflow.crawl] in Hrun.
    destruct (Webflow.processPage env url (m, w)) as [m1 w1] eqn:Hpp.
    apply IH in Hrun as (Hc & Hall & Hkeep & Hout).
    pose proof (processPage_spec _ _ _ _ _ Hpp) as (Hc1 & Hle1 & Hother & Hsome).
    assert (∀ u page, pages m !! u = Some page → pages m1 !! u = Some page) as Hkeep1.
    { intros u page Hu. destruct (decide (u = url)) as [->|Hne].
      - rewrite (processPage_present _ _ _ _ Hu) in Hpp. by simplify_eq.
      - by rewrite Hother. }
    split_and!.
    + intros Hcons. apply Hc. eapply consistent_mono; [by apply Hc1|].
      apply randomDelay_le.
    + intros u [->|Hu]%elem_of_cons; [|by apply Hall].
      destruct Hsome as [page Hpage]. rewrite (Hkeep _ _ Hpage). by eexists.
    + intros u page Hu. by apply Hkeep, Hkeep1.
    + intros u Hu. apply not_elem_of_cons in Hu as [Hne Hu].
      rewrite Hout by done. by apply Hother.
Qed.

Lemma crawl_records_render_error targets m w url msg :
  url ∈ targets → pages m !! url = None → Webflow.render env url = Err msg →
  pages (fst (Webflow.crawl env targets (m, w))) !! url
  = Some {| Page.assets := []; Page.rawHtml := None; Page.error := Some msg |}.
Proof.
  revert m w. induction targets as [|v rest IH]; intros m w Hin Hp Hr.
  { by apply elem_of_nil in Hin. }
  cbn [Webflow.crawl].
  destruct (Webflow.processPage env v (m, w)) as [m1 w1] eqn:Hpp.
  destruct (decide (v = url)) as [->|Hne].
  - pose proof (processPage_render_fails url m w msg Hp Hr) as Hrec.
    rewrite Hpp in Hrec. simpl in Hrec.
    destruct (Webflow.crawl env rest (m1, Webflow.randomDelay env 3000 7000 w1))
      as [m2 w2] eqn:Hrest.
    apply crawl_spec in Hrest as (_ & _ & Hkeep & _). by apply Hkeep.
  - apply elem_of_cons in Hin as [->|Hin]; [done|].
    apply IH; [done| |done].
    apply processPage_spec in Hpp as (_ & _ & Hother & _). by rewrite Hother.
Qed.

End WebflowPages.

(** C9.  After any number of pages of [webflow-crawler.js], every asset
    record in a page's list is the entry of the manifest's asset table under
    its [originalUrl], so the two agree on [localPath], [hash] and
    [extension]; and every entry of the table, hence every record of a
    page, is the record of a download that succeeded: the one computed from
    its URL, for a URL that was requested and whose file has been written.
    Processing one more page keeps this. *)
Theorem manifest_cross_reference `{UrlParser} (env : Webflow.Env) :
  (∀ targets w url page ref,
     let st := Webflow.crawl env targets (Webflow.initial_manifest env, w) in
     pages (fst st) !! url = Some page → ref ∈ Page.assets page →
     assets (fst st) !! originalUrl ref = Some ref ∧
     ref = Webflow.asset_ref (originalUrl ref) ∧
     originalUrl ref ∈ Webflow.requests (snd st) ∧
     is_Some (Webflow.files (snd st) !! Webflow.asset_file (originalUrl ref))) ∧
  (∀ targets w key ref,
     let st := Webflow.crawl env targets (Webflow.initial_manifest env, w) in
     assets (fst st) !! key = Some ref →
     ref = Webflow.asset_ref key ∧ key ∈ Webflow.requests (snd st) ∧
     is_Some (Webflow.files (snd st) !! Webflow.asset_file key)) ∧
  (∀ url m w,
     manifest_consistent m w →
     manifest_consistent (fst (Webflow.processPage env url (m, w)))
       (snd (Webflow.processPage env url (m, w)))).
Proof.
  assert (∀ targets w,
            manifest_consistent
              (fst (Webflow.crawl env targets (Webflow.initial_manifest env, w)))
              (snd (Webflow.crawl env targets (Webflow.initial_manifest env, w))))
    as Hrun.
  { intros targets w.
    destruct (Webflow.crawl env targets (Webflow.initial_manifest env, w))
      as [m' w'] eqn:Hrun.
    apply crawl_spec in Hrun as (Hc & _). apply Hc. split.
    - intros url page ref Hp. simpl in Hp. by rewrite lookup_empty in Hp.
    - intros key ref Hk. simpl in Hk. by rewrite lookup_empty in Hk. }
  split_and!.
  - intros targets w url page ref st Hp Hin.
    destruct (Hrun targets w) as [Hpages Htable].
    pose proof (Hpages _ _ _ Hp Hin) as Hentry.
    destruct (Htable _ _ Hentry) as (Href & Hreq & Hfile). done.
  - intros targets w key ref st Hk. destruct (Hrun targets w) as [_ Htable].
    by apply Htable.
  - intros url m w Hc.
    destruct (Webflow.processPage env url (m, w)) as [m' w'] eqn:Hpp.
    apply processPage_spec in Hpp as (Hc' & _). by apply Hc'.
Qed.

Lemma manifest_cross_reference_witness :
  let st :=
    Webflow.crawl (H := Url.plain) steady Webflow.TARGET_PAGES
      (Webflow.initial_manifest steady, Webflow.nowhere) in
  assets (fst st) !! logo = Some (Webflow.asset_ref logo).
Proof.
  destruct (manifest_cross_reference (H := Url.plain) steady) as (Hpages & _).
  refine (proj1 (Hpages Webflow.TARGET_PAGES Webflow.nowhere "https://apply.agency/"
                   {| Page.assets := [Webflow.asset_ref logo];
                      Page.rawHtml :=
                        Some (Path.relative Webflow.OUTPUT_DIR
                                (Webflow.page_file "https://apply.agency/"));
                      Page.error := None |}
                   (Webflow.asset_ref logo) _ _)).
  - vm_compute. reflexivity.
  - by left.
Defined.

(** ** The frontier of [crawler.js] *)

Section Frontier.
Context `{UrlParser} (cfg : Crawler.Config) (env : Crawler.Env).

Lemma map_set_keys k v v' (am am' : list (string * string)) :
  am.*1 = am'.*1 → (Crawler.map_set k v am).*1 = (Crawler.map_set k v' am').*1.
Proof.
  revert am'. induction am as [|[a b] am IH]; intros [|[a' b'] am'] Heq;
    simplify_eq/=; [done|].
  destruct (decide (a' = k)); simpl; f_equal; auto.
Qed.

Lemma download_allowed_keys found am am' st st' :
  am.*1 = am'.*1 →
  (fst (Crawler.download_allowed cfg env found am st)).*1
  = (fst (Crawler.download_allowed cfg env found am' st')).*1.
Proof.
  revert am am' st st'. induction found as [|asset rest IH]; intros am am' st st' Heq;
    [done|].
  cbn [Crawler.download_allowed]. destruct (Crawler.isAllowedDomain cfg asset); [|auto].
  destruct (Crawler.downloadAsset cfg env asset st) as [p st1].
  destruct (Crawler.downloadAsset cfg env asset st') as [p' st1'].
  apply IH. by apply map_set_keys.
Qed.

Lemma download_allowed_frame found am st :
  Crawler.visited (snd (Crawler.download_allowed cfg env found am st)) = Crawler.visited st ∧
  Crawler.processing (snd (Crawler.download_allowed cfg env found am st))
  = Crawler.processing st.
Proof.
  revert am st. induction found as [|asset rest IH]; intros am st; [done|].
  cbn [Crawler.download_allowed]. destruct (Crawler.isAllowedDomain cfg asset); [|auto].
  destruct (Crawler.downloadAsset cfg env asset st) as [p st1] eqn:Hdl.
  apply downloadAsset_frame in Hdl as (Hv & Hp & _).
  destruct (IH (Crawler.map_set asset p am) st1) as [-> ->]. done.
Qed.

Lemma rewrite_outcome am am' html html' :
  am.*1 = am'.*1 →
  match Crawler.rewrite env am html, Crawler.rewrite env am' html' with
  | Ok _, Ok _ => True
  | Err a, Err b => a = b
  | _, _ => False
  end.
Proof.
  revert am' html html'. induction am as [|[a b] am IH]; intros [|[a' b'] am'] html html' Heq;
    simplify_eq/=; [done|].
  destruct (Crawler.RegExp_g env a'); [|done]. by apply IH.
Qed.

(** what a page yields does not depend on the state it is rendered in, and
    rendering does not touch [visited] or the log *)
Lemma render_page_spec url st :
  fst (Crawler.render_page cfg env url st) = outlinks cfg env url ∧
  Crawler.visited (snd (Crawler.render_page cfg env url st)) = Crawler.visited st ∧
  Crawler.processing (snd (Crawler.render_page cfg env url st)) = Crawler.processing st.
Proof.
  unfold outlinks, Crawler.render_page.
  destruct (Crawler.load env url) as [found|]; [|done].
  pose proof (download_allowed_keys found [] [] st Crawler.initial eq_refl) as Hkeys.
  pose proof (download_allowed_frame found [] st) as [Hv Hp].
  destruct (Crawler.download_allowed cfg env found [] st) as [am st1].
  destruct (Crawler.download_allowed cfg env found [] Crawler.initial) as [am0 st0].
  simpl in Hkeys, Hv, Hp.
  destruct (Crawler.content env url) as [html|]; [|done].
  pose proof (rewrite_outcome am am0 html html Hkeys) as Hrw.
  destruct (Crawler.rewrite env am html) as [h|], (Crawler.rewrite env am0 html) as [h0|];
    try done; [|by subst].
  destruct (parseURL url) as [urlObj|]; [|done].
  destruct (Crawler.save env url _); [|done].
  by destruct (Crawler.links env url).
Qed.

(** the links a page yields are the ones the browser reports *)
Lemma render_page_links url st ls :
  fst (Crawler.render_page cfg env url st) = Ok ls → Crawler.links env url = Ok ls.
Proof.
  unfold Crawler.render_page.
  destruct (Crawler.load env url) as [found|]; [|done].
  destruct (Crawler.download_allowed cfg env found [] st) as [am st1].
  destruct (Crawler.content env url) as [html|]; [|done].
  destruct (Crawler.rewrite env am html) as [h|]; [|done].
  destruct (parseURL url) as [urlObj|]; [|done].
  destruct (Crawler.save env url _); [|done].
  by destruct (Crawler.links env url).
Qed.

Lemma downloadAsset_failed url st :
  Crawler.failedUrls st ⊆ Crawler.failedUrls (snd (Crawler.downloadAsset cfg env url st)).
Proof.
  unfold Crawler.downloadAsset.
  destruct (Crawler.downloadedAssets st !! url); [done|].
  destruct (Crawler.request_get env _ url); [|simpl; set_solver].
  destruct (parseURL url); [|simpl; set_solver].
  destruct (Crawler.store env _ _); simpl; set_solver.
Qed.

Lemma download_allowed_failed found am st :
  Crawler.failedUrls st
  ⊆ Crawler.failedUrls (snd (Crawler.download_allowed cfg env found am st)).
Proof.
  revert am st. induction found as [|asset rest IH]; intros am st; [done|].
  cbn [Crawler.download_allowed]. destruct (Crawler.isAllowedDomain cfg asset); [|auto].
  pose proof (downloadAsset_failed asset st) as Hdl.
  destruct (Crawler.downloadAsset cfg env asset st) as [p st1]. simpl in Hdl.
  etrans; [exact Hdl|apply IH].
Qed.

(** nothing leaves [failedUrls] while a page is rendered *)
Lemma render_page_failed url st :
  Crawler.failedUrls st ⊆ Crawler.failedUrls (snd (Crawler.render_page cfg env url st)).
Proof.
  unfold Crawler.render_page.
  destruct (Crawler.load env url) as [found|]; [|done].
  pose proof (download_allowed_failed found [] st) as Hdl.
  destruct (Crawler.download_allowed cfg env found [] st) as [am st1]. simpl in Hdl.
  destruct (Crawler.content env url) as [html|]; [|done].
  destruct (Crawler.rewrite env am html) as [h|]; [|done].
  destruct (parseURL url) as [urlObj|]; [|done].
  destruct (Crawler.save env url _); [|done].
  by destruct (Crawler.links env url).
Qed.

End Frontier.

Section Traversal.
Context `{UrlParser} (cfg : Crawler.Config) (env : Crawler.Env) (U : gset string).
Context (HU : closed_site cfg env U).

Lemma settle_spec url r st :
  Crawler.visited (snd (Crawler.settle env url r st)) = Crawler.visited st ∧
  Crawler.processing (snd (Crawler.settle env url r st)) = Crawler.processing st ∧
  Crawler.failedUrls st ⊆ Crawler.failedUrls (snd (Crawler.settle env url r st)) ∧
  (∀ msg, r = Err msg → url ∈ Crawler.failedUrls (snd (Crawler.settle env url r st))) ∧
  (browser_ok env → fst (Crawler.settle env url r st) = Ok ()).
Proof.
  unfold Crawler.settle. split_and!.
  - by destruct (Crawler.close env url), r.
  - by destruct (Crawler.close env url), r.
  - destruct (Crawler.close env url), r; simpl; set_solver.
  - intros msg ->. destruct (Crawler.close env url); simpl; set_solver.
  - intros Hb. destruct (Hb url) as [_ ->]. done.
Qed.

Lemma unvisited_shrinks url (V : gset string) :
  url ∈ U → url ∉ V → size (U ∖ ({[url]} ∪ V)) < size (U ∖ V).
Proof.
  intros HinU Hnew. apply subset_size. split; [set_solver|].
  intros Hsub. specialize (Hsub url). set_solver.
Qed.

Lemma follow_spec fuel :
  (∀ url st,
     url ∈ U → Crawler.visited st ⊆ U → size (U ∖ Crawler.visited st) < fuel →
     log_ok st →
     ∃ r st', Crawler.processPage cfg env fuel url st = Some (r, st') ∧
              call_post cfg env U url st r st') →
  ∀ ls st,
    (∀ l, l ∈ ls → Crawler.isAllowedDomain cfg l = true → l ∈ U) →
    Crawler.visited st ⊆ U → size (U ∖ Crawler.visited st) < fuel → log_ok st →
    ∃ r st', Crawler.follow cfg (Crawler.processPage cfg env fuel) ls st = Some (r, st') ∧
             loop_post cfg env U ls st r st'.
Proof.
  intros Hcall ls. induction ls as [|l rest IH]; intros st Hls HV Hsize Hlog.
  - exists (Ok ()), st. split; [done|]. unfold loop_post. split_and!; try done.
    + by left.
    + intros _. split_and!; try done. intros l Hl. by apply elem_of_nil in Hl.
  - assert (∀ l', l' ∈ rest → Crawler.isAllowedDomain cfg l' = true → l' ∈ U) as Hrest
      by (intros l' Hl'; apply Hls; by right).
    cbn [Crawler.follow].
    destruct (Crawler.isAllowedDomain cfg l && bool_decide (l ∉ Crawler.visited st))
      eqn:Hgo.
    + apply andb_true_iff in Hgo as [Hallowed Hnew].
      destruct (Hcall l st)
        as (r1 & st1 & -> & Hsub1 & HV1 & Hl1 & Hlog1 & Hfail1 & Hreach1 & Hok1);
        [apply Hls; [by left|done]|done..|].
      destruct r1 as [[]|msg].
      * destruct (IH st1) as (r & st' & -> & Hsub & HV' & Hlog' & Hfail & Hreach & Hok);
          [done|done| |done|].
        { eapply Nat.le_lt_trans; [|done]. apply subseteq_size. set_solver. }
        exists r, st'. split; [done|]. unfold loop_post. split_and!; try done.
        -- set_solver.
        -- set_solver.
        -- intros v Hv. destruct (Hreach v Hv) as [Hv1|(l' & Hl' & Ha' & Hr')].
           ++ destruct (Hreach1 v Hv1) as [?|Hr]; [by left|].
              right. exists l. split_and!; [by left|done|done].
           ++ right. exists l'. split_and!; [by right|done|done].
        -- intros Hb. destruct (Hok Hb) as (-> & Hexp & Hall).
           destruct (Hok1 Hb) as (_ & Hexp1). split_and!; [done|by auto|].
           intros l' [->|Hl']%elem_of_cons Ha'; [set_solver|by apply Hall].
      * exists (Err msg), st1. split; [done|]. unfold loop_post. split_and!; try done.
        -- intros v Hv. destruct (Hreach1 v Hv) as [?|Hr]; [by left|].
           right. exists l. split_and!; [by left|done|done].
        -- intros Hb. by destruct (Hok1 Hb) as [? _].
    + destruct (IH st) as (r & st' & -> & Hsub & HV' & Hlog' & Hfail & Hreach & Hok);
        [done..|].
      exists r, st'. split; [done|]. unfold loop_post. split_and!; try done.
      * intros v Hv. destruct (Hreach v Hv) as [?|(l' & Hl' & Ha' & Hr')]; [by left|].
        right. exists l'. split_and!; [by right|done|done].
      * intros Hb. destruct (Hok Hb) as (-> & Hexp & Hall). split_and!; [done..|].
        intros l' [->|Hl']%elem_of_cons Ha'; [|by apply Hall].
        rewrite Ha' in Hgo. simpl in Hgo. apply bool_decide_eq_false in Hgo.
        apply Hsub. by apply dec_stable.
Qed.

Lemma processPage_spec_crawler fuel url st :
  url ∈ U → Crawler.visited st ⊆ U → size (U ∖ Crawler.visited st) < fuel →
  log_ok st →
  ∃ r st', Crawler.processPage cfg env fuel url st = Some (r, st') ∧
           call_post cfg env U url st r st'.
Proof.
  revert url st. induction fuel as [|fuel IH]; intros url st HinU HV Hsize Hlog; [lia|].
  cbn [Crawler.processPage].
  destruct (decide (url ∈ Crawler.visited st)) as [Hseen|Hnew].
  { exists (Ok ()), st. split; [done|]. unfold call_post. split_and!; try done.
    intros v Hv. by left. }
  set (st1 := {| Crawler.visited := {[url]} ∪ Crawler.visited st;
                 Crawler.downloadedAssets := Crawler.downloadedAssets st;
                 Crawler.failedUrls := Crawler.failedUrls st;
                 Crawler.requests := Crawler.requests st;
                 Crawler.files := Crawler.files st;
                 Crawler.processing := url :: Crawler.processing st |}).
  assert (log_ok st1) as Hlog1.
  { destruct Hlog as [Hnd Hiff]. split; simpl.
    - constructor; [|done]. by rewrite Hiff.
    - intros v. rewrite elem_of_cons, elem_of_union, elem_of_singleton, Hiff. done. }
  assert (Crawler.visited st1 ⊆ U) as HV1 by (simpl; set_solver).
  assert (∀ v, v ∈ Crawler.visited st1 →
            v ∈ Crawler.visited st ∨ rtc (edge cfg env) url v) as Hreach1.
  { simpl. intros v [->%elem_of_singleton|?]%elem_of_union; [by right|by left]. }
  destruct (Crawler.newPage env url) as [[]|msg] eqn:Hopen.
  2:{ exists (Err msg), st1. split; [done|]. unfold call_post.
      split_and!; try done; [set_solver..|].
      intros Hb. destruct (Hb url) as [Hb1 _]. congruence. }
  pose proof (render_page_spec cfg env url st1) as (_ & Hvis2 & Hproc2).
  pose proof (render_page_links cfg env url st1) as Hlinks.
  pose proof (render_page_failed cfg env url st1) as Hfail2.
  destruct (Crawler.render_page cfg env url st1) as [[ls|msg] st2];
    simpl in Hlinks, Hvis2, Hproc2, Hfail2.
  - (* the page yields its links *)
    specialize (Hlinks ls eq_refl).
    assert (log_ok st2) as Hlog2 by (unfold log_ok; by rewrite Hvis2, Hproc2).
    destruct (follow_spec fuel IH ls st2)
      as (r & st3 & -> & Hsub3 & HV3 & Hlog3 & Hfail3 & Hreach3 & Hok3).
    { intros l Hl Ha. apply (HU url l HinU). by exists ls. }
    { by rewrite Hvis2. }
    { rewrite Hvis2. simpl. pose proof (unvisited_shrinks url _ HinU Hnew). lia. }
    { done. }
    pose proof (settle_spec url r st3) as (Hvis4 & Hproc4 & Hfail4 & _ & Hok4).
    destruct (Crawler.settle env url r st3) as [r4 st4];
      simpl in Hvis4, Hproc4, Hfail4, Hok4.
    exists r4, st4. split; [done|]. unfold call_post. rewrite Hvis4.
    rewrite Hvis2 in Hsub3. split_and!; try done.
    + set_solver.
    + set_solver.
    + unfold log_ok. by rewrite Hvis4, Hproc4.
    + etrans; [exact Hfail2|]. by etrans.
    + intros v Hv. destruct (Hreach3 v Hv) as [Hv2|(l & Hl & Ha & Hr)].
      * rewrite Hvis2 in Hv2. by apply Hreach1.
      * right. eapply rtc_l; [|done]. by exists ls.
    + intros Hb. split; [by apply Hok4|]. intros S Hexp.
      destruct (Hok3 Hb) as (_ & Hexp3 & Hall).
      assert (expanded cfg env ({[url]} ∪ S) st3) as Hexp'.
      { apply Hexp3. intros p v Hp HpS Hpf Hedge. rewrite Hvis2 in *. simpl in *.
        apply elem_of_union_r. apply (Hexp p v); [set_solver|set_solver| |done].
        intros Hf. apply Hpf. by apply Hfail2. }
      intros p v Hp HpS Hpf Hedge. rewrite Hvis4 in *.
      destruct (decide (p = url)) as [->|Hne].
      * destruct Hedge as (ls' & Hls' & Hv & Ha). rewrite Hlinks in Hls'.
        simplify_eq. by apply Hall.
      * apply (Hexp' p v); [done|set_solver| |done].
        intros Hf. apply Hpf. by apply Hfail4.
  - (* the page fails before its links are read *)
    pose proof (settle_spec url (Err msg) st2) as (Hvis4 & Hproc4 & Hfail4 & Hin4 & Hok4).
    specialize (Hin4 msg eq_refl).
    destruct (Crawler.settle env url (Err msg) st2) as [r4 st4];
      simpl in Hvis4, Hproc4, Hfail4, Hin4, Hok4.
    exists r4, st4. split; [done|]. unfold call_post. rewrite Hvis4, Hvis2.
    split_and!; try done.
    + simpl. set_solver.
    + simpl. set_solver.
    + unfold log_ok. by rewrite Hvis4, Hproc4, Hvis2, Hproc2.
    + by etrans.
    + intros Hb. split; [by apply Hok4|]. intros S Hexp p v Hp HpS Hpf Hedge.
      rewrite Hvis4, Hvis2 in *. simpl in *.
      destruct (decide (p = url)) as [->|Hne]; [done|].
      apply elem_of_union_r. apply (Hexp p v); [set_solver|done| |done].
      intros Hf. apply Hpf. apply Hfail4. by apply Hfail2.
Qed.

End Traversal.

Section Marking.
Context `{UrlParser} (cfg : Crawler.Config) (env : Crawler.Env).

Lemma render_page_visited url st :
  Crawler.visited (snd (Crawler.render_page cfg env url st)) = Crawler.visited st.
Proof. by destruct (render_page_spec cfg env url st) as (_ & ? & _). Qed.

Lemma settle_visited url r st :
  Crawler.visited (snd (Crawler.settle env url r st)) = Crawler.visited st.
Proof. unfold Crawler.settle. by destruct (Crawler.close env url), r. Qed.

(** whatever happens to a page, once [processPage] has been entered for it
    the page is in [visited], and nothing ever leaves [visited] *)
Lemma processPage_marks fuel url st r st' :
  Crawler.processPage cfg env fuel url st = Some (r, st') →
  Crawler.visited st ⊆ Crawler.visited st' ∧ url ∈ Crawler.visited st'.
Proof.
  revert url st r st'. induction fuel as [|fuel IH]; intros url st r st' Hrun; [done|].
  cbn [Crawler.processPage] in Hrun.
  destruct (decide (url ∈ Crawler.visited st)); [by simplify_eq|].
  destruct (Crawler.newPage env url); [|simplify_eq; simpl; set_solver].
  match type of Hrun with context [Crawler.render_page cfg env url ?s] =>
    pose proof (render_page_visited url s) as Hv2;
    destruct (Crawler.render_page cfg env url s) as [[ls|msg] st2]
  end; simpl in Hv2.
  - assert (∀ ls st2 r3 st3,
              Crawler.follow cfg (Crawler.processPage cfg env fuel) ls st2 = Some (r3, st3) →
              Crawler.visited st2 ⊆ Crawler.visited st3) as Hfollow.
    { clear -IH. induction ls as [|l rest IHl]; intros st2 r3 st3 Hf; simpl in Hf.
      - by simplify_eq.
      - destruct (_ && _); [|by eapply IHl].
        destruct (Crawler.processPage cfg env fuel l st2) as [[[[]|msg] st1]|] eqn:Hp;
          [|by simplify_eq; apply IH in Hp as [? _]|done].
        apply IH in Hp as [? _]. apply IHl in Hf. set_solver. }
    destruct (Crawler.follow cfg _ ls st2) as [[r3 st3]|] eqn:Hf; [|done].
    apply Hfollow in Hf. pose proof (settle_visited url r3 st3) as Hv4.
    destruct (Crawler.settle env url r3 st3) as [r4 st4]. simplify_eq. simpl in *.
    set_solver.
  - pose proof (settle_visited url (Err msg) st2) as Hv4.
    destruct (Crawler.settle env url (Err msg) st2) as [r4 st4]. simplify_eq. simpl in *.
    set_solver.
Qed.

(** a page that fails inside the [try] is caught: the call returns normally
    when the page can be closed, with the page in [failedUrls] *)
Lemma page_failure_is_caught fuel url st msg :
  url ∉ Crawler.visited st →
  Crawler.newPage env url = Ok () → Crawler.close env url = Ok () →
  outlinks cfg env url = Err msg →
  ∃ st', Crawler.processPage cfg env (S fuel) url st = Some (Ok (), st') ∧
         url ∈ Crawler.failedUrls st'.
Proof.
  intros Hnew Hopen Hclose Hout. cbn [Crawler.processPage].
  rewrite decide_False, Hopen by done.
  match goal with |- context [Crawler.render_page cfg env url ?s] =>
    pose proof (render_page_spec cfg env url s) as (Hfst & _);
    destruct (Crawler.render_page cfg env url s) as [r st2]
  end.
  simpl in Hfst. rewrite Hout in Hfst. subst r.
  unfold Crawler.settle. rewrite Hclose. eexists. split; [done|]. simpl. set_solver.
Qed.

End Marking.


Lemma two_pages_closed :
  closed_site (H := Url.plain) Crawler.config two_pages {[page_a; page_b]}.
Proof.
  intros u v Hu (ls & Hls & Hv & _).
  apply elem_of_union in Hu as [->%elem_of_singleton| ->%elem_of_singleton];
    vm_compute in Hls; simplify_eq;
    apply list_elem_of_singleton in Hv as ->; set_solver.
Qed.



(** The links of a page are read after the page is stored: when that
    fails, the page is reported in [failedUrls] and the pages behind it are
    not visited. *)
Example failed_page_links_are_not_followed :
  let run := Crawler.main (H := Url.plain) Crawler.config unsaved_home 3 in
  let st := from_option snd Crawler.initial run in
  fst <$> run = Some (Ok ()) ∧
  Crawler.processing st = [page_a] ∧
  page_a ∈ Crawler.failedUrls st ∧
  edge (H := Url.plain) Crawler.config unsaved_home page_a page_b.
Proof.
  split_and!.
  - vm_compute. reflexivity.
  - vm_compute. reflexivity.
  - vm_compute. set_solver.
  - exists [page_b]. split; [reflexivity|]. split; [by left|]. vm_compute. reflexivity.
Qed.

(** the crawl of the cycle, run: page A, then page B, each once *)
Lemma cycle_is_crawled_once :
  ∃ st,
    Crawler.main (H := Url.plain) Crawler.config two_pages 3 = Some (Ok (), st) ∧
    Crawler.processing st = [page_b; page_a] ∧
    Crawler.visited st = {[page_a; page_b]}.
Proof.
  eexists. split; [vm_compute; reflexivity|]. split; [reflexivity|].
  apply set_eq. intros x. set_solver.
Qed.



(** * More of the code *)

(** ** Paths made of segments *)

(** a property of each segment of an explicit list *)
Ltac each_segment := repeat (apply Forall_cons_2); try apply Forall_nil_2.

Section Segments.

Lemma join_cons_cons sep x y (L : list string) :
  Js.join sep (x :: y :: L) = x +:+ sep +:+ Js.join sep (y :: L).
Proof. done. Qed.

Lemma join_app (A B : list string) :
  A ≠ [] → B ≠ [] →
  Js.join "/" (A ++ B) = Js.join "/" A +:+ "/" +:+ Js.join "/" B.
Proof.
  intros HA HB. induction A as [|a [|a' A] IH]; [done| |].
  - destruct B; [done|]. done.
  - change (Js.join "/" ((a :: a' :: A) ++ B))
      with (a +:+ "/" +:+ Js.join "/" ((a' :: A) ++ B)).
    rewrite IH by done.
    change (Js.join "/" (a :: a' :: A)) with (a +:+ "/" +:+ Js.join "/" (a' :: A)).
    by rewrite !sapp_assoc.
Qed.

Lemma normalizeSegments_no_empty b (L acc : list string) :
  Forall (λ seg, seg ≠ "") acc →
  Forall (λ seg, seg ≠ "") (Path.normalizeSegments b L acc).
Proof.
  revert acc. induction L as [|seg L IH]; intros acc Hacc; simpl.
  - by apply Forall_rev.
  - destruct (decide (seg = "" ∨ seg = ".")) as [|Hn]; [by apply IH|].
    destruct (decide (seg = "..")) as [->|Hd].
    + destruct acc as [|top below].
      * apply IH. destruct b; by repeat constructor.
      * destruct (decide (top = "..")).
        -- apply IH. destruct b; [|done]. by constructor.
        -- apply IH. by inversion Hacc.
    + apply IH. constructor; [|done]. intros ->. apply Hn. by left.
Qed.

Lemma join_segments_nonempty (L : list string) :
  L ≠ [] → Forall (λ seg, seg ≠ "") L → Js.join "/" L ≠ "".
Proof.
  intros HL Hall. destruct L as [|x L]; [done|].
  inversion Hall as [|?? Hx _]; subst. destruct x; [done|]. by destruct L.
Qed.

Lemma startsWith_join_relative (L : list string) :
  hd "" L ≠ "" → Js.includes (hd "" L) "/" = false →
  Js.startsWith (Js.join "/" L) "/" = false.
Proof.
  destruct L as [|x L]; [done|]. simpl hd. intros Hx Hno.
  destruct x as [|c x]; [done|].
  apply includes_char_false in Hno as [Hc _].
  assert (∀ rest, Js.startsWith (String c rest) "/" = false) as Hhead.
  { intros rest. cbn [Js.startsWith]. by rewrite (proj2 (Ascii.eqb_neq _ _)). }
  destruct L; cbn [Js.join]; rewrite ?sapp_cons; apply Hhead.
Qed.

(** normalising a relative path with no trailing slash, segment by
    segment *)
Lemma normalize_join (L : list string) :
  Forall (λ seg, Js.includes seg "/" = false) L →
  hd "" L ≠ "" → List.last L "" ≠ "" →
  Path.normalizeSegments true L [] ≠ [] →
  Path.normalize (Js.join "/" L) = Js.join "/" (Path.normalizeSegments true L []).
Proof.
  intros Hno Hhd Hlast Hne.
  assert (L ≠ []) as HL by (by intros ->).
  unfold Path.normalize. rewrite decide_False; last first.
  { intros [->| ->]%join_eq_empty; done. }
  rewrite startsWith_join_relative; [|done|]; last first.
  { destruct L; [done|]. by inversion Hno. }
  simpl negb. rewrite split_join by done.
  rewrite decide_False; last first.
  { apply join_segments_nonempty; [done|]. by apply normalizeSegments_no_empty. }
  rewrite join_no_trailing_slash by done. by rewrite sapp_nil_l, sapp_nil_r.
Qed.

(** [path.join(a, b)] for two relative paths given by their segments *)
Lemma path_join_segments (A B : list string) :
  Forall (λ seg, Js.includes seg "/" = false) (A ++ B) →
  hd "" A ≠ "" → List.last B "" ≠ "" →
  Path.normalizeSegments true (A ++ B) [] ≠ [] →
  Path.join [Js.join "/" A; Js.join "/" B]
  = Js.join "/" (Path.normalizeSegments true (A ++ B) []).
Proof.
  intros Hno Hhd Hlast Hne.
  assert (A ≠ []) as HA by (by intros ->).
  assert (B ≠ []) as HB by (by intros ->).
  apply Forall_app in Hno as [HnoA HnoB].
  unfold Path.join, Js.filter_Boolean.
  rewrite filter_cons_True; last first.
  { intros [->| ->]%join_eq_empty; done. }
  rewrite filter_cons_True; last first.
  { intros [->| ->]%join_eq_empty; done. }
  rewrite filter_nil.
  change (Js.join "/" [Js.join "/" A; Js.join "/" B])
    with (Js.join "/" A +:+ "/" +:+ Js.join "/" B).
  rewrite <-join_app by done.
  apply normalize_join; try done.
  - by apply Forall_app.
  - by destruct A.
  - by rewrite last_skip_prefix.
Qed.

(** [n] segments [..] undo the [n] plain segments before them *)
Lemma normalizeSegments_pop b (stack tail acc : list string) :
  Forall plain_segment stack →
  Path.normalizeSegments b (List.repeat ".." (length stack) ++ tail) (stack ++ acc)
  = Path.normalizeSegments b tail acc.
Proof.
  induction 1 as [|top stack (_ & _ & Htop & _) _ IH]; [done|].
  cbn [length List.repeat app Path.normalizeSegments].
  rewrite decide_False by (by intros [|]).
  rewrite decide_True by done. by rewrite decide_False.
Qed.

End Segments.

(** ** Where the crawler of the manifest puts its files *)

Section RawDownload.

Lemma page_name_plain url : plain_segment (Md5.hex url +:+ ".html").
Proof.
  assert (32 ≤ String.length (Md5.hex url +:+ ".html")) as Hlen
    by (rewrite slength_app, length_hex; lia).
  split_and!; try (intros Heq; rewrite Heq in Hlen; simpl in Hlen; lia).
  rewrite (includes_char_app _ _ "/"). unfold Md5.hex. by rewrite hex_of_no_slash.
Qed.

Lemma raw_download_file dir name :
  plain_segment dir → plain_segment name →
  Path.join [Path.join [Webflow.OUTPUT_DIR; dir]; name]
  = "raw_download/" +:+ dir +:+ "/" +:+ name ∧
  Path.join [Webflow.OUTPUT_DIR; dir +:+ "/" +:+ name]
  = "raw_download/" +:+ dir +:+ "/" +:+ name ∧
  Path.relative Webflow.OUTPUT_DIR ("raw_download/" +:+ dir +:+ "/" +:+ name)
  = dir +:+ "/" +:+ name.
Proof.
  intros Hdir Hname.
  pose proof Hdir as (Hd1 & Hd2 & Hd3 & Hd4).
  pose proof Hname as (Hn1 & Hn2 & Hn3 & Hn4).
  assert (kept [dir; name] = [dir; name]) as Hk
    by (apply kept_plain; by each_segment).
  assert (kept [dir] = [dir]) as Hk1 by (apply kept_plain; by each_segment).
  assert (Path.join [Webflow.OUTPUT_DIR; dir] = "raw_download/" +:+ dir) as Hd.
  { pose proof (path_join_segments ["."; "raw_download"] [dir]) as Hj.
    rewrite normalizeSegments_kept in Hj by (by each_segment).
    cbn [app] in Hj. change (kept ("." :: "raw_download" :: [dir]))
      with (kept ["."; "raw_download"] ++ kept [dir]) in Hj.
    rewrite Hk1 in Hj. apply Hj; try done. by each_segment. }
  split_and!.
  - rewrite Hd.
    pose proof (path_join_segments ["raw_download"; dir] [name]) as Hj.
    rewrite normalizeSegments_kept in Hj by (by each_segment).
    cbn [app] in Hj.
    change (kept ("raw_download" :: [dir; name]))
      with (kept ["raw_download"] ++ kept [dir; name]) in Hj.
    rewrite Hk in Hj. apply Hj; try done. by each_segment.
  - pose proof (path_join_segments ["."; "raw_download"] [dir; name]) as Hj.
    rewrite normalizeSegments_kept in Hj by (by each_segment).
    cbn [app] in Hj.
    change (kept ("." :: "raw_download" :: [dir; name]))
      with (kept ["."; "raw_download"] ++ kept [dir; name]) in Hj.
    rewrite Hk in Hj. apply Hj; try done. by each_segment.
  - unfold Path.relative.
    change ("raw_download/" +:+ dir +:+ "/" +:+ name)
      with (Js.join "/" ["raw_download"; dir; name]).
    rewrite split_join by (by each_segment).
    rewrite (normalizeSegments_kept _ ["raw_download"; dir; name])
      by (by each_segment).
    change (kept ["raw_download"; dir; name])
      with (kept ["raw_download"] ++ kept [dir; name]).
    rewrite Hk. done.
Qed.

Lemma plain_assets : plain_segment "assets".
Proof. by repeat split. Qed.

Lemma plain_pages : plain_segment "pages".
Proof. by repeat split. Qed.

Lemma page_file_eq url :
  Webflow.page_file url = "raw_download/pages/" +:+ Md5.hex url +:+ ".html".
Proof.
  apply (proj1 (raw_download_file "pages" _ plain_pages (page_name_plain url))).
Qed.

Lemma rawHtml_eq url :
  Path.relative Webflow.OUTPUT_DIR (Webflow.page_file url)
  = "pages/" +:+ Md5.hex url +:+ ".html".
Proof.
  rewrite page_file_eq.
  apply (raw_download_file "pages" _ plain_pages (page_name_plain url)).
Qed.

Lemma asset_file_eq url :
  Webflow.asset_file url
  = "raw_download/" +:+ localPath (Webflow.asset_ref url).
Proof.
  rewrite localPath_asset_ref.
  apply (proj1 (raw_download_file "assets" _ plain_assets (asset_name_plain url))).
Qed.

End RawDownload.

(** ** Reading asset URLs off attribute values *)

Section Tokens.

Lemma includes_char_cons c s d :
  Js.includes (String c s) (String d "") = Ascii.eqb d c || Js.includes s (String d "").
Proof. cbn [Js.includes Js.startsWith]. by rewrite andb_true_r. Qed.

Lemma no_char_of_includes cs s c :
  no_char_of cs s = true → c ∈ cs → Js.includes s (String c "") = false.
Proof.
  intros Hs Hc. induction s as [|a s IH]; [done|].
  cbn [no_char_of Url.forallb_string] in Hs. apply andb_true_iff in Hs as [Ha Hs].
  rewrite includes_char_cons, (IH Hs), orb_false_r.
  apply Ascii.eqb_neq. intros ->. by apply bool_decide_eq_true in Ha.
Qed.

Lemma no_char_of_weaken cs cs' s :
  (∀ c, c ∈ cs' → c ∈ cs) → no_char_of cs s = true → no_char_of cs' s = true.
Proof.
  intros Hsub. induction s as [|a s IH]; [done|].
  cbn [no_char_of Url.forallb_string]. intros [Ha Hs]%andb_true_iff.
  apply andb_true_iff. split; [|by apply IH].
  apply bool_decide_eq_true. apply bool_decide_eq_true in Ha. auto.
Qed.

Lemma split_sep_none sep s :
  Js.includes s (String sep "") = false → Js.split sep s = [s].
Proof.
  induction s as [|c s IH]; [done|]. intros [Hc Hs]%includes_char_false.
  simpl. rewrite (proj2 (Ascii.eqb_neq c sep)) by done. by rewrite IH.
Qed.

Lemma split_sep_app sep seg rest :
  Js.includes seg (String sep "") = false →
  Js.split sep (seg +:+ String sep rest) = seg :: Js.split sep rest.
Proof.
  induction seg as [|c seg IH].
  - intros _. rewrite sapp_nil_l. simpl. by rewrite Ascii.eqb_refl.
  - intros [Hc Hs]%includes_char_false. rewrite sapp_cons. simpl.
    rewrite (proj2 (Ascii.eqb_neq c sep)) by done. by rewrite IH.
Qed.

Lemma trimStart_lead lead s :
  Url.forallb_string (λ c, bool_decide (c ∈ Extract.white_space)) lead = true →
  Extract.trimStart (lead +:+ s) = Extract.trimStart s.
Proof.
  induction lead as [|c lead IH]; [done|].
  cbn [Url.forallb_string]. intros [Hc Hl]%andb_true_iff.
  rewrite sapp_cons. cbn [Extract.trimStart]. rewrite Hc. by apply IH.
Qed.

Lemma trimStart_token u tail :
  u ≠ "" → no_char_of Extract.white_space u = true →
  Extract.trimStart (u +:+ tail) = u +:+ tail.
Proof.
  destruct u as [|c u]; [done|]. intros _.
  cbn [no_char_of Url.forallb_string]. intros [Hc _]%andb_true_iff.
  rewrite sapp_cons. cbn [Extract.trimStart].
  apply bool_decide_eq_true in Hc. by rewrite bool_decide_eq_false_2.
Qed.

Lemma trimEnd_cons c s :
  Extract.trimEnd (String c s) = "" ∨
  Extract.trimEnd (String c s) = String c (Extract.trimEnd s).
Proof.
  cbn [Extract.trimEnd]. destruct (Extract.trimEnd s); [|by right].
  destruct (bool_decide _); [by left|by right].
Qed.

Lemma trimEnd_token u tail :
  u ≠ "" → no_char_of Extract.white_space u = true →
  Extract.trimEnd (u +:+ tail) = u +:+ Extract.trimEnd tail.
Proof.
  induction u as [|c u IH]; [done|]. intros _.
  cbn [no_char_of Url.forallb_string]. intros [Hc Hu]%andb_true_iff.
  apply bool_decide_eq_true in Hc.
  rewrite !sapp_cons. cbn [Extract.trimEnd].
  destruct u as [|d u].
  - rewrite !sapp_nil_l. destruct (Extract.trimEnd tail); [|done].
    by rewrite bool_decide_eq_false_2.
  - rewrite IH by done. by rewrite sapp_cons.
Qed.

(** the first token of a part of a [srcset] *)
Lemma first_token lead u tail :
  Url.forallb_string (λ c, bool_decide (c ∈ Extract.white_space)) lead = true →
  u ≠ "" → no_char_of Extract.white_space u = true →
  tail = "" ∨ (∃ d, tail = String " " d) →
  hd "" (Js.split " " (Extract.trim (lead +:+ u +:+ tail))) = u.
Proof.
  intros Hlead Hu Hno Htail. unfold Extract.trim.
  rewrite trimStart_lead, trimStart_token, trimEnd_token by done.
  assert (Js.includes u " " = false) as Hsp.
  { apply (no_char_of_includes Extract.white_space); [done|]. set_solver. }
  assert (Extract.trimEnd tail = "" ∨ ∃ d, Extract.trimEnd tail = String " " d)
    as [->|[d ->]].
  { destruct Htail as [->|[d ->]]; [by left|].
    destruct (trimEnd_cons " " d) as [->| ->]; [by left|right; by eexists]. }
  - by rewrite sapp_nil_r, split_sep_none.
  - by rewrite split_sep_app.
Qed.

Lemma candidate_tail c :
  ∃ tail, candidate c = c.1 +:+ tail ∧ (tail = "" ∨ ∃ d, tail = String " " d) ∧
          (Js.includes c.2 "," = false → Js.includes tail "," = false).
Proof.
  unfold candidate. destruct (decide (c.2 = "")).
  - exists "". by rewrite sapp_nil_r; split_and!; [|left|].
  - exists (" " +:+ c.2). split_and!; [done|right; by eexists|].
    intros Hno. by rewrite sapp_cons, sapp_nil_l, includes_char_cons, Hno.
Qed.

Lemma srcset_parts lead (cands : list (string * string)) :
  cands ≠ [] →
  Forall (λ c, srcset_url c.1 ∧ Js.includes c.2 "," = false) cands →
  lead = "" ∨ lead = " " →
  (λ s, hd "" (Js.split " " (Extract.trim s)))
    <$> Js.split "," (lead +:+ Js.join ", " (candidate <$> cands))
  = cands.*1.
Proof.
  intros Hne Hall. revert lead.
  induction Hall as [|c cands [[Hu Hurl] Hd] Hall IH]; [done|]. intros lead Hlead.
  assert (Url.forallb_string (λ c, bool_decide (c ∈ Extract.white_space)) lead = true)
    as Hws by (by destruct Hlead as [->| ->]).
  assert (no_char_of Extract.white_space c.1 = true) as Hno.
  { eapply no_char_of_weaken; [|done]. set_solver. }
  destruct (candidate_tail c) as (tail & Hc & Htail & Hcomma).
  assert (Js.includes (lead +:+ candidate c) "," = false) as Hpart.
  { rewrite Hc, !(includes_char_app _ _ ","), (Hcomma Hd).
    rewrite (no_char_of_includes _ _ "," Hurl) by set_solver.
    by destruct Hlead as [->| ->]. }
  destruct cands as [|c' cands].
  - simpl. rewrite split_sep_none by done. simpl.
    by rewrite Hc, first_token.
  - rewrite (fmap_cons candidate c), (fmap_cons candidate c'), join_cons_cons.
    rewrite <-(fmap_cons candidate c').
    replace (lead +:+ candidate c +:+ ", " +:+ Js.join ", " (candidate <$> c' :: cands))
      with ((lead +:+ candidate c)
              +:+ String "," (" " +:+ Js.join ", " (candidate <$> c' :: cands)))
      by (by rewrite !sapp_assoc).
    rewrite split_sep_app by done. rewrite !fmap_cons. f_equal.
    + by rewrite Hc, first_token.
    + apply IH; [done|by right].
Qed.

Lemma includes_char_trimStart s d :
  Js.includes s (String d "") = false →
  Js.includes (Extract.trimStart s) (String d "") = false.
Proof.
  induction s as [|c s IH]; [done|]. intros Hno. cbn [Extract.trimStart].
  destruct (bool_decide _); [|done]. apply IH.
  by apply includes_char_false in Hno as [_ ?].
Qed.

Lemma includes_char_trimEnd s d :
  Js.includes s (String d "") = false →
  Js.includes (Extract.trimEnd s) (String d "") = false.
Proof.
  induction s as [|c s IH]; [done|]. intros Hno.
  pose proof Hno as [Hc Hs]%includes_char_false.
  destruct (trimEnd_cons c s) as [->| ->]; [done|].
  rewrite includes_char_cons, (IH Hs), orb_false_r. by apply Ascii.eqb_neq.
Qed.

End Tokens.

(** X1. Reading a [srcset]: both crawlers split the attribute at commas
    and keep, of each part, the text before the first space once the part
    is trimmed.  On a list of image candidates joined by a comma and a
    space, each a URL with no comma and no white space followed or not by a
    descriptor, that gives back the URLs, in order.  Whatever the attribute
    holds, no URL read off it has a comma or a space: a URL with a comma in
    it is not read whole. *)
Theorem srcset_urls_of_candidates :
  (∀ cands : list (string * string),
     cands ≠ [] →
     Forall (λ c, srcset_url c.1 ∧ Js.includes c.2 "," = false) cands →
     Extract.srcset_urls (Js.join ", " (candidate <$> cands)) = cands.*1) ∧
  (∀ srcset u, u ∈ Extract.srcset_urls srcset →
     Js.includes u "," = false ∧ Js.includes u " " = false).
Proof.
  split.
  - intros cands Hne Hall. apply (srcset_parts "" cands); [done..|by left].
  - intros srcset u (part & -> & Hpart)%list_elem_of_fmap.
    assert (Js.includes part "," = false) as Hcomma.
    { pose proof (split_parts "," "," srcset (or_introl eq_refl)) as Hall.
      rewrite Forall_forall in Hall. by apply Hall. }
    assert (Js.includes (Extract.trim part) "," = false) as Htrim
      by (by apply includes_char_trimEnd, includes_char_trimStart).
    split.
    + pose proof (split_parts "," " " (Extract.trim part) (or_intror Htrim)) as Hall.
      destruct Hall; done.
    + pose proof (split_parts " " " " (Extract.trim part) (or_introl eq_refl)) as Hall.
      destruct Hall; done.
Qed.

Lemma srcset_urls_of_candidates_witness :
  Extract.srcset_urls
    (Js.join ", " (candidate <$> [("https://cdn/a.png", "1x"); ("https://cdn/b.png", "")]))
  = ["https://cdn/a.png"; "https://cdn/b.png"].
Proof.
  apply (proj1 srcset_urls_of_candidates
           [("https://cdn/a.png", "1x"); ("https://cdn/b.png", "")]); [done|].
  repeat (apply Forall_cons_2); try apply Forall_nil_2;
    (split; [split; [done|vm_compute; reflexivity]|vm_compute; reflexivity]).
Defined.

(** ** Reading asset URLs off style text *)

Section StyleText.

(** the scan of [match] passes over a prefix where [w] begins nowhere *)
Lemma match_all_from_app w p pre s :
  Js.includes (pre +:+ Regex.take (String.length w - 1) s) w = false →
  Extract.match_all_from (Regex.lits w ++ p) 0 (pre +:+ s)
  = Extract.match_all_from (Regex.lits w ++ p) 0 s.
Proof.
  induction pre as [|c pre IH]; intros Hno; [done|].
  rewrite sapp_cons in Hno. apply includes_cons_false in Hno as [Hhead Hno].
  rewrite sapp_cons. cbn [Extract.match_all_from].
  rewrite match_lits. rewrite <-sapp_cons, startsWith_window; [|done|done].
  by apply IH.
Qed.

Lemma match_all_from_none w p s :
  w ≠ "" → Js.includes s w = false →
  Extract.match_all_from (Regex.lits w ++ p) 0 s = [].
Proof.
  intros Hw Hno. rewrite <-(sapp_nil_r s).
  rewrite match_all_from_app.
  - simpl. by rewrite lits_no_empty_match.
  - destruct (String.length w - 1); simpl; by rewrite sapp_nil_r.
Qed.

Lemma match_all_from_skip p m s :
  Extract.match_all_from p (String.length m) (m +:+ s) = Extract.match_all_from p 0 s.
Proof.
  induction m as [|c m IH].
  - rewrite sapp_nil_l. simpl. by destruct s.
  - rewrite sapp_cons. simpl. apply IH.
Qed.

(** at a match, the matched text is kept and the scan resumes behind it *)
Lemma match_all_from_hit p m s :
  m ≠ "" → Regex.match_at p (m +:+ s) = Some (String.length m) →
  Extract.match_all_from p 0 (m +:+ s) = m :: Extract.match_all_from p 0 s.
Proof.
  intros Hm Hat. destruct m as [|c m]; [done|].
  rewrite sapp_cons in *. cbn [Extract.match_all_from]. rewrite Hat.
  cbn [String.length].
  change (Regex.take (S (String.length m)) (String c (m +:+ s)))
    with (String c (Regex.take (String.length m) (m +:+ s))).
  rewrite take_app_length. f_equal. apply match_all_from_skip.
Qed.

(** every text [match] returns is a match of the pattern, taken from the
    subject *)
Lemma match_all_from_elem p skip s m :
  m ∈ Extract.match_all_from p skip s →
  Matches p m ∧ ∃ pre post, s = pre +:+ m +:+ post.
Proof.
  revert skip. induction s as [|c s IH]; intros skip Hm.
  - simpl in Hm. destruct skip; [|by apply elem_of_nil in Hm].
    destruct (Regex.match_at p "") as [n|] eqn:Hat; [|by apply elem_of_nil in Hm].
    apply list_elem_of_singleton in Hm as ->.
    apply match_at_sound in Hat as [Hmatch Hn]. simpl in Hn.
    assert (n = 0) as -> by lia. split; [done|]. by exists "", "".
  - assert (∀ k, m ∈ Extract.match_all_from p k s →
              Matches p m ∧ ∃ pre post, String c s = pre +:+ m +:+ post) as Hrest.
    { intros k Hk. destruct (IH k Hk) as (Hmatch & pre & post & ->).
      split; [done|]. by exists (String c pre), post. }
    cbn [Extract.match_all_from] in Hm. destruct skip as [|k]; [|by eapply Hrest].
    destruct (Regex.match_at p (String c s)) as [[|n]|] eqn:Hat; [| |by eapply Hrest].
    + apply elem_of_cons in Hm as [->|Hm]; [|by eapply Hrest].
      apply match_at_sound in Hat as [Hmatch _]. split; [done|].
      by exists "", (String c s).
    + apply elem_of_cons in Hm as [->|Hm]; [|by eapply Hrest].
      apply match_at_sound in Hat as [Hmatch _]. split; [done|].
      exists "", (Js.slice (S n) (String c s)).
      by rewrite sapp_nil_l, take_slice.
Qed.

Lemma match_at_one a p c s :
  Regex.match_at (Regex.One a :: p) (String c s)
  = if Regex.accepts a c then S <$> Regex.match_at p s else None.
Proof. done. Qed.

Lemma match_at_opt a p c s :
  Regex.match_at (Regex.Opt a :: p) (String c s)
  = if Regex.accepts a c then
      match Regex.match_at p s with
      | Some n => Some (S n)
      | None => Regex.match_at p (String c s)
      end
    else Regex.match_at p (String c s).
Proof. done. Qed.

(** a greedy star runs over the characters it accepts *)
Lemma star_run a p x rest n :
  Url.forallb_string (Regex.accepts a) x = true →
  Regex.match_at (Regex.Star a :: p) rest = Some n →
  Regex.match_at (Regex.Star a :: p) (x +:+ rest) = Some (String.length x + n).
Proof.
  intros Hx Hrest. induction x as [|c x IH]; [done|].
  cbn [Url.forallb_string] in Hx. apply andb_true_iff in Hx as [Hc Hx].
  rewrite sapp_cons, match_at_star, Hc, (IH Hx). done.
Qed.

Lemma star_stop a p c rest :
  Regex.accepts a c = false →
  Regex.match_at (Regex.Star a :: p) (String c rest) = Regex.match_at p (String c rest).
Proof. intros Hc. by rewrite match_at_star, Hc. Qed.

Lemma url_char_quote c : c ∈ Builder.quote → Regex.accepts Extract.url_char c = false.
Proof.
  intros Hc. apply bool_decide_eq_false. intros Hno. apply Hno.
  apply elem_of_app. left. set_solver.
Qed.

Lemma url_char_paren : Regex.accepts Extract.url_char ")" = false.
Proof. done. Qed.

Lemma quote_not_url_char c :
  Regex.accepts Extract.url_char c = true →
  Regex.accepts (Regex.OneOf Builder.quote) c = false.
Proof.
  intros Hc. apply bool_decide_eq_false. intros Hq.
  by rewrite (url_char_quote c Hq) in Hc.
Qed.

(** the pattern of [style.match] at a reference [url(...)] *)
Lemma css_url_match url q q' post :
  css_url_text url → q = "" ∨ is_quote q → q' = "" ∨ is_quote q' →
  Regex.match_at Extract.css_url (("url(" +:+ q +:+ url +:+ q' +:+ ")") +:+ post)
  = Some (String.length ("url(" +:+ q +:+ url +:+ q' +:+ ")")).
Proof.
  intros [Hne Hurl] Hq Hq'. unfold Extract.css_url. rewrite match_lits.
  rewrite !sapp_assoc. rewrite startsWith_app_l.
  rewrite (slice_app_length "url(").
  destruct url as [|c url]; [done|].
  cbn [Url.forallb_string] in Hurl. apply andb_true_iff in Hurl as [Hc Hurl].
  assert (Regex.match_at
            [Regex.One Extract.url_char; Regex.Star Extract.url_char;
             Regex.Opt (Regex.OneOf Builder.quote); Regex.One (Regex.Lit ")")]
            (String c url +:+ q' +:+ ")" +:+ post)
          = Some (String.length (String c url) + (String.length q' + 1))) as Hbody.
  { rewrite sapp_cons, match_at_one, Hc.
    erewrite star_run; [| done |].
    - simpl. done.
    - pose proof (opt_quote_tail q' post Hq') as Htail.
      destruct Hq' as [->|(d & Hd & ->)].
      + rewrite sapp_nil_l in *. change (")" +:+ post) with (String ")" post) in *.
        by rewrite star_stop by apply url_char_paren.
      + rewrite sapp_cons, sapp_nil_l in *.
        by rewrite star_stop by (by apply url_char_quote). }
  replace (String.length ("url(" +:+ q +:+ String c url +:+ q' +:+ ")"))
    with (4 + (String.length q + (String.length (String c url)
                                  + (String.length q' + 1))))
    by (rewrite !slength_app; simpl; lia).
  cbn [fmap option_fmap option_map]. f_equal. f_equal.
  destruct Hq as [->|(d & Hd & ->)].
  - rewrite sapp_nil_l. rewrite sapp_cons.
    rewrite match_at_opt, (quote_not_url_char c Hc).
    rewrite <-sapp_cons. rewrite Hbody. done.
  - rewrite sapp_cons, sapp_nil_l, match_at_opt.
    rewrite (quote_accepted d Hd). rewrite Hbody. done.
Qed.

(** ** Removing the quotes *)

Lemma strip_quote_head c before s :
  c ∈ Builder.quote →
  Regex.replace_all_from [Regex.One (Regex.OneOf Builder.quote)] "" before 0 (String c s)
  = Regex.replace_all_from [Regex.One (Regex.OneOf Builder.quote)] ""
      (String c before) 0 s.
Proof.
  intros Hc. cbn [Regex.replace_all_from Regex.match_at].
  by rewrite (quote_accepted c Hc).
Qed.

Lemma strip_other_head c before s :
  c ∉ Builder.quote →
  Regex.replace_all_from [Regex.One (Regex.OneOf Builder.quote)] "" before 0 (String c s)
  = String c (Regex.replace_all_from [Regex.One (Regex.OneOf Builder.quote)] ""
                (String c before) 0 s).
Proof.
  intros Hc. cbn [Regex.replace_all_from Regex.match_at Regex.accepts].
  by rewrite bool_decide_eq_false_2.
Qed.

Lemma strip_unquoted u before s :
  no_char_of Builder.quote u = true →
  Regex.replace_all_from [Regex.One (Regex.OneOf Builder.quote)] "" before 0 (u +:+ s)
  = u +:+ Regex.replace_all_from [Regex.One (Regex.OneOf Builder.quote)] ""
            (String.rev_app u before) 0 s.
Proof.
  revert before. induction u as [|c u IH]; intros before Hu; [done|].
  cbn [no_char_of Url.forallb_string] in Hu. apply andb_true_iff in Hu as [Hc Hu].
  apply bool_decide_eq_true in Hc.
  rewrite !sapp_cons, strip_other_head by done. by rewrite IH.
Qed.

Lemma strip_optional_quote q before s :
  q = "" ∨ is_quote q →
  ∃ before',
    Regex.replace_all_from [Regex.One (Regex.OneOf Builder.quote)] "" before 0 (q +:+ s)
    = Regex.replace_all_from [Regex.One (Regex.OneOf Builder.quote)] "" before' 0 s.
Proof.
  intros [->|(c & Hc & ->)].
  - by exists before.
  - exists (String c before). by rewrite sapp_cons, sapp_nil_l, strip_quote_head.
Qed.

Lemma css_url_text_unquoted u :
  Url.forallb_string (Regex.accepts Extract.url_char) u = true →
  no_char_of Builder.quote u = true.
Proof.
  induction u as [|c u IH]; [done|]. cbn [no_char_of Url.forallb_string].
  intros [Hc Hu]%andb_true_iff. apply andb_true_iff. split; [|by apply IH].
  apply bool_decide_eq_true. intros Hq. by rewrite (url_char_quote c Hq) in Hc.
Qed.

Lemma strip_quotes_inner q u q' :
  q = "" ∨ is_quote q → q' = "" ∨ is_quote q' →
  no_char_of Builder.quote u = true →
  Extract.strip_quotes (q +:+ u +:+ q') = u.
Proof.
  intros Hq Hq' Hu. unfold Extract.strip_quotes, Regex.replace_all.
  destruct (strip_optional_quote q "" (u +:+ q') Hq) as [b1 ->].
  rewrite strip_unquoted by done.
  rewrite <-(sapp_nil_r q') at 1.
  destruct (strip_optional_quote q' (String.rev_app u b1) "" Hq') as [b2 ->].
  simpl. by rewrite sapp_nil_r.
Qed.

Lemma slice_4_to_last_url x :
  Extract.slice_4_to_last ("url(" +:+ x +:+ ")") = x.
Proof.
  unfold Extract.slice_4_to_last.
  rewrite (slice_app_length "url(").
  replace (String.length ("url(" +:+ x +:+ ")") - 1 - 4) with (String.length x)
    by (rewrite !slength_app; simpl; lia).
  apply take_app_length.
Qed.

End StyleText.

Section Shapes.

Lemma Matches_nil m : Matches [] m → m = "".
Proof. by inversion 1. Qed.

Lemma Matches_one a p m :
  Matches (Regex.One a :: p) m →
  ∃ c m', m = String c m' ∧ Regex.accepts a c = true ∧ Matches p m'.
Proof. inversion 1; subst. by eexists _, _. Qed.

Lemma Matches_opt a p m :
  Matches (Regex.Opt a :: p) m →
  Matches p m ∨ ∃ c m', m = String c m' ∧ Regex.accepts a c = true ∧ Matches p m'.
Proof. inversion 1; subst; [by left|right; by eexists _, _]. Qed.

Lemma Matches_star a p m :
  Matches (Regex.Star a :: p) m →
  ∃ x m', m = x +:+ m' ∧ Url.forallb_string (Regex.accepts a) x = true ∧ Matches p m'.
Proof.
  remember (Regex.Star a :: p) as P eqn:HP. intros HM.
  induction HM as [| | | |a' p' m HM _|a' c p' m Hc HM IH]; try done; simplify_eq.
  - by exists "", m.
  - destruct (IH eq_refl) as (x & m' & -> & Hx & Hm').
    exists (String c x), m'. split_and!; [done| |done].
    cbn [Url.forallb_string]. by rewrite Hc, Hx.
Qed.

Lemma Matches_lits w p m :
  Matches (Regex.lits w ++ p) m → ∃ m', m = w +:+ m' ∧ Matches p m'.
Proof.
  revert m. induction w as [|d w IH]; intros m HM; [by exists m|].
  apply Matches_one in HM as (c & m1 & -> & Hc & HM).
  apply Ascii.eqb_eq in Hc as ->.
  destruct (IH _ HM) as (m' & -> & Hm'). by exists m'.
Qed.

Lemma Matches_optional_quote p m :
  Matches (Regex.Opt (Regex.OneOf Builder.quote) :: p) m →
  ∃ q m', m = q +:+ m' ∧ (q = "" ∨ is_quote q) ∧ Matches p m'.
Proof.
  intros [HM|(c & m' & -> & Hc & HM)]%Matches_opt.
  - exists "", m. by split_and!; [|left|].
  - exists (String c ""), m'. split_and!; [done| |done].
    right. exists c. split; [|done]. by apply bool_decide_eq_true in Hc.
Qed.

(** the texts the pattern of [style.match] matches *)
Lemma css_url_shape m :
  Matches Extract.css_url m →
  ∃ q u q', (q = "" ∨ is_quote q) ∧ (q' = "" ∨ is_quote q') ∧ css_url_text u ∧
            m = "url(" +:+ q +:+ u +:+ q' +:+ ")".
Proof.
  intros (m1 & -> & HM)%Matches_lits.
  apply Matches_optional_quote in HM as (q & m2 & -> & Hq & HM).
  apply Matches_one in HM as (c & m3 & -> & Hc & HM).
  apply Matches_star in HM as (x & m4 & -> & Hx & HM).
  apply Matches_optional_quote in HM as (q' & m5 & -> & Hq' & HM).
  apply Matches_one in HM as (d & m6 & -> & Hd & HM).
  apply Matches_nil in HM as ->. cbn [Regex.accepts] in Hd.
  apply Ascii.eqb_eq in Hd as <-.
  exists q, (String c x), q'. split_and!; [done..| |].
  - split; [done|]. cbn [Url.forallb_string]. by rewrite Hc, Hx.
  - by rewrite !sapp_cons.
Qed.

End Shapes.

(** X2. Reading a style: [webflow-crawler.js] takes every match of its
    [url(...)] pattern in a [style] attribute or a style sheet, drops the
    first four characters and the last, and removes the quotes.  On a text
    with one reference [url(...)], quoted on either side or not, around a
    URL with no quote, parenthesis or white space, that gives the URL: the
    reference the builder writes is read back as the path it was written
    with. *)
Theorem style_urls_single pre q q' url post :
  css_url_text url → quotes_ok InUrl q q' →
  Js.includes (pre +:+ "url") "url(" = false →
  Js.includes post "url(" = false →
  Extract.style_urls (pre +:+ reference_text InUrl q q' url +:+ post) = [url].
Proof.
  intros Hurl [Hq Hq'] Hpre Hpost. unfold Extract.style_urls, Extract.match_all.
  cbn [reference_text].
  set (m := "url(" +:+ q +:+ url +:+ q' +:+ ")").
  pose proof (css_url_match url q q' post Hurl Hq Hq') as Hat. fold m in Hat.
  unfold Extract.css_url in *.
  rewrite match_all_from_app; last first.
  { replace (Regex.take (String.length "url(" - 1) (m +:+ post)) with "url"; [done|].
    unfold m. by rewrite !sapp_assoc. }
  rewrite match_all_from_hit; [|done|done].
  rewrite match_all_from_none by done.
  cbn [fmap list_fmap]. f_equal. unfold m.
  replace ("url(" +:+ q +:+ url +:+ q' +:+ ")")
    with ("url(" +:+ (q +:+ url +:+ q') +:+ ")") by (by rewrite !sapp_assoc).
  rewrite slice_4_to_last_url. apply strip_quotes_inner; [done..|].
  apply css_url_text_unquoted, Hurl.
Qed.

Lemma style_urls_single_witness :
  Extract.style_urls
    ("background:" +:+ replacement_text InUrl "../assets/x.png" +:+ " no-repeat")
  = ["../assets/x.png"].
Proof.
  apply (style_urls_single "background:" "'" "'" "../assets/x.png" " no-repeat").
  - split; [done|vm_compute; reflexivity].
  - split; right; exists "'"%char; split; try done; set_solver.
  - vm_compute. reflexivity.
  - vm_compute. reflexivity.
Defined.

(** X3. Whatever the style text, every URL [webflow-crawler.js] reads off
    it is not empty, has no quote, no closing parenthesis and no white
    space, and stands in the text inside [url(...)], with or without a
    quote on either side: the form of reference the builder rewrites. *)
Theorem style_urls_sound style u :
  u ∈ Extract.style_urls style →
  css_url_text u ∧
  ∃ q q', quotes_ok InUrl q q' ∧
          Js.includes style (reference_text InUrl q q' u) = true.
Proof.
  intros (m & -> & Hm)%list_elem_of_fmap.
  apply match_all_from_elem in Hm as (HM & pre & post & ->).
  apply css_url_shape in HM as (q & u & q' & Hq & Hq' & Hu & ->).
  replace ("url(" +:+ q +:+ u +:+ q' +:+ ")")
    with ("url(" +:+ (q +:+ u +:+ q') +:+ ")") by (by rewrite !sapp_assoc).
  rewrite slice_4_to_last_url, strip_quotes_inner; [|done..|]; last first.
  { apply css_url_text_unquoted, Hu. }
  split; [done|]. exists q, q'. split; [done|].
  apply includes_spec. exists pre, post. cbn [reference_text].
  by rewrite !sapp_assoc.
Qed.

Lemma style_urls_sound_witness :
  css_url_text "https://cdn/x.png" ∧
  ∃ q q', quotes_ok InUrl q q' ∧
          Js.includes "a{background:url(https://cdn/x.png)}"
            (reference_text InUrl q q' "https://cdn/x.png") = true.
Proof.
  apply (style_urls_sound "a{background:url(https://cdn/x.png)}" "https://cdn/x.png").
  vm_compute. by left.
Defined.

(** X4. Reading a computed background image: [crawler.js] drops the first
    four characters and the last of the value and removes the quotes.  For
    the value of one image, [url(] quote URL quote [)], that is the URL;
    the value [none] and the empty value give nothing; for a value of two
    layers the result is one text that runs from the first URL to the
    second, across the text between them. *)
Theorem background_url_of_computed_style :
  (∀ u, u ≠ "" → no_char_of Builder.quote u = true →
     Extract.background_url ("url(" +:+ Builder.dquote +:+ u +:+ Builder.dquote +:+ ")")
     = Some u) ∧
  Extract.background_url "none" = None ∧
  Extract.background_url "" = None ∧
  (∀ a b, no_char_of Builder.quote a = true → no_char_of Builder.quote b = true →
     Extract.background_url
       ("url(" +:+ Builder.dquote +:+ a +:+ Builder.dquote +:+ "), url("
          +:+ Builder.dquote +:+ b +:+ Builder.dquote +:+ ")")
     = Some (a +:+ "), url(" +:+ b)).
Proof.
  assert (is_quote Builder.dquote) as Hdq.
  { exists "034"%char. split; [set_solver|done]. }
  split_and!; [|done|done|].
  - intros u Hne Hu. unfold Extract.background_url.
    rewrite decide_False by (by intros [|]).
    replace ("url(" +:+ Builder.dquote +:+ u +:+ Builder.dquote +:+ ")")
      with ("url(" +:+ (Builder.dquote +:+ u +:+ Builder.dquote) +:+ ")")
      by (by rewrite !sapp_assoc).
    rewrite slice_4_to_last_url, strip_quotes_inner by auto.
    by rewrite decide_False.
  - intros a b Ha Hb. unfold Extract.background_url.
    rewrite decide_False by (by intros [|]).
    replace ("url(" +:+ Builder.dquote +:+ a +:+ Builder.dquote +:+ "), url("
               +:+ Builder.dquote +:+ b +:+ Builder.dquote +:+ ")")
      with ("url(" +:+ (Builder.dquote +:+ (a +:+ Builder.dquote +:+ "), url("
               +:+ Builder.dquote +:+ b) +:+ Builder.dquote) +:+ ")")
      by (by rewrite !sapp_assoc).
    rewrite slice_4_to_last_url.
    unfold Extract.strip_quotes, Regex.replace_all.
    destruct (strip_optional_quote Builder.dquote ""
                ((a +:+ Builder.dquote +:+ "), url(" +:+ Builder.dquote +:+ b)
                   +:+ Builder.dquote) (or_intror Hdq)) as [b1 ->].
    rewrite !sapp_assoc, strip_unquoted by done.
    destruct (strip_optional_quote Builder.dquote (String.rev_app a b1)
                ("), url(" +:+ Builder.dquote +:+ b +:+ Builder.dquote)
                (or_intror Hdq)) as [b2 ->].
    rewrite (strip_unquoted "), url(") by done.
    destruct (strip_optional_quote Builder.dquote (String.rev_app "), url(" b2)
                (b +:+ Builder.dquote) (or_intror Hdq)) as [b3 ->].
    rewrite strip_unquoted by done.
    rewrite <-(sapp_nil_r Builder.dquote).
    destruct (strip_optional_quote Builder.dquote (String.rev_app b b3) ""
                (or_intror Hdq)) as [b4 ->].
    cbn [Regex.replace_all_from Regex.match_at]. rewrite sapp_nil_r.
    rewrite decide_False; [done|].
    destruct a; done.
Qed.

Lemma background_url_of_computed_style_witness :
  Extract.background_url
    ("url(" +:+ Builder.dquote +:+ "https://cdn/x.png" +:+ Builder.dquote +:+ ")")
  = Some "https://cdn/x.png".
Proof.
  apply (proj1 background_url_of_computed_style "https://cdn/x.png"); [done|].
  vm_compute. reflexivity.
Defined.

(** ** The asset list of a page is a set *)

Section Gathering.

Lemma gathered_add results sources url :
  gathered results sources → gathered (Dom.add url results) (sources ++ [url]).
Proof.
  intros [Hnd Hin]. unfold Dom.add. destruct (decide (url ∈ results)) as [Hurl|Hnew].
  - split; [done|]. intros u. rewrite elem_of_app, list_elem_of_singleton, <-Hin.
    split; [by left|]. by intros [?| ->].
  - split.
    + apply NoDup_app. split_and!; [done| |apply NoDup_singleton].
      intros u Hu ->%list_elem_of_singleton. done.
    + intros u. by rewrite !elem_of_app, Hin.
Qed.

Lemma gathered_same results sources sources' :
  (∀ url, url ∈ sources ↔ url ∈ sources') →
  gathered results sources → gathered results sources'.
Proof. intros Heq [Hnd Hin]. split; [done|]. intros u. by rewrite Hin. Qed.

Lemma gathered_add_if results sources url :
  gathered results sources →
  gathered (Dom.add_if url results) (sources ++ nonempty [url]).
Proof.
  intros Hg. unfold Dom.add_if, nonempty. destruct (decide (url = "")) as [->|Hne].
  - rewrite filter_cons_False, filter_nil, app_nil_r by (by intros ?). done.
  - rewrite filter_cons_True, filter_nil by done. by apply gathered_add.
Qed.

Lemma gathered_add_all urls results sources :
  gathered results sources → gathered (Dom.add_all urls results) (sources ++ urls).
Proof.
  revert results sources. induction urls as [|url urls IH]; intros results sources Hg.
  - by rewrite app_nil_r.
  - cbn [Dom.add_all foldl]. change (url :: urls) with ([url] ++ urls).
    rewrite app_assoc. apply IH. by apply gathered_add.
Qed.

(** a loop whose body gathers the URLs [g x] of its element [x] *)
Lemma gathered_foldl {A} (f : list string → A → list string) (g : A → list string)
    (xs : list A) results sources :
  (∀ results sources x,
     gathered results sources → gathered (f results x) (sources ++ g x)) →
  gathered results sources →
  gathered (foldl f results xs) (sources ++ (xs ≫= g)).
Proof.
  intros Hstep. revert results sources.
  induction xs as [|x xs IH]; intros results sources Hg.
  - by rewrite app_nil_r.
  - cbn [foldl]. rewrite bind_cons, app_assoc. apply IH. by apply Hstep.
Qed.

Lemma gathered_hrefs (xs : list string) results sources :
  gathered results sources →
  gathered (foldl (λ results href, Dom.add_if href results) results xs)
    (sources ++ nonempty xs).
Proof.
  intros Hg.
  eapply gathered_same;
    [|apply (gathered_foldl _ (λ href, nonempty [href]) xs results sources); [|done]].
  - intros url. rewrite !elem_of_app. apply or_iff_compat_l.
    unfold nonempty. rewrite list_elem_of_bind, list_elem_of_filter. split.
    + intros (href & Hurl & Hhref).
      apply list_elem_of_filter in Hurl as [Hne ->%list_elem_of_singleton]. done.
    + intros [Hne Hurl]. exists url. split; [|done].
      apply list_elem_of_filter. split; [done|]. by apply list_elem_of_singleton.
  - intros rs ss href Hrs. by apply gathered_add_if.
Qed.

Lemma gathered_image results sources img :
  gathered results sources →
  gathered
    (let results := Dom.add_if (Dom.src img) results in
     if decide (Dom.srcset img = "") then results
     else Dom.add_all (Extract.srcset_urls (Dom.srcset img)) results)
    (sources ++ image_urls img).
Proof.
  intros Hg. cbn zeta. unfold image_urls. rewrite app_assoc.
  assert (gathered (Dom.add_if (Dom.src img) results)
            (sources ++ (if decide (Dom.src img = "") then [] else [Dom.src img])))
    as Hsrc.
  { eapply gathered_same; [|by apply gathered_add_if].
    intros url. unfold nonempty. destruct (decide (Dom.src img = "")) as [->|Hne].
    - by rewrite filter_cons_False, filter_nil by (by intros ?).
    - by rewrite filter_cons_True, filter_nil by done. }
  destruct (decide (Dom.srcset img = "")).
  - by rewrite app_nil_r.
  - by apply gathered_add_all.
Qed.

Lemma gathered_nil : gathered [] [].
Proof. split; [apply NoDup_nil_2|done]. Qed.

Lemma webflow_assets_gathered doc :
  gathered (Dom.webflow_assets doc) (webflow_sources doc).
Proof.
  unfold Dom.webflow_assets, webflow_sources. cbn zeta.
  rewrite !app_assoc.
  apply gathered_hrefs.
  apply (gathered_foldl _ Extract.style_urls).
  { intros rs ss text Hrs. by apply gathered_add_all. }
  apply (gathered_foldl _ Extract.style_urls).
  { intros rs ss style Hrs. destruct (decide (style = "")) as [->|Hne].
    - change (Extract.style_urls "") with (@nil string). by rewrite app_nil_r.
    - by apply gathered_add_all. }
  apply gathered_hrefs. apply gathered_hrefs.
  apply (gathered_foldl _ image_urls _ [] []).
  { intros rs ss img Hrs. by apply gathered_image. }
  apply gathered_nil.
Qed.

Lemma crawler_assets_gathered doc :
  gathered (Dom.crawler_assets doc) (crawler_sources doc).
Proof.
  unfold Dom.crawler_assets, crawler_sources. cbn zeta.
  rewrite !app_assoc.
  apply (gathered_foldl _ (λ bgImage, option_list (Extract.background_url bgImage))).
  { intros rs ss bgImage Hrs. destruct (Extract.background_url bgImage) as [url|].
    - by apply gathered_add.
    - by rewrite app_nil_r. }
  apply gathered_hrefs. apply gathered_hrefs.
  apply (gathered_foldl _ image_urls _ [] []).
  { intros rs ss img Hrs. by apply gathered_image. }
  apply gathered_nil.
Qed.

End Gathering.

(** X5. The asset list each crawler reads off a page holds no URL twice,
    and holds exactly the URLs the callback comes across: the non-empty
    [src] and the URLs of the [srcset] of each image, the non-empty [href]
    of each style sheet link and [src] of each script, and for
    [webflow-crawler.js] the URLs of the styles and the font preloads, for
    [crawler.js] the URLs of the computed background images. *)
Theorem asset_list_is_a_set :
  (∀ doc,
     NoDup (Dom.webflow_assets doc) ∧
     ∀ url, url ∈ Dom.webflow_assets doc ↔ url ∈ webflow_sources doc) ∧
  (∀ doc,
     NoDup (Dom.crawler_assets doc) ∧
     ∀ url, url ∈ Dom.crawler_assets doc ↔ url ∈ crawler_sources doc).
Proof. split; [apply webflow_assets_gathered|apply crawler_assets_gathered]. Qed.

(** the image shown three times and the empty [href] of the preload *)
Example two_resolutions_assets :
  Dom.webflow_assets two_resolutions
  = ["https://cdn/a.png"; "https://cdn/a@2x.png"; "https://cdn/site.css"].
Proof. by vm_compute. Qed.

(** ** The analytics filter *)

Lemma includes_trans s t u :
  Js.includes s t = true → Js.includes t u = true → Js.includes s u = true.
Proof.
  intros (a & b & ->)%includes_spec (c & d & ->)%includes_spec.
  apply includes_spec. exists (a +:+ c), (d +:+ b). by rewrite !sapp_assoc.
Qed.

(** X6. The route handler of [webflow-crawler.js] aborts a request exactly
    when its URL contains one of the words [analytics], [tracking],
    [matomo] and [piwik]: the test for [google-analytics] never decides.
    A URL that contains an aborted URL is aborted as well. *)
Theorem analytics_filter :
  (∀ url,
     blocked url = true ↔
     Js.includes url "analytics" = true ∨ Js.includes url "tracking" = true ∨
     Js.includes url "matomo" = true ∨ Js.includes url "piwik" = true) ∧
  (∀ url longer,
     blocked url = true → Js.includes longer url = true → blocked longer = true).
Proof.
  assert (∀ url,
            blocked url = true ↔
            Js.includes url "analytics" = true ∨ Js.includes url "tracking" = true ∨
            Js.includes url "matomo" = true ∨ Js.includes url "piwik" = true) as Hwords.
  { intros url. unfold blocked. rewrite !orb_true_iff. split.
    - intros [[[[Hga|?]|?]|?]|?]; auto.
      left. by apply (includes_trans url "google-analytics" "analytics").
    - intros [?|[?|[?|?]]]; auto. }
  split; [done|].
  intros url longer Hurl Hin. apply Hwords. apply Hwords in Hurl.
  destruct Hurl as [?|[?|[?|?]]]; eauto 6 using includes_trans.
Qed.

(** ** More on the downloader of [webflow-crawler.js] *)

(** X7. [randomDelay(min, max)] for whole numbers a double holds
    ([Number.isSafeInteger]), with [min <= max] and a range below [2^52]:
    it sets one timer, of a whole number of milliseconds from [min] to
    [max], both ends included, and touches nothing else; every value of
    that range is the delay of some draw of [Math.random()].  The product
    with the draw is rounded as a double is. *)
Theorem randomDelay_inclusive_range (min max : Z) :
  Double.safe min → Double.safe max → (min ≤ max)%Z → (max - min < 2 ^ 52)%Z →
  (∀ env w, ∃ delay,
     (min ≤ delay ≤ max)%Z ∧
     Webflow.randomDelay env min max w =
     {| Webflow.requests := Webflow.requests w;
        Webflow.timeouts := delay :: Webflow.timeouts w;
        Webflow.writes := Webflow.writes w; Webflow.files := Webflow.files w |}) ∧
  (∀ delay, (min ≤ delay ≤ max)%Z →
     ∃ draw, (draw < 2 ^ 53)%N ∧
       ∀ env w, Webflow.Math_random env (length (Webflow.timeouts w)) = draw →
         Webflow.timeouts (Webflow.randomDelay env min max w)
         = delay :: Webflow.timeouts w).
Proof.
  intros _ _ Hle Hn. split.
  - intros env w. by apply randomDelay_spec.
  - intros delay Hd.
    destruct (draw_for (max - min + 1) (delay - min)) as [Hr Hq]; [lia..|].
    set (r := ((_ + _ - 1) / _)%Z) in Hr, Hq.
    exists (Z.to_N r). split; [lia|].
    intros env w Hdraw. unfold Webflow.randomDelay. simpl. rewrite Hdraw.
    rewrite Z2N.id by lia. rewrite Z.mod_small by lia. rewrite Hq. f_equal. lia.
Qed.

Lemma randomDelay_inclusive_range_witness :
  ∃ delay, (1000 ≤ delay ≤ 3000)%Z ∧
    Webflow.randomDelay steady 1000 3000 Webflow.nowhere =
    {| Webflow.requests := []; Webflow.timeouts := [delay];
       Webflow.writes := []; Webflow.files := ∅ |}.
Proof.
  apply (proj1 (randomDelay_inclusive_range 1000 3000
                  ltac:(unfold Double.safe; lia) ltac:(unfold Double.safe; lia)
                  ltac:(lia) ltac:(lia)) steady Webflow.nowhere).
Defined.

(** a draw where the rounding shows: the exact product with 3001 lies
    below 3000 by less than half a gap, the double is 3000, and the delay
    is the upper end of the range; the Standard Library's IEEE 754
    multiplication gives the same double *)
Example randomDelay_rounds_up :
  Webflow.timeouts (Webflow.randomDelay late_draw 2000 5000 Webflow.nowhere) = [5000%Z] ∧
  (9004197855455840 * 3001 / 2 ^ 53 = 2999)%Z ∧
  SFmul 53 1024 (S754_finite false 9004197855455840 (-53)) (S754_finite false 3001 0)
  = S754_finite false (3000 * 2 ^ 41) (-41).
Proof. split_and!; vm_compute; reflexivity. Qed.

Section Attempts.
Context (env : Webflow.Env).

Lemma backoff_from_nil first : backoff_from first [].
Proof. intros i d Hi. by rewrite lookup_nil in Hi. Qed.

Lemma backoff_from_cons first d ds :
  (2000 * first ≤ d ≤ 5000 * first)%Z → backoff_from (first + 1) ds →
  backoff_from first (d :: ds).
Proof.
  intros Hd Hds [|i] d' Hi; simpl in Hi.
  - simplify_eq. lia.
  - apply Hds in Hi. lia.
Qed.

(** the trace of the loop of [downloadAsset] from attempt
    [retries - remaining + 1] on *)
Lemma downloadAsset_loop_trace url retries remaining w r w' :
  remaining ≤ retries →
  Webflow.downloadAsset_loop env url retries remaining w = (r, w') →
  ∃ (attempts : nat) delays,
    Webflow.requests w' = replicate attempts url ++ Webflow.requests w ∧
    backoff_from (Z.of_nat (retries - remaining) + 1) delays ∧
    length delays = attempts - 1 ∧
    match r with
    | None =>
        attempts = remaining ∧
        Webflow.timeouts w' = rev delays ++ Webflow.timeouts w
    | Some ref =>
        1 ≤ attempts ≤ remaining ∧
        ref = Webflow.asset_ref url ∧
        ∃ pause, (500 ≤ pause ≤ 1500)%Z ∧
          Webflow.timeouts w' = pause :: rev delays ++ Webflow.timeouts w
    end.
Proof.
  revert w. induction remaining as [|k IH]; intros w Hk Hrun; simpl in Hrun.
  - simplify_eq. exists 0, []. split_and!; try done; apply backoff_from_nil.
  - destruct (Webflow.attempt_download env url w) as [[ref|msg] w1] eqn:Hat;
      apply attempt_download_spec in Hat as (Hreq & _ & Hres).
    + simplify_eq. destruct Hres as (-> & _ & pause & Hpause & Ht).
      exists 1, []. split_and!; try done; try lia; try apply backoff_from_nil.
      by exists pause.
    + destruct k as [|k].
      * simplify_eq. exists 1, []. split_and!; try done; apply backoff_from_nil.
      * destruct (randomDelay_spec env (2000 * Z.of_nat (retries - S k))
                    (5000 * Z.of_nat (retries - S k)) w1 ltac:(lia))
          as (d & Hd & Hw).
        rewrite Hw in Hrun.
        apply IH in Hrun as (n & ds & Hreqs & Hback & Hlen & Hr); [|lia].
        simpl in Hreqs, Hr. rewrite Hreq in Hreqs. rewrite Hres in Hr.
        assert (1 ≤ n) as Hn.
        { destruct r as [ref|]; [lia|]. destruct Hr as [-> _]. lia. }
        exists (S n), (d :: ds). split_and!.
        -- rewrite Hreqs. simpl. f_equal.
           change (url :: Webflow.requests w) with ([url] ++ Webflow.requests w).
           rewrite app_assoc. f_equal.
           clear. induction n as [|n IHn]; [done|]. simpl. by rewrite IHn.
        -- apply backoff_from_cons.
           ++ replace (Z.of_nat (retries - S (S k)) + 1)%Z
                with (Z.of_nat (retries - S k)) by lia. lia.
           ++ replace (Z.of_nat (retries - S (S k)) + 1 + 1)%Z
                with (Z.of_nat (retries - S k) + 1)%Z by lia. done.
        -- simpl. lia.
        -- destruct r as [ref|].
           ++ destruct Hr as (Hn' & -> & pause & Hpause & Ht).
              split_and!; [lia|lia|done|]. exists pause. split; [done|].
              rewrite Ht. simpl. by rewrite <-app_assoc.
           ++ destruct Hr as [-> Ht]. split; [done|].
              rewrite Ht. simpl. by rewrite <-app_assoc.
Qed.

End Attempts.

(** X8. [downloadAsset(url, retries)] for any number of retries: it issues
    at most [retries] requests, all for [url]; after each failed attempt but
    the last it waits between 2000 and 5000 ms times the attempt number; it
    returns no result exactly when every one of the [retries] attempts
    failed (with [retries = 0]: at once, with no request), and a result,
    the record computed from the URL, after one more pause of 500 to 1500
    ms. *)
Theorem downloadAsset_attempts (env : Webflow.Env) url retries w r w' :
  Webflow.downloadAsset env url retries w = (r, w') →
  ∃ (attempts : nat) delays,
    Webflow.requests w' = replicate attempts url ++ Webflow.requests w ∧
    backoff_from 1 delays ∧
    length delays = attempts - 1 ∧
    match r with
    | None =>
        attempts = retries ∧
        Webflow.timeouts w' = rev delays ++ Webflow.timeouts w
    | Some ref =>
        1 ≤ attempts ≤ retries ∧
        ref = Webflow.asset_ref url ∧
        ∃ pause, (500 ≤ pause ≤ 1500)%Z ∧
          Webflow.timeouts w' = pause :: rev delays ++ Webflow.timeouts w
    end.
Proof.
  intros Hrun. unfold Webflow.downloadAsset in Hrun.
  apply downloadAsset_loop_trace in Hrun; [|lia].
  by replace (Z.of_nat (retries - retries) + 1)%Z with 1%Z in Hrun by lia.
Qed.

Lemma downloadAsset_attempts_witness :
  ∃ (attempts : nat) delays,
    Webflow.requests (snd (Webflow.downloadAsset down logo 5 Webflow.nowhere))
    = replicate attempts logo ∧
    backoff_from 1 delays ∧ length delays = attempts - 1 ∧ attempts = 5.
Proof.
  destruct (Webflow.downloadAsset down logo 5 Webflow.nowhere) as [r w'] eqn:Hrun.
  assert (r = None) as -> by (by vm_compute in Hrun; simplify_eq).
  destruct (downloadAsset_attempts down logo 5 Webflow.nowhere None w' Hrun)
    as (attempts & delays & Hreq & Hback & Hlen & Hn & _).
  exists attempts, delays. simpl in Hreq. by rewrite app_nil_r in Hreq.
Defined.

(** ** The records of a page *)

Section Records.
Context `{UrlParser} (env : Webflow.Env).

(** what the download loop adds: the records of some of the page's Webflow
    assets, in the order of the page, to the page's list and to the table *)
Lemma download_assets_refs url found m w m' w' page :
  Webflow.download_assets env url found (m, w) = (m', w') →
  pages m !! url = Some page →
  ∃ us, us `sublist_of` allowed_assets found ∧
    pages m' !! url =
      Some {| Page.assets := Page.assets page ++ (Webflow.asset_ref <$> us);
              Page.rawHtml := Page.rawHtml page; Page.error := Page.error page |} ∧
    (∀ key, assets m' !! key =
            if decide (key ∈ us) then Some (Webflow.asset_ref key)
            else assets m !! key) ∧
    startTime m' = startTime m ∧ endTime m' = endTime m.
Proof.
  revert m w page. induction found as [|asset rest IH]; intros m w page Hrun Hp.
  - simpl in Hrun. simplify_eq. exists []. split_and!; try done.
    simpl. rewrite app_nil_r. by destruct page.
  - cbn [Webflow.download_assets] in Hrun. unfold allowed_assets.
    destruct (Webflow.isWebflowAsset asset) eqn:Hweb.
    + rewrite filter_cons_True by done. cbn [snd fst] in Hrun.
      destruct (Webflow.downloadAsset env asset 3 w) as [[ref|] w1] eqn:Hdl;
        apply downloadAsset_le in Hdl as (_ & _ & Hsome).
      * destruct (Hsome ref eq_refl) as (-> & _ & _).
        eapply IH in Hrun as (us & Hsub & Hpage & Htable & Hst & Het).
        2:{ simpl. by rewrite lookup_alter_eq, Hp. }
        exists (asset :: us). split_and!; try done.
        -- by apply sublist_skip.
        -- rewrite Hpage. simpl. by rewrite <-app_assoc.
        -- intros key. rewrite Htable. simpl.
           destruct (decide (key ∈ us)) as [Hin|Hnin].
           ++ rewrite decide_True; [done|]. by apply elem_of_cons; right.
           ++ destruct (decide (key = asset)) as [->|Hne].
              ** rewrite decide_True by (by apply elem_of_cons; left).
                 by rewrite lookup_insert_eq.
              ** rewrite decide_False; [by rewrite lookup_insert_ne|].
                 by intros [?|?]%elem_of_cons.
      * eapply IH in Hrun as (us & Hsub & Hpage & Htable & Hst & Het); [|done].
        exists us. split_and!; try done. by apply sublist_cons.
    + rewrite filter_cons_False by (by rewrite Hweb).
      by eapply IH in Hrun.
Qed.

(** the record [processPage] leaves for a page that had none *)
Lemma processPage_record url m w m' w' :
  pages m !! url = None →
  Webflow.processPage env url (m, w) = (m', w') →
  ∃ page us,
    pages m' !! url = Some page ∧
    Page.assets page = Webflow.asset_ref <$> us ∧
    us `sublist_of`
      match Webflow.render env url with
      | Ok rendering => allowed_assets (Webflow.dom_assets rendering)
      | Err _ => []
      end ∧
    page_settled w' url page ∧
    (∀ key, assets m' !! key =
            if decide (key ∈ us) then Some (Webflow.asset_ref key)
            else assets m !! key) ∧
    startTime m' = startTime m ∧ endTime m' = endTime m.
Proof.
  intros Hp0. unfold Webflow.processPage. rewrite Hp0.
  set (m0 := {| startTime := startTime m; endTime := endTime m;
                pages := <[url := Page.fresh]> (pages m); assets := assets m |}).
  assert (pages m0 !! url = Some Page.fresh) as Hfresh by apply lookup_insert_eq.
  destruct (Webflow.render env url) as [rendering|msg].
  2:{ intros ?. simplify_eq. eexists _, []. split_and!; try done.
      - simpl. by rewrite lookup_alter_eq, lookup_insert_eq.
      - done.
      - split; [left; by eexists|]. by intros p. }
  destruct (Webflow.download_assets env url (Webflow.dom_assets rendering) (m0, w))
    as [m1 w1] eqn:Hdl.
  pose proof (download_assets_refs _ _ _ _ _ _ _ Hdl Hfresh)
    as (us & Hsub & Hpage & Htable & Hst & Het).
  destruct (Webflow.content rendering) as [html|msg].
  2:{ intros ?. simplify_eq. eexists _, us. split_and!; try done.
      - simpl. by rewrite lookup_alter_eq, Hpage.
      - done.
      - split; [left; by eexists|]. by intros p. }
  destruct (Webflow.fs_writeFile env (Webflow.page_file url) html w1)
    as [[[]|msg] w2] eqn:Hwr.
  2:{ intros ?. simplify_eq. eexists _, us. split_and!; try done.
      - simpl. by rewrite lookup_alter_eq, Hpage.
      - done.
      - split; [left; by eexists|]. by intros p. }
  assert (is_Some (Webflow.files w2 !! Webflow.page_file url)) as Hfile.
  { unfold Webflow.fs_writeFile in Hwr.
    destruct (Webflow.writeFile env _ _); simplify_eq. simpl.
    rewrite lookup_insert_eq. by eexists. }
  destruct (Webflow.close rendering) as [[]|msg]; intros ?; simplify_eq.
  - eexists _, us. split_and!; try done.
    + simpl. by rewrite lookup_alter_eq, Hpage.
    + done.
    + split; [right; by eexists|]. simpl. intros p [= <-].
      by rewrite rawHtml_eq.
  - eexists _, us. split_and!; try done.
    + simpl. by rewrite !lookup_alter_eq, Hpage.
    + done.
    + split; [left; by eexists|]. simpl. intros p [= <-].
      by rewrite rawHtml_eq.
Qed.

Lemma page_settled_mono w w' url page :
  world_le w w' → page_settled w url page → page_settled w' url page.
Proof.
  intros [Hfiles _] [Hterm Hraw]. split; [done|].
  intros p Hp. destruct (Hraw p Hp) as [-> Hfile]. split; [done|]. by apply Hfiles.
Qed.

(** the invariants of the loop of [main] *)
Lemma crawl_records targets m w m' w' :
  Webflow.crawl env targets (m, w) = (m', w') →
  ((∀ url page, pages m !! url = Some page → page_settled w url page) →
   ∀ url page, pages m' !! url = Some page → page_settled w' url page) ∧
  (table_covered m → table_covered m') ∧
  startTime m' = startTime m ∧ endTime m' = endTime m.
Proof.
  revert m w. induction targets as [|target rest IH]; intros m w Hrun.
  - simpl in Hrun. by simplify_eq.
  - cbn [Webflow.crawl] in Hrun.
    destruct (Webflow.processPage env target (m, w)) as [m1 w1] eqn:Hpp.
    apply IH in Hrun as (Hsettled & Hcovered & Hst & Het).
    pose proof (processPage_spec _ _ _ _ _ _ Hpp) as (_ & Hle & Hother & _).
    destruct (pages m !! target) as [page0|] eqn:Hp0.
    { rewrite (processPage_present _ _ _ _ _ Hp0) in Hpp. simplify_eq.
      by split_and!. }
    pose proof (processPage_record _ _ _ _ _ Hp0 Hpp)
      as (page1 & us & Hpage1 & Hassets & _ & Hset1 & Htable & Hst1 & Het1).
    split_and!; [| |congruence|congruence].
    + intros Hall. apply Hsettled. intros url page Hpage.
      eapply page_settled_mono; [apply randomDelay_le|].
      destruct (decide (url = target)) as [->|Hne].
      * by simplify_eq.
      * rewrite Hother in Hpage by done.
        eapply page_settled_mono; [done|by apply Hall].
    + intros Hcov. apply Hcovered. intros key ref Hkey.
      rewrite Htable in Hkey. destruct (decide (key ∈ us)) as [Hin|Hnin].
      * simplify_eq. exists target, page1. split; [done|].
        rewrite Hassets. by apply list_elem_of_fmap_2.
      * destruct (Hcov _ _ Hkey) as (url & page & Hpage & Href).
        exists url, page. split; [|done].
        rewrite Hother; [done|]. intros ->. by rewrite Hp0 in Hpage.
Qed.

End Records.

(** X9. Every page record of a crawl's manifest is finished: it carries an
    error message or the place of its raw HTML (or both, when only closing
    the browser context failed); the place is [pages/<md5 of the URL>.html],
    and the file it names is on disk. *)
Theorem page_records_are_settled `{UrlParser} (env : Webflow.Env) targets w url page :
  let st := Webflow.crawl env targets (Webflow.initial_manifest env, w) in
  pages (fst st) !! url = Some page →
  page_settled (snd st) url page ∧
  (Page.error page = None →
   Page.rawHtml page = Some ("pages/" +:+ Md5.hex url +:+ ".html") ∧
   is_Some (Webflow.files (snd st)
              !! ("raw_download/pages/" +:+ Md5.hex url +:+ ".html"))).
Proof.
  intros st Hpage. subst st.
  destruct (Webflow.crawl env targets (Webflow.initial_manifest env, w))
    as [m' w'] eqn:Hrun.
  apply crawl_records in Hrun as (Hsettled & _).
  assert (page_settled w' url page) as Hset.
  { eapply Hsettled; [|done]. intros u p Hu. simpl in Hu. by rewrite lookup_empty in Hu. }
  split; [done|]. intros Herr. destruct Hset as [[[msg Hmsg]|[p Hp]] Hraw].
  { by rewrite Herr in Hmsg. }
  destruct (Hraw p Hp) as [-> Hfile]. simpl. split; [done|].
  by rewrite <-page_file_eq.
Qed.

Lemma page_records_are_settled_witness :
  let st :=
    Webflow.crawl (H := Url.plain) timeout_first Webflow.TARGET_PAGES
      (Webflow.initial_manifest timeout_first, Webflow.nowhere) in
  page_settled (snd st) "https://apply.agency/"
    {| Page.assets := []; Page.rawHtml := None;
       Page.error := Some "Timeout 30000ms exceeded" |}.
Proof.
  refine (proj1 (page_records_are_settled (H := Url.plain) timeout_first
                   Webflow.TARGET_PAGES Webflow.nowhere "https://apply.agency/" _ _)).
  vm_compute. reflexivity.
Defined.

(** X10. The asset list of a page record follows the page: its entries are
    the records computed from URLs that the page showed and that pass the
    domain filter, in the order of the page, each at most as often as the
    page showed it; so a page that shows no URL twice lists no asset twice,
    and the list the extraction callback returns shows none twice. *)
Theorem page_assets_follow_the_page `{UrlParser} (env : Webflow.Env) url m w rendering :
  pages m !! url = None →
  Webflow.render env url = Ok rendering →
  ∃ page us,
    pages (fst (Webflow.processPage env url (m, w))) !! url = Some page ∧
    Page.assets page = Webflow.asset_ref <$> us ∧
    us `sublist_of` allowed_assets (Webflow.dom_assets rendering) ∧
    (∀ ref, ref ∈ Page.assets page →
       originalUrl ref ∈ Webflow.dom_assets rendering ∧
       Webflow.isWebflowAsset (originalUrl ref) = true) ∧
    (NoDup (Webflow.dom_assets rendering) → NoDup (originalUrl <$> Page.assets page)) ∧
    (∀ doc, Webflow.dom_assets rendering = Dom.webflow_assets doc →
       NoDup (originalUrl <$> Page.assets page)).
Proof.
  intros Hp0 Hrender.
  destruct (Webflow.processPage env url (m, w)) as [m' w'] eqn:Hpp.
  destruct (processPage_record _ _ _ _ _ _ Hp0 Hpp)
    as (page & us & Hpage & Hassets & Hsub & _).
  rewrite Hrender in Hsub.
  assert (NoDup (Webflow.dom_assets rendering) → NoDup (originalUrl <$> Page.assets page))
    as Hunique.
  { intros Hnd. rewrite Hassets, <-list_fmap_compose.
    replace ((originalUrl ∘ Webflow.asset_ref) <$> us) with us
      by (clear; induction us as [|u us IH]; [done|]; rewrite fmap_cons; by f_equal).
    eapply sublist_NoDup; [|done]. by apply NoDup_filter. }
  exists page, us. split_and!; try done.
  - intros ref Href. rewrite Hassets in Href.
    apply list_elem_of_fmap in Href as (u & -> & Hu). simpl.
    eapply elem_of_sublist in Hu; [|done].
    by apply list_elem_of_filter in Hu as [? ?].
  - intros doc Hdoc. apply Hunique. rewrite Hdoc. apply webflow_assets_gathered.
Qed.

Lemma page_assets_follow_the_page_witness :
  ∃ page us,
    pages (fst (Webflow.processPage (H := Url.plain) steady "https://apply.agency/"
                  (Webflow.initial_manifest steady, Webflow.nowhere)))
      !! "https://apply.agency/" = Some page ∧
    Page.assets page = Webflow.asset_ref <$> us ∧
    us `sublist_of` allowed_assets (H := Url.plain) [logo].
Proof.
  destruct (page_assets_follow_the_page (H := Url.plain) steady "https://apply.agency/"
              (Webflow.initial_manifest steady) Webflow.nowhere logo_page)
    as (page & us & Hpage & Hassets & Hsub & _); [reflexivity|reflexivity|].
  by exists page, us.
Defined.

(** X11. The manifest [main] writes: its pages are exactly the target
    pages, whatever happened to each; its two time stamps are the first and
    the second reading of the clock; every entry of its asset table is
    listed by one of its pages. *)
Theorem main_writes_the_target_pages `{UrlParser} (env : Webflow.Env) w :
  let m := fst (Webflow.main env w) in
  (∀ url, is_Some (pages m !! url) ↔ url ∈ Webflow.TARGET_PAGES) ∧
  startTime m = Webflow.now env 0 ∧
  endTime m = Some (Webflow.now env 1) ∧
  table_covered m.
Proof.
  unfold Webflow.main.
  destruct (Webflow.crawl env Webflow.TARGET_PAGES (Webflow.initial_manifest env, w))
    as [m' w'] eqn:Hrun. simpl.
  pose proof (crawl_spec _ _ _ _ _ _ Hrun) as (_ & Hall & _ & Hout).
  pose proof (crawl_records _ _ _ _ _ _ Hrun) as (_ & Hcov & Hst & _).
  split_and!; try done.
  - intros url. split; [|by apply Hall].
    intros [page Hpage]. destruct (decide (url ∈ Webflow.TARGET_PAGES)) as [|Hnot]; [done|].
    rewrite Hout in Hpage by done. simpl in Hpage. by rewrite lookup_empty in Hpage.
  - assert (table_covered m') as Hc.
    { apply Hcov. intros key ref Hkey. simpl in Hkey. by rewrite lookup_empty in Hkey. }
    intros key ref Hkey. by apply (Hc key ref).
Qed.

(** ** The state of [crawler.js] only grows *)

Section Growth.
Context `{UrlParser} (cfg : Crawler.Config) (env : Crawler.Env).

Lemma state_le_refl st : state_le st st.
Proof. by split_and!. Qed.

Lemma state_le_trans st1 st2 st3 : state_le st1 st2 → state_le st2 st3 → state_le st1 st3.
Proof.
  intros (V1 & F1 & C1 & D1 & R1 & P1) (V2 & F2 & C2 & D2 & R2 & P2).
  split_and!; try (by etrans); auto.
Qed.

Lemma fail_le url st : state_le st (Crawler.fail url st).
Proof. split_and!; try done. simpl. set_solver. Qed.

Lemma write_le path data st : state_le st (Crawler.write path data st).
Proof.
  split_and!; try done. simpl. intros p Hp.
  destruct (decide (p = path)) as [->|Hne].
  - rewrite lookup_insert_eq. by eexists.
  - by rewrite lookup_insert_ne.
Qed.

Lemma downloadAsset_grows url st :
  state_le st (snd (Crawler.downloadAsset cfg env url st)) ∧
  (assets_stored cfg st → assets_stored cfg (snd (Crawler.downloadAsset cfg env url st))).
Proof.
  unfold Crawler.downloadAsset.
  destruct (Crawler.downloadedAssets st !! url) as [cached|] eqn:Hc.
  { split; [apply state_le_refl|done]. }
  set (st1 := {| Crawler.visited := Crawler.visited st;
                 Crawler.downloadedAssets := Crawler.downloadedAssets st;
                 Crawler.failedUrls := Crawler.failedUrls st;
                 Crawler.requests := url :: Crawler.requests st;
                 Crawler.files := Crawler.files st;
                 Crawler.processing := Crawler.processing st |}).
  assert (state_le st st1) as Hle1.
  { split_and!; try done. simpl. by apply suffix_cons_r. }
  assert (assets_stored cfg st → assets_stored cfg st1) as Hst1.
  { intros Hs u p Hu. destruct (Hs u p Hu) as [Hreq Hfile].
    split; [|done]. simpl. by apply elem_of_cons; right. }
  assert (∀ st2, assets_stored cfg st2 → assets_stored cfg (Crawler.fail url st2))
    as Hfail by done.
  destruct (Crawler.request_get env _ url) as [buffer|msg].
  2:{ split; [|by intros ?; apply Hfail, Hst1].
      eapply state_le_trans; [done|apply fail_le]. }
  destruct (parseURL url) as [urlObj|].
  2:{ split; [|by intros ?; apply Hfail, Hst1].
      eapply state_le_trans; [done|apply fail_le]. }
  destruct (Crawler.store env _ _) as [[]|msg].
  2:{ split; [|by intros ?; apply Hfail, Hst1].
      eapply state_le_trans; [done|apply fail_le]. }
  simpl. split.
  - split_and!; simpl; try done.
    + by apply insert_subseteq.
    + intros p Hp. destruct (decide (p = Path.join [Crawler.outputDir cfg;
                                                      Crawler.relativePath urlObj]))
        as [->|Hne].
      * rewrite lookup_insert_eq. by eexists.
      * by rewrite lookup_insert_ne.
    + by apply suffix_cons_r.
  - intros Hs u p Hu. simpl in Hu.
    destruct (decide (u = url)) as [->|Hne].
    + rewrite lookup_insert_eq in Hu. simplify_eq. simpl. split.
      * by apply elem_of_cons; left.
      * rewrite lookup_insert_eq. by eexists.
    + rewrite lookup_insert_ne in Hu by done.
      destruct (Hs u p Hu) as [Hreq Hfile]. simpl. split.
      * by apply elem_of_cons; right.
      * destruct (decide (Path.join [Crawler.outputDir cfg; p] =
                          Path.join [Crawler.outputDir cfg; Crawler.relativePath urlObj]))
          as [->|Hne'].
        -- rewrite lookup_insert_eq. by eexists.
        -- by rewrite lookup_insert_ne.
Qed.

Lemma download_allowed_grows found am st :
  state_le st (snd (Crawler.download_allowed cfg env found am st)) ∧
  (assets_stored cfg st →
   assets_stored cfg (snd (Crawler.download_allowed cfg env found am st))).
Proof.
  revert am st. induction found as [|asset rest IH]; intros am st; simpl.
  { split; [apply state_le_refl|done]. }
  destruct (Crawler.isAllowedDomain cfg asset); [|apply IH].
  pose proof (downloadAsset_grows asset st) as [Hle Hs].
  destruct (Crawler.downloadAsset cfg env asset st) as [local st1]. simpl in *.
  destruct (IH (Crawler.map_set asset local am) st1) as [Hle' Hs'].
  split; [by eapply state_le_trans|auto].
Qed.

Lemma assets_stored_write path data st :
  assets_stored cfg st → assets_stored cfg (Crawler.write path data st).
Proof.
  intros Hs u p Hu. destruct (Hs u p Hu) as [Hreq Hfile]. split; [done|].
  by apply (write_le path data st).
Qed.

Lemma render_page_grows url st :
  state_le st (snd (Crawler.render_page cfg env url st)) ∧
  (assets_stored cfg st → assets_stored cfg (snd (Crawler.render_page cfg env url st))) ∧
  (∀ ls, fst (Crawler.render_page cfg env url st) = Ok ls →
     page_saved cfg (snd (Crawler.render_page cfg env url st)) url).
Proof.
  unfold Crawler.render_page.
  destruct (Crawler.load env url) as [found|msg].
  2:{ split_and!; [apply state_le_refl|done..]. }
  pose proof (download_allowed_grows found [] st) as [Hle Hs].
  destruct (Crawler.download_allowed cfg env found [] st) as [am st1]. simpl in *.
  destruct (Crawler.content env url) as [html|msg]; [|by split_and!].
  destruct (Crawler.rewrite env am html) as [html'|msg]; [|by split_and!].
  destruct (parseURL url) as [urlObj|] eqn:Hparse; [|by split_and!].
  destruct (Crawler.save env url _) as [[]|msg]; [|by split_and!].
  assert (state_le st (Crawler.write (Crawler.filePath cfg (pathname urlObj)) html' st1))
    as Hle2 by (eapply state_le_trans; [done|apply write_le]).
  assert (page_saved cfg (Crawler.write (Crawler.filePath cfg (pathname urlObj)) html' st1)
            url) as Hsaved.
  { exists urlObj. split; [done|]. simpl. rewrite lookup_insert_eq. by eexists. }
  destruct (Crawler.links env url) as [ls|msg]; simpl; split_and!; try done;
    intros ?; by apply assets_stored_write, Hs.
Qed.

Lemma settle_grows url r st :
  state_le st (snd (Crawler.settle env url r st)) ∧
  (assets_stored cfg st → assets_stored cfg (snd (Crawler.settle env url r st))) ∧
  (∀ msg, r = Err msg → url ∈ Crawler.failedUrls (snd (Crawler.settle env url r st))).
Proof.
  unfold Crawler.settle.
  destruct r as [[]|msg]; destruct (Crawler.close env url) as [[]|msg']; simpl;
    split_and!; try done; try apply state_le_refl; try apply fail_le;
    intros; set_solver.
Qed.

(** a property of the state that every step of [processPage] keeps is kept
    by the whole call *)
Lemma processPage_keeps (I : Crawler.State → Prop) :
  (∀ url st, I st →
     I {| Crawler.visited := {[url]} ∪ Crawler.visited st;
          Crawler.downloadedAssets := Crawler.downloadedAssets st;
          Crawler.failedUrls := Crawler.failedUrls st;
          Crawler.requests := Crawler.requests st;
          Crawler.files := Crawler.files st;
          Crawler.processing := url :: Crawler.processing st |}) →
  (∀ url st, I st → I (snd (Crawler.render_page cfg env url st))) →
  (∀ url r st, I st → I (snd (Crawler.settle env url r st))) →
  ∀ fuel url st r st',
    Crawler.processPage cfg env fuel url st = Some (r, st') → I st → I st'.
Proof.
  intros Hmark Hrender Hsettle. induction fuel as [|fuel IH]; [done|].
  assert (∀ ls st r st',
            Crawler.follow cfg (Crawler.processPage cfg env fuel) ls st = Some (r, st') →
            I st → I st') as Hfollow.
  { induction ls as [|link rest IHls]; intros st r st' Hrun Hst; simpl in Hrun.
    - by simplify_eq.
    - destruct (_ && _); [|by eapply IHls].
      destruct (Crawler.processPage cfg env fuel link st) as [[[[]|msg] st1]|] eqn:Hcall;
        [|simplify_eq|done].
      + eapply IHls; [done|]. by eapply IH.
      + by eapply IH. }
  intros url st r st' Hrun Hst. cbn [Crawler.processPage] in Hrun.
  destruct (decide (url ∈ Crawler.visited st)); [by simplify_eq|].
  destruct (Crawler.newPage env url) as [[]|msg]; [|simplify_eq; by apply Hmark].
  pose proof (Hrender url _ (Hmark url st Hst)) as Hr.
  destruct (Crawler.render_page cfg env url _) as [[ls|msg] st1]; simpl in Hr.
  - destruct (Crawler.follow cfg _ ls st1) as [[r2 st2]|] eqn:Hf; [|done].
    injection Hrun as Hrun.
    pose proof (Hsettle url r2 st2 (Hfollow _ _ _ _ Hf Hr)) as Hs.
    by rewrite Hrun in Hs.
  - injection Hrun as Hrun. pose proof (Hsettle url (Err msg) st1 Hr) as Hs.
    by rewrite Hrun in Hs.
Qed.

Lemma processPage_le fuel url st r st' :
  Crawler.processPage cfg env fuel url st = Some (r, st') → state_le st st'.
Proof.
  intros Hrun.
  apply (processPage_keeps (state_le st)) with fuel url st r; [| | |done|apply state_le_refl].
  - intros u st1 Hle. eapply state_le_trans; [done|].
    split_and!; simpl; try done; [set_solver|by apply suffix_cons_r].
  - intros u st1 Hle. eapply state_le_trans; [done|apply render_page_grows].
  - intros u r1 st1 Hle. eapply state_le_trans; [done|apply settle_grows].
Qed.

Lemma processPage_stored fuel url st r st' :
  Crawler.processPage cfg env fuel url st = Some (r, st') →
  assets_stored cfg st → assets_stored cfg st'.
Proof.
  intros Hrun.
  apply (processPage_keeps (assets_stored cfg)) with fuel url r; [| | |done].
  - done.
  - intros u st1. apply render_page_grows.
  - intros u r1 st1. apply settle_grows.
Qed.

End Growth.

Section Accounting.
Context `{UrlParser} (cfg : Crawler.Config) (env : Crawler.Env).
Context (Hopen : ∀ url, Crawler.newPage env url = Ok ()).

Lemma page_saved_le st st' url :
  state_le st st' → page_saved cfg st url → page_saved cfg st' url.
Proof.
  intros (_ & _ & _ & Hfiles & _) (U & HU & Hfile). exists U. split; [done|].
  by apply Hfiles.
Qed.

Lemma pages_accounted_le S st st' :
  state_le st st' → Crawler.visited st' = Crawler.visited st →
  pages_accounted cfg S st → pages_accounted cfg S st'.
Proof.
  intros Hle Hv Hacc url Hin Hout. rewrite Hv in Hin.
  destruct (Hacc url Hin Hout) as [Hfail|Hsaved].
  - left. by apply Hle.
  - right. by eapply page_saved_le.
Qed.

Lemma processPage_accounted fuel :
  ∀ url st r st' S,
    Crawler.processPage cfg env fuel url st = Some (r, st') →
    pages_accounted cfg S st → pages_accounted cfg S st'.
Proof.
  induction fuel as [|fuel IH]; [done|].
  assert (∀ ls st r st' S,
            Crawler.follow cfg (Crawler.processPage cfg env fuel) ls st = Some (r, st') →
            pages_accounted cfg S st →
            pages_accounted cfg S st' ∧ state_le st st') as Hfollow.
  { induction ls as [|link rest IHls]; intros st r st' S Hrun Hst; simpl in Hrun.
    - simplify_eq. split; [done|apply state_le_refl].
    - destruct (_ && _); [|by eapply IHls].
      destruct (Crawler.processPage cfg env fuel link st) as [[[[]|msg] st1]|] eqn:Hcall;
        [|simplify_eq|done].
      + pose proof (processPage_le _ _ _ _ _ _ _ Hcall) as Hle1.
        eapply IHls in Hrun as [Hacc Hle2]; [|by eapply IH].
        split; [done|by eapply state_le_trans].
      + split; [by eapply IH|by eapply processPage_le]. }
  intros url st r st' S Hrun Hst. cbn [Crawler.processPage] in Hrun.
  destruct (decide (url ∈ Crawler.visited st)) as [|Hnew]; [by simplify_eq|].
  rewrite Hopen in Hrun.
  set (st0 := {| Crawler.visited := {[url]} ∪ Crawler.visited st;
                 Crawler.downloadedAssets := Crawler.downloadedAssets st;
                 Crawler.failedUrls := Crawler.failedUrls st;
                 Crawler.requests := Crawler.requests st;
                 Crawler.files := Crawler.files st;
                 Crawler.processing := url :: Crawler.processing st |}) in Hrun.
  assert (pages_accounted cfg ({[url]} ∪ S) st0) as Hst0.
  { intros u Hu Hout. apply Hst; set_solver. }
  pose proof (render_page_grows cfg env url st0) as (Hle1 & _ & Hsaved).
  pose proof (render_page_visited cfg env url st0) as Hv1.
  destruct (Crawler.render_page cfg env url st0) as [[ls|msg] st1]; simpl in *.
  - destruct (Crawler.follow cfg _ ls st1) as [[r2 st2]|] eqn:Hf; [|done].
    injection Hrun as Hrun.
    eapply Hfollow in Hf as [Hacc2 Hle2];
      [|by eapply (pages_accounted_le _ st0)].
    pose proof (settle_grows cfg env url r2 st2) as (Hle3 & _ & Hfailed).
    pose proof (settle_visited env url r2 st2) as Hv3.
    rewrite Hrun in Hle3, Hfailed, Hv3. simpl in *.
    intros u Hu Hout. destruct (decide (u = url)) as [->|Hne].
    + destruct r2 as [[]|msg].
      * right. apply (page_saved_le st1); [by eapply state_le_trans|]. by eapply Hsaved.
      * left. by eapply Hfailed.
    + rewrite Hv3 in Hu. destruct (Hacc2 u Hu) as [Hf2|Hs2]; [set_solver| |].
      * left. by apply Hle3.
      * right. by eapply page_saved_le.
  - injection Hrun as Hrun.
    pose proof (settle_grows cfg env url (Err msg) st1) as (Hle3 & _ & Hfailed).
    pose proof (settle_visited env url (Err msg) st1) as Hv3.
    rewrite Hrun in Hle3, Hfailed, Hv3. simpl in *.
    intros u Hu Hout. destruct (decide (u = url)) as [->|Hne].
    + left. by eapply Hfailed.
    + rewrite Hv3, Hv1 in Hu. destruct (Hst0 u Hu) as [Hf0|Hs0]; [set_solver| |].
      * left. by apply Hle3, Hle1.
      * right. apply (page_saved_le st0); [by eapply state_le_trans|done].
Qed.

End Accounting.

(** X12. A call of [processPage] only adds to the state of the crawl: no URL
    leaves [visited] or [failedUrls], no asset leaves the cache and none
    changes its cached path, no file is removed, and the requests and the
    [Processing:] lines before the call are still there, in place. *)
Theorem crawl_only_adds `{UrlParser} cfg env fuel url st r st' :
  Crawler.processPage cfg env fuel url st = Some (r, st') →
  state_le st st' ∧
  (∀ asset p, Crawler.downloadedAssets st !! asset = Some p →
     Crawler.downloadAsset cfg env asset st' = (p, st')).
Proof.
  intros Hrun. pose proof (processPage_le _ _ _ _ _ _ _ Hrun) as Hle.
  split; [done|]. intros asset p Hc. apply downloadAsset_cached.
  destruct Hle as (_ & _ & Hcache & _).
  by eapply lookup_weaken.
Qed.

Lemma crawl_only_adds_witness :
  ∃ st,
    Crawler.processPage (H := Url.plain) Crawler.config two_pages 3 page_a Crawler.initial
    = Some (Ok (), st) ∧
    state_le Crawler.initial st.
Proof.
  eexists. split; [vm_compute; reflexivity|].
  eapply (proj1 (crawl_only_adds (H := Url.plain) Crawler.config two_pages 3 page_a
                   Crawler.initial (Ok ()) _ _)).
  Unshelve. vm_compute. reflexivity.
Defined.

(** X13. Every asset in the download cache of [crawler.js] was requested and
    has its file on disk, at the cached path below the output directory: a
    call of [processPage] keeps this true, and it is true of the state
    [main] ends with, so [Total assets downloaded] counts files that
    exist. *)
Theorem cached_assets_are_on_disk `{UrlParser} cfg env fuel :
  (∀ url st r st',
     Crawler.processPage cfg env fuel url st = Some (r, st') →
     assets_stored cfg st → assets_stored cfg st') ∧
  (∀ r st, Crawler.main cfg env fuel = Some (r, st) → assets_stored cfg st).
Proof.
  split.
  - intros url st r st'. apply processPage_stored.
  - intros r st Hrun. eapply processPage_stored; [done|].
    intros url p Hp. simpl in Hp. by rewrite lookup_empty in Hp.
Qed.

(** X14. When the browser opens every page, each page [crawler.js] has
    visited is, once its call of [processPage] is over, either reported in
    [failedUrls] or saved at the file the URL's path maps to: [visited]
    holds no page that was dropped silently. *)
Theorem visited_pages_are_saved_or_failed `{UrlParser} cfg env fuel r st :
  (∀ url, Crawler.newPage env url = Ok ()) →
  Crawler.main cfg env fuel = Some (r, st) →
  ∀ url, url ∈ Crawler.visited st →
    url ∈ Crawler.failedUrls st ∨ page_saved cfg st url.
Proof.
  intros Hopen Hrun url Hurl.
  eapply (processPage_accounted cfg env Hopen fuel _ _ _ _ ∅) in Hrun.
  - apply Hrun; [done|set_solver].
  - intros u Hu. simpl in Hu. set_solver.
Qed.

Lemma visited_pages_are_saved_or_failed_witness :
  page_b ∈ Crawler.failedUrls
             (from_option snd Crawler.initial
                (Crawler.main (H := Url.plain) Crawler.config two_pages 3))
  ∨ page_saved (H := Url.plain) Crawler.config
      (from_option snd Crawler.initial
         (Crawler.main (H := Url.plain) Crawler.config two_pages 3)) page_b.
Proof.
  eapply (visited_pages_are_saved_or_failed (H := Url.plain) Crawler.config two_pages 3
            (Ok ())).
  - reflexivity.
  - vm_compute. reflexivity.
  - vm_compute. set_solver.
Defined.

Lemma cached_assets_are_on_disk_witness :
  ∃ st,
    Crawler.main (H := Url.plain) Crawler.config one_image 1 = Some (Ok (), st) ∧
    Crawler.downloadedAssets st !! "https://apply.agency/logo.png" = Some "assets/logo.png" ∧
    assets_stored Crawler.config st.
Proof.
  eexists. split; [vm_compute; reflexivity|]. split; [vm_compute; reflexivity|].
  eapply (proj2 (cached_assets_are_on_disk (H := Url.plain) Crawler.config one_image 1)
            (Ok ())).
  vm_compute. reflexivity.
Defined.

(** ** The asset map of a page in [crawler.js] *)

Section AssetMap.
Context `{UrlParser} (cfg : Crawler.Config) (env : Crawler.Env).

Lemma map_set_elem k v (am : list (string * string)) k' v' :
  NoDup am.*1 →
  (k', v') ∈ Crawler.map_set k v am ↔
  (k' = k ∧ v' = v) ∨ (k' ≠ k ∧ (k', v') ∈ am).
Proof.
  induction am as [|[k0 v0] am IH]; intros Hnd; simpl.
  - rewrite list_elem_of_singleton. split.
    + intros [= -> ->]. by left.
    + intros [[-> ->]|[_ Hin]]; [done|]. by apply elem_of_nil in Hin.
  - apply NoDup_cons in Hnd as [Hk0 Hnd]. destruct (decide (k0 = k)) as [->|Hne].
    + rewrite !elem_of_cons. split.
      * intros [[= -> ->]|Hin]; [by left|]. right. split; [|by right].
        intros ->. apply Hk0. apply list_elem_of_fmap. by exists (k, v').
      * intros [[-> ->]|[Hne [[= -> ->]|Hin]]]; [by left|done|by right].
    + rewrite !elem_of_cons, IH by done. split.
      * intros [[= -> ->]|[[-> ->]|[Hne' Hin]]].
        -- right. split; [done|by left].
        -- by left.
        -- right. split; [done|by right].
      * intros [[-> ->]|[Hne' [[= -> ->]|Hin]]].
        -- right. by left.
        -- by left.
        -- right. by right.
Qed.

Lemma map_set_NoDup k v (am : list (string * string)) :
  NoDup am.*1 →
  NoDup (Crawler.map_set k v am).*1 ∧
  ∀ k', k' ∈ (Crawler.map_set k v am).*1 ↔ k' = k ∨ k' ∈ am.*1.
Proof.
  induction am as [|[k0 v0] am IH]; intros Hnd; simpl.
  - split; [apply NoDup_singleton|]. intros k'. set_solver.
  - apply NoDup_cons in Hnd as [Hk0 Hnd]. destruct (decide (k0 = k)) as [->|Hne]; simpl.
    + split; [by apply NoDup_cons|]. intros k'. set_solver.
    + destruct (IH Hnd) as [Hnd' Hkeys]. split.
      * apply NoDup_cons. split; [|done]. rewrite Hkeys. set_solver.
      * intros k'. rewrite !elem_of_cons, Hkeys. set_solver.
Qed.

(** what [downloadAsset] returns, for a sound cache *)
Lemma downloadAsset_replacement url st :
  cache_sound st →
  replacement_ok (snd (Crawler.downloadAsset cfg env url st)) url
    (fst (Crawler.downloadAsset cfg env url st)) ∧
  cache_sound (snd (Crawler.downloadAsset cfg env url st)).
Proof.
  intros Hsound.
  destruct (Crawler.downloadAsset cfg env url st) as [p st1] eqn:Hdl. simpl.
  pose proof (downloadAsset_cache_sound _ _ _ _ _ _ Hsound Hdl) as [Hsound1 _].
  split; [|done].
  destruct (Crawler.downloadedAssets st !! url) as [cached|] eqn:Hc.
  - rewrite (downloadAsset_cached _ _ _ _ _ Hc) in Hdl. simplify_eq.
    right. destruct (Hsound _ _ Hc) as (U & HU & ->). by exists U.
  - destruct (downloadAsset_fresh _ _ _ _ _ _ Hc Hdl)
      as (_ & _ & _ & [(-> & Hf & _)|(U & HU & -> & _ & Hcache)]).
    + by left.
    + right. exists U. split_and!; [done..|]. rewrite Hcache. apply lookup_insert_eq.
Qed.

Lemma replacement_ok_le st st' asset local :
  state_le st st' → replacement_ok st asset local → replacement_ok st' asset local.
Proof.
  intros (_ & Hf & Hc & _) [[-> Hfail]|(U & HU & -> & Hcache)].
  - left. split; [done|]. by apply Hf.
  - right. exists U. split_and!; [done..|]. by eapply lookup_weaken.
Qed.

Lemma download_allowed_domain found am st :
  NoDup am.*1 →
  NoDup (fst (Crawler.download_allowed cfg env found am st)).*1 ∧
  ∀ k, k ∈ (fst (Crawler.download_allowed cfg env found am st)).*1 ↔
       k ∈ am.*1 ∨ (k ∈ found ∧ Crawler.isAllowedDomain cfg k = true).
Proof.
  revert am st. induction found as [|asset rest IH]; intros am st Hnd; simpl.
  - split; [done|]. intros k. set_solver.
  - destruct (Crawler.isAllowedDomain cfg asset) eqn:Hallowed.
    + destruct (Crawler.downloadAsset cfg env asset st) as [local st1].
      destruct (map_set_NoDup asset local am Hnd) as [Hnd1 Hkeys1].
      destruct (IH (Crawler.map_set asset local am) st1 Hnd1) as [Hnd' Hkeys'].
      split; [done|]. intros k. rewrite Hkeys', Hkeys1, elem_of_cons. split.
      * intros [[->|?]|[? ?]]; auto.
      * intros [?|[[->|?] ?]]; auto.
    + destruct (IH am st Hnd) as [Hnd' Hkeys'].
      split; [done|]. intros k. rewrite Hkeys', elem_of_cons.
      split; [intros [?|[? ?]]; auto|]. intros [?|[[->|?] ?]]; auto. congruence.
Qed.

Lemma download_allowed_replacements found am st am' st' :
  Crawler.download_allowed cfg env found am st = (am', st') →
  NoDup am.*1 → cache_sound st →
  (∀ k v, (k, v) ∈ am → replacement_ok st k v) →
  cache_sound st' ∧ ∀ k v, (k, v) ∈ am' → replacement_ok st' k v.
Proof.
  revert am st. induction found as [|asset rest IH]; intros am st Hrun Hnd Hsound Ham;
    simpl in Hrun.
  - by simplify_eq.
  - destruct (Crawler.isAllowedDomain cfg asset) eqn:Hallowed; [|by eapply IH].
    pose proof (downloadAsset_replacement asset st Hsound) as [Hrep Hsound1].
    pose proof (downloadAsset_grows cfg env asset st) as [Hle _].
    destruct (Crawler.downloadAsset cfg env asset st) as [local st1]. simpl in *.
    destruct (map_set_NoDup asset local am Hnd) as [Hnd1 _].
    eapply IH; [done..|].
    intros k v [[-> ->]|[Hne Hin]]%map_set_elem; [done| |done].
    by eapply replacement_ok_le, Ham.
Qed.

End AssetMap.

(** X15. The asset map [processPage] of [crawler.js] builds for a page has
    one entry for each URL of the page that passes the domain filter, and
    no other; with a cache that holds derived paths only, the entry of an
    asset is the local path [assets<path of the URL>] under which the cache
    now holds it, or the URL itself for an asset reported in
    [failedUrls]. *)
Theorem asset_map_of_a_page `{UrlParser} cfg env found st assetMap st' :
  Crawler.download_allowed cfg env found [] st = (assetMap, st') →
  NoDup assetMap.*1 ∧
  (∀ asset, asset ∈ assetMap.*1 ↔
            asset ∈ found ∧ Crawler.isAllowedDomain cfg asset = true) ∧
  (cache_sound st →
   cache_sound st' ∧
   ∀ asset local, (asset, local) ∈ assetMap → replacement_ok st' asset local).
Proof.
  intros Hrun.
  pose proof (download_allowed_domain cfg env found [] st (NoDup_nil_2)) as [Hnd Hkeys].
  rewrite Hrun in Hnd, Hkeys. simpl in Hnd, Hkeys.
  split_and!; [done| |].
  - intros asset. rewrite Hkeys. set_solver.
  - intros Hsound. eapply download_allowed_replacements; [done|apply NoDup_nil_2|done|].
    intros k v Hin. by apply elem_of_nil in Hin.
Qed.

Lemma asset_map_of_a_page_witness :
  ∃ st',
    Crawler.download_allowed (H := Url.plain) Crawler.config calm
      ["https://apply.agency/logo.png"; "https://elsewhere.example/x.png"] []
      Crawler.initial
    = ([("https://apply.agency/logo.png", "assets/logo.png")], st') ∧
    replacement_ok (H := Url.plain) st' "https://apply.agency/logo.png" "assets/logo.png".
Proof.
  eexists. split; [vm_compute; reflexivity|].
  eapply (proj2 (proj2 (asset_map_of_a_page (H := Url.plain) Crawler.config calm
                          ["https://apply.agency/logo.png";
                           "https://elsewhere.example/x.png"]
                          Crawler.initial _ _ _))).
  - apply cache_sound_initial.
  - by left.
  Unshelve. vm_compute. reflexivity.
Defined.

(** ** The directory of a path *)

Section Dirname.

Lemma list_ascii_app a b :
  list_ascii_of_string (a +:+ b) = list_ascii_of_string a ++ list_ascii_of_string b.
Proof. induction a as [|c a IH]; [done|]. rewrite sapp_cons. simpl. by rewrite IH. Qed.

Lemma length_list_ascii s : length (list_ascii_of_string s) = String.length s.
Proof. induction s as [|c s IH]; [done|]. simpl. by rewrite IH. Qed.

Lemma no_slash_chars f :
  Js.includes f "/" = false → Forall (λ c, c ≠ "/"%char) (list_ascii_of_string f).
Proof.
  induction f as [|c f IH]; [constructor|]. intros [Hc Hf]%includes_char_false.
  constructor; [done|by apply IH].
Qed.

(** the loop runs over the last segment *)
Lemma dirname_end_segment cs rest i b :
  cs ≠ [] → Forall (λ c, c ≠ "/"%char) cs →
  Site.dirname_end (cs ++ rest) i b = Site.dirname_end rest (i - length cs) false.
Proof.
  intros Hne Hcs. revert i b Hne.
  induction Hcs as [|c cs Hc Hcs IH]; intros i b Hne; [done|].
  simpl. rewrite (proj2 (Ascii.eqb_neq c "/")) by done.
  destruct cs as [|c' cs].
  - simpl. done.
  - rewrite IH by done. f_equal. simpl. lia.
Qed.

Lemma endsWith_last_char c s :
  Js.endsWith (String c s) "/" = false →
  Js.endsWith s "/" = false ∧ (s = "" → c ≠ "/"%char).
Proof.
  cbn [Js.endsWith]. intros [Hhead Htail]%orb_false_elim. split; [done|].
  intros -> ->. done.
Qed.

(** the directory of a file in a directory *)
Lemma dirname_file D f :
  D ≠ "" → Js.endsWith D "/" = false → f ≠ "" → Js.includes f "/" = false →
  Site.dirname (D +:+ "/" +:+ f) = D.
Proof.
  intros HD Hend Hf Hno. destruct D as [|c0 D']; [done|].
  rewrite sapp_cons. unfold Site.dirname.
  rewrite list_ascii_app, rev_app_distr.
  change (list_ascii_of_string ("/" +:+ f)) with ("/"%char :: list_ascii_of_string f).
  cbn [rev]. rewrite <-app_assoc.
  rewrite dirname_end_segment; last first.
  { apply Forall_rev. by apply no_slash_chars. }
  { destruct f; [done|]. simpl. by destruct (rev _). }
  rewrite length_rev, length_list_ascii, !slength_app.
  cbn [app Site.dirname_end String.length].
  change (Ascii.eqb "/" "/") with true. cbn iota.
  match goal with |- context [?a - String.length f] =>
    replace (a - String.length f) with (S (String.length D')) by (simpl; lia) end.
  replace (Ascii.eqb c0 "/" && (S (String.length D') =? 1)) with false; last first.
  { symmetry. apply andb_false_iff.
    destruct D' as [|c1 D']; [|by right].
    left. apply Ascii.eqb_neq. by apply (endsWith_last_char c0 ""). }
  change (Regex.take (S (String.length D')) (String c0 (D' +:+ "/" +:+ f)))
    with (String c0 (Regex.take (String.length D') (D' +:+ "/" +:+ f))).
  by rewrite take_app_length.
Qed.

(** the directory of a path given by its segments *)
Lemma dirname_segments (A : list string) f :
  A ≠ [] → Forall plain_segment A → plain_segment f →
  Site.dirname (Js.join "/" (A ++ [f])) = Js.join "/" A.
Proof.
  intros HA Hplain (Hf & _ & _ & Hno). rewrite join_snoc by done.
  apply dirname_file; try done.
  - destruct A as [|a A]; [done|]. by apply join_nonempty; inversion Hplain.
  - apply join_no_trailing_slash; [done|by apply plain_no_slash|].
    destruct A as [|a A]; [done|]. by destruct (last_plain A a Hplain).
Qed.

End Dirname.

(** ** Where a rewritten reference leads *)

Section Resolve.

Lemma repeat_join n (L : list string) :
  L ≠ [] →
  Js.repeat "../" n +:+ Js.join "/" L = Js.join "/" (List.repeat ".." n ++ L).
Proof.
  intros HL. induction n as [|n IH]; [done|].
  cbn [Js.repeat List.repeat app]. rewrite sapp_assoc, IH.
  destruct (List.repeat ".." n ++ L) as [|y Y] eqn:HY.
  - by apply app_eq_nil in HY as [_ ?].
  - by rewrite join_cons_cons.
Qed.

Lemma plain_built_site : plain_segment "built_site".
Proof. by repeat split. Qed.

Lemma plain_not_dotdot (L : list string) :
  Forall plain_segment L → Forall (λ seg, seg ≠ "..") L.
Proof. intros HL. eapply Forall_impl; [done|]. by intros seg (_ & _ & ? & _). Qed.

(** the output path of a file given by its segments *)
Lemma output_path_segments (F : list string) :
  F ≠ [] → Forall plain_segment F →
  Path.join [Builder.OUTPUT_DIR; Js.join "/" F] = Js.join "/" ("built_site" :: F).
Proof.
  intros HF Hplain.
  pose proof (path_join_segments ["."; "built_site"] F) as Hj.
  rewrite normalizeSegments_kept in Hj.
  2:{ apply Forall_app. split; [by each_segment|by apply plain_not_dotdot]. }
  rewrite kept_app, (kept_plain F) in Hj by done.
  apply Hj; try done.
  - apply Forall_app. split; [by each_segment|by apply plain_no_slash].
  - destruct F as [|x F]; [done|]. by destruct (last_plain F x Hplain).
Qed.

Lemma fileName_segments x (segs : list string) (trailing : bool) :
  Forall plain_segment (x :: segs) →
  Builder.fileName ("/" +:+ Js.join "/" (x :: segs) +:+ (if trailing then "/" else ""))
  = Js.join "/" ((x :: segs) ++ (if trailing then ["index.html"] else [])).
Proof.
  intros Hplain. destruct trailing.
  - rewrite fileName_directory.
    + rewrite join_snoc by done.
      change (Js.slice 1 ("/" +:+ Js.join "/" (x :: segs) +:+ "/"))
        with (Js.join "/" (x :: segs) +:+ "/").
      by rewrite sapp_assoc.
    + intros Heq. apply (f_equal String.length) in Heq.
      rewrite sapp_cons, sapp_nil_l in Heq. simpl in Heq.
      rewrite slength_app in Heq. simpl in Heq. lia.
    + apply endsWith_spec. exists ("/" +:+ Js.join "/" (x :: segs)).
      by rewrite !sapp_assoc.
  - rewrite sapp_nil_r, app_nil_r. rewrite fileName_verbatim; [done|].
    change ("/" +:+ Js.join "/" (x :: segs)) with (Js.join "/" ("" :: x :: segs)).
    apply join_no_trailing_slash; [done| |].
    + constructor; [done|]. by apply plain_no_slash.
    + change ("" :: x :: segs) with ([""] ++ x :: segs).
      rewrite last_skip_prefix by done. by destruct (last_plain segs x Hplain).
Qed.

(** from the directory of the file [F0/f], the path [getRelativePath]
    computes leads to the local path below the output directory *)
Lemma reference_resolves (F0 : list string) f (LP : list string) :
  Forall plain_segment F0 → plain_segment f → LP ≠ [] → Forall plain_segment LP →
  Path.join [Site.dirname (Path.join [Builder.OUTPUT_DIR; Js.join "/" (F0 ++ [f])]);
             Builder.getRelativePath (Js.join "/" (F0 ++ [f])) (Js.join "/" LP)]
  = Path.join [Builder.OUTPUT_DIR; Js.join "/" LP].
Proof.
  intros HF0 Hf HLP Hplain.
  assert (Forall plain_segment (F0 ++ [f])) as HF
    by (apply Forall_app; split; [done|by each_segment]).
  assert (F0 ++ [f] ≠ []) as HFne by (by destruct F0).
  rewrite !output_path_segments by done.
  change ("built_site" :: F0 ++ [f]) with (("built_site" :: F0) ++ [f]).
  rewrite dirname_segments; [|done|by constructor; [apply plain_built_site|]|done].
  rewrite getRelativePath_depth, split_join, filter_Boolean_plain, length_app;
    [|done|done|by apply plain_no_slash].
  cbn [length]. replace (length F0 + 1 - 1) with (length F0) by lia.
  rewrite repeat_join by done.
  rewrite path_join_segments.
  - f_equal.
    rewrite (normalizeSegments_plain true ("built_site" :: F0))
      by (by constructor; [apply plain_built_site|]).
    cbn [rev]. rewrite app_nil_r.
    rewrite <-(length_rev F0).
    rewrite (normalizeSegments_pop true (rev F0)) by (by apply Forall_rev).
    rewrite normalizeSegments_kept by (by apply plain_not_dotdot).
    by rewrite kept_plain.
  - apply Forall_app. split.
    + constructor; [done|]. by apply plain_no_slash.
    + apply Forall_app. split; [|by apply plain_no_slash].
      clear. induction (length F0); by constructor.
  - done.
  - rewrite last_skip_prefix by done.
    destruct LP as [|l LP]; [done|]. by destruct (last_plain LP l Hplain).
  - rewrite (normalizeSegments_plain true ("built_site" :: F0))
      by (by constructor; [apply plain_built_site|]).
    cbn [rev]. rewrite app_nil_r.
    rewrite <-(length_rev F0).
    rewrite (normalizeSegments_pop true (rev F0)) by (by apply Forall_rev).
    rewrite normalizeSegments_kept by (by apply plain_not_dotdot).
    done.
Qed.

End Resolve.

(** X16. The relative path the builder writes into a page leads to the
    copy of the asset: for a page whose URL path is made of plain segments,
    with or without a trailing slash, and a local path of plain segments,
    the path [getRelativePath] computes, resolved from the directory of the
    page's output file, is the place of the asset below the output
    directory; so is it for the page at [/]. *)
Theorem rewritten_reference_resolves x segs (trailing : bool) l ls :
  Forall plain_segment (x :: segs) → Forall plain_segment (l :: ls) →
  let urlPath := "/" +:+ Js.join "/" (x :: segs) +:+ (if trailing then "/" else "") in
  let to := Js.join "/" (l :: ls) in
  Path.join [Site.dirname (Path.join [Builder.OUTPUT_DIR; Builder.fileName urlPath]);
             Builder.getRelativePath (Builder.fileName urlPath) to]
  = Path.join [Builder.OUTPUT_DIR; to] ∧
  Path.join [Site.dirname (Path.join [Builder.OUTPUT_DIR; Builder.fileName "/"]);
             Builder.getRelativePath (Builder.fileName "/") to]
  = Path.join [Builder.OUTPUT_DIR; to] ∧
  Path.join [Builder.OUTPUT_DIR; to] = "built_site/" +:+ to.
Proof.
  intros Hpage Hto urlPath to. split_and!.
  - unfold urlPath. rewrite fileName_segments by done.
    destruct trailing.
    + by apply (reference_resolves (x :: segs) "index.html").
    + rewrite app_nil_r.
      destruct (exists_last (l := x :: segs) ltac:(done)) as (F0 & f & HF).
      rewrite HF in *. apply Forall_app in Hpage as [HF0 Hf].
      apply reference_resolves; try done. by inversion Hf.
  - change (Builder.fileName "/") with (Js.join "/" ([] ++ ["index.html"])).
    by apply (reference_resolves [] "index.html").
  - unfold to. by rewrite output_path_segments.
Qed.

Lemma rewritten_reference_resolves_witness :
  Path.join [Site.dirname (Path.join [Builder.OUTPUT_DIR;
                                      Builder.fileName "/work/cases/"]);
             Builder.getRelativePath (Builder.fileName "/work/cases/") "assets/x.png"]
  = Path.join [Builder.OUTPUT_DIR; "assets/x.png"].
Proof.
  apply (proj1 (rewritten_reference_resolves "work" ["cases"] true "assets" ["x.png"]
                  ltac:(by each_segment) ltac:(by each_segment))).
Defined.

(** ** The two loops of [buildSite] *)

Section Loops.
Context `{UrlParser} (env : Site.Env).

Lemma copy_asset_frame asset d path :
  path ≠ asset_target asset →
  Site.files (Site.copy_asset env asset d) !! path = Site.files d !! path.
Proof.
  intros Hne. unfold Site.copy_asset, Site.call.
  destruct (Site.files d !! _); [|done].
  destruct (Site.fs env _ _); [|done].
  destruct (Site.fs env _ _); [|done].
  simpl. by rewrite lookup_insert_ne.
Qed.

Lemma copy_assets_frame entries d path :
  (∀ e, e ∈ entries → asset_target e.2 ≠ path) →
  Site.files (Site.copy_assets env entries d) !! path = Site.files d !! path.
Proof.
  revert d. induction entries as [|[url asset] rest IH]; intros d Hout; [done|].
  cbn [Site.copy_assets]. rewrite IH.
  - apply copy_asset_frame. intros ->. apply (Hout (url, asset)); [by left|done].
  - intros e He. apply Hout. by right.
Qed.

Lemma copy_asset_copies asset d data :
  disk_accepts env →
  Site.files d !! asset_source asset = Some data →
  Site.files (Site.copy_asset env asset d) !! asset_target asset = Some data.
Proof.
  intros Hacc Hsrc. unfold Site.copy_asset, Site.call.
  fold (asset_source asset). rewrite Hsrc, !Hacc. simpl.
  apply lookup_insert_eq.
Qed.

Lemma copy_assets_copies entries d :
  disk_accepts env →
  (∀ e e', e ∈ entries → e' ∈ entries → asset_target e.2 ≠ asset_source e'.2) →
  (∀ e e', e ∈ entries → e' ∈ entries →
     asset_target e.2 = asset_target e'.2 → asset_source e.2 = asset_source e'.2) →
  ∀ e, e ∈ entries → is_Some (Site.files d !! asset_source e.2) →
    Site.files (Site.copy_assets env entries d) !! asset_target e.2
    = Site.files d !! asset_source e.2.
Proof.
  intros Hacc. revert d.
  induction entries as [|[url asset] rest IH]; intros d Hapart Hsame e He Hsrc.
  { by apply elem_of_nil in He. }
  cbn [Site.copy_assets].
  assert (∀ e', e' ∈ (url, asset) :: rest →
            Site.files (Site.copy_asset env asset d) !! asset_source e'.2
            = Site.files d !! asset_source e'.2) as Hkeep.
  { intros e' He'. apply copy_asset_frame. intros Heq.
    apply (Hapart (url, asset) e'); [by left|done|done]. }
  assert (∀ e0, e0 ∈ rest → is_Some (Site.files d !! asset_source e0.2) →
            Site.files (Site.copy_assets env rest (Site.copy_asset env asset d))
              !! asset_target e0.2 = Site.files d !! asset_source e0.2) as Hrest.
  { intros e0 He0 Hs0. rewrite IH.
    - apply Hkeep. by right.
    - intros a b Ha Hb. apply Hapart; by right.
    - intros a b Ha Hb. apply Hsame; by right.
    - done.
    - rewrite Hkeep by (by right). done. }
  apply elem_of_cons in He as [->|He]; [|by apply Hrest].
  simpl in *.
  destruct (decide (Exists (λ e', asset_target e'.2 = asset_target asset) rest))
    as [Hlater|Hlast].
  - apply Exists_exists in Hlater as (e' & He' & Heq).
    assert (asset_source e'.2 = asset_source asset) as Hs.
    { apply (Hsame e' (url, asset)); [by right|by left|done]. }
    rewrite <-Heq, <-Hs. apply Hrest; [done|]. by rewrite Hs.
  - rewrite copy_assets_frame.
    + destruct Hsrc as [data Hdata]. rewrite Hdata. by apply copy_asset_copies.
    + intros e' He' Heq. apply Hlast, Exists_exists. by exists e'.
Qed.

Lemma build_page_frame manifest url pageInfo d d' path :
  Site.build_page env manifest url pageInfo d = Some d' →
  Builder.outputPath url ≠ Some path →
  Site.files d' !! path = Site.files d !! path.
Proof.
  unfold Site.build_page, Site.call. intros Hrun Hne.
  destruct (Page.rawHtml pageInfo); [|by simplify_eq].
  destruct (Site.files d !! _); [|by simplify_eq].
  destruct (Builder.processHtml _ _ _); [|by simplify_eq|done].
  destruct (Builder.outputPath url) as [out|]; [|by simplify_eq].
  destruct (Site.fs env _ _); [|by simplify_eq].
  destruct (Site.fs env _ _); simplify_eq; [|done].
  simpl. rewrite lookup_insert_ne; [done|]. by intros ->.
Qed.

Lemma build_pages_frame manifest entries d d' path :
  Site.build_pages env manifest entries d = Some d' →
  (∀ e, e ∈ entries → Builder.outputPath e.1 ≠ Some path) →
  Site.files d' !! path = Site.files d !! path.
Proof.
  revert d. induction entries as [|[url pageInfo] rest IH]; intros d Hrun Hout.
  { simpl in Hrun. by simplify_eq. }
  cbn [Site.build_pages] in Hrun.
  destruct (Site.build_page env manifest url pageInfo d) as [d1|] eqn:Hpage; [|done].
  simpl in Hrun. rewrite (IH _ Hrun); [|by intros e He; apply Hout; right].
  eapply build_page_frame; [done|]. by apply (Hout (url, pageInfo)); left.
Qed.

Lemma build_page_writes manifest url pageInfo d rawPath rawHtml html out :
  disk_accepts env →
  Page.rawHtml pageInfo = Some rawPath →
  Site.files d !! Path.join [Site.INPUT_DIR; rawPath] = Some rawHtml →
  Builder.processHtml rawHtml url manifest = Builder.Returns html →
  Builder.outputPath url = Some out →
  ∃ d', Site.build_page env manifest url pageInfo d = Some d' ∧
        Site.files d' !! out = Some html.
Proof.
  intros Hacc Hraw Hfile Hhtml Hout. unfold Site.build_page, Site.call.
  rewrite Hraw, Hfile, Hhtml, Hout, !Hacc. eexists. split; [done|].
  simpl. apply lookup_insert_eq.
Qed.

(** a page that can be built is written, whatever became of the pages
    before it *)
Lemma build_pages_writes manifest before url pageInfo after d d' rawPath rawHtml html out :
  Site.build_pages env manifest (before ++ (url, pageInfo) :: after) d = Some d' →
  disk_accepts env →
  Page.rawHtml pageInfo = Some rawPath →
  Site.files d !! Path.join [Site.INPUT_DIR; rawPath] = Some rawHtml →
  Builder.processHtml rawHtml url manifest = Builder.Returns html →
  Builder.outputPath url = Some out →
  (∀ e, e ∈ before →
     Builder.outputPath e.1 ≠ Some (Path.join [Site.INPUT_DIR; rawPath])) →
  (∀ e, e ∈ after → Builder.outputPath e.1 ≠ Some out) →
  Site.files d' !! out = Some html.
Proof.
  intros Hrun Hacc Hraw Hfile Hhtml Hout Hbefore Hafter.
  revert d Hrun Hfile.
  induction before as [|[u p] before IH]; intros d Hrun Hfile.
  - cbn [app Site.build_pages] in Hrun.
    destruct (build_page_writes manifest url pageInfo d _ _ _ _
                Hacc Hraw Hfile Hhtml Hout) as (d1 & Hd1 & Hwritten).
    rewrite Hd1 in Hrun. simpl in Hrun.
    by rewrite (build_pages_frame _ _ _ _ _ Hrun Hafter).
  - cbn [app Site.build_pages] in Hrun.
    destruct (Site.build_page env manifest u p d) as [d1|] eqn:Hpage; [|done].
    simpl in Hrun.
    assert (∀ e, e ∈ before →
              Builder.outputPath e.1 ≠ Some (Path.join [Site.INPUT_DIR; rawPath]))
      as Hbefore' by (intros e He; apply Hbefore; by right).
    apply (IH Hbefore' d1 Hrun).
    rewrite (build_page_frame _ _ _ _ _ _ Hpage); [done|].
    apply (Hbefore (u, p)). by left.
Qed.

(** a page with no raw HTML on record or on disk, or whose URL does not
    parse, is passed over *)
Lemma build_page_skips manifest url pageInfo d :
  Page.rawHtml pageInfo = None ∨
  (∃ rawPath, Page.rawHtml pageInfo = Some rawPath ∧
              Site.files d !! Path.join [Site.INPUT_DIR; rawPath] = None) ∨
  parseURL url = None →
  Site.build_page env manifest url pageInfo d = Some d.
Proof.
  unfold Site.build_page. intros [Hraw|[(rawPath & Hraw & Hfile)|Hparse]].
  - by rewrite Hraw.
  - by rewrite Hraw, Hfile.
  - destruct (Page.rawHtml pageInfo) as [rawPath|]; [|done].
    destruct (Site.files d !! _) as [rawHtml|]; [|done].
    unfold Builder.processHtml, Builder.outputPath.
    destruct (pages manifest !! url) as [info|].
    + destruct (Page.assets info) as [|asset rest]; simpl; by rewrite Hparse.
    + by rewrite Hparse.
Qed.

End Loops.

(** X17. The loop of [buildSite] over the assets, on a disk that carries
    out every call: when no target of a copy is the source of another, and
    assets with one target have one source, every asset of the manifest
    whose source file is there is copied, its target holding the bytes of
    its source; a missing source file skips that asset only.  Whatever the
    disk answers, the loop changes no file but the targets of its
    entries. *)
Theorem assets_are_copied (env : Site.Env) entries d :
  (disk_accepts env →
   (∀ e e', e ∈ entries → e' ∈ entries → asset_target e.2 ≠ asset_source e'.2) →
   (∀ e e', e ∈ entries → e' ∈ entries →
      asset_target e.2 = asset_target e'.2 → asset_source e.2 = asset_source e'.2) →
   ∀ e, e ∈ entries → is_Some (Site.files d !! asset_source e.2) →
     Site.files (Site.copy_assets env entries d) !! asset_target e.2
     = Site.files d !! asset_source e.2) ∧
  (∀ path, (∀ e, e ∈ entries → asset_target e.2 ≠ path) →
     Site.files (Site.copy_assets env entries d) !! path = Site.files d !! path).
Proof.
  split.
  - intros. by apply copy_assets_copies.
  - intros. by apply copy_assets_frame.
Qed.

(** X18. The loop of [buildSite] over the pages, on a disk that carries out
    every call: a page whose raw HTML is on disk and whose rewriting
    returns is written to its output path, whatever became of the pages
    before it (a page with no [rawHtml], an unreadable file, an exception:
    each skips that page only), provided no page before it is written over
    its raw file and no page after it is written to the same output path.
    Whatever the disk answers, the loop changes no file but the output
    paths of its entries. *)
Theorem pages_are_built `{UrlParser} (env : Site.Env) manifest before url pageInfo after
    d d' rawPath rawHtml html out :
  Site.build_pages env manifest (before ++ (url, pageInfo) :: after) d = Some d' →
  disk_accepts env →
  Page.rawHtml pageInfo = Some rawPath →
  Site.files d !! Path.join [Site.INPUT_DIR; rawPath] = Some rawHtml →
  Builder.processHtml rawHtml url manifest = Builder.Returns html →
  Builder.outputPath url = Some out →
  (∀ e, e ∈ before →
     Builder.outputPath e.1 ≠ Some (Path.join [Site.INPUT_DIR; rawPath])) →
  (∀ e, e ∈ after → Builder.outputPath e.1 ≠ Some out) →
  Site.files d' !! out = Some html ∧
  (∀ path,
     (∀ e, e ∈ before ++ (url, pageInfo) :: after → Builder.outputPath e.1 ≠ Some path) →
     Site.files d' !! path = Site.files d !! path).
Proof.
  intros Hrun Hacc Hraw Hfile Hhtml Hout Hbefore Hafter. split.
  - by eapply build_pages_writes.
  - intros path Hpath. by eapply build_pages_frame.
Qed.

(** X19. The pages [buildSite] passes over: a page whose record has no
    [rawHtml] (its crawl failed), a page whose raw file is not on disk, and
    a page whose URL does not parse are skipped without a call that changes
    the disk; the build goes on with the next page. *)
Theorem pages_that_cannot_be_built_are_skipped `{UrlParser} (env : Site.Env)
    manifest url pageInfo rest d :
  Page.rawHtml pageInfo = None ∨
  (∃ rawPath, Page.rawHtml pageInfo = Some rawPath ∧
              Site.files d !! Path.join [Site.INPUT_DIR; rawPath] = None) ∨
  parseURL url = None →
  Site.build_page env manifest url pageInfo d = Some d ∧
  Site.build_pages env manifest ((url, pageInfo) :: rest) d
  = Site.build_pages env manifest rest d.
Proof.
  intros Hskip. pose proof (build_page_skips env manifest url pageInfo d Hskip) as Hpage.
  split; [done|]. cbn [Site.build_pages]. by rewrite Hpage.
Qed.

Lemma pages_that_cannot_be_built_are_skipped_witness :
  Site.build_page (H := Url.plain) obliging (Site.manifest_of small_site)
    "https://apply.agency/" Page.fresh raw_download = Some raw_download.
Proof.
  apply (proj1 (pages_that_cannot_be_built_are_skipped (H := Url.plain) obliging
                  (Site.manifest_of small_site) "https://apply.agency/" Page.fresh []
                  raw_download (or_introl eq_refl))).
Defined.

Lemma assets_are_copied_witness :
  Site.files (Site.copy_assets obliging (Site.asset_entries small_site) raw_download)
    !! "built_site/assets/x.png"
  = Some "bytes".
Proof.
  refine (proj1 (assets_are_copied obliging (Site.asset_entries small_site) raw_download)
            _ _ _ ("https://cdn/x.png", x_png) _ _).
  - intros n path. reflexivity.
  - intros e e' ->%list_elem_of_singleton ->%list_elem_of_singleton. vm_compute. done.
  - intros e e' ->%list_elem_of_singleton ->%list_elem_of_singleton. reflexivity.
  - by left.
  - vm_compute. by eexists.
Defined.

Lemma pages_are_built_witness :
  ∃ d',
    Site.build_pages (H := Url.plain) obliging (Site.manifest_of small_site)
      (Site.page_entries small_site) raw_download = Some d' ∧
    Site.files d' !! "built_site/cases/index.html" = Some (img "../assets/x.png").
Proof.
  eexists. split; [vm_compute; reflexivity|].
  refine (proj1 (pages_are_built (H := Url.plain) obliging (Site.manifest_of small_site)
                   [] "https://apply.agency/cases/"
                   {| Page.assets := [x_png]; Page.rawHtml := Some "pages/p.html";
                      Page.error := None |} [] raw_download _
                   "pages/p.html" img_x_png (img "../assets/x.png")
                   "built_site/cases/index.html" _ _ _ _ _ _ _ _)).
  - vm_compute. reflexivity.
  - intros n path. reflexivity.
  - reflexivity.
  - vm_compute. reflexivity.
  - vm_compute. reflexivity.
  - vm_compute. reflexivity.
  - intros e He. by apply elem_of_nil in He.
  - intros e He. by apply elem_of_nil in He.
Defined.

(** ** The whole build *)

Section WholeBuild.
Context `{UrlParser} (env : Site.Env).

(** a file after the loop over the assets is as before, or is the target
    of an entry *)
Lemma copy_assets_trace entries d path :
  Site.files (Site.copy_assets env entries d) !! path = Site.files d !! path ∨
  ∃ e, e ∈ entries ∧ asset_target e.2 = path.
Proof.
  revert d. induction entries as [|[url asset] rest IH]; intros d; [by left|].
  cbn [Site.copy_assets].
  destruct (IH (Site.copy_asset env asset d)) as [Hsame|(e & He & Hpath)].
  - destruct (decide (path = asset_target asset)) as [->|Hne].
    + right. exists (url, asset). split; [by left|done].
    + left. by rewrite Hsame, copy_asset_frame.
  - right. exists e. split; [by right|done].
Qed.

Lemma build_pages_trace manifest entries d d' path :
  Site.build_pages env manifest entries d = Some d' →
  Site.files d' !! path = Site.files d !! path ∨
  ∃ e, e ∈ entries ∧ Builder.outputPath e.1 = Some path.
Proof.
  revert d. induction entries as [|[url pageInfo] rest IH]; intros d Hrun.
  { simpl in Hrun. simplify_eq. by left. }
  cbn [Site.build_pages] in Hrun.
  destruct (Site.build_page env manifest url pageInfo d) as [d1|] eqn:Hpage; [|done].
  simpl in Hrun. destruct (IH _ Hrun) as [Hsame|(e & He & Hpath)].
  - destruct (decide (Builder.outputPath url = Some path)) as [Heq|Hne].
    + right. exists (url, pageInfo). split; [by left|done].
    + left. rewrite Hsame. by eapply build_page_frame.
  - right. exists e. split; [by right|done].
Qed.

Lemma rm_lookup d path :
  Site.files (Site.rm Builder.OUTPUT_DIR d) !! path
  = if Site.below "built_site" path then None else Site.files d !! path.
Proof.
  unfold Site.rm. cbn [Site.files].
  change (Path.normalize Builder.OUTPUT_DIR) with "built_site".
  destruct (Site.below "built_site" path) eqn:Hb.
  - apply map_lookup_filter_None. right. intros x _. simpl. by rewrite Hb.
  - destruct (Site.files d !! path) as [x|] eqn:Hx.
    + by apply map_lookup_filter_Some.
    + apply map_lookup_filter_None. by left.
Qed.

(** the build, once the manifest is read and the disk carries out every
    call *)
Lemma buildSite_runs d text doc :
  Site.files d !! Path.join [Site.INPUT_DIR; "manifest.json"] = Some text →
  Site.JSON_parse env text = Ok doc →
  disk_accepts env →
  ∃ d0, (∀ path, Site.files d0 !! path
                 = if Site.below "built_site" path then None else Site.files d !! path) ∧
        Site.buildSite env d
        = Site.build_pages env (Site.manifest_of doc) (Site.page_entries doc)
            (Site.copy_assets env (Site.asset_entries doc) d0).
Proof.
  intros Hfile Hparse Hacc. unfold Site.buildSite, Site.call.
  rewrite Hfile, Hparse, !Hacc. eexists. split; [|done].
  intros path. apply (rm_lookup {| Site.files := Site.files d;
                                   Site.calls := Builder.OUTPUT_DIR :: Site.calls d |}).
Qed.

End WholeBuild.

(** X20. [buildSite] starts from a clean output directory and stays inside
    what the manifest names.  When the manifest file is missing or does not
    parse, nothing is done: no call changes the disk, and the output of an
    earlier build stays.  Otherwise, on a disk that carries out every call,
    every file below [built_site] after the build is the target of an asset
    of the manifest or the output file of one of its pages, and a file
    outside [built_site] that is neither is as it was. *)
Theorem buildSite_rebuilds_from_scratch `{UrlParser} (env : Site.Env) d :
  (Site.files d !! Path.join [Site.INPUT_DIR; "manifest.json"] = None →
   Site.buildSite env d = Some d) ∧
  (∀ text msg,
     Site.files d !! Path.join [Site.INPUT_DIR; "manifest.json"] = Some text →
     Site.JSON_parse env text = Err msg →
     Site.buildSite env d = Some d) ∧
  (∀ text doc d',
     Site.files d !! Path.join [Site.INPUT_DIR; "manifest.json"] = Some text →
     Site.JSON_parse env text = Ok doc →
     disk_accepts env →
     Site.buildSite env d = Some d' →
     (∀ path, Site.below "built_site" path = true →
        is_Some (Site.files d' !! path) → written_by doc path) ∧
     (∀ path, Site.below "built_site" path = false → ¬ written_by doc path →
        Site.files d' !! path = Site.files d !! path)).
Proof.
  split_and!.
  - intros Hnone. unfold Site.buildSite. by rewrite Hnone.
  - intros text msg Hfile Hparse. unfold Site.buildSite. by rewrite Hfile, Hparse.
  - intros text doc d' Hfile Hparse Hacc Hrun.
    destruct (buildSite_runs env d text doc Hfile Hparse Hacc) as (d0 & Hd0 & Heq).
    rewrite Heq in Hrun.
    assert (∀ path, written_by doc path ∨
                    Site.files d' !! path = Site.files d0 !! path) as Htrace.
    { intros path.
      destruct (build_pages_trace env _ _ _ _ path Hrun) as [Hsame|(e & He & Hpath)].
      - destruct (copy_assets_trace env (Site.asset_entries doc) d0 path)
          as [Hsame'|(e & He & Hpath)].
        + right. by rewrite Hsame.
        + left. left. exists e.1, e.2. by destruct e.
      - left. right. exists e.1, e.2. by destruct e. }
    split.
    + intros path Hbelow Hsome. destruct (Htrace path) as [|Hsame]; [done|].
      rewrite Hsame, Hd0, Hbelow in Hsome. by destruct Hsome.
    + intros path Hbelow Hnot. destruct (Htrace path) as [|Hsame]; [done|].
      by rewrite Hsame, Hd0, Hbelow.
Qed.

Lemma buildSite_rebuilds_from_scratch_witness :
  ∃ d',
    Site.buildSite (H := Url.plain) obliging raw_download = Some d' ∧
    Site.files d' !! "raw_download/pages/p.html" = Some img_x_png.
Proof.
  eexists. split; [vm_compute; reflexivity|].
  destruct (proj2 (proj2 (buildSite_rebuilds_from_scratch (H := Url.plain) obliging
                            raw_download))
              "{}" small_site _ eq_refl eq_refl (λ _ _, eq_refl) eq_refl) as [_ Hframe].
  rewrite Hframe; [reflexivity|reflexivity|].
  intros [(url & asset & [= -> ->]%list_elem_of_singleton & Hpath)
         |(url & page & [= -> ->]%list_elem_of_singleton & Hpath)];
    vm_compute in Hpath; discriminate.
Defined.

(** ** From the crawl to the built site *)

Section CrawlThenBuild.
Context `{UrlParser}.

Lemma crawl_consistent (wenv : Webflow.Env) targets w0 :
  manifest_consistent
    (fst (Webflow.crawl wenv targets (Webflow.initial_manifest wenv, w0)))
    (snd (Webflow.crawl wenv targets (Webflow.initial_manifest wenv, w0))).
Proof.
  destruct (Webflow.crawl wenv targets (Webflow.initial_manifest wenv, w0))
    as [m w] eqn:Hrun.
  apply crawl_spec in Hrun as (Hc & _). apply Hc. split.
  - intros url page ref Hp. simpl in Hp. by rewrite lookup_empty in Hp.
  - intros key ref Hk. simpl in Hk. by rewrite lookup_empty in Hk.
Qed.

Lemma asset_source_ref key :
  asset_source (Webflow.asset_ref key) = Webflow.asset_file key.
Proof.
  unfold asset_source. rewrite asset_file_eq, localPath_asset_ref.
  apply (raw_download_file "assets" _ plain_assets (asset_name_plain key)).
Qed.

Lemma asset_target_ref key :
  asset_target (Webflow.asset_ref key)
  = "built_site/" +:+ localPath (Webflow.asset_ref key).
Proof.
  unfold asset_target. rewrite localPath_asset_ref.
  change ("assets/" +:+ Md5.hex key +:+ extension (Webflow.asset_ref key))
    with (Js.join "/" ["assets";
                       hash (Webflow.asset_ref key) +:+ extension (Webflow.asset_ref key)]).
  rewrite output_path_segments; [done|done|].
  each_segment; [apply plain_assets|apply asset_name_plain].
Qed.

Lemma built_site_not_raw_download x y : "built_site/" +:+ x ≠ "raw_download/" +:+ y.
Proof. intros Heq. by rewrite !sapp_cons in Heq. Qed.

Lemma raw_download_not_below x : Site.below "built_site" ("raw_download/" +:+ x) = false.
Proof. done. Qed.

Lemma asset_file_not_manifest key : Webflow.asset_file key ≠ "raw_download/manifest.json".
Proof.
  rewrite asset_file_eq, localPath_asset_ref. intros Heq.
  by rewrite !sapp_cons in Heq.
Qed.

End CrawlThenBuild.

(** X21. From the crawl to the built site.  Let the builder run on the
    disk [webflow-crawler.js] left, read the manifest of that crawl back
    (its asset table, under distinct keys), and have every call carried
    out; let no page of the manifest be written below [built_site/assets/].
    Then every asset of the manifest's table is in the built site: the file
    [built_site/<localPath>] holds the bytes the crawl stored for it. *)
Theorem crawled_assets_reach_the_site `{UrlParser} (wenv : Webflow.Env) (env : Site.Env)
    targets w0 d text doc d' :
  let st := Webflow.crawl wenv targets (Webflow.initial_manifest wenv, w0) in
  (∀ key, Site.files d !! Webflow.asset_file key
          = Webflow.files (snd st) !! Webflow.asset_file key) →
  Site.files d !! Path.join [Site.INPUT_DIR; "manifest.json"] = Some text →
  Site.JSON_parse env text = Ok doc →
  NoDup (Site.asset_entries doc).*1 →
  assets (Site.manifest_of doc) = assets (fst st) →
  disk_accepts env →
  (∀ url pageInfo out,
     (url, pageInfo) ∈ Site.page_entries doc → Builder.outputPath url = Some out →
     Js.startsWith out "built_site/assets/" = false) →
  Site.buildSite env d = Some d' →
  ∀ key ref, assets (fst st) !! key = Some ref →
    ∃ bytes,
      Webflow.files (snd st) !! Webflow.asset_file key = Some bytes ∧
      Site.files d' !! ("built_site/" +:+ localPath ref) = Some bytes.
Proof.
  intros st Hdisk Hfile Hparse Hnd Htable Hacc Hpages Hrun key ref Hkey.
  destruct (crawl_consistent wenv targets w0) as [_ Hcons]. fold st in Hcons.
  destruct (Hcons key ref Hkey) as (-> & _ & [bytes Hbytes]).
  exists bytes. split; [done|].
  assert (∀ e, e ∈ Site.asset_entries doc → e.2 = Webflow.asset_ref e.1) as Hshape.
  { intros [k r] He. simpl.
    apply (elem_of_list_to_map_1 (M := gmap string)) in He; [|done].
    change (list_to_map (Site.asset_entries doc))
      with (assets (Site.manifest_of doc)) in He.
    rewrite Htable in He. by destruct (Hcons k r He) as (-> & _). }
  assert ((key, Webflow.asset_ref key) ∈ Site.asset_entries doc) as Hentry.
  { apply (elem_of_list_to_map_2 (M := gmap string)).
    change (list_to_map (Site.asset_entries doc)) with (assets (Site.manifest_of doc)).
    by rewrite Htable. }
  destruct (buildSite_runs env d text doc Hfile Hparse Hacc) as (d0 & Hd0 & Heq).
  rewrite Heq in Hrun. rewrite <-asset_target_ref.
  rewrite (build_pages_frame env _ _ _ _ _ Hrun); last first.
  { intros [url pageInfo] He Hout. simpl in Hout.
    apply (Hpages _ _ _ He) in Hout.
    by rewrite asset_target_ref, localPath_asset_ref in Hout. }
  assert (Site.files d0 !! asset_source (Webflow.asset_ref key) = Some bytes) as Hsrc.
  { rewrite asset_source_ref, asset_file_eq, Hd0, raw_download_not_below.
    by rewrite <-asset_file_eq, Hdisk. }
  etrans; [|exact Hsrc].
  apply (copy_assets_copies env (Site.asset_entries doc) d0 Hacc)
    with (e := (key, Webflow.asset_ref key)); [| |done|by eexists].
  - intros e e' He He'. rewrite (Hshape e He), (Hshape e' He').
    rewrite asset_target_ref, asset_source_ref, asset_file_eq.
    apply built_site_not_raw_download.
  - intros e e' He He'. rewrite (Hshape e He), (Hshape e' He').
    rewrite !asset_target_ref, !asset_source_ref, !asset_file_eq.
    intros [_ ->]%sapp_inv_length; done.
Qed.

(** the two pages of the crawl are written outside [built_site/assets/] *)
Lemma crawled_pages_outside_assets url pageInfo out :
  (url, pageInfo) ∈ Site.page_entries crawled_site →
  Builder.outputPath (H := Url.plain) url = Some out →
  Js.startsWith out "built_site/assets/" = false.
Proof.
  intros Hin Hout. vm_compute in Hin.
  apply elem_of_cons in Hin as [Hin|Hin].
  { injection Hin as -> _. vm_compute in Hout. by injection Hout as <-. }
  apply elem_of_cons in Hin as [Hin|Hin].
  { injection Hin as -> _. vm_compute in Hout. by injection Hout as <-. }
  by apply elem_of_nil in Hin.
Qed.

Lemma crawled_assets_reach_the_site_witness :
  ∃ d' bytes,
    Site.buildSite (H := Url.plain) reads_crawled_site crawled_disk = Some d' ∧
    Site.files d' !! ("built_site/" +:+ localPath (Webflow.asset_ref logo)) = Some bytes.
Proof.
  assert (∃ d', Site.buildSite (H := Url.plain) reads_crawled_site crawled_disk = Some d')
    as [d' Hrun] by (eexists; vm_compute; reflexivity).
  assert (∀ key, Site.files crawled_disk !! Webflow.asset_file key
                 = Webflow.files (snd steady_crawl) !! Webflow.asset_file key) as H1.
  { intros key. apply lookup_insert_ne. intros Heq. exact (asset_file_not_manifest key (eq_sym Heq)). }
  assert (Site.files crawled_disk !! Path.join [Site.INPUT_DIR; "manifest.json"] = Some "{}")
    as H2 by (vm_compute; reflexivity).
  assert (assets (Site.manifest_of crawled_site) = assets (fst steady_crawl)) as H5
    by (vm_compute; reflexivity).
  assert (assets (fst steady_crawl) !! logo = Some (Webflow.asset_ref logo)) as H9
    by (vm_compute; reflexivity).
  pose proof (crawled_assets_reach_the_site (H := Url.plain) steady reads_crawled_site
              Webflow.TARGET_PAGES Webflow.nowhere crawled_disk "{}" crawled_site d'
              H1 H2 eq_refl (NoDup_singleton _) H5 (λ _ _, eq_refl)
              crawled_pages_outside_assets Hrun logo
              (Webflow.asset_ref logo) H9) as (bytes & _ & Hbuilt).
  exists d', bytes. split; [exact Hrun|exact Hbuilt].
Defined.

(** ** Pages, from the crawl to the built site *)

Section PagesThrough.
Context `{UrlParser}.

Lemma page_source url :
  Path.join [Site.INPUT_DIR; "pages/" +:+ Md5.hex url +:+ ".html"] = Webflow.page_file url.
Proof.
  rewrite page_file_eq.
  apply (raw_download_file "pages" _ plain_pages (page_name_plain url)).
Qed.

Lemma crawl_settled (wenv : Webflow.Env) targets w0 url page :
  pages (fst (Webflow.crawl wenv targets (Webflow.initial_manifest wenv, w0))) !! url
  = Some page →
  page_settled (snd (Webflow.crawl wenv targets (Webflow.initial_manifest wenv, w0)))
    url page.
Proof.
  destruct (Webflow.crawl wenv targets (Webflow.initial_manifest wenv, w0))
    as [m w] eqn:Hrun.
  apply crawl_records in Hrun as (Hsettled & _). simpl. apply Hsettled.
  intros u p Hu. simpl in Hu. by rewrite lookup_empty in Hu.
Qed.

Lemma not_below_raw path :
  Site.below "built_site" path = true → ∀ x, path ≠ "raw_download/" +:+ x.
Proof. intros Hb x ->. by rewrite raw_download_not_below in Hb. Qed.

End PagesThrough.

(** X22. A page, from the crawl to the built site.  Let the builder run on
    the disk [webflow-crawler.js] left, read the pages of that crawl's
    manifest back under distinct keys, and have every call carried out; let
    it copy assets and write pages below [built_site] only.  Then for every
    page of the manifest with a [rawHtml], the raw HTML the crawl stored is
    on disk, and when rewriting it returns, the result is what the page's
    output file holds after the build, unless a later page of the manifest
    is written to the same file. *)
Theorem crawled_pages_reach_the_site `{UrlParser} (wenv : Webflow.Env) (env : Site.Env)
    targets w0 d text doc d' before url pageInfo after rawPath :
  let st := Webflow.crawl wenv targets (Webflow.initial_manifest wenv, w0) in
  (∀ u, Site.files d !! Webflow.page_file u
        = Webflow.files (snd st) !! Webflow.page_file u) →
  Site.files d !! Path.join [Site.INPUT_DIR; "manifest.json"] = Some text →
  Site.JSON_parse env text = Ok doc →
  NoDup (Site.page_entries doc).*1 →
  pages (Site.manifest_of doc) = pages (fst st) →
  disk_accepts env →
  (∀ e, e ∈ Site.asset_entries doc → Site.below "built_site" (asset_target e.2) = true) →
  (∀ e out, e ∈ Site.page_entries doc → Builder.outputPath e.1 = Some out →
     Site.below "built_site" out = true) →
  Site.buildSite env d = Some d' →
  Site.page_entries doc = before ++ (url, pageInfo) :: after →
  Page.rawHtml pageInfo = Some rawPath →
  ∃ rawHtml,
    Webflow.files (snd st) !! Webflow.page_file url = Some rawHtml ∧
    ∀ html out,
      Builder.processHtml rawHtml url (Site.manifest_of doc) = Builder.Returns html →
      Builder.outputPath url = Some out →
      (∀ e, e ∈ after → Builder.outputPath e.1 ≠ Some out) →
      Site.files d' !! out = Some html.
Proof.
  intros st Hdisk Hfile Hparse Hnd Hpages Hacc Hassets Houtputs Hrun Hentries Hraw.
  assert ((url, pageInfo) ∈ Site.page_entries doc) as Hentry.
  { rewrite Hentries. apply elem_of_app. right. by left. }
  assert (pages (fst st) !! url = Some pageInfo) as Hpage.
  { rewrite <-Hpages. by apply (elem_of_list_to_map_1 (M := gmap string)). }
  destruct (crawl_settled wenv targets w0 url pageInfo Hpage) as [_ Hsettled].
  destruct (Hsettled rawPath Hraw) as [-> [rawHtml Hstored]]. fold st in Hstored.
  exists rawHtml. split; [done|]. intros html out Hhtml Hout Hafter.
  destruct (buildSite_runs env d text doc Hfile Hparse Hacc) as (d0 & Hd0 & Heq).
  rewrite Heq, Hentries in Hrun.
  eapply build_pages_writes; try done.
  - rewrite page_source, copy_assets_frame.
    + rewrite Hd0, page_file_eq.
      change (Site.below "built_site" ("raw_download/pages/" +:+ Md5.hex url +:+ ".html"))
        with false.
      cbn iota. by rewrite <-page_file_eq, Hdisk.
    + intros e He Heq'. rewrite page_file_eq in Heq'.
      exact (not_below_raw _ (Hassets e He) ("pages/" +:+ Md5.hex url +:+ ".html") Heq').
  - intros e He Heq'. rewrite page_source, page_file_eq in Heq'.
    assert (e ∈ Site.page_entries doc) as He'
      by (rewrite Hentries; apply elem_of_app; by left).
    pose proof (Houtputs e _ He' Heq') as Hb.
    exact (not_below_raw _ Hb ("pages/" +:+ Md5.hex url +:+ ".html") eq_refl).
Qed.

Lemma crawled_home_page_entry :
  Site.page_entries crawled_site
  = [] ++ ("https://apply.agency/",
           {| Page.assets := [Webflow.asset_ref logo];
              Page.rawHtml := Some ("pages/" +:+ Md5.hex "https://apply.agency/" +:+ ".html");
              Page.error := None |})
       :: [("https://apply.agency/cases",
            {| Page.assets := [Webflow.asset_ref logo];
               Page.rawHtml :=
                 Some ("pages/" +:+ Md5.hex "https://apply.agency/cases" +:+ ".html");
               Page.error := None |})].
Proof. vm_compute. reflexivity. Qed.

Lemma crawled_pages_stay_inside (e : string * Page.t) out :
  e ∈ Site.page_entries crawled_site →
  Builder.outputPath (H := Url.plain) e.1 = Some out →
  Site.below "built_site" out = true.
Proof.
  intros Hin Hout. vm_compute in Hin.
  apply elem_of_cons in Hin as [Hin|Hin].
  { subst e. vm_compute in Hout. by injection Hout as <-. }
  apply elem_of_cons in Hin as [Hin|Hin].
  { subst e. vm_compute in Hout. by injection Hout as <-. }
  by apply elem_of_nil in Hin.
Qed.

Lemma crawled_pages_reach_the_site_witness :
  ∃ d' rawHtml,
    Site.buildSite (H := Url.plain) reads_crawled_site crawled_disk = Some d' ∧
    Webflow.files (snd steady_crawl) !! Webflow.page_file "https://apply.agency/"
    = Some rawHtml ∧
    Site.files d' !! "built_site/index.html" = Some "<html></html>".
Proof.
  assert (∃ d', Site.buildSite (H := Url.plain) reads_crawled_site crawled_disk = Some d')
    as [d' Hrun] by (eexists; vm_compute; reflexivity).
  assert (∀ u, Site.files crawled_disk !! Webflow.page_file u
               = Webflow.files (snd steady_crawl) !! Webflow.page_file u) as H1.
  { intros u. apply lookup_insert_ne. rewrite page_file_eq. intros Heq.
    by rewrite !sapp_cons in Heq. }
  assert (Site.files crawled_disk !! Path.join [Site.INPUT_DIR; "manifest.json"] = Some "{}")
    as H2 by (vm_compute; reflexivity).
  assert (NoDup (Site.page_entries crawled_site).*1) as H4.
  { vm_compute. apply NoDup_cons_2; [|apply NoDup_singleton].
    intros Hin%list_elem_of_singleton. discriminate Hin. }
  assert (pages (Site.manifest_of crawled_site) = pages (fst steady_crawl)) as H5
    by (vm_compute; reflexivity).
  assert (∀ e, e ∈ Site.asset_entries crawled_site →
               Site.below "built_site" (asset_target e.2) = true) as H7.
  { intros e Hin. apply list_elem_of_singleton in Hin. subst e. vm_compute. reflexivity. }
  destruct (crawled_pages_reach_the_site (H := Url.plain) steady reads_crawled_site
              Webflow.TARGET_PAGES Webflow.nowhere crawled_disk "{}" crawled_site d'
              [] "https://apply.agency/" _ _ _
              H1 H2 eq_refl H4 H5 (λ _ _, eq_refl) H7 crawled_pages_stay_inside Hrun
              crawled_home_page_entry eq_refl) as (rawHtml & Hstored & Hbuilt).
  exists d', rawHtml. split; [exact Hrun|]. split; [exact Hstored|].
  assert (rawHtml = "<html></html>") as ->.
  { vm_compute in Hstored. by injection Hstored as <-. }
  apply Hbuilt.
  - vm_compute. reflexivity.
  - vm_compute. reflexivity.
  - intros e Hin%list_elem_of_singleton. subst e. vm_compute. discriminate.
Defined.
